(** * Treasury bot: persisted ledger, submitter, order hashing and tick services

    A shallow embedding of the TypeScript sources of the treasury bot
    (state store, treasury client, marketplace listing helper, the four
    tick services and the loop driver) together with the properties stated
    about them.

    Conventions.
    - A JavaScript [bigint] is a [Z]; BigInt division truncates towards zero,
      so it is [Z.quot], never [Z.div].
    - A JavaScript string is a [string]; [Address] and [Hex] are strings.
    - A value that may be [null] or [undefined] is an [option].
    - Code that can throw returns a [Result]; asynchronous code is run
      strictly sequentially by the single loop, so [await] is sequencing. *)

From Stdlib Require Import String Ascii.
From Stdlib Require Import ZArith List Bool Lia Arith.
From Stdlib Require Import DecimalString DecimalZ DecimalPos Decimal.
From Stdlib Require Import Sorted Permutation.
Import ListNotations.

Local Open Scope string_scope.
Local Open Scope list_scope.
Local Open Scope Z_scope.

Set Implicit Arguments.

(* ===================================================================== *)
(** * JavaScript primitives used by the sources *)
(* ===================================================================== *)

Module JS.

(** [String.prototype.toLowerCase] on the ASCII range (addresses and
    error messages are ASCII). *)
Definition lowerAscii (c : ascii) : ascii :=
  let n := nat_of_ascii c in
  if (Nat.leb 65 n && Nat.leb n 90)%bool then ascii_of_nat (n + 32) else c.

Fixpoint toLowerCase (s : string) : string :=
  match s with
  | EmptyString => EmptyString
  | String c rest => String (lowerAscii c) (toLowerCase rest)
  end.

(** [String.prototype.includes]. *)
Fixpoint includes (hay needle : string) : bool :=
  if String.prefix needle hay then true
  else match hay with
       | EmptyString => false
       | String _ rest => includes rest needle
       end.

(** [s.slice(n)] for a non-negative [n]. *)
Fixpoint slice (n : nat) (s : string) : string :=
  match n, s with
  | O, _ => s
  | S n', String _ rest => slice n' rest
  | S _, EmptyString => EmptyString
  end.

(** [bigint.prototype.toString()]: decimal digits, a leading minus sign
    for negative values. *)
Definition toString (z : Z) : string :=
  NilEmpty.string_of_int (Z.to_int z).

(** The code units below 256 that count as white space or line
    terminators: TAB, LF, VT, FF, CR, space and no-break space. A string
    is a sequence of such code units; the white space above them (U+1680,
    U+2000 to U+200A, U+2028, U+2029, U+202F, U+205F, U+3000, U+FEFF)
    has no spelling here. *)
Definition isWhiteSpace (c : ascii) : bool :=
  let n := nat_of_ascii c in
  (Nat.eqb n 9 || Nat.eqb n 10 || Nat.eqb n 11 || Nat.eqb n 12
   || Nat.eqb n 13 || Nat.eqb n 32 || Nat.eqb n 160)%bool.

Fixpoint trimStart (s : string) : string :=
  match s with
  | EmptyString => EmptyString
  | String c rest => if isWhiteSpace c then trimStart rest else s
  end.

Fixpoint trimEnd (s : string) : string :=
  match s with
  | EmptyString => EmptyString
  | String c rest =>
      match trimEnd rest with
      | EmptyString =>
          if isWhiteSpace c then EmptyString else String c EmptyString
      | kept => String c kept
      end
  end.

(** [String.prototype.trim]. *)
Definition trim (s : string) : string := trimEnd (trimStart s).

(** The value of a digit or of a letter used as a digit. *)
Definition digitValue (c : ascii) : option Z :=
  let n := Z.of_nat (nat_of_ascii c) in
  if ((48 <=? n) && (n <=? 57))%bool then Some (n - 48)
  else if ((97 <=? n) && (n <=? 122))%bool then Some (n - 87)
  else if ((65 <=? n) && (n <=? 90))%bool then Some (n - 55)
  else None.

(** The digits of [s] read in base [radix] after the value [acc]; [None]
    when a character is not a digit of that base. *)
Fixpoint digitsFrom (radix : Z) (s : string) (acc : Z) : option Z :=
  match s with
  | EmptyString => Some acc
  | String c rest =>
      match digitValue c with
      | Some v =>
          if v <? radix then digitsFrom radix rest (acc * radix + v)
          else None
      | None => None
      end
  end.

(** One digit or more. *)
Definition digits (radix : Z) (s : string) : option Z :=
  match s with
  | EmptyString => None
  | _ => digitsFrom radix s 0
  end.

(** [BigInt(s)] on a string (StringToBigInt); [None] stands for the
    SyntaxError. White space around the literal is dropped and an empty
    literal is zero; the literal is decimal digits with an optional sign,
    or unsigned digits after [0x], [0o] or [0b] in either letter case. *)
Definition BigInt (s : string) : option Z :=
  let literal := trim s in
  match literal with
  | EmptyString => Some 0
  | String c rest =>
      if Ascii.eqb c "+" then digits 10 rest
      else if Ascii.eqb c "-" then option_map Z.opp (digits 10 rest)
      else if Ascii.eqb c "0" then
        match rest with
        | String r unsigned =>
            if (Ascii.eqb r "x" || Ascii.eqb r "X")%bool
            then digits 16 unsigned
            else if (Ascii.eqb r "o" || Ascii.eqb r "O")%bool
            then digits 8 unsigned
            else if (Ascii.eqb r "b" || Ascii.eqb r "B")%bool
            then digits 2 unsigned
            else digits 10 literal
        | EmptyString => digits 10 literal
        end
      else digits 10 literal
  end.

(** [a ?? b]. *)
Definition nullish {A} (a : option A) (b : A) : A :=
  match a with Some v => v | None => b end.

End JS.

(* ===================================================================== *)
(** * types.ts *)
(* ===================================================================== *)

Definition Address := string.
Definition Hex := string.

Inductive TokenStandard := erc721 | erc1155.

Definition TokenStandard_eqb (a b : TokenStandard) : bool :=
  match a, b with
  | erc721, erc721 | erc1155, erc1155 => true
  | _, _ => false
  end.

(** The string tag of a token standard, as stored and compared. *)
Definition tokenStandardTag (t : TokenStandard) : string :=
  match t with erc721 => "erc721" | erc1155 => "erc1155" end.

Record ActiveListingState := {
  orderHash : string;
  collection : Address;
  tokenId : string;
  expectedProceedsWei : Z;
  listedAtMs : Z;
  tokenStandard : TokenStandard;
  listedQuantity : Z;
  expectedPostSaleBalance : option Z
}.

Record BotState := {
  version : Z;
  commissionPoolWei : Z;
  salePoolWei : Z;
  pendingBurnAmount : Z;
  pendingBurnCostWei : Z;
  activeListings : list ActiveListingState;
  lastTaxBlock : Z
}.

Record OpenSeaListingConsiderationBlueprint := {
  cb_itemType : Z;
  cb_token : Address;
  cb_identifierOrCriteria : Z;
  originalAmount : Z;
  cb_recipient : Address;
  isSellerProceeds : bool
}.

Record ScaledConsiderationItem := {
  sc_itemType : Z;
  sc_token : Address;
  sc_identifierOrCriteria : Z;
  amount : Z;
  sc_recipient : Address
}.

(** Listing order: [a] was listed no later than [b]. *)
Definition listedAtMs_le (a b : ActiveListingState) : Prop :=
  listedAtMs a <= listedAtMs b.

(** Sum of a list of bigints. *)
Definition sumZ (l : list Z) : Z := fold_right Z.add 0 l.

(* ===================================================================== *)
(** * marketplaces/openseaListings.ts: pricing and consideration rescale *)
(* ===================================================================== *)

Module OpenseaListings.

Definition DEFAULT_MARKUP_BPS : Z := 12000.
Definition BASIS_POINTS_DENOMINATOR : Z := 10000.

Definition computeListingPrice (basePrice : Z) (markupBps : option Z) : Z :=
  if basePrice <=? 0 then 0
  else
    let bps := JS.nullish markupBps DEFAULT_MARKUP_BPS in
    Z.quot (basePrice * bps + (BASIS_POINTS_DENOMINATOR - 1))
           BASIS_POINTS_DENOMINATOR.

(** The body of the [for] loop of [scaleConsiderationAmounts]: [index] is
    the loop counter, [len] is [items.length] of the whole array, [items]
    the elements from [index] on, [remainder] the mutable local. *)
Fixpoint scaleLoop (TREASURY_ADDRESS : Address) (len : nat)
         (originalTotal newTotal : Z) (index : nat)
         (items : list OpenSeaListingConsiderationBlueprint)
         (remainder : Z) : list ScaledConsiderationItem :=
  match items with
  | [] => []
  | item :: rest =>
      let amount0 := Z.quot (newTotal * originalAmount item) originalTotal in
      let isLast := Nat.eqb index (len - 1) in
      let amount1 :=
        if isLast then (if 0 <? remainder then remainder else 0)
        else amount0 in
      let remainder' := if isLast then remainder else remainder - amount0 in
      let recipient :=
        if isSellerProceeds item then TREASURY_ADDRESS else cb_recipient item in
      {| sc_itemType := cb_itemType item;
         sc_token := cb_token item;
         sc_identifierOrCriteria := cb_identifierOrCriteria item;
         amount := amount1;
         sc_recipient := recipient |}
      :: scaleLoop TREASURY_ADDRESS len originalTotal newTotal (S index)
                   rest remainder'
  end.

Definition scaleConsiderationAmounts (TREASURY_ADDRESS : Address)
           (items : list OpenSeaListingConsiderationBlueprint)
           (originalTotal newTotal : Z) : list ScaledConsiderationItem :=
  if ((originalTotal =? 0) || (newTotal =? 0))%bool then []
  else scaleLoop TREASURY_ADDRESS (length items) originalTotal newTotal
                 0%nat items newTotal.

End OpenseaListings.

(* ===================================================================== *)
(** * Exceptions *)
(* ===================================================================== *)

(** The classes of thrown values that the sources tell apart. *)
Inductive JsError :=
| Error (message : string)
| SyntaxError (message : string)
| SqliteError (message : string)
| ErrnoException (code : string)
| TransactionNotFoundError (message : string).

Definition errorMessage (e : JsError) : string :=
  match e with
  | Error m | SyntaxError m | SqliteError m | TransactionNotFoundError m => m
  | ErrnoException c => c
  end.

(** The outcome of code that may throw. *)
Inductive Result (A : Type) :=
| Ok (a : A)
| Throw (e : JsError).
Arguments Ok {A} a.
Arguments Throw {A} e.

Definition bindR {A B} (r : Result A) (k : A -> Result B) : Result B :=
  match r with
  | Ok a => k a
  | Throw e => Throw e
  end.

(** [Array.prototype.map] with a callback that may throw. *)
Fixpoint mapR {A B} (f : A -> Result B) (l : list A) : Result (list B) :=
  match l with
  | [] => Ok []
  | a :: rest =>
      bindR (f a) (fun b => bindR (mapR f rest) (fun bs => Ok (b :: bs)))
  end.

(** [BigInt(s)] as an operation that throws. *)
Definition parseBigInt (s : string) : Result Z :=
  match JS.BigInt s with
  | Some z => Ok z
  | None => Throw (SyntaxError ("Cannot convert " ++ s ++ " to a BigInt"))
  end.

(* ===================================================================== *)
(** * state/stateStore.ts *)
(* ===================================================================== *)

Module StateStore.

Definition STATE_VERSION : Z := 3.

Record StateRow := {
  row_version : Z;
  row_commissionPoolWei : string;
  row_salePoolWei : string;
  row_lastTaxBlock : string;
  row_pendingBurnAmount : string;
  row_pendingBurnCostWei : string
}.

Record ListingRow := {
  row_orderHash : string;
  row_collection : string;
  row_tokenId : string;
  row_expectedProceedsWei : string;
  row_listedAtMs : Z;
  row_tokenStandard : option string;
  row_listedQuantity : option string;
  row_expectedPostSaleBalance : option string
}.

(** The two tables of the SQLite file. [state] holds at most the row with
    [id = 1]; [listings] keeps its rows in insertion (rowid) order and has
    [orderHash] as primary key. *)
Record Database := {
  state_table : option StateRow;
  listings_table : list ListingRow
}.

Definition emptyDatabase : Database :=
  {| state_table := None; listings_table := [] |}.

(** [INSERT INTO listings ...]: a primary-key conflict raises. *)
Definition insertListing (table : list ListingRow) (row : ListingRow)
  : Result (list ListingRow) :=
  if existsb (fun r => String.eqb (row_orderHash r) (row_orderHash row)) table
  then Throw (SqliteError "UNIQUE constraint failed: listings.orderHash")
  else Ok (table ++ [row]).

(** [ORDER BY listedAtMs ASC] over rows scanned in rowid order; rows with
    equal keys keep their scan order. *)
Fixpoint insertByListedAtMs (row : ListingRow) (sorted : list ListingRow)
  : list ListingRow :=
  match sorted with
  | [] => [row]
  | r :: rest =>
      if row_listedAtMs row <=? row_listedAtMs r then row :: r :: rest
      else r :: insertByListedAtMs row rest
  end.

Definition orderByListedAtMs (rows : list ListingRow) : list ListingRow :=
  fold_right insertByListedAtMs [] rows.

Definition listingOfRow (row : ListingRow) : Result ActiveListingState :=
  bindR (parseBigInt (row_expectedProceedsWei row)) (fun proceeds =>
  bindR (parseBigInt (JS.nullish (row_listedQuantity row) "1")) (fun qty =>
  bindR (match row_expectedPostSaleBalance row with
         | Some b => bindR (parseBigInt b) (fun z => Ok (Some z))
         | None => Ok None
         end) (fun post =>
  Ok {| orderHash := row_orderHash row;
        collection := row_collection row;
        tokenId := row_tokenId row;
        expectedProceedsWei := proceeds;
        listedAtMs := row_listedAtMs row;
        tokenStandard :=
          if String.eqb (JS.nullish (row_tokenStandard row) "erc721")
                        "erc1155"
          then erc1155 else erc721;
        listedQuantity := qty;
        expectedPostSaleBalance := post |}))).

Definition readStateFromDatabase (db : Database) : Result (option BotState) :=
  match state_table db with
  | None => Ok None
  | Some stateRow =>
      let storedVersion := row_version stateRow in
      let normalizedVersion :=
        if storedVersion <? STATE_VERSION then STATE_VERSION
        else storedVersion in
      let listings := orderByListedAtMs (listings_table db) in
      bindR (parseBigInt (row_commissionPoolWei stateRow)) (fun commission =>
      bindR (parseBigInt (row_salePoolWei stateRow)) (fun sale =>
      bindR (parseBigInt (row_pendingBurnAmount stateRow)) (fun burnAmount =>
      bindR (parseBigInt (row_pendingBurnCostWei stateRow)) (fun burnCost =>
      bindR (parseBigInt (row_lastTaxBlock stateRow)) (fun lastBlock =>
      bindR (mapR listingOfRow listings) (fun active =>
      Ok (Some {| version := normalizedVersion;
                  commissionPoolWei := commission;
                  salePoolWei := sale;
                  pendingBurnAmount := burnAmount;
                  pendingBurnCostWei := burnCost;
                  activeListings := active;
                  lastTaxBlock := lastBlock |})))))))
  end.

Definition rowOfListing (listing : ActiveListingState) : ListingRow :=
  {| row_orderHash := orderHash listing;
     row_collection := collection listing;
     row_tokenId := tokenId listing;
     row_expectedProceedsWei := JS.toString (expectedProceedsWei listing);
     row_listedAtMs := listedAtMs listing;
     row_tokenStandard := Some (tokenStandardTag (tokenStandard listing));
     row_listedQuantity := Some (JS.toString (listedQuantity listing));
     row_expectedPostSaleBalance :=
       match expectedPostSaleBalance listing with
       | Some b => Some (JS.toString b)
       | None => None
       end |}.

(** The [for] loop of inserts inside the transaction. *)
Fixpoint insertListings (table : list ListingRow)
         (listings : list ActiveListingState) : Result (list ListingRow) :=
  match listings with
  | [] => Ok table
  | listing :: rest =>
      bindR (insertListing table (rowOfListing listing)) (fun table' =>
      insertListings table' rest)
  end.

(** [persistState]: one transaction. When a statement raises, the
    transaction is rolled back, so no new database comes out and the
    caller keeps the previous one. *)
Definition persistState (db : Database) (state : BotState) : Result Database :=
  let stateRow :=
    {| row_version := STATE_VERSION;
       row_commissionPoolWei := JS.toString (commissionPoolWei state);
       row_salePoolWei := JS.toString (salePoolWei state);
       row_lastTaxBlock := JS.toString (lastTaxBlock state);
       row_pendingBurnAmount := JS.toString (pendingBurnAmount state);
       row_pendingBurnCostWei := JS.toString (pendingBurnCostWei state) |} in
  bindR (insertListings [] (activeListings state)) (fun table =>
  Ok {| state_table := Some stateRow; listings_table := table |}).

Definition createDefaultState (initialBlock : Z) : BotState :=
  {| version := STATE_VERSION;
     commissionPoolWei := 0;
     salePoolWei := 0;
     pendingBurnAmount := 0;
     pendingBurnCostWei := 0;
     activeListings := [];
     lastTaxBlock := initialBlock |}.

Record LegacySerializedListing := {
  lg_orderHash : string;
  lg_collection : string;
  lg_tokenId : string;
  lg_expectedProceedsWei : string;
  lg_listedAtMs : Z;
  lg_tokenStandard : option string;
  lg_listedQuantity : option string;
  lg_expectedPostSaleBalance : option string
}.

Record LegacySerializedState := {
  lg_version : option Z;
  lg_commissionPoolWei : option string;
  lg_salePoolWei : option string;
  lg_activeListings : option (list LegacySerializedListing);
  lg_lastTaxBlock : option string;
  lg_pendingBurnAmount : option string;
  lg_pendingBurnCostWei : option string
}.

Definition deserializeLegacyListing (listing : LegacySerializedListing)
  : Result ActiveListingState :=
  bindR (parseBigInt (lg_expectedProceedsWei listing)) (fun proceeds =>
  bindR (parseBigInt (JS.nullish (lg_listedQuantity listing) "1")) (fun qty =>
  bindR (match lg_expectedPostSaleBalance listing with
         | Some b => bindR (parseBigInt b) (fun z => Ok (Some z))
         | None => Ok None
         end) (fun post =>
  Ok {| orderHash := lg_orderHash listing;
        collection := lg_collection listing;
        tokenId := lg_tokenId listing;
        expectedProceedsWei := proceeds;
        listedAtMs := lg_listedAtMs listing;
        tokenStandard :=
          match lg_tokenStandard listing with
          | Some t =>
              if (negb (String.eqb t "")
                  && String.eqb (JS.toLowerCase t) "erc1155")%bool
              then erc1155 else erc721
          | None => erc721
          end;
        listedQuantity := qty;
        expectedPostSaleBalance := post |}))).

Definition deserializeLegacyState (raw : LegacySerializedState)
  : Result BotState :=
  let initialVersion := JS.nullish (lg_version raw) STATE_VERSION in
  let normalizedVersion :=
    if initialVersion <? STATE_VERSION then STATE_VERSION
    else initialVersion in
  bindR (parseBigInt (JS.nullish (lg_commissionPoolWei raw) "0")) (fun commission =>
  bindR (parseBigInt (JS.nullish (lg_salePoolWei raw) "0")) (fun sale =>
  bindR (parseBigInt (JS.nullish (lg_pendingBurnAmount raw) "0")) (fun burnAmount =>
  bindR (parseBigInt (JS.nullish (lg_pendingBurnCostWei raw) "0")) (fun burnCost =>
  bindR (parseBigInt (JS.nullish (lg_lastTaxBlock raw) "0")) (fun lastBlock =>
  bindR (mapR deserializeLegacyListing (JS.nullish (lg_activeListings raw) []))
        (fun active =>
  Ok {| version := normalizedVersion;
        commissionPoolWei := commission;
        salePoolWei := sale;
        pendingBurnAmount := burnAmount;
        pendingBurnCostWei := burnCost;
        activeListings := active;
        lastTaxBlock := lastBlock |})))))).

(** What [readFile] followed by [JSON.parse] yields for the legacy path. *)
Inductive LegacyFile :=
| LegacyMissing
| LegacyUnreadable (e : JsError)
| LegacyParsed (raw : LegacySerializedState).

Definition tryLoadFromLegacyJson (legacyJsonPath : option string)
           (file : LegacyFile) : Result (option BotState) :=
  match legacyJsonPath with
  | None => Ok None
  | Some _ =>
      let attempt :=
        match file with
        | LegacyMissing => Throw (ErrnoException "ENOENT")
        | LegacyUnreadable e => Throw e
        | LegacyParsed raw => deserializeLegacyState raw
        end in
      match attempt with
      | Ok s => Ok (Some s)
      | Throw (ErrnoException code) =>
          if String.eqb code "ENOENT" then Ok None
          else Throw (ErrnoException code)
      | Throw e => Throw e
      end
  end.

(** The [StateStore] object: the open database and the loaded state, both
    [null] until [load] runs. *)
Record t := {
  db : option Database;
  state : option BotState
}.

Definition getState (store : t) : Result BotState :=
  match state store with
  | None => Throw (Error "State has not been loaded")
  | Some s => Ok s
  end.

(** [persistState] as a method: returns the store after the commit. *)
Definition persist (store : t) : Result t :=
  match db store with
  | None => Throw (Error "Database connection has not been initialized")
  | Some d =>
      match state store with
      | None => Throw (Error "State has not been loaded")
      | Some s =>
          bindR (persistState d s) (fun d' =>
          Ok {| db := Some d'; state := Some s |})
      end
  end.

Definition save (store : t) : Result t :=
  match state store with
  | None => Throw (Error "State has not been loaded")
  | Some _ => persist store
  end.

(** [load]: [onDisk] is the database file when it already exists
    ([dbAlreadyExists]). [new Database(dbPath)] creates a missing file at
    once, before anything is read, and [setupSchema] leaves the rows of an
    existing one untouched. So besides its outcome [load] yields the
    database file as it is afterwards, also when it throws. *)
Definition load (legacyJsonPath : option string) (file : LegacyFile)
           (onDisk : option Database) (initialBlock : Z)
  : Result t * Database :=
  let dbAlreadyExists := match onDisk with Some _ => true | None => false end in
  let d := JS.nullish onDisk emptyDatabase in
  match readStateFromDatabase d with
  | Throw e => (Throw e, d)
  | Ok (Some loadedState) =>
      (Ok {| db := Some d; state := Some loadedState |}, d)
  | Ok None =>
      match (if dbAlreadyExists then Ok None
             else tryLoadFromLegacyJson legacyJsonPath file) with
      | Throw e => (Throw e, d)
      | Ok legacy =>
          let loadedState :=
            match legacy with
            | Some s => s
            | None => createDefaultState initialBlock
            end in
          match persist {| db := Some d; state := Some loadedState |} with
          | Ok loaded => (Ok loaded, JS.nullish (db loaded) d)
          | Throw e => (Throw e, d)
          end
      end
  end.

End StateStore.

(* ===================================================================== *)
(** * keccak256 (the hash the order-hash engine is built on) *)
(* ===================================================================== *)

(** Keccak-f[1600] with rate 1088 and the original 0x01 padding, over
    64-bit lanes held in [N]. *)
Module Keccak.
Local Open Scope N_scope.

Definition mask64 : N := N.ones 64.

Definition rol64 (x n : N) : N :=
  if n =? 0 then x
  else N.land (N.lor (N.shiftl x n) (N.shiftr x (64 - n))) mask64.

Definition lane (A : list N) (i : nat) : N := nth i A 0.

Definition roundConstants : list N :=
  [0x1; 0x8082; 0x800000000000808a; 0x8000000080008000; 0x808b; 0x80000001;
   0x8000000080008081; 0x8000000000008009; 0x8a; 0x88; 0x80008009;
   0x8000000a; 0x8000808b; 0x800000000000008b; 0x8000000000008089;
   0x8000000000008003; 0x8000000000008002; 0x8000000000000080; 0x800a;
   0x800000008000000a; 0x8000000080008081; 0x8000000000008080; 0x80000001;
   0x8000000080008008].

(** Rotation offset of lane [x + 5*y]. *)
Definition rotationOffsets : list N :=
  [0; 1; 62; 28; 27; 36; 44; 6; 55; 20; 3; 10; 43; 25; 39; 41; 45; 15; 21;
   8; 18; 2; 61; 56; 14].

Definition indices : list nat := seq 0 25.

Definition theta (A : list N) : list N :=
  let C := map (fun x => N.lxor (lane A x)
                   (N.lxor (lane A (x + 5))
                      (N.lxor (lane A (x + 10))
                         (N.lxor (lane A (x + 15)) (lane A (x + 20))))))
               (seq 0 5) in
  let D := map (fun x => N.lxor (lane C ((x + 4) mod 5))
                                (rol64 (lane C ((x + 1) mod 5)) 1))
               (seq 0 5) in
  map (fun i => N.lxor (lane A i) (lane D (i mod 5))) indices.

(** Lane [(X, Y)] of the result comes from lane [(x, y)] with
    [x = X + 3Y mod 5] and [y = X]. *)
Definition rhoPi (A : list N) : list N :=
  map (fun j =>
         let X := (j mod 5)%nat in
         let Y := (j / 5)%nat in
         let src := (((X + 3 * Y) mod 5) + 5 * X)%nat in
         rol64 (lane A src) (lane rotationOffsets src))
      indices.

Definition chi (B : list N) : list N :=
  map (fun i =>
         let x := (i mod 5)%nat in
         let y := (i / 5)%nat in
         let b1 := lane B (((x + 1) mod 5) + 5 * y) in
         let b2 := lane B (((x + 2) mod 5) + 5 * y) in
         N.lxor (lane B i) (N.land (N.lxor b1 mask64) b2))
      indices.

Definition iota (rc : N) (A : list N) : list N :=
  match A with
  | [] => []
  | a :: rest => N.lxor a rc :: rest
  end.

Definition round (A : list N) (rc : N) : list N :=
  iota rc (chi (rhoPi (theta A))).

Definition keccak_f (A : list N) : list N :=
  fold_left round roundConstants A.

Definition rateBytes : nat := 136.

Fixpoint laneOfBytes (bs : list N) : N :=
  match bs with
  | [] => 0
  | b :: rest => b + 256 * laneOfBytes rest
  end.

Fixpoint bytesOfLane (n : nat) (l : N) : list N :=
  match n with
  | O => []
  | S n' => (l mod 256) :: bytesOfLane n' (l / 256)
  end.

Fixpoint lanesOfBlock (n : nat) (bs : list N) : list N :=
  match n with
  | O => []
  | S n' => laneOfBytes (firstn 8 bs) :: lanesOfBlock n' (skipn 8 bs)
  end.

Fixpoint xorLanes (A B : list N) : list N :=
  match A, B with
  | a :: A', b :: B' => N.lxor a b :: xorLanes A' B'
  | _, [] => A
  | [], _ => []
  end.

(** Multi-rate padding with the Keccak domain byte 0x01. *)
Definition pad (msg : list N) : list N :=
  let q := (rateBytes - (List.length msg mod rateBytes))%nat in
  if Nat.eqb q 1 then msg ++ [0x81]
  else msg ++ [0x01] ++ repeat 0 (q - 2) ++ [0x80].

Fixpoint absorb (blocks : nat) (bs : list N) (A : list N) : list N :=
  match blocks with
  | O => A
  | S n =>
      absorb n (skipn rateBytes bs)
             (keccak_f (xorLanes A (lanesOfBlock 17 (firstn rateBytes bs))))
  end.

Definition byteOfN (n : N) : Byte.byte :=
  match Byte.of_N n with
  | Some b => b
  | None => Byte.x00
  end.

Definition keccak_256 (msg : list Byte.byte) : list Byte.byte :=
  let p := pad (map Byte.to_N msg) in
  let A := absorb (List.length p / rateBytes) p (repeat 0 25) in
  map byteOfN (flat_map (bytesOfLane 8) (firstn 4 A)).

End Keccak.

(* ===================================================================== *)
(** * viem helpers: hex strings, TextEncoder, keccak256 *)
(* ===================================================================== *)

Module Viem.

Definition hexDigit (n : N) : ascii :=
  match n with
  | 0 => "0" | 1 => "1" | 2 => "2" | 3 => "3" | 4 => "4" | 5 => "5"
  | 6 => "6" | 7 => "7" | 8 => "8" | 9 => "9" | 10 => "a" | 11 => "b"
  | 12 => "c" | 13 => "d" | 14 => "e" | _ => "f"
  end%N%char.

(** [charCodeToBase16]: digits and both letter cases. *)
Definition nibbleOfChar (c : ascii) : option N :=
  let n := N_of_ascii c in
  if ((48 <=? n) && (n <=? 57))%N%bool then Some (n - 48)%N
  else if ((65 <=? n) && (n <=? 70))%N%bool then Some (n - 55)%N
  else if ((97 <=? n) && (n <=? 102))%N%bool then Some (n - 87)%N
  else None.

Fixpoint hexOfBytes (bs : list Byte.byte) : string :=
  match bs with
  | [] => ""
  | b :: rest =>
      let n := Byte.to_N b in
      String (hexDigit (n / 16)) (String (hexDigit (n mod 16)) (hexOfBytes rest))
  end.

Definition bytesToHex (bs : list Byte.byte) : Hex :=
  String.append "0x" (hexOfBytes bs).

(** Pairs of hex digits to bytes; [None] when a character is not a hex
    digit or a digit is left over. *)
Fixpoint bytesOfHexDigits (s : string) : option (list Byte.byte) :=
  match s with
  | EmptyString => Some []
  | String hi (String lo rest) =>
      match nibbleOfChar hi, nibbleOfChar lo, bytesOfHexDigits rest with
      | Some h, Some l, Some bs => Some (Keccak.byteOfN (16 * h + l) :: bs)
      | _, _, _ => None
      end
  | String _ EmptyString => None
  end.

(** [hexToBytes]: drops the two-character prefix, left-pads an odd number
    of digits with a zero, throws on a character that is not a hex digit. *)
Definition hexToBytes (hex : Hex) : Result (list Byte.byte) :=
  let digits := JS.slice 2 hex in
  let padded :=
    if Nat.odd (String.length digits) then String "0" digits else digits in
  match bytesOfHexDigits padded with
  | Some bs => Ok bs
  | None => Throw (Error "Invalid byte sequence")
  end.

(** [new TextEncoder().encode(s)] for ASCII text. *)
Definition textEncode (s : string) : list Byte.byte :=
  map byte_of_ascii (list_ascii_of_string s).

(** [keccak256(bytes)]. *)
Definition keccak256_bytes (bs : list Byte.byte) : Hex :=
  bytesToHex (Keccak.keccak_256 bs).

(** [keccak256(hex)]. *)
Definition keccak256 (hex : Hex) : Result Hex :=
  bindR (hexToBytes hex) (fun bs => Ok (keccak256_bytes bs)).

End Viem.

(* ===================================================================== *)
(** * Order-hash engine (typed-data struct hash of an exchange order) *)
(* ===================================================================== *)

Module OrderHash.

Inductive AbiType := bytes32 | address | uint8 | uint256.

(** The JavaScript values handed to the encoder: hex strings and numbers. *)
Inductive AbiValue :=
| HexValue (h : Hex)
| NumValue (n : Z).

Definition OFFER_ITEM_TYPEHASH : Hex :=
  Viem.keccak256_bytes (Viem.textEncode
    "OfferItem(uint8 itemType,address token,uint256 identifierOrCriteria,uint256 startAmount,uint256 endAmount)").

Definition CONSIDERATION_ITEM_TYPEHASH : Hex :=
  Viem.keccak256_bytes (Viem.textEncode
    "ConsiderationItem(uint8 itemType,address token,uint256 identifierOrCriteria,uint256 startAmount,uint256 endAmount,address recipient)").

Definition ORDER_TYPEHASH : Hex :=
  Viem.keccak256_bytes (Viem.textEncode
    "OrderComponents(address offerer,address zone,OfferItem[] offer,ConsiderationItem[] consideration,uint8 orderType,uint256 startTime,uint256 endTime,bytes32 zoneHash,uint256 salt,bytes32 conduitKey,uint256 totalOriginalConsiderationItems,uint256 counter)OfferItem(uint8 itemType,address token,uint256 identifierOrCriteria,uint256 startAmount,uint256 endAmount)ConsiderationItem(uint8 itemType,address token,uint256 identifierOrCriteria,uint256 startAmount,uint256 endAmount,address recipient)").

Record SeaportOfferItem := {
  oi_itemType : Z;
  oi_token : Address;
  oi_identifierOrCriteria : Z;
  oi_startAmount : Z;
  oi_endAmount : Z
}.

Record SeaportConsiderationItem := {
  ci_itemType : Z;
  ci_token : Address;
  ci_identifierOrCriteria : Z;
  ci_startAmount : Z;
  ci_endAmount : Z;
  ci_recipient : Address
}.

Record SeaportOrderComponents := {
  offerer : Address;
  zone : Address;
  offer : list SeaportOfferItem;
  consideration : list SeaportConsiderationItem;
  orderType : Z;
  startTime : Z;
  endTime : Z;
  zoneHash : Hex;
  salt : Z;
  conduitKey : Hex;
  totalOriginalConsiderationItems : Z;
  counter : Z
}.

(** [hashes.map((hash) => hash.slice(2)).join("")]. *)
Definition joinSliced (hashes : list Hex) : string :=
  String.concat "" (map (JS.slice 2) hashes).



Definition hashStructArray (hashes : list Hex) : Result Hex :=
  if Nat.eqb (List.length hashes) 0 then Viem.keccak256 "0x"
  else
    let concatenated : Hex := String.append "0x" (joinSliced hashes) in
    Viem.keccak256 concatenated.

Section Engine.

(** viem's ABI encoder is a library outside the repository; the engine
    is written against any encoder. An encoder may throw (a value out
    of range, a malformed address). *)
Variable encodeAbiParameters : list AbiType -> list AbiValue -> Result Hex.

Definition hashOfferItem (item : SeaportOfferItem) : Result Hex :=
  bindR (encodeAbiParameters
           [bytes32; uint8; address; uint256; uint256; uint256]
           [HexValue OFFER_ITEM_TYPEHASH;
            NumValue (oi_itemType item);
            HexValue (oi_token item);
            NumValue (oi_identifierOrCriteria item);
            NumValue (oi_startAmount item);
            NumValue (oi_endAmount item)])
        Viem.keccak256.

Definition hashConsiderationItem (item : SeaportConsiderationItem)
  : Result Hex :=
  bindR (encodeAbiParameters
           [bytes32; uint8; address; uint256; uint256; uint256; address]
           [HexValue CONSIDERATION_ITEM_TYPEHASH;
            NumValue (ci_itemType item);
            HexValue (ci_token item);
            NumValue (ci_identifierOrCriteria item);
            NumValue (ci_startAmount item);
            NumValue (ci_endAmount item);
            HexValue (ci_recipient item)])
        Viem.keccak256.

(** The list of words handed to the encoder for the order struct. *)
Definition orderWords (order : SeaportOrderComponents)
           (offerArrayHash considerationArrayHash : Hex) : list AbiValue :=
  [HexValue ORDER_TYPEHASH;
   HexValue (offerer order);
   HexValue (zone order);
   HexValue offerArrayHash;
   HexValue considerationArrayHash;
   NumValue (orderType order);
   NumValue (startTime order);
   NumValue (endTime order);
   HexValue (zoneHash order);
   NumValue (salt order);
   HexValue (conduitKey order);
   NumValue (totalOriginalConsiderationItems order);
   NumValue (counter order)].

Definition orderTypes : list AbiType :=
  [bytes32; address; address; bytes32; bytes32; uint8; uint256; uint256;
   bytes32; uint256; bytes32; uint256; uint256].

Definition deriveSeaportOrderHash (order : SeaportOrderComponents)
  : Result Hex :=
  bindR (mapR hashOfferItem (offer order)) (fun offerHashes =>
  bindR (mapR hashConsiderationItem (consideration order))
        (fun considerationHashes =>
  bindR (hashStructArray offerHashes) (fun offerArrayHash =>
  bindR (hashStructArray considerationHashes) (fun considerationArrayHash =>
  bindR (encodeAbiParameters orderTypes
           (orderWords order offerArrayHash considerationArrayHash))
        Viem.keccak256)))).

End Engine.


End OrderHash.

(* ===================================================================== *)
(** * The process: configuration, collaborators, observable effects *)
(* ===================================================================== *)

(** config.ts, the values the services read. An unset optional variable is
    [None]; a set one is never the empty string. *)
Record Config := {
  TREASURY_ADDRESS : Address;
  TOKEN_ADDRESS : option Address;
  BUYBACK_ROUTER_ADDRESS : option Address;
  WETH_ADDRESS : option Address;
  BURN_ADDRESS : Address;
  TARGET_COLLECTION : option Address;
  TARGET_COLLECTION_SLUG : option string;
  TARGET_TOKEN_ID : option string;
  LOOP_INTERVAL_MS : Z;
  ACTION_COOLDOWN_MS : Z;
  BUYBACK_CHUNK_WEI : option Z;
  MAX_LISTING_CHECKS_PER_TICK : Z;
  LOG_FETCH_THROTTLE_MS : Z
}.

(** Call data built by [encodeFunctionData], kept as the call it encodes;
    [RawCalldata] is call data received ready-made from the marketplace. *)
Inductive Calldata :=
| TransferCall (recipient : Address) (transferAmount : Z)
| SwapCall (amountOutMin : Z) (path : list Address) (to : Address) (deadline : Z)
| RawCalldata (data : Hex).

(** The two treasury-contract functions the submitter writes to. *)
Inductive TreasuryCall :=
| ExecuteSeaportCall (router : Address) (valueWei : Z) (calldata : Calldata)
| SetCollectionApprovalCall (approvedCollection operator : Address) (approved : bool).

Record ExecuteSeaportRequest := {
  req_router : Address;
  req_valueWei : Z;
  req_calldata : Calldata;
  req_callValueWei : option Z
}.

Record OpenSeaListingBlueprint := {
  protocolAddress : Address;
  offerToken : Address;
  offerIdentifier : Z;
  offerItemType : Z;
  offerStartAmount : Z;
  offerEndAmount : Z;
  bp_conduitKey : Hex;
  bp_zone : Address;
  bp_zoneHash : Hex;
  bp_orderType : Z;
  bp_consideration : list OpenSeaListingConsiderationBlueprint;
  bp_totalOriginalConsiderationItems : Z;
  originalConsiderationTotal : Z;
  bp_counter : Z
}.

Record ExecutionPayload := {
  ex_router : Address;
  ex_calldata : Hex;
  ex_valueWei : Z;
  ex_priceWei : option Z;
  openSeaMetadata : option OpenSeaListingBlueprint
}.

Record ListingResult := {
  lr_orderHash : string;
  sellerProceedsWei : Z;
  listingPriceWei : Z
}.

(** One decoded "WalletTaxSent" log: [args.recipient] and [args.amount] may
    be absent or of another type, which is [None]. *)
Record TaxLog := {
  log_recipient : option string;
  log_amount : option Z
}.

Inductive LogLevel := info | warn | err.

(** Every interaction with the outside, in the order it happens. The trace
    of a run keeps the newest event first. *)
Inductive Event :=
| EvGetBlockNumber
| EvGetLogs (fromBlock toBlock : Z)
| EvReadRouters (token : Address)
| EvReadErc20Balance (token account : Address)
| EvReadOwnerOf (ofCollection : Address) (id : Z)
| EvReadErc1155Balance (ofCollection account : Address) (id : Z)
| EvGetTransactionCount
| EvEstimateFeesPerGas
| EvGetGasPrice
| EvWriteContract (call : TreasuryCall) (nonce maxFeePerGas maxPriorityFeePerGas : Z)
| EvWaitForReceipt (txHash : Hex)
| EvFetchBuyExecution
| EvCreateListing (executionPriceWei : Z)
| EvSave (committed : bool)
| EvDelay (ms : Z)
| EvNow
| EvLog (level : LogLevel) (text : string).

(** The collaborators: chain RPC, wallet, marketplace, wall clock. Each
    answer may depend on when it is asked; the moment is the number of
    events that happened before. *)
Record Env := {
  env_getBlockNumber : nat -> Result N;
  env_getLogs : nat -> Z -> Z -> Result (list TaxLog);
  env_routers : nat -> Address -> Result bool;
  env_erc20BalanceOf : nat -> Address -> Address -> Result Z;
  env_ownerOf : nat -> Address -> Z -> Result string;
  env_erc1155BalanceOf : nat -> Address -> Address -> Z -> Result Z;
  env_getTransactionCount : nat -> Result Z;
  env_estimateFeesPerGas : nat -> Result (option Z * option Z);
  env_getGasPrice : nat -> Result Z;
  env_writeContract : nat -> TreasuryCall -> Z -> Z -> Z -> Result Hex;
  env_waitForTransactionReceipt : nat -> Hex -> Result bool;
  env_fetchOpenSeaBuyExecution : nat -> Result ExecutionPayload;
  (** The listing helper sends its own transactions through the submitter,
      so besides its result it yields the nonce cache it leaves behind; it
      is never handed the state store. *)
  env_createOpenSeaListing :
    nat -> option Z -> OpenSeaListingBlueprint -> Z
    -> Result (option ListingResult) * option Z;
  env_now : nat -> Z
}.

(** The mutable parts of the process: the state store (the loaded state
    object is shared by reference among all services), the module-level
    nonce cache of the treasury client, and the trace. *)
Record World := {
  store : StateStore.t;
  cachedNonce : option Z;
  trace : list Event
}.

Definition withStore (st : StateStore.t) (w : World) : World :=
  {| store := st; cachedNonce := cachedNonce w; trace := trace w |}.
Definition withNonce (n : option Z) (w : World) : World :=
  {| store := store w; cachedNonce := n; trace := trace w |}.
Definition withEvent (e : Event) (w : World) : World :=
  {| store := store w; cachedNonce := cachedNonce w; trace := e :: trace w |}.

(** Field assignments on the state object. *)
Definition set_commissionPoolWei (v : Z) (s : BotState) : BotState :=
  {| version := version s; commissionPoolWei := v; salePoolWei := salePoolWei s;
     pendingBurnAmount := pendingBurnAmount s;
     pendingBurnCostWei := pendingBurnCostWei s;
     activeListings := activeListings s; lastTaxBlock := lastTaxBlock s |}.
Definition set_salePoolWei (v : Z) (s : BotState) : BotState :=
  {| version := version s; commissionPoolWei := commissionPoolWei s;
     salePoolWei := v; pendingBurnAmount := pendingBurnAmount s;
     pendingBurnCostWei := pendingBurnCostWei s;
     activeListings := activeListings s; lastTaxBlock := lastTaxBlock s |}.
Definition set_pendingBurnAmount (v : Z) (s : BotState) : BotState :=
  {| version := version s; commissionPoolWei := commissionPoolWei s;
     salePoolWei := salePoolWei s; pendingBurnAmount := v;
     pendingBurnCostWei := pendingBurnCostWei s;
     activeListings := activeListings s; lastTaxBlock := lastTaxBlock s |}.
Definition set_pendingBurnCostWei (v : Z) (s : BotState) : BotState :=
  {| version := version s; commissionPoolWei := commissionPoolWei s;
     salePoolWei := salePoolWei s; pendingBurnAmount := pendingBurnAmount s;
     pendingBurnCostWei := v;
     activeListings := activeListings s; lastTaxBlock := lastTaxBlock s |}.
Definition set_activeListings (v : list ActiveListingState) (s : BotState)
  : BotState :=
  {| version := version s; commissionPoolWei := commissionPoolWei s;
     salePoolWei := salePoolWei s; pendingBurnAmount := pendingBurnAmount s;
     pendingBurnCostWei := pendingBurnCostWei s;
     activeListings := v; lastTaxBlock := lastTaxBlock s |}.
Definition set_lastTaxBlock (v : Z) (s : BotState) : BotState :=
  {| version := version s; commissionPoolWei := commissionPoolWei s;
     salePoolWei := salePoolWei s; pendingBurnAmount := pendingBurnAmount s;
     pendingBurnCostWei := pendingBurnCostWei s;
     activeListings := activeListings s; lastTaxBlock := v |}.

(** ** Sequential code that throws and mutates the process *)

Definition M (A : Type) : Type := World -> Result A * World.

Definition ret {A} (a : A) : M A := fun w => (Ok a, w).

Definition throw {A} (e : JsError) : M A := fun w => (Throw e, w).

Definition bind {A B} (m : M A) (k : A -> M B) : M B :=
  fun w =>
    match m w with
    | (Ok a, w') => k a w'
    | (Throw e, w') => (Throw e, w')
    end.

(** [try { m } catch (e) { handler e }]: what [m] did before throwing
    stays done. *)
Definition tryCatch {A} (m : M A) (handler : JsError -> M A) : M A :=
  fun w =>
    match m w with
    | (Ok a, w') => (Ok a, w')
    | (Throw e, w') => handler e w'
    end.

Declare Scope m_scope.
Delimit Scope m_scope with M.
Notation "x <- m ;; k" := (bind m (fun x => k))
  (at level 61, m at next level, right associativity) : m_scope.
Notation "m ;; k" := (bind m (fun _ => k))
  (at level 61, right associativity) : m_scope.
Local Open Scope m_scope.

Definition liftR {A} (r : Result A) : M A := fun w => (r, w).

Definition emit (e : Event) : M unit := fun w => (Ok tt, withEvent e w).

(** Ask a collaborator: the question is recorded, the answer is the one
    given at this moment. *)
Definition ask {A} (e : Event) (answer : nat -> Result A) : M A :=
  fun w => (answer (List.length (trace w)), withEvent e w).

Definition logger (level : LogLevel) (text : string) : M unit :=
  emit (EvLog level text).

Definition delay (ms : Z) : M unit := emit (EvDelay ms).

(** [stateStore.getState()]. *)
Definition getState : M BotState :=
  fun w => (StateStore.getState (store w), w).

(** An assignment to a field of the state object obtained from
    [getState]; the store sees it because it holds the same object. *)
Definition assign (f : BotState -> BotState) : M unit :=
  fun w =>
    (Ok tt,
     withStore {| StateStore.db := StateStore.db (store w);
                  StateStore.state := option_map f (StateStore.state (store w)) |}
               w).

(** [await stateStore.save()]. *)
Definition save : M unit :=
  fun w =>
    match StateStore.save (store w) with
    | Ok st' => (Ok tt, withEvent (EvSave true) (withStore st' w))
    | Throw e => (Throw e, withEvent (EvSave false) w)
    end.

(* ===================================================================== *)
(** * treasuryClient.ts: the submitter *)
(* ===================================================================== *)

Module TreasuryClient.
Section WithEnv.

Variable cfg : Config.
Variable env : Env.

Definition FEE_MULTIPLIERS : list Z := [100; 120; 140].

Definition scaleFee (value multiplierBps : Z) : Z :=
  Z.quot (value * multiplierBps + 99) 100.

Definition resetNonceCache : M unit :=
  fun w => (Ok tt, withNonce None w).

Definition incrementNonce : M unit :=
  fun w =>
    match cachedNonce w with
    | Some n => (Ok tt, withNonce (Some (n + 1)) w)
    | None => (Ok tt, w)
    end.

Definition acquireNextNonce : M Z :=
  fun w =>
    match cachedNonce w with
    | Some n => (Ok n, w)
    | None =>
        match ask EvGetTransactionCount (env_getTransactionCount env) w with
        | (Ok rawNonce, w') => (Ok rawNonce, withNonce (Some rawNonce) w')
        | (Throw e, w') => (Throw e, w')
        end
    end.

Definition estimateFeeOverrides (multiplierBps : Z) : M (Z * Z) :=
  tryCatch
    (fees <- ask EvEstimateFeesPerGas (env_estimateFeesPerGas env) ;;
     match fees with
     | (Some baseMaxFee, Some basePriorityFee) =>
         ret (scaleFee baseMaxFee multiplierBps,
              scaleFee basePriorityFee multiplierBps)
     | _ => throw (Error "estimateFeesPerGas missing fields")
     end)
    (fun _ =>
       gasPrice <- ask EvGetGasPrice (env_getGasPrice env) ;;
       let adjusted := scaleFee gasPrice multiplierBps in
       ret (adjusted, adjusted)).

(** The test applied to a lower-cased error message. *)
Definition isUnderpriced (message : string) : bool :=
  JS.includes message "replacement transaction underpriced"
  || JS.includes message "nonce too low"
  || JS.includes message "fee too low"
  || JS.includes message "max fee per gas less than block base fee".

Definition lastMultiplier : Z := last FEE_MULTIPLIERS 0.

(** One pass of the [for (const multiplier of FEE_MULTIPLIERS)] loop of
    [writeContractWithAdaptiveFees]: [inl hash] is the [return hash],
    [inr error] falls through to the next multiplier. *)
Definition writeAttempt (call : TreasuryCall) (nonce multiplier : Z)
  : M (Hex + JsError) :=
  tryCatch
    (feeOverrides <- estimateFeeOverrides multiplier ;;
     hash <- ask (EvWriteContract call nonce (fst feeOverrides)
                                  (snd feeOverrides))
                 (fun t => env_writeContract env t call nonce
                                             (fst feeOverrides)
                                             (snd feeOverrides)) ;;
     incrementNonce ;;
     ret (inl hash))
    (fun error =>
       let message := JS.toLowerCase (errorMessage error) in
       if (negb (isUnderpriced message) || (multiplier =? lastMultiplier))%bool
       then throw error
       else
         (if JS.includes message "nonce too low" then resetNonceCache
          else ret tt) ;;
         logger warn "Contract write underpriced; retrying with higher fees" ;;
         ret (inr error)).

Fixpoint writeAttempts (call : TreasuryCall) (nonce : Z)
         (multipliers : list Z) (lastError : option JsError) : M Hex :=
  match multipliers with
  | [] =>
      throw (match lastError with
             | Some e => e
             | None => Error "null"
             end)
  | multiplier :: rest =>
      outcome <- writeAttempt call nonce multiplier ;;
      match outcome with
      | inl hash => ret hash
      | inr error => writeAttempts call nonce rest (Some error)
      end
  end.

Definition writeContractWithAdaptiveFees (call : TreasuryCall) : M Hex :=
  nonce <- acquireNextNonce ;;
  writeAttempts call nonce FEE_MULTIPLIERS None.

Definition executeSeaport (request : ExecuteSeaportRequest) : M Hex :=
  writeContractWithAdaptiveFees
    (ExecuteSeaportCall (req_router request) (req_valueWei request)
                        (req_calldata request)).

Definition setCollectionApproval (coll operator : Address) (approved : bool)
  : M Hex :=
  writeContractWithAdaptiveFees
    (SetCollectionApprovalCall coll operator approved).

Definition waitForReceipt (txHash : Hex) : M unit :=
  tryCatch
    (success <- ask (EvWaitForReceipt txHash)
                    (fun t => env_waitForTransactionReceipt env t txHash) ;;
     if success then ret tt
     else throw (Error (String.append "Transaction reverted: " txHash)))
    (fun error =>
       match error with
       | TransactionNotFoundError _ => resetNonceCache
       | _ => ret tt
       end ;;
       throw error).

End WithEnv.
End TreasuryClient.

(* ===================================================================== *)
(** * The four tick services and the loop driver *)
(* ===================================================================== *)

Module Services.
Section WithEnv.

Variable cfg : Config.
Variable env : Env.

Definition cooldown : M unit :=
  if ACTION_COOLDOWN_MS cfg >? 0 then delay (ACTION_COOLDOWN_MS cfg)
  else ret tt.

(** [Date.now()]. *)
Definition dateNow : M Z := ask EvNow (fun t => Ok (env_now env t)).

(** *** services/buyback.ts *)

(** [state] in the source is the object the store holds; its fields are
    read through the store at the point where the source reads them. *)
Definition completePendingBurn (spentWeiOverride : option Z) : M unit :=
  state <- getState ;;
  if pendingBurnAmount state <=? 0 then ret tt
  else
    match TOKEN_ADDRESS cfg with
    | None => throw (Error "TOKEN_ADDRESS is not configured")
    | Some token =>
        let burnAmount := pendingBurnAmount state in
        let burnCalldata := TransferCall (BURN_ADDRESS cfg) burnAmount in
        burnTx <- TreasuryClient.executeSeaport env
                    {| req_router := token;
                       req_valueWei := 0;
                       req_calldata := burnCalldata;
                       req_callValueWei := Some 0 |} ;;
        logger info "Submitted burn transfer" ;;
        TreasuryClient.waitForReceipt env burnTx ;;
        state <- getState ;;
        let costSource :=
          JS.nullish spentWeiOverride (pendingBurnCostWei state) in
        let costToDeduct :=
          if costSource >? 0
          then (if salePoolWei state >=? costSource then costSource
                else salePoolWei state)
          else 0 in
        assign (set_pendingBurnAmount 0) ;;
        assign (set_pendingBurnCostWei 0) ;;
        (if costToDeduct >? 0
         then assign (fun s => set_salePoolWei (salePoolWei s - costToDeduct) s)
         else ret tt) ;;
        save ;;
        logger info "Buyback and burn completed"
    end.

(** The three-attempt balance poll after the swap; [attempts] are the
    remaining values of the loop counter. *)
Fixpoint pollBalance (token : Address) (balanceBefore : Z)
         (attempts : list Z) (balanceAfter : Z) : M Z :=
  match attempts with
  | [] => ret balanceAfter
  | attempt :: rest =>
      balance <- ask (EvReadErc20Balance token (TREASURY_ADDRESS cfg))
                     (fun t => env_erc20BalanceOf env t token
                                                  (TREASURY_ADDRESS cfg)) ;;
      if balance >? balanceBefore then ret balance
      else
        (if attempt <? 2 then delay 1000 else ret tt) ;;
        pollBalance token balanceBefore rest balance
  end.

Definition performBuybackAndBurn : M bool :=
  match TOKEN_ADDRESS cfg, BUYBACK_ROUTER_ADDRESS cfg, WETH_ADDRESS cfg with
  | Some token, Some router, Some weth =>
      state <- getState ;;
      if pendingBurnAmount state >? 0 then
        logger info "Retrying pending burn transfer" ;;
        completePendingBurn None ;;
        cooldown ;;
        ret true
      else if salePoolWei state <=? 0 then ret false
      else
        let amountToUse :=
          match BUYBACK_CHUNK_WEI cfg with
          | Some chunk =>
              if chunk >? 0
              then (if salePoolWei state <? chunk then salePoolWei state
                    else chunk)
              else salePoolWei state
          | None => salePoolWei state
          end in
        if amountToUse <=? 0 then ret false
        else
          tokenRouterAllowed <-
            ask (EvReadRouters token) (fun t => env_routers env t token) ;;
          if negb tokenRouterAllowed then
            logger err "Treasury contract is not authorized to execute through token address; cannot burn" ;;
            ret false
          else
            balanceBefore <-
              ask (EvReadErc20Balance token (TREASURY_ADDRESS cfg))
                  (fun t => env_erc20BalanceOf env t token
                                               (TREASURY_ADDRESS cfg)) ;;
            now <- dateNow ;;
            let swapCalldata :=
              SwapCall 0 [weth; token] (TREASURY_ADDRESS cfg)
                       (now / 1000 + 15 * 60) in
            swapTx <- TreasuryClient.executeSeaport env
                        {| req_router := router;
                           req_valueWei := amountToUse;
                           req_calldata := swapCalldata;
                           req_callValueWei := Some 0 |} ;;
            logger info "Submitted buyback swap" ;;
            TreasuryClient.waitForReceipt env swapTx ;;
            balanceAfter <-
              pollBalance token balanceBefore [0; 1; 2] balanceBefore ;;
            let purchasedAmount :=
              if balanceAfter >? balanceBefore
              then balanceAfter - balanceBefore else 0 in
            if purchasedAmount =? 0 then
              logger warn "Buyback swap completed but no tokens were received" ;;
              assign (set_pendingBurnAmount 0) ;;
              assign (set_pendingBurnCostWei 0) ;;
              assign (fun s =>
                        set_salePoolWei
                          (if salePoolWei s >=? amountToUse
                           then salePoolWei s - amountToUse else 0) s) ;;
              save ;;
              ret true
            else
              assign (set_pendingBurnAmount purchasedAmount) ;;
              assign (set_pendingBurnCostWei amountToUse) ;;
              save ;;
              completePendingBurn (Some amountToUse) ;;
              cooldown ;;
              ret true
  | _, _, _ => ret false
  end.

(** *** services/purchase.ts *)

(** The marketplace listing helper [createOpenSeaListing] of
    marketplaces/openseaListings.ts, run as one step of the purchase
    service. Its reads of the chain, its wait for the bought token and the
    transactions it sends through the submitter (the collection approval
    and the order validation) all happen inside the step [EvCreateListing]
    and are not events of their own; of the process it can change the
    nonce cache only, never the state store. Its arithmetic and its wait
    for the token are modelled apart, in [ListingSteps]. *)
Definition createOpenSeaListing (blueprint : OpenSeaListingBlueprint)
           (executionPriceWei : Z) : M (option ListingResult) :=
  fun w =>
    let answer :=
      env_createOpenSeaListing env (List.length (trace w)) (cachedNonce w)
                               blueprint executionPriceWei in
    (fst answer,
     withEvent (EvCreateListing executionPriceWei)
               (withNonce (snd answer) w)).

Definition isNone {A} (o : option A) : bool :=
  match o with None => true | Some _ => false end.

(** The statements of [attemptPurchaseAndListing] that follow the save of
    the deducted pool: the relist step with its own [try]/[catch]. *)
Definition relistStep (execution : ExecutionPayload) (cost : Z) : M bool :=
  match openSeaMetadata execution with
  | None =>
      logger warn "Missing OpenSea metadata; skipping relist step" ;;
      cooldown ;;
      ret true
  | Some metadata =>
      tryCatch
        (listing <- createOpenSeaListing metadata cost ;;
         match listing with
         | None =>
             logger warn "Listing creation returned null; leaving NFT unlisted"
         | Some listing =>
             let tokenId := JS.toString (offerIdentifier metadata) in
             let tokenStandard :=
               if offerItemType metadata =? 3 then erc1155 else erc721 in
             let listedQuantityRaw :=
               if offerEndAmount metadata >? 0
               then offerEndAmount metadata
               else if offerStartAmount metadata >? 0
                    then offerStartAmount metadata
                    else 1 in
             let listedQuantity :=
               match tokenStandard with
               | erc1155 => 1
               | erc721 =>
                   if listedQuantityRaw >? 0 then listedQuantityRaw else 1
               end in
             expectedPostSaleBalance <-
               match tokenStandard with
               | erc1155 =>
                   tryCatch
                     (currentBalance <-
                        ask (EvReadErc1155Balance (offerToken metadata)
                                                  (TREASURY_ADDRESS cfg)
                                                  (offerIdentifier metadata))
                            (fun t =>
                               env_erc1155BalanceOf env t
                                 (offerToken metadata) (TREASURY_ADDRESS cfg)
                                 (offerIdentifier metadata)) ;;
                      ret (Some (if currentBalance >? listedQuantity
                                 then currentBalance - listedQuantity
                                 else 0)))
                     (fun _ =>
                        logger warn "Failed to inspect ERC1155 balance before listing; assuming zero post-sale balance" ;;
                        ret (Some 0))
               | erc721 => ret None
               end ;;
             now <- dateNow ;;
             assign (fun s =>
                       set_activeListings
                         (activeListings s ++
                          [{| orderHash := lr_orderHash listing;
                              collection := offerToken metadata;
                              tokenId := tokenId;
                              expectedProceedsWei := sellerProceedsWei listing;
                              listedAtMs := now;
                              tokenStandard := tokenStandard;
                              listedQuantity := listedQuantity;
                              expectedPostSaleBalance :=
                                expectedPostSaleBalance |}]) s) ;;
             save ;;
             logger info "Successfully created OpenSea listing"
         end)
        (fun _ => logger err "Failed to create OpenSea listing") ;;
      cooldown ;;
      ret true
  end.

(** Whether an acquisition target is configured consistently (the two
    guards at the top of [attemptPurchaseAndListing]). *)
Definition targetMissing : bool :=
  isNone (TARGET_COLLECTION cfg) && isNone (TARGET_COLLECTION_SLUG cfg).

Definition tokenWithoutCollection : bool :=
  negb (isNone (TARGET_TOKEN_ID cfg)) && isNone (TARGET_COLLECTION cfg).

Definition attemptPurchaseAndListing : M bool :=
  if targetMissing then ret false
  else if tokenWithoutCollection then
    logger err "TARGET_COLLECTION must be provided when TARGET_TOKEN_ID is set." ;;
    ret false
  else
    state <- getState ;;
    if commissionPoolWei state <=? 0 then ret false
    else
      fetched <-
        tryCatch
          (execution <- ask EvFetchBuyExecution
                            (env_fetchOpenSeaBuyExecution env) ;;
           ret (Some execution))
          (fun _ =>
             logger warn "Failed to resolve OpenSea execution; skipping iteration" ;;
             ret None) ;;
      match fetched with
      | None => ret false
      | Some execution =>
          let cost := ex_valueWei execution in
          state <- getState ;;
          if ((cost <=? 0) || (commissionPoolWei state <? cost))%bool
          then ret false
          else
            purchaseTx <- TreasuryClient.executeSeaport env
                            {| req_router := ex_router execution;
                               req_valueWei := cost;
                               req_calldata := RawCalldata (ex_calldata execution);
                               req_callValueWei := Some 0 |} ;;
            logger info "Submitted NFT purchase transaction" ;;
            TreasuryClient.waitForReceipt env purchaseTx ;;
            assign (fun s => set_commissionPoolWei (commissionPoolWei s - cost) s) ;;
            save ;;
            relistStep execution cost
      end.

(** *** services/taxCollector.ts *)

Definition MAX_LOG_SPAN : Z := 10.

(** The inner [for (const log of logs)] loop. *)
Definition sumMatchingLogs (treasuryLower : string) (logs : list TaxLog)
           (totalCollected : Z) : Z :=
  fold_left
    (fun total log =>
       match log_recipient log with
       | None => total
       | Some recipient =>
           if negb (String.eqb (JS.toLowerCase recipient) treasuryLower)
           then total
           else match log_amount log with
                | Some amount => if amount >? 0 then total + amount else total
                | None => total
                end
       end)
    logs totalCollected.

(** The [while (cursor <= latestBlock)] loop. Every pass moves [cursor]
    forward, so [latestBlock - cursor + 1] passes always suffice; [fuel]
    bounds the passes and is never exhausted when it is at least that. *)
Fixpoint scanLoop (fuel : nat) (latestBlock cursor totalCollected : Z)
  : M Z :=
  if cursor <=? latestBlock then
    match fuel with
    | O => throw (Error "scan did not terminate")
    | S fuel' =>
        let rangeEnd := cursor + (MAX_LOG_SPAN - 1) in
        let toBlock :=
          if rangeEnd >? latestBlock then latestBlock else rangeEnd in
        logs <- ask (EvGetLogs cursor toBlock)
                    (fun t => env_getLogs env t cursor toBlock) ;;
        let total :=
          sumMatchingLogs (JS.toLowerCase (TREASURY_ADDRESS cfg)) logs
                          totalCollected in
        let cursor' := toBlock + 1 in
        (if ((cursor' <=? latestBlock) && (LOG_FETCH_THROTTLE_MS cfg >? 0))%bool
         then delay (LOG_FETCH_THROTTLE_MS cfg) else ret tt) ;;
        scanLoop fuel' latestBlock cursor' total
    end
  else ret totalCollected.

Definition collectNewTaxProceeds : M bool :=
  match TOKEN_ADDRESS cfg with
  | None => ret false
  | Some _ =>
      _ <- getState ;;
      latest <- ask EvGetBlockNumber (env_getBlockNumber env) ;;
      let latestBlock := Z.of_N latest in
      state <- getState ;;
      if lastTaxBlock state =? 0 then
        assign (set_lastTaxBlock latestBlock) ;;
        save ;;
        ret false
      else if lastTaxBlock state >=? latestBlock then ret false
      else
        let startBlock := lastTaxBlock state + 1 in
        totalCollected <-
          scanLoop (Z.to_nat (latestBlock - startBlock + 1)) latestBlock
                   startBlock 0 ;;
        assign (set_lastTaxBlock latestBlock) ;;
        if totalCollected >? 0 then
          assign (fun s =>
                    set_commissionPoolWei
                      (commissionPoolWei s + totalCollected) s) ;;
          save ;;
          logger info "Captured new tax proceeds" ;;
          ret true
        else
          save ;;
          ret false
  end.

(** *** services/listingMonitor.ts *)

(** The body of the [try] block for one checked listing: [true] when the
    listing is still held (the [continue] after the push), [false] when a
    sale is detected. *)
Definition stillHeld (listing : ActiveListingState) : M bool :=
  match tokenStandard listing with
  | erc1155 =>
      id <- liftR (parseBigInt (tokenId listing)) ;;
      balance <- ask (EvReadErc1155Balance (collection listing)
                                           (TREASURY_ADDRESS cfg) id)
                     (fun t => env_erc1155BalanceOf env t (collection listing)
                                                    (TREASURY_ADDRESS cfg) id) ;;
      let targetBalance := JS.nullish (expectedPostSaleBalance listing) 0 in
      ret (balance >? targetBalance)
  | erc721 =>
      id <- liftR (parseBigInt (tokenId listing)) ;;
      currentOwner <- ask (EvReadOwnerOf (collection listing) id)
                          (fun t => env_ownerOf env t (collection listing) id) ;;
      ret (String.eqb (JS.toLowerCase currentOwner)
                      (JS.toLowerCase (TREASURY_ADDRESS cfg)))
  end.

(** The [try { ... } catch { ... }] statement of the loop body, for a
    listing that is checked in this tick; it yields the new values of
    [updatedListings] and [proceedsCaptured]. *)
Definition checkListing (listing : ActiveListingState)
           (updatedListings : list ActiveListingState) (proceedsCaptured : Z)
  : M (list ActiveListingState * Z) :=
  tryCatch
    (held <- stillHeld listing ;;
     if held then ret (updatedListings ++ [listing], proceedsCaptured)
     else
       logger info "Detected NFT sale" ;;
       ret (updatedListings,
            proceedsCaptured + expectedProceedsWei listing))
    (fun _ =>
       logger warn "Failed to verify NFT ownership; keeping listing for next iteration" ;;
       ret (updatedListings ++ [listing], proceedsCaptured)).

(** The [for (const listing of state.activeListings)] loop with its three
    locals; the result is the final [updatedListings] and
    [proceedsCaptured]. *)
Fixpoint reconcileLoop (listings updatedListings : list ActiveListingState)
         (checked proceedsCaptured : Z)
  : M (list ActiveListingState * Z) :=
  match listings with
  | [] => ret (updatedListings, proceedsCaptured)
  | listing :: rest =>
      if checked >=? MAX_LISTING_CHECKS_PER_TICK cfg then
        reconcileLoop rest (updatedListings ++ [listing]) checked
                      proceedsCaptured
      else
        let checked' := checked + 1 in
        locals <- checkListing listing updatedListings proceedsCaptured ;;
        reconcileLoop rest (fst locals) checked' (snd locals)
  end.

Definition reconcileListings : M Z :=
  state <- getState ;;
  if Nat.eqb (List.length (activeListings state)) 0 then ret 0
  else
    locals <- reconcileLoop (activeListings state) [] 0 0 ;;
    let updatedListings := fst locals in
    let proceedsCaptured := snd locals in
    assign (set_activeListings updatedListings) ;;
    if proceedsCaptured >? 0 then
      assign (fun s => set_salePoolWei (salePoolWei s + proceedsCaptured) s) ;;
      save ;;
      ret proceedsCaptured
    else ret proceedsCaptured.

(** *** index.ts: one pass of the [for (;;)] loop, and [n] passes *)

Definition tickBody : M unit :=
  collectNewTaxProceeds ;;
  proceedsCaptured <- reconcileListings ;;
  (if proceedsCaptured >? 0 then
     _ <- getState ;;
     logger info "Captured NFT sale proceeds"
   else ret tt) ;;
  actionPerformed <- performBuybackAndBurn ;;
  (if negb actionPerformed then attemptPurchaseAndListing
   else ret actionPerformed) ;;
  ret tt.

Definition tick : M unit :=
  loopStart <- dateNow ;;
  tryCatch tickBody
           (fun _ => logger err "Bot loop iteration failed") ;;
  finished <- dateNow ;;
  let elapsed := finished - loopStart in
  let sleepFor := Z.max 0 (LOOP_INTERVAL_MS cfg - elapsed) in
  if sleepFor >? 0 then delay sleepFor else ret tt.

Fixpoint ticks (n : nat) : M unit :=
  match n with
  | O => ret tt
  | S n' => tick ;; ticks n'
  end.

End WithEnv.
End Services.

(* ===================================================================== *)
(** * config.ts: where the database file lives *)
(* ===================================================================== *)

Module ConfigPaths.

(** [String.prototype.endsWith]: some tail of [s] is [suffix]. *)
Fixpoint endsWith (s suffix : string) : bool :=
  if String.eqb s suffix then true
  else match s with
       | EmptyString => false
       | String _ rest => endsWith rest suffix
       end.

(** [s.replace(/\.json$/i, ".db")]: the pattern can only match the last
    five characters; without a match the string is returned as it is. *)
Definition replaceJsonSuffix (s : string) : string :=
  if endsWith (JS.toLowerCase s) ".json"
  then String.substring 0 (String.length s - 5) s ++ ".db"
  else s.

(** [!legacyPath] holds for [null] and for the empty string. *)
Definition deriveStateDatabasePath (legacyPath : option string) : string :=
  match legacyPath with
  | None => "bot-state.db"
  | Some path =>
      if String.eqb path "" then "bot-state.db"
      else if endsWith (JS.toLowerCase path) ".json"
           then replaceJsonSuffix path
           else path ++ ".db"
  end.

End ConfigPaths.

(* ===================================================================== *)
(** * marketplaces/openseaListings.ts: the steps of a listing *)
(* ===================================================================== *)

Module ListingSteps.

Definition SEAPORT_ITEM_TYPE_ERC721 : Z := 2.
Definition SEAPORT_ITEM_TYPE_ERC1155 : Z := 3.
Definition OWNERSHIP_CHECK_MAX_ATTEMPTS : Z := 3.
Definition OWNERSHIP_CHECK_DELAY_MS : Z := 15000.

(** [Array.prototype.findIndex]: the index of the first element that
    passes, [-1] when none does. *)
Fixpoint findIndexFrom {A} (p : A -> bool) (l : list A) (i : Z) : Z :=
  match l with
  | [] => -1
  | x :: rest => if p x then i else findIndexFrom p rest (i + 1)
  end.

Definition findIndex {A} (p : A -> bool) (l : list A) : Z :=
  findIndexFrom p l 0.

(** What [createOpenSeaListing] works out on its own, before and after its
    calls to the chain and the marketplace: the listing price, the amounts
    offered, the rescaled consideration and the proceeds it reports. *)
Record ListingFigures := {
  fig_listingPriceWei : Z;
  fig_offerStartAmount : Z;
  fig_offerEndAmount : Z;
  fig_consideration : list ScaledConsiderationItem;
  fig_sellerProceedsWei : Z
}.

(** [None] is the early [return null] for a listing price that is not
    positive. [executionPriceWei] and [markupBps] are the optional fields of
    [options]. *)
Definition listingFigures (TREASURY_ADDRESS : Address)
           (blueprint : OpenSeaListingBlueprint)
           (executionPriceWei markupBps : option Z) : option ListingFigures :=
  let listingPriceWei :=
    OpenseaListings.computeListingPrice (JS.nullish executionPriceWei 0)
                                        markupBps in
  if listingPriceWei <=? 0 then None
  else
    let isErc1155 := offerItemType blueprint =? SEAPORT_ITEM_TYPE_ERC1155 in
    let offerStart :=
      if isErc1155 then 1
      else if offerStartAmount blueprint >? 0 then offerStartAmount blueprint
           else 1 in
    let offerEnd :=
      if isErc1155 then 1
      else if offerEndAmount blueprint >? 0 then offerEndAmount blueprint
           else 1 in
    let consideration :=
      OpenseaListings.scaleConsiderationAmounts
        TREASURY_ADDRESS (bp_consideration blueprint)
        (originalConsiderationTotal blueprint) listingPriceWei in
    let sellerIndex := findIndex isSellerProceeds (bp_consideration blueprint) in
    let sellerProceeds :=
      if ((sellerIndex >=? 0)
          && (sellerIndex <? Z.of_nat (List.length consideration)))%bool
      then match nth_error consideration (Z.to_nat sellerIndex) with
           | Some item => amount item
           | None => 0
           end
      else 0 in
    Some {| fig_listingPriceWei := listingPriceWei;
            fig_offerStartAmount := offerStart;
            fig_offerEndAmount := offerEnd;
            fig_consideration := consideration;
            fig_sellerProceedsWei := sellerProceeds |}.

Section WithEnv.

Variable env : Env.

Local Open Scope m_scope.

(** One pass of the body of the [for] loop of [waitForNftOwnership] up to
    its [return]: [true] when the treasury is seen to hold the token. The
    answers are decoded by the ABI of the call, a bigint and an address
    string, so the two [typeof] guards never fire. The entries handed to
    [debugLog] go to a diagnostics file and a failure to write them is
    swallowed there; they are not part of the trace. *)
Definition ownershipCheck (collection : Address) (tokenId : Z)
           (expectedOwner : Address) (itemType quantity : Z) : M bool :=
  let normalizedOwner := JS.toLowerCase expectedOwner in
  if itemType =? SEAPORT_ITEM_TYPE_ERC1155 then
    currentBalance <-
      ask (EvReadErc1155Balance collection expectedOwner tokenId)
          (fun t => env_erc1155BalanceOf env t collection expectedOwner tokenId) ;;
    ret (currentBalance >=? quantity)
  else
    currentOwner <-
      ask (EvReadOwnerOf collection tokenId)
          (fun t => env_ownerOf env t collection tokenId) ;;
    ret (String.eqb (JS.toLowerCase currentOwner) normalizedOwner).

(** The [for] loop from [attempt] on; [remaining] bounds the passes left.
    [true] is the [return] from inside the loop, [false] is falling out of
    it. *)
Fixpoint ownershipLoop (remaining : nat) (collection : Address) (tokenId : Z)
         (expectedOwner : Address) (itemType quantity : Z) (attempt : Z)
  : M bool :=
  match remaining with
  | O => ret false
  | S remaining' =>
      if attempt <? OWNERSHIP_CHECK_MAX_ATTEMPTS then
        held <- ownershipCheck collection tokenId expectedOwner itemType
                               quantity ;;
        if held then ret true
        else
          (if attempt + 1 <? OWNERSHIP_CHECK_MAX_ATTEMPTS
           then delay OWNERSHIP_CHECK_DELAY_MS else ret tt) ;;
          ownershipLoop remaining' collection tokenId expectedOwner itemType
                        quantity (attempt + 1)
      else ret false
  end.

Definition waitForNftOwnership (collection : Address) (tokenId : Z)
           (expectedOwner : Address) (itemType quantity : Z) : M unit :=
  held <- ownershipLoop (Z.to_nat OWNERSHIP_CHECK_MAX_ATTEMPTS) collection
                        tokenId expectedOwner itemType quantity 0 ;;
  if held then ret tt
  else if itemType =? SEAPORT_ITEM_TYPE_ERC1155 then
    throw (Error ("Treasury balance for token " ++ JS.toString tokenId
                  ++ " on " ++ collection ++ " did not reach "
                  ++ JS.toString quantity ++ " after "
                  ++ JS.toString OWNERSHIP_CHECK_MAX_ATTEMPTS ++ " checks."))
  else
    throw (Error ("Token " ++ JS.toString tokenId ++ " on " ++ collection
                  ++ " is not owned by treasury after "
                  ++ JS.toString OWNERSHIP_CHECK_MAX_ATTEMPTS ++ " checks.")).

End WithEnv.
End ListingSteps.

(* ===================================================================== *)
(** * Vocabulary for stating the properties *)
(* ===================================================================== *)

(** [n] submissions in a row through the submitter, one per call. *)
Fixpoint submitAll (env : Env) (calls : list TreasuryCall) : M (list Hex) :=
  match calls with
  | [] => ret []
  | call :: rest =>
      hash <- TreasuryClient.writeContractWithAdaptiveFees env call ;;
      hashes <- submitAll env rest ;;
      ret (hash :: hashes)
  end.

(** A wallet and fee oracle that never fail. *)
Definition neverFails (env : Env) : Prop :=
  (forall t, exists baseFee priorityFee,
        env_estimateFeesPerGas env t = Ok (Some baseFee, Some priorityFee))
  /\ (forall t call nonce maxFee priorityFee, exists hash,
        env_writeContract env t call nonce maxFee priorityFee = Ok hash).

(** Number of reads of the pending transaction count in a trace. *)
Definition isTransactionCountRead (e : Event) : bool :=
  match e with EvGetTransactionCount => true | _ => false end.

Definition chainNonceReads (events : list Event) : nat :=
  List.length (filter isTransactionCountRead events).


(** A submitted transaction of any kind. *)
Definition isSubmission (e : Event) : bool :=
  match e with EvWriteContract _ _ _ _ => true | _ => false end.

Definition isSave (e : Event) : bool :=
  match e with EvSave _ => true | _ => false end.

Definition isCreateListing (e : Event) : bool :=
  match e with EvCreateListing _ => true | _ => false end.

(** [w'] is [w] after some more events: the store is untouched and every
    new event satisfies [P]. *)
Definition Frame (P : Event -> Prop) (w w' : World) : Prop :=
  store w' = store w
  /\ exists events, trace w' = events ++ trace w /\ Forall P events.

(** [w'] is [w] after some more events, each satisfying [P]; the store
    may have changed. *)
Definition TraceGrows (P : Event -> Prop) (w w' : World) : Prop :=
  exists events, trace w' = events ++ trace w /\ Forall P events.



(** A log provider that answers every range request. *)
Definition logsAvailable (env : Env) : Prop :=
  forall t fromBlock toBlock,
  exists logs, env_getLogs env t fromBlock toBlock = Ok logs.


(** The chain always reports an owner other than the treasury for the
    single-owner listing [l]. *)
Definition soldAway (cfg : Config) (env : Env) (l : ActiveListingState) : Prop :=
  tokenStandard l = erc721
  /\ exists id,
      parseBigInt (tokenId l) = Ok id
      /\ forall t, exists owner,
          env_ownerOf env t (collection l) id = Ok owner
          /\ String.eqb (JS.toLowerCase owner)
                        (JS.toLowerCase (TREASURY_ADDRESS cfg)) = false.

(** The on-chain read for [l] always throws (or its token id cannot even
    be converted). *)
Definition readFails (cfg : Config) (env : Env) (l : ActiveListingState) : Prop :=
  (exists e, parseBigInt (tokenId l) = Throw e)
  \/ exists id,
      parseBigInt (tokenId l) = Ok id
      /\ forall t, exists e,
          match tokenStandard l with
          | erc721 => env_ownerOf env t (collection l) id = Throw e
          | erc1155 =>
              env_erc1155BalanceOf env t (collection l) (TREASURY_ADDRESS cfg) id
              = Throw e
          end.

(** Number of listings still to be checked in this tick. *)
Definition checksLeft (cfg : Config) (checked : Z) : nat :=
  Z.to_nat (MAX_LISTING_CHECKS_PER_TICK cfg - checked).

(** An event that is not a save. *)
Definition quiet (e : Event) : Prop := isSave e = false.

(** The commission pool as the database has it: the decimal string of the
    state row. *)
Definition durableCommission (w : World) : option string :=
  match StateStore.db (store w) with
  | Some d =>
      option_map StateStore.row_commissionPoolWei (StateStore.state_table d)
  | None => None
  end.

(** The commission pool is [c] both in memory and in the database. *)
Definition CommissionSettled (c : Z) (w : World) : Prop :=
  option_map commissionPoolWei (StateStore.state (store w)) = Some c
  /\ durableCommission w = Some (JS.toString c).

Definition KeepsSettled (c : Z) (w w' : World) : Prop :=
  CommissionSettled c w -> CommissionSettled c w'.

(** The purchase the marketplace proposed, as a request to the submitter. *)
Definition purchaseRequest (execution : ExecutionPayload)
  : ExecuteSeaportRequest :=
  {| req_router := ex_router execution;
     req_valueWei := ex_valueWei execution;
     req_calldata := RawCalldata (ex_calldata execution);
     req_callValueWei := Some 0 |}.

(** A chain on which submissions are accepted and confirmed. *)
Definition chainHealthy (env : Env) : Prop :=
  neverFails env
  /\ (forall t, exists n, env_getTransactionCount env t = Ok n)
  /\ (forall t txHash, env_waitForTransactionReceipt env t txHash = Ok true).

(** A computation every run of which relates the world before to the
    world after by [R], whatever it returns or throws. *)
Definition Stable {A} (R : World -> World -> Prop) (m : M A) : Prop :=
  forall w, R w (snd (m w)).

(** An empty nonce cache stays empty. *)
Definition KeepsCacheEmpty (w w' : World) : Prop :=
  cachedNonce w = None -> cachedNonce w' = None.

(** The events a submission of [call] may produce. *)
Definition submitterEvent (call : TreasuryCall) (e : Event) : Prop :=
  match e with
  | EvGetTransactionCount | EvEstimateFeesPerGas | EvGetGasPrice
  | EvLog _ _ => True
  | EvWriteContract c _ _ _ => c = call
  | _ => False
  end.

(** Reads of the chain a listing check makes. *)
Definition isListingCheck (e : Event) : bool :=
  match e with
  | EvReadOwnerOf _ _ | EvReadErc1155Balance _ _ _ => true
  | _ => false
  end.

(** The message the loop driver logs when a tick is cut short. *)
Definition tickFailure : Event := EvLog err "Bot loop iteration failed".

(** ** Counting and attributing submissions *)

(** Number of transactions handed to the wallet in a list of events. *)
Definition writesIn (events : list Event) : nat :=
  List.length (filter isSubmission events).

(** From [w] to [w'] at most [c] more transactions were handed to the
    wallet. *)
Definition Writes (c : nat) (w w' : World) : Prop :=
  (writesIn (trace w') <= writesIn (trace w) + c)%nat.

(** The events one submission of [call] under [nonce] may produce. *)
Definition submitsWith (call : TreasuryCall) (nonce : Z) (e : Event) : Prop :=
  match e with
  | EvGetTransactionCount | EvEstimateFeesPerGas | EvGetGasPrice
  | EvLog _ _ => True
  | EvWriteContract c n _ _ => c = call /\ n = nonce
  | _ => False
  end.

(** The nonce cache holds [nonce] or has been reset. *)
Definition cacheWithin (nonce : Z) (w : World) : Prop :=
  cachedNonce w = Some nonce \/ cachedNonce w = None.

(** The nonce a submission starts from: the cached one, else the pending
    transaction count the chain reports at that moment. *)
Definition acquiredNonce (env : Env) (w : World) : Result Z :=
  match cachedNonce w with
  | Some n => Ok n
  | None => env_getTransactionCount env (List.length (trace w))
  end.

(** ** The log ranges of a scan *)

(** The block ranges whose logs were requested, oldest request first (the
    trace has the newest event first). *)
Definition logRange (e : Event) : list (Z * Z) :=
  match e with
  | EvGetLogs fromBlock toBlock => [(fromBlock, toBlock)]
  | _ => []
  end.

Definition logRanges (events : list Event) : list (Z * Z) :=
  List.rev (flat_map logRange events).

(** [ranges] tile the blocks from [first] up to [next - 1], with no gap and
    no overlap; every range is [MAX_LOG_SPAN] blocks wide, except that none
    reaches beyond [latest]. *)
Fixpoint tiles (latest first : Z) (ranges : list (Z * Z)) (next : Z) : Prop :=
  match ranges with
  | [] => next = first
  | (fromBlock, toBlock) :: rest =>
      fromBlock = first
      /\ fromBlock <= latest
      /\ toBlock = Z.min (fromBlock + (Services.MAX_LOG_SPAN - 1)) latest
      /\ tiles latest (toBlock + 1) rest next
  end.

Definition isLogRequest (e : Event) : bool :=
  match e with EvGetLogs _ _ => true | _ => false end.

(** ** Listings kept and listings checked *)

(** [kept] is [all] with some elements left out, the others in the order
    they had. *)
Inductive Subsequence {A : Type} : list A -> list A -> Prop :=
| Subsequence_nil : Subsequence [] []
| Subsequence_keep (x : A) (kept all : list A) :
    Subsequence kept all -> Subsequence (x :: kept) (x :: all)
| Subsequence_drop (x : A) (kept all : list A) :
    Subsequence kept all -> Subsequence kept (x :: all).

(** Number of on-chain listing checks in a list of events. *)
Definition listingChecksIn (events : list Event) : nat :=
  List.length (filter isListingCheck events).

(** What the chain says about the listing [l] when asked at moment [t]:
    [Some true] the treasury still holds it, [Some false] it is gone,
    [None] the read, or the conversion of the token id, failed. *)
Definition verdictAt (cfg : Config) (env : Env) (t : nat)
           (l : ActiveListingState) : option bool :=
  match parseBigInt (tokenId l) with
  | Throw _ => None
  | Ok id =>
      match tokenStandard l with
      | erc1155 =>
          match env_erc1155BalanceOf env t (collection l)
                                     (TREASURY_ADDRESS cfg) id with
          | Ok balance =>
              Some (balance >? JS.nullish (expectedPostSaleBalance l) 0)
          | Throw _ => None
          end
      | erc721 =>
          match env_ownerOf env t (collection l) id with
          | Ok owner =>
              Some (String.eqb (JS.toLowerCase owner)
                               (JS.toLowerCase (TREASURY_ADDRESS cfg)))
          | Throw _ => None
          end
      end
  end.

(** The chain always reports, for the multi-token listing [l], a treasury
    balance at or below the balance expected after its sale (zero when none
    was recorded). *)
Definition balanceSpent (cfg : Config) (env : Env) (l : ActiveListingState)
  : Prop :=
  tokenStandard l = erc1155
  /\ exists id,
      parseBigInt (tokenId l) = Ok id
      /\ forall t, exists balance,
          env_erc1155BalanceOf env t (collection l) (TREASURY_ADDRESS cfg) id
          = Ok balance
          /\ balance <= JS.nullish (expectedPostSaleBalance l) 0.

(** The chain always reports a treasury balance above that. *)
Definition balanceHeld (cfg : Config) (env : Env) (l : ActiveListingState)
  : Prop :=
  tokenStandard l = erc1155
  /\ exists id,
      parseBigInt (tokenId l) = Ok id
      /\ forall t, exists balance,
          env_erc1155BalanceOf env t (collection l) (TREASURY_ADDRESS cfg) id
          = Ok balance
          /\ JS.nullish (expectedPostSaleBalance l) 0 < balance.

(** ** What a buyback may submit *)

(** Every transaction in the events is one [allowed] accepts. *)
Definition submitsOnly (allowed : TreasuryCall -> Prop) (e : Event) : Prop :=
  match e with
  | EvWriteContract call _ _ _ => allowed call
  | _ => True
  end.

(** A transfer of a positive amount of [token] to the burn address, sent
    through the treasury with no value attached. *)
Definition isBurnTransfer (cfg : Config) (token : Address)
           (call : TreasuryCall) : Prop :=
  match call with
  | ExecuteSeaportCall target value (TransferCall recipient burnt) =>
      target = token /\ value = 0 /\ recipient = BURN_ADDRESS cfg /\ 0 < burnt
  | _ => False
  end.

(** A swap of native currency for [token] through [router], worth a
    positive amount within [pool] and within the configured chunk, paid to
    the treasury. *)
Definition isBuybackSwap (cfg : Config) (token router weth : Address)
           (pool : Z) (call : TreasuryCall) : Prop :=
  match call with
  | ExecuteSeaportCall target value (SwapCall amountOutMin path recipient _) =>
      target = router
      /\ 0 < value <= pool
      /\ (forall chunk, BUYBACK_CHUNK_WEI cfg = Some chunk -> 0 < chunk ->
                        value <= chunk)
      /\ amountOutMin = 0
      /\ path = [weth; token]
      /\ recipient = TREASURY_ADDRESS cfg
  | _ => False
  end.

(** The amount one buyback spends: the whole sale pool, or a configured
    positive chunk when that is smaller. *)
Definition buybackAmount (cfg : Config) (s : BotState) : Z :=
  match BUYBACK_CHUNK_WEI cfg with
  | Some chunk =>
      if 0 <? chunk then Z.min (salePoolWei s) chunk else salePoolWei s
  | None => salePoolWei s
  end.

(** The ledger [s] once a buyback of [spent] is settled: nothing pending,
    the sale pool lowered by what was spent. *)
Definition settledAfter (spent : Z) (s : BotState) : BotState :=
  set_salePoolWei (salePoolWei s - spent)
                  (set_pendingBurnCostWei 0 (set_pendingBurnAmount 0 s)).

(** The token and the router answer every read. *)
Definition tokenReadable (cfg : Config) (env : Env) (token : Address) : Prop :=
  (forall t, env_routers env t token = Ok true)
  /\ (forall t, exists balance,
         env_erc20BalanceOf env t token (TREASURY_ADDRESS cfg) = Ok balance).

(** The pending burn as the database has it: the decimal strings of the
    amount and of its cost in the state row. *)
Definition durablePendingBurn (w : World) : option (string * string) :=
  match StateStore.db (store w) with
  | Some d =>
      option_map (fun row => (StateStore.row_pendingBurnAmount row,
                              StateStore.row_pendingBurnCostWei row))
                 (StateStore.state_table d)
  | None => None
  end.

(** The swap request of a buyback of [spent] prepared at clock reading
    [now] (milliseconds). *)
Definition swapRequest (cfg : Config) (token router weth : Address)
           (spent now : Z) : ExecuteSeaportRequest :=
  {| req_router := router;
     req_valueWei := spent;
     req_calldata :=
       SwapCall 0 [weth; token] (TREASURY_ADDRESS cfg) (now / 1000 + 15 * 60);
     req_callValueWei := Some 0 |}.

(** ** The listing a relist records *)

(** The ledger entry for a single-owner token relisted at clock reading
    [now]: the quantity is the end amount of the offer when positive, else
    its start amount when positive, else one. *)
Definition relistedListing (metadata : OpenSeaListingBlueprint)
           (listing : ListingResult) (now : Z) : ActiveListingState :=
  {| orderHash := lr_orderHash listing;
     collection := offerToken metadata;
     tokenId := JS.toString (offerIdentifier metadata);
     expectedProceedsWei := sellerProceedsWei listing;
     listedAtMs := now;
     tokenStandard := erc721;
     listedQuantity :=
       if 0 <? offerEndAmount metadata then offerEndAmount metadata
       else if 0 <? offerStartAmount metadata then offerStartAmount metadata
            else 1;
     expectedPostSaleBalance := None |}.

(** ** Solvency of the ledger *)

(** No amount of the ledger is negative. *)
Definition solvent (s : BotState) : Prop :=
  0 <= commissionPoolWei s /\ 0 <= salePoolWei s
  /\ 0 <= pendingBurnAmount s /\ 0 <= pendingBurnCostWei s.

(** A ledger is loaded and it is solvent. *)
Definition Solvent (w : World) : Prop :=
  match StateStore.state (store w) with
  | Some s => solvent s
  | None => False
  end.

Definition StaysSolvent (w w' : World) : Prop := Solvent w -> Solvent w'.

(** The read [waitForNftOwnership] makes for a token of the given item
    type. *)
Definition ownershipRead (collection : Address) (tokenId : Z)
           (expectedOwner : Address) (itemType : Z) : Event :=
  if itemType =? ListingSteps.SEAPORT_ITEM_TYPE_ERC1155
  then EvReadErc1155Balance collection expectedOwner tokenId
  else EvReadOwnerOf collection tokenId.

(** What the chain says at moment [t] about the treasury holding the
    token: [Ok true] it does, [Ok false] it does not, [Throw] the read
    fails. *)
Definition ownershipAt (env : Env) (collection : Address) (tokenId : Z)
           (expectedOwner : Address) (itemType quantity : Z) (t : nat)
  : Result bool :=
  if itemType =? ListingSteps.SEAPORT_ITEM_TYPE_ERC1155 then
    match env_erc1155BalanceOf env t collection expectedOwner tokenId with
    | Ok balance => Ok (balance >=? quantity)
    | Throw e => Throw e
    end
  else
    match env_ownerOf env t collection tokenId with
    | Ok owner =>
        Ok (String.eqb (JS.toLowerCase owner) (JS.toLowerCase expectedOwner))
    | Throw e => Throw e
    end.

(** The trace, newest first, of [k + 1] ownership reads with a pause
    before each but the first. *)
Definition ownershipChecks (read : Event) (k : nat) : list Event :=
  read :: concat (repeat [EvDelay ListingSteps.OWNERSHIP_CHECK_DELAY_MS; read] k).

(** The message of the error that ends an unsuccessful wait. *)
Definition ownershipTimeout (collection : Address) (tokenId : Z)
           (itemType quantity : Z) : string :=
  if itemType =? ListingSteps.SEAPORT_ITEM_TYPE_ERC1155
  then "Treasury balance for token " ++ JS.toString tokenId ++ " on "
       ++ collection ++ " did not reach " ++ JS.toString quantity
       ++ " after 3 checks."
  else "Token " ++ JS.toString tokenId ++ " on " ++ collection
       ++ " is not owned by treasury after 3 checks.".

(** What [keccak256] returns: the hex spelling of a 32-byte word. *)
Definition isWord (h : Hex) : Prop :=
  exists word,
    h = Viem.bytesToHex word /\ List.length word = 32%nat
    /\ String.length h = 66%nat.

(** ** What a purchase may submit *)

(** The purchase the marketplace proposed in [execution], passed on as it
    came, worth a positive amount within [pool]. *)
Definition isPurchase (pool : Z) (execution : ExecutionPayload)
           (call : TreasuryCall) : Prop :=
  match call with
  | ExecuteSeaportCall target value (RawCalldata data) =>
      target = ex_router execution
      /\ value = ex_valueWei execution
      /\ data = ex_calldata execution
      /\ 0 < value <= pool
  | _ => False
  end.

(** What the code of [attemptPurchaseAndListing] itself may do towards the
    wallet and the listing helper when the marketplace answered [offer] and
    the pool held [pool]: the only transaction it writes is the offered
    purchase, and it starts the listing helper only for such a purchase, at
    its price. The transactions the helper sends once started (its
    collection approval and order validation) are part of the step
    [EvCreateListing] and are not told apart here. *)
Definition purchaseEvent (pool : Z) (offer : Result ExecutionPayload)
           (e : Event) : Prop :=
  match e with
  | EvWriteContract call _ _ _ =>
      exists execution,
        offer = Ok execution /\ isPurchase pool execution call
  | EvCreateListing price =>
      exists execution,
        offer = Ok execution
        /\ price = ex_valueWei execution
        /\ 0 < price <= pool
  | _ => True
  end.

(** ** A transaction accepted by the wallet *)



(** ** What a scan collected *)


(* ===================================================================== *)
(** * Sample inputs *)
(* ===================================================================== *)

(** Replacing one collaborator of an environment. *)
Definition with_getBlockNumber (f : nat -> Result N) (env : Env) : Env :=
  {| env_getBlockNumber := f; env_getLogs := env_getLogs env;
     env_routers := env_routers env;
     env_erc20BalanceOf := env_erc20BalanceOf env;
     env_ownerOf := env_ownerOf env;
     env_erc1155BalanceOf := env_erc1155BalanceOf env;
     env_getTransactionCount := env_getTransactionCount env;
     env_estimateFeesPerGas := env_estimateFeesPerGas env;
     env_getGasPrice := env_getGasPrice env;
     env_writeContract := env_writeContract env;
     env_waitForTransactionReceipt := env_waitForTransactionReceipt env;
     env_fetchOpenSeaBuyExecution := env_fetchOpenSeaBuyExecution env;
     env_createOpenSeaListing := env_createOpenSeaListing env;
     env_now := env_now env |}.
Definition with_getLogs (f : nat -> Z -> Z -> Result (list TaxLog)) (env : Env) : Env :=
  {| env_getBlockNumber := env_getBlockNumber env; env_getLogs := f;
     env_routers := env_routers env;
     env_erc20BalanceOf := env_erc20BalanceOf env;
     env_ownerOf := env_ownerOf env;
     env_erc1155BalanceOf := env_erc1155BalanceOf env;
     env_getTransactionCount := env_getTransactionCount env;
     env_estimateFeesPerGas := env_estimateFeesPerGas env;
     env_getGasPrice := env_getGasPrice env;
     env_writeContract := env_writeContract env;
     env_waitForTransactionReceipt := env_waitForTransactionReceipt env;
     env_fetchOpenSeaBuyExecution := env_fetchOpenSeaBuyExecution env;
     env_createOpenSeaListing := env_createOpenSeaListing env;
     env_now := env_now env |}.
Definition with_routers (f : nat -> Address -> Result bool) (env : Env) : Env :=
  {| env_getBlockNumber := env_getBlockNumber env;
     env_getLogs := env_getLogs env; env_routers := f;
     env_erc20BalanceOf := env_erc20BalanceOf env;
     env_ownerOf := env_ownerOf env;
     env_erc1155BalanceOf := env_erc1155BalanceOf env;
     env_getTransactionCount := env_getTransactionCount env;
     env_estimateFeesPerGas := env_estimateFeesPerGas env;
     env_getGasPrice := env_getGasPrice env;
     env_writeContract := env_writeContract env;
     env_waitForTransactionReceipt := env_waitForTransactionReceipt env;
     env_fetchOpenSeaBuyExecution := env_fetchOpenSeaBuyExecution env;
     env_createOpenSeaListing := env_createOpenSeaListing env;
     env_now := env_now env |}.
Definition with_erc20BalanceOf (f : nat -> Address -> Address -> Result Z) (env : Env) : Env :=
  {| env_getBlockNumber := env_getBlockNumber env;
     env_getLogs := env_getLogs env; env_routers := env_routers env;
     env_erc20BalanceOf := f; env_ownerOf := env_ownerOf env;
     env_erc1155BalanceOf := env_erc1155BalanceOf env;
     env_getTransactionCount := env_getTransactionCount env;
     env_estimateFeesPerGas := env_estimateFeesPerGas env;
     env_getGasPrice := env_getGasPrice env;
     env_writeContract := env_writeContract env;
     env_waitForTransactionReceipt := env_waitForTransactionReceipt env;
     env_fetchOpenSeaBuyExecution := env_fetchOpenSeaBuyExecution env;
     env_createOpenSeaListing := env_createOpenSeaListing env;
     env_now := env_now env |}.
Definition with_ownerOf (f : nat -> Address -> Z -> Result string) (env : Env) : Env :=
  {| env_getBlockNumber := env_getBlockNumber env;
     env_getLogs := env_getLogs env; env_routers := env_routers env;
     env_erc20BalanceOf := env_erc20BalanceOf env; env_ownerOf := f;
     env_erc1155BalanceOf := env_erc1155BalanceOf env;
     env_getTransactionCount := env_getTransactionCount env;
     env_estimateFeesPerGas := env_estimateFeesPerGas env;
     env_getGasPrice := env_getGasPrice env;
     env_writeContract := env_writeContract env;
     env_waitForTransactionReceipt := env_waitForTransactionReceipt env;
     env_fetchOpenSeaBuyExecution := env_fetchOpenSeaBuyExecution env;
     env_createOpenSeaListing := env_createOpenSeaListing env;
     env_now := env_now env |}.
Definition with_erc1155BalanceOf (f : nat -> Address -> Address -> Z -> Result Z) (env : Env) : Env :=
  {| env_getBlockNumber := env_getBlockNumber env;
     env_getLogs := env_getLogs env; env_routers := env_routers env;
     env_erc20BalanceOf := env_erc20BalanceOf env;
     env_ownerOf := env_ownerOf env; env_erc1155BalanceOf := f;
     env_getTransactionCount := env_getTransactionCount env;
     env_estimateFeesPerGas := env_estimateFeesPerGas env;
     env_getGasPrice := env_getGasPrice env;
     env_writeContract := env_writeContract env;
     env_waitForTransactionReceipt := env_waitForTransactionReceipt env;
     env_fetchOpenSeaBuyExecution := env_fetchOpenSeaBuyExecution env;
     env_createOpenSeaListing := env_createOpenSeaListing env;
     env_now := env_now env |}.
Definition with_getTransactionCount (f : nat -> Result Z) (env : Env) : Env :=
  {| env_getBlockNumber := env_getBlockNumber env;
     env_getLogs := env_getLogs env; env_routers := env_routers env;
     env_erc20BalanceOf := env_erc20BalanceOf env;
     env_ownerOf := env_ownerOf env;
     env_erc1155BalanceOf := env_erc1155BalanceOf env;
     env_getTransactionCount := f;
     env_estimateFeesPerGas := env_estimateFeesPerGas env;
     env_getGasPrice := env_getGasPrice env;
     env_writeContract := env_writeContract env;
     env_waitForTransactionReceipt := env_waitForTransactionReceipt env;
     env_fetchOpenSeaBuyExecution := env_fetchOpenSeaBuyExecution env;
     env_createOpenSeaListing := env_createOpenSeaListing env;
     env_now := env_now env |}.
Definition with_estimateFeesPerGas (f : nat -> Result (option Z * option Z)) (env : Env) : Env :=
  {| env_getBlockNumber := env_getBlockNumber env;
     env_getLogs := env_getLogs env; env_routers := env_routers env;
     env_erc20BalanceOf := env_erc20BalanceOf env;
     env_ownerOf := env_ownerOf env;
     env_erc1155BalanceOf := env_erc1155BalanceOf env;
     env_getTransactionCount := env_getTransactionCount env;
     env_estimateFeesPerGas := f; env_getGasPrice := env_getGasPrice env;
     env_writeContract := env_writeContract env;
     env_waitForTransactionReceipt := env_waitForTransactionReceipt env;
     env_fetchOpenSeaBuyExecution := env_fetchOpenSeaBuyExecution env;
     env_createOpenSeaListing := env_createOpenSeaListing env;
     env_now := env_now env |}.
Definition with_getGasPrice (f : nat -> Result Z) (env : Env) : Env :=
  {| env_getBlockNumber := env_getBlockNumber env;
     env_getLogs := env_getLogs env; env_routers := env_routers env;
     env_erc20BalanceOf := env_erc20BalanceOf env;
     env_ownerOf := env_ownerOf env;
     env_erc1155BalanceOf := env_erc1155BalanceOf env;
     env_getTransactionCount := env_getTransactionCount env;
     env_estimateFeesPerGas := env_estimateFeesPerGas env;
     env_getGasPrice := f; env_writeContract := env_writeContract env;
     env_waitForTransactionReceipt := env_waitForTransactionReceipt env;
     env_fetchOpenSeaBuyExecution := env_fetchOpenSeaBuyExecution env;
     env_createOpenSeaListing := env_createOpenSeaListing env;
     env_now := env_now env |}.
Definition with_writeContract (f : nat -> TreasuryCall -> Z -> Z -> Z -> Result Hex) (env : Env) : Env :=
  {| env_getBlockNumber := env_getBlockNumber env;
     env_getLogs := env_getLogs env; env_routers := env_routers env;
     env_erc20BalanceOf := env_erc20BalanceOf env;
     env_ownerOf := env_ownerOf env;
     env_erc1155BalanceOf := env_erc1155BalanceOf env;
     env_getTransactionCount := env_getTransactionCount env;
     env_estimateFeesPerGas := env_estimateFeesPerGas env;
     env_getGasPrice := env_getGasPrice env; env_writeContract := f;
     env_waitForTransactionReceipt := env_waitForTransactionReceipt env;
     env_fetchOpenSeaBuyExecution := env_fetchOpenSeaBuyExecution env;
     env_createOpenSeaListing := env_createOpenSeaListing env;
     env_now := env_now env |}.
Definition with_waitForTransactionReceipt (f : nat -> Hex -> Result bool) (env : Env) : Env :=
  {| env_getBlockNumber := env_getBlockNumber env;
     env_getLogs := env_getLogs env; env_routers := env_routers env;
     env_erc20BalanceOf := env_erc20BalanceOf env;
     env_ownerOf := env_ownerOf env;
     env_erc1155BalanceOf := env_erc1155BalanceOf env;
     env_getTransactionCount := env_getTransactionCount env;
     env_estimateFeesPerGas := env_estimateFeesPerGas env;
     env_getGasPrice := env_getGasPrice env;
     env_writeContract := env_writeContract env;
     env_waitForTransactionReceipt := f;
     env_fetchOpenSeaBuyExecution := env_fetchOpenSeaBuyExecution env;
     env_createOpenSeaListing := env_createOpenSeaListing env;
     env_now := env_now env |}.
Definition with_fetchOpenSeaBuyExecution (f : nat -> Result ExecutionPayload) (env : Env) : Env :=
  {| env_getBlockNumber := env_getBlockNumber env;
     env_getLogs := env_getLogs env; env_routers := env_routers env;
     env_erc20BalanceOf := env_erc20BalanceOf env;
     env_ownerOf := env_ownerOf env;
     env_erc1155BalanceOf := env_erc1155BalanceOf env;
     env_getTransactionCount := env_getTransactionCount env;
     env_estimateFeesPerGas := env_estimateFeesPerGas env;
     env_getGasPrice := env_getGasPrice env;
     env_writeContract := env_writeContract env;
     env_waitForTransactionReceipt := env_waitForTransactionReceipt env;
     env_fetchOpenSeaBuyExecution := f;
     env_createOpenSeaListing := env_createOpenSeaListing env;
     env_now := env_now env |}.
Definition with_createOpenSeaListing (f : nat -> option Z -> OpenSeaListingBlueprint -> Z -> Result (option ListingResult) * option Z) (env : Env) : Env :=
  {| env_getBlockNumber := env_getBlockNumber env;
     env_getLogs := env_getLogs env; env_routers := env_routers env;
     env_erc20BalanceOf := env_erc20BalanceOf env;
     env_ownerOf := env_ownerOf env;
     env_erc1155BalanceOf := env_erc1155BalanceOf env;
     env_getTransactionCount := env_getTransactionCount env;
     env_estimateFeesPerGas := env_estimateFeesPerGas env;
     env_getGasPrice := env_getGasPrice env;
     env_writeContract := env_writeContract env;
     env_waitForTransactionReceipt := env_waitForTransactionReceipt env;
     env_fetchOpenSeaBuyExecution := env_fetchOpenSeaBuyExecution env;
     env_createOpenSeaListing := f; env_now := env_now env |}.
Definition with_now (f : nat -> Z) (env : Env) : Env :=
  {| env_getBlockNumber := env_getBlockNumber env;
     env_getLogs := env_getLogs env; env_routers := env_routers env;
     env_erc20BalanceOf := env_erc20BalanceOf env;
     env_ownerOf := env_ownerOf env;
     env_erc1155BalanceOf := env_erc1155BalanceOf env;
     env_getTransactionCount := env_getTransactionCount env;
     env_estimateFeesPerGas := env_estimateFeesPerGas env;
     env_getGasPrice := env_getGasPrice env;
     env_writeContract := env_writeContract env;
     env_waitForTransactionReceipt := env_waitForTransactionReceipt env;
     env_fetchOpenSeaBuyExecution := env_fetchOpenSeaBuyExecution env;
     env_createOpenSeaListing := env_createOpenSeaListing env;
     env_now := f |}.

(** A healthy chain: every read answers, every write is accepted and
    confirmed; the marketplace has nothing to offer. *)
Definition steadyEnv : Env :=
  {| env_getBlockNumber := fun _ => Ok 15%N;
     env_getLogs := fun _ _ _ => Ok [];
     env_routers := fun _ _ => Ok true;
     env_erc20BalanceOf := fun _ _ _ => Ok 0;
     env_ownerOf := fun _ _ _ => Ok "0x00000000000000000000000000000000000000aa";
     env_erc1155BalanceOf := fun _ _ _ _ => Ok 0;
     env_getTransactionCount := fun _ => Ok 7;
     env_estimateFeesPerGas := fun _ => Ok (Some 100, Some 2);
     env_getGasPrice := fun _ => Ok 100;
     env_writeContract := fun _ _ nonce _ _ => Ok (JS.toString nonce);
     env_waitForTransactionReceipt := fun _ _ => Ok true;
     env_fetchOpenSeaBuyExecution := fun _ => Throw (Error "no listing found");
     env_createOpenSeaListing := fun _ cache _ _ => (Ok None, cache);
     env_now := fun t => 1760194913000 + Z.of_nat t |}.

Definition sampleTreasury : Address :=
  "0x3d2C8b92F3fE48e0961d5F9E64506A4E92CE7899".
Definition sampleToken : Address :=
  "0x00000000000000000000000000000000000000c1".

Definition sampleConfig : Config :=
  {| TREASURY_ADDRESS := sampleTreasury;
     TOKEN_ADDRESS := Some sampleToken;
     BUYBACK_ROUTER_ADDRESS := Some "0x00000000000000000000000000000000000000b2";
     WETH_ADDRESS := Some "0x4200000000000000000000000000000000000006";
     BURN_ADDRESS := "0x000000000000000000000000000000000000dEaD";
     TARGET_COLLECTION := Some "0x32911f93f2cb1d4d29aeed1657b9bb463461c825";
     TARGET_COLLECTION_SLUG := None;
     TARGET_TOKEN_ID := None;
     LOOP_INTERVAL_MS := 15000;
     ACTION_COOLDOWN_MS := 5000;
     BUYBACK_CHUNK_WEI := None;
     MAX_LISTING_CHECKS_PER_TICK := 3;
     LOG_FETCH_THROTTLE_MS := 0 |}.

(** A process whose store holds [s] in memory and [d] on disk. *)
Definition worldOf (d : StateStore.Database) (s : BotState)
           (cache : option Z) : World :=
  {| store := {| StateStore.db := Some d; StateStore.state := Some s |};
     cachedNonce := cache;
     trace := [] |}.

Definition sampleCall : TreasuryCall :=
  ExecuteSeaportCall sampleToken 0
    (TransferCall "0x000000000000000000000000000000000000dEaD" 5).

(** A wallet that rejects the first two fee levels as too low and the last
    one with a stale nonce. *)
Definition staleAtLastStepEnv : Env :=
  with_writeContract
    (fun _ _ _ maxFee _ =>
       if maxFee =? 140 then Throw (Error "Nonce too low")
       else Throw (Error "Fee too low"))
    (with_getTransactionCount (fun _ => Ok 9) steadyEnv).

(** A wallet that rejects the first fee level with a stale nonce and
    accepts the next one. *)
Definition staleAtFirstStepEnv : Env :=
  with_writeContract
    (fun _ _ _ maxFee _ =>
       if maxFee =? 100 then Throw (Error "nonce too low")
       else Ok "0xabc")
    steadyEnv.

(** A process with an empty ledger and the given nonce cache. *)
Definition idleWorld (cache : option Z) : World :=
  worldOf StateStore.emptyDatabase (StateStore.createDefaultState 9) cache.

(** The consideration of the reference order: seller proceeds and a
    marketplace fee. *)
Definition sampleConsideration : list OpenSeaListingConsiderationBlueprint :=
  [{| cb_itemType := 0;
      cb_token := "0x0000000000000000000000000000000000000000";
      cb_identifierOrCriteria := 0;
      originalAmount := 1188000000000;
      cb_recipient := "0x00000000000000000000000000000000000000e5";
      isSellerProceeds := true |};
   {| cb_itemType := 0;
      cb_token := "0x0000000000000000000000000000000000000000";
      cb_identifierOrCriteria := 0;
      originalAmount := 12000000000;
      cb_recipient := "0x0000a26b00c1f0df003000390027140000faa719";
      isSellerProceeds := false |}].


(** A chain at block 15 with one tax payment of 500 to the treasury in the
    range starting at block 10, next to a payment to somebody else. *)
Definition taxEnv : Env :=
  with_getLogs
    (fun _ fromBlock _ =>
       if fromBlock =? 10
       then Ok [{| log_recipient := Some "0x3D2c8B92f3Fe48E0961D5f9e64506a4e92ce7899";
                   log_amount := Some 500 |};
                {| log_recipient := Some "0x00000000000000000000000000000000000000aa";
                   log_amount := Some 77 |}]
       else Ok [])
    steadyEnv.

(** A single-owner listing of token [id] whose sale brings [proceeds]. *)
Definition proceedsListing (hash id : string) (proceeds : Z)
  : ActiveListingState :=
  {| orderHash := hash;
     collection := "0x32911f93f2cb1d4d29aeed1657b9bb463461c825";
     tokenId := id;
     expectedProceedsWei := proceeds;
     listedAtMs := 100;
     tokenStandard := erc721;
     listedQuantity := 1;
     expectedPostSaleBalance := None |}.

(** A ledger with the given listings and an empty sale pool. *)
Definition listedLedger (listings : list ActiveListingState) : BotState :=
  {| version := 3;
     commissionPoolWei := 300;
     salePoolWei := 0;
     pendingBurnAmount := 0;
     pendingBurnCostWei := 0;
     activeListings := listings;
     lastTaxBlock := 15 |}.

(** The database holding exactly the ledger [s]. *)
Definition snapshotOf (s : BotState) : StateStore.Database :=
  match StateStore.persistState StateStore.emptyDatabase s with
  | Ok d => d
  | Throw _ => StateStore.emptyDatabase
  end.

(** A chain on which token 1 has left the treasury, the owner of token 2
    cannot be read, and every other token is still held by the treasury. *)
Definition marketEnv : Env :=
  with_ownerOf
    (fun _ _ id =>
       if id =? 1 then Ok "0x00000000000000000000000000000000000000AA"
       else if id =? 2 then Throw (Error "execution reverted")
       else Ok "0x3d2c8b92f3fe48e0961d5f9e64506a4e92ce7899")
    steadyEnv.

Definition soldListing : ActiveListingState := proceedsListing "0x01" "1" 1300.
Definition unreadableListing : ActiveListingState :=
  proceedsListing "0x02" "2" 700.
Definition heldListing : ActiveListingState := proceedsListing "0x03" "3" 900.
Definition freeListing : ActiveListingState := proceedsListing "0x04" "1" 0.

(** A marketplace offering one token for 400, without the metadata a
    relist would need. *)
Definition offeredExecution : ExecutionPayload :=
  {| ex_router := "0x00000000000000000000000000000000000000d4";
     ex_calldata := "0xfb0f3ee1";
     ex_valueWei := 400;
     ex_priceWei := Some 400;
     openSeaMetadata := None |}.

Definition offerEnv : Env :=
  with_fetchOpenSeaBuyExecution (fun _ => Ok offeredExecution) steadyEnv.

(** The chain of [marketEnv] whose head block cannot be read. *)
Definition headlessEnv : Env :=
  with_getBlockNumber (fun _ => Throw (Error "request timed out")) marketEnv.

(** The chain of [marketEnv] with a wallet that rejects every write. *)
Definition stuckWalletEnv : Env :=
  with_writeContract (fun _ _ _ _ _ => Throw (Error "execution reverted"))
                     marketEnv.

(** A process whose ledger lists the token that has been sold. *)
Definition soldWorld : World :=
  worldOf (snapshotOf (listedLedger [soldListing]))
          (listedLedger [soldListing]) None.

(** A wallet that rejects every write as reverted. *)
Definition revertingWalletEnv : Env :=
  with_writeContract (fun _ _ _ _ _ => Throw (Error "execution reverted"))
                     steadyEnv.

(** A chain whose head is at block 30, and a ledger that has collected up
    to block 3. *)
Definition aheadEnv : Env := with_getBlockNumber (fun _ => Ok 30%N) steadyEnv.

Definition laggingLedger : BotState :=
  {| version := 3;
     commissionPoolWei := 1000;
     salePoolWei := 0;
     pendingBurnAmount := 0;
     pendingBurnCostWei := 0;
     activeListings := [];
     lastTaxBlock := 3 |}.

(** A chain whose log provider refuses every request. *)
Definition deafEnv : Env :=
  with_getLogs (fun _ _ _ => Throw (Error "rate limited")) steadyEnv.

(** A chain on which the treasury holds five units of token 7 and none of
    any other multi-token id. *)
Definition vaultEnv : Env :=
  with_erc1155BalanceOf (fun _ _ _ id => Ok (if id =? 7 then 5 else 0))
                        steadyEnv.

(** A multi-token listing of token [id], with the balance expected once it
    is sold. *)
Definition unitsListing (hash id : string) (after : option Z)
  : ActiveListingState :=
  {| orderHash := hash;
     collection := "0x32911f93f2cb1d4d29aeed1657b9bb463461c825";
     tokenId := id;
     expectedProceedsWei := 400;
     listedAtMs := 100;
     tokenStandard := erc1155;
     listedQuantity := 1;
     expectedPostSaleBalance := after |}.

(** A ledger with sale proceeds waiting to be spent on a buyback. *)
Definition fundedLedger : BotState :=
  {| version := 3;
     commissionPoolWei := 300;
     salePoolWei := 1300;
     pendingBurnAmount := 0;
     pendingBurnCostWei := 0;
     activeListings := [];
     lastTaxBlock := 15 |}.

Definition sampleRouter : Address :=
  "0x00000000000000000000000000000000000000b2".
Definition sampleWeth : Address :=
  "0x4200000000000000000000000000000000000006".

(** A healthy chain on which the treasury's token balance rises from 10 to
    60 once a swap has gone through. *)
Definition swapEnv : Env :=
  with_erc20BalanceOf
    (fun t _ _ => Ok (if (t <=? 3)%nat then 10 else 60))
    steadyEnv.

(** A legacy JSON ledger of version 1 without the fields added later. *)
Definition legacySample : StateStore.LegacySerializedState :=
  {| StateStore.lg_version := Some 1;
     StateStore.lg_commissionPoolWei := Some "1000";
     StateStore.lg_salePoolWei := Some "250";
     StateStore.lg_activeListings := None;
     StateStore.lg_lastTaxBlock := Some "77";
     StateStore.lg_pendingBurnAmount := None;
     StateStore.lg_pendingBurnCostWei := None |}.

(** A legacy JSON ledger whose sale pool is not an integer. *)
Definition unreadableLegacySample : StateStore.LegacySerializedState :=
  {| StateStore.lg_version := Some 1;
     StateStore.lg_commissionPoolWei := Some "1000";
     StateStore.lg_salePoolWei := Some "12.5";
     StateStore.lg_activeListings := None;
     StateStore.lg_lastTaxBlock := Some "77";
     StateStore.lg_pendingBurnAmount := None;
     StateStore.lg_pendingBurnCostWei := None |}.

(** The blueprint of a single-owner token bought on the marketplace, an
    execution that carries it, and a marketplace that lists it back for
    470 of seller proceeds. *)
Definition sampleBlueprint : OpenSeaListingBlueprint :=
  {| protocolAddress := "0x0000000000000068F116a894984e2DB1123eB395";
     offerToken := "0x32911f93f2cb1d4d29aeed1657b9bb463461c825";
     offerIdentifier := 15732;
     offerItemType := 2;
     offerStartAmount := 1;
     offerEndAmount := 1;
     bp_conduitKey :=
       "0x0000007b02230091a7ed01230072f7006a004d60a8d4e71d599b8104250f0000";
     bp_zone := "0x0000000000000000000000000000000000000000";
     bp_zoneHash :=
       "0x0000000000000000000000000000000000000000000000000000000000000000";
     bp_orderType := 0;
     bp_consideration := sampleConsideration;
     bp_totalOriginalConsiderationItems := 2;
     originalConsiderationTotal := 1200000000000;
     bp_counter := 0 |}.

Definition relistExecution : ExecutionPayload :=
  {| ex_router := "0x00000000000000000000000000000000000000d4";
     ex_calldata := "0xfb0f3ee1";
     ex_valueWei := 400;
     ex_priceWei := Some 400;
     openSeaMetadata := Some sampleBlueprint |}.

Definition relistEnv : Env :=
  with_createOpenSeaListing
    (fun _ cache _ _ =>
       (Ok (Some {| lr_orderHash := "0x99";
                    sellerProceedsWei := 470;
                    listingPriceWei := 480 |}), cache))
    steadyEnv.

(** The same marketplace, offering that token for 400. *)
Definition relistMarketEnv : Env :=
  with_fetchOpenSeaBuyExecution (fun _ => Ok relistExecution) relistEnv.

(** Sample ledgers used to exercise the store. *)
Definition sampleListing (hash : string) (listedAt : Z) : ActiveListingState :=
  {| orderHash := hash;
     collection := "0x32911f93f2cb1d4d29aeed1657b9bb463461c825";
     tokenId := "15732";
     expectedProceedsWei := 1300;
     listedAtMs := listedAt;
     tokenStandard := erc721;
     listedQuantity := 1;
     expectedPostSaleBalance := None |}.

Definition sampleLedger (v : Z) (listings : list ActiveListingState) : BotState :=
  {| version := v;
     commissionPoolWei := 1000;
     salePoolWei := 0;
     pendingBurnAmount := 0;
     pendingBurnCostWei := 0;
     activeListings := listings;
     lastTaxBlock := 9 |}.

(** The order of the hash scripts: one token offered for a payment to the
    seller and a marketplace fee. *)
Definition referenceOrder : OrderHash.SeaportOrderComponents :=
  {| OrderHash.offerer := "0x3d2C8b92F3fE48e0961d5F9E64506A4E92CE7899";
     OrderHash.zone := "0x0000000000000000000000000000000000000000";
     OrderHash.offer :=
       [{| OrderHash.oi_itemType := 2;
           OrderHash.oi_token := "0x32911f93f2cb1d4d29aeed1657b9bb463461c825";
           OrderHash.oi_identifierOrCriteria := 15732;
           OrderHash.oi_startAmount := 1;
           OrderHash.oi_endAmount := 1 |}];
     OrderHash.consideration :=
       [{| OrderHash.ci_itemType := 0;
           OrderHash.ci_token := "0x0000000000000000000000000000000000000000";
           OrderHash.ci_identifierOrCriteria := 0;
           OrderHash.ci_startAmount := 1188000000000;
           OrderHash.ci_endAmount := 1188000000000;
           OrderHash.ci_recipient :=
             "0x3d2C8b92F3fE48e0961d5F9E64506A4E92CE7899" |};
        {| OrderHash.ci_itemType := 0;
           OrderHash.ci_token := "0x0000000000000000000000000000000000000000";
           OrderHash.ci_identifierOrCriteria := 0;
           OrderHash.ci_startAmount := 12000000000;
           OrderHash.ci_endAmount := 12000000000;
           OrderHash.ci_recipient :=
             "0x0000a26b00c1f0df003000390027140000faa719" |}];
     OrderHash.orderType := 0;
     OrderHash.startTime := 1760194913;
     OrderHash.endTime := 1760799713;
     OrderHash.zoneHash :=
       "0x0000000000000000000000000000000000000000000000000000000000000000";
     OrderHash.salt :=
       45098155637406307286356911903888948148232505984125529601510462205938214888662;
     OrderHash.conduitKey :=
       "0x0000007b02230091a7ed01230072f7006a004d60a8d4e71d599b8104250f0000";
     OrderHash.totalOriginalConsiderationItems := 2;
     OrderHash.counter := 0 |}.

(** A stand-in for the ABI encoder on static types: each value becomes one
    32-byte word, a number big-endian, a hex string left-padded with zero
    bytes; a string that is not hex counts as the zero word. *)
Fixpoint bigEndian (n : nat) (z : Z) : list Byte.byte :=
  match n with
  | O => []
  | S n' => bigEndian n' (z / 256) ++ [Keccak.byteOfN (Z.to_N (z mod 256))]
  end.

Definition wordOf (v : OrderHash.AbiValue) : list Byte.byte :=
  match v with
  | OrderHash.NumValue n => bigEndian 32 n
  | OrderHash.HexValue h =>
      match Viem.hexToBytes h with
      | Ok bs => repeat Byte.x00 (32 - List.length bs) ++ bs
      | Throw _ => repeat Byte.x00 32
      end
  end.

Definition wordEncoder (types : list OrderHash.AbiType)
           (values : list OrderHash.AbiValue) : Result Hex :=
  Ok (Viem.bytesToHex (flat_map wordOf values)).

(* ===================================================================== *)
(** * Properties *)
(* ===================================================================== *)

(** ** Consideration rescale *)

Section ScaleConsideration.

Import OpenseaListings.

Variable TREASURY_ADDRESS : Address.
Variables originalTotal newTotal : Z.

(** The truncated share computed for every item by the loop body. *)
Let share (it : OpenSeaListingConsiderationBlueprint) : Z :=
  Z.quot (newTotal * originalAmount it) originalTotal.

Lemma sumZ_cons (a : Z) (l : list Z) : sumZ (a :: l) = a + sumZ l.
Proof. reflexivity. Qed.

Lemma sumZ_app (l1 l2 : list Z) : sumZ (l1 ++ l2) = sumZ l1 + sumZ l2.
Proof.
  induction l1 as [|a l1 IH]; simpl; [reflexivity|].
  rewrite IH. lia.
Qed.

Lemma scaleLoop_cons (len index : nat) item rest remainder :
  scaleLoop TREASURY_ADDRESS len originalTotal newTotal index (item :: rest)
            remainder
  = {| sc_itemType := cb_itemType item;
       sc_token := cb_token item;
       sc_identifierOrCriteria := cb_identifierOrCriteria item;
       amount := if Nat.eqb index (len - 1)
                 then (if 0 <? remainder then remainder else 0)
                 else share item;
       sc_recipient := if isSellerProceeds item then TREASURY_ADDRESS
                       else cb_recipient item |}
    :: scaleLoop TREASURY_ADDRESS len originalTotal newTotal (S index) rest
                 (if Nat.eqb index (len - 1) then remainder
                  else remainder - share item).
Proof. reflexivity. Qed.

Lemma scaleLoop_amounts (len : nat) :
  forall items index remainder,
    (index + List.length items = len)%nat ->
    items <> [] ->
    map amount
        (scaleLoop TREASURY_ADDRESS len originalTotal newTotal index items
                   remainder)
    = map share (removelast items)
      ++ [let r := remainder - sumZ (map share (removelast items)) in
          if 0 <? r then r else 0].
Proof.
  induction items as [|x items IH]; intros index remainder Hlen Hne.
  - congruence.
  - destruct items as [|y rest].
    + simpl in Hlen. simpl.
      replace (Nat.eqb index (len - 1)) with true
        by (symmetry; apply Nat.eqb_eq; lia).
      simpl. rewrite Z.sub_0_r. reflexivity.
    + rewrite scaleLoop_cons.
      replace (Nat.eqb index (len - 1)) with false
        by (symmetry; apply Nat.eqb_neq; simpl in Hlen; lia).
      rewrite map_cons, IH; [|simpl in *; lia|discriminate].
      change (removelast (x :: y :: rest)) with (x :: removelast (y :: rest)).
      rewrite !map_cons. cbn [amount sumZ fold_right app].
      f_equal. f_equal.
      fold (sumZ (map share (removelast (y :: rest)))).
      replace (remainder - share x - sumZ (map share (removelast (y :: rest))))
        with (remainder - (share x + sumZ (map share (removelast (y :: rest)))))
        by lia.
      reflexivity.
Qed.

Lemma scaleLoop_length (len : nat) :
  forall items index remainder,
    List.length
      (scaleLoop TREASURY_ADDRESS len originalTotal newTotal index items
                 remainder)
    = List.length items.
Proof.
  induction items as [|x items IH]; intros; simpl; [reflexivity|].
  now rewrite IH.
Qed.

Hypothesis total_pos : 0 < originalTotal.
Hypothesis target_nonneg : 0 <= newTotal.

Lemma share_is_floor it :
  0 <= originalAmount it ->
  share it = newTotal * originalAmount it / originalTotal.
Proof.
  intros Ha. unfold share. apply Z.quot_div_nonneg; nia.
Qed.

(** The truncated shares of any items never add up to more than their
    exact proportional part. *)
Lemma shares_bounded items :
  Forall (fun it => 0 <= originalAmount it) items ->
  originalTotal * sumZ (map share items)
  <= newTotal * sumZ (map originalAmount items).
Proof.
  induction 1 as [|it items Hit _ IH]; simpl; [lia|].
  assert (Hq : originalTotal * share it <= newTotal * originalAmount it).
  { rewrite share_is_floor by assumption.
    apply Z.mul_div_le; assumption. }
  nia.
Qed.

Lemma sum_removelast_le items :
  Forall (fun it => 0 <= originalAmount it) items ->
  sumZ (map originalAmount (removelast items))
  <= sumZ (map originalAmount items).
Proof.
  induction 1 as [|it items Hit Hrest IH]; [simpl; lia|].
  destruct items as [|y rest]; [simpl; lia|].
  change (removelast (it :: y :: rest)) with (it :: removelast (y :: rest)).
  rewrite !map_cons in *.
  rewrite !sumZ_cons in *. lia.
Qed.

Lemma Forall_removelast {A} (P : A -> Prop) (l : list A) :
  Forall P l -> Forall P (removelast l).
Proof.
  induction 1 as [|a l Ha Hl IH]; [constructor|].
  destruct l; [constructor|].
  change (removelast (a :: a0 :: l)) with (a :: removelast (a0 :: l)).
  constructor; assumption.
Qed.

Lemma map_removelast {A B} (f : A -> B) (l : list A) :
  map f (removelast l) = removelast (map f l).
Proof.
  induction l as [|a l IH]; [reflexivity|].
  destruct l as [|b l]; [reflexivity|].
  change (removelast (a :: b :: l)) with (a :: removelast (b :: l)).
  rewrite map_cons, IH. reflexivity.
Qed.

End ScaleConsideration.

(** C2. For non-negative original amounts whose sum [originalTotal] is
    nonzero and a nonzero (hence positive) target total,
    [scaleConsiderationAmounts] returns as many items as it was given, their
    amounts add up to exactly the target, every item but the last gets
    floor(target * originalAmount / originalTotal), and the last item gets
    what remains of the target. *)
Theorem scaleConsiderationAmounts_exact_total
        (TREASURY_ADDRESS : Address)
        (items : list OpenSeaListingConsiderationBlueprint)
        (originalTotal newTotal : Z) :
  Forall (fun it => 0 <= originalAmount it) items ->
  originalTotal = sumZ (map originalAmount items) ->
  originalTotal <> 0 ->
  0 <= newTotal -> newTotal <> 0 ->
  let scaled :=
    OpenseaListings.scaleConsiderationAmounts TREASURY_ADDRESS items
                                              originalTotal newTotal in
  let floorShare it := newTotal * originalAmount it / originalTotal in
  List.length scaled = List.length items
  /\ sumZ (map amount scaled) = newTotal
  /\ map amount (removelast scaled) = map floorShare (removelast items)
  /\ option_map amount (nth_error scaled (List.length items - 1))
     = Some (newTotal - sumZ (map floorShare (removelast items))).
Proof.
  intros Hnonneg Hsum Hne0 Htn Htne0 scaled floorShare.
  assert (Hpos : 0 < originalTotal).
  { assert (0 <= sumZ (map originalAmount items)).
    { clear -Hnonneg. induction Hnonneg; simpl; lia. }
    lia. }
  assert (Hitems : items <> []).
  { intros ->. simpl in Hsum. lia. }
  subst scaled. unfold OpenseaListings.scaleConsiderationAmounts.
  replace ((originalTotal =? 0) || (newTotal =? 0))%bool with false
    by (symmetry; apply orb_false_iff; split; apply Z.eqb_neq; assumption).
  pose proof (@scaleLoop_amounts TREASURY_ADDRESS originalTotal newTotal
                (List.length items) items 0%nat newTotal eq_refl Hitems)
    as Ham.
  pose proof (scaleLoop_length TREASURY_ADDRESS originalTotal newTotal
                (List.length items) items 0 newTotal) as Hlen.
  set (out := OpenseaListings.scaleLoop TREASURY_ADDRESS (List.length items)
                originalTotal newTotal 0 items newTotal) in *.
  set (sh := fun it => Z.quot (newTotal * originalAmount it) originalTotal) in *.
  assert (Hfl : map sh (removelast items) = map floorShare (removelast items)).
  { apply map_ext_in. intros it Hin. subst sh floorShare. cbv beta.
    apply Z.quot_div_nonneg; [|lia].
    assert (0 <= originalAmount it).
    { pose proof (Forall_removelast Hnonneg) as Hrl.
      rewrite Forall_forall in Hrl. apply Hrl, Hin. }
    nia. }
  assert (Hrem : 0 <= newTotal - sumZ (map sh (removelast items))).
  { pose proof (shares_bounded (originalTotal := originalTotal)
                  (newTotal := newTotal) Hpos Htn
                  (Forall_removelast Hnonneg)) as Hb.
    pose proof (sum_removelast_le Hnonneg) as Hle.
    fold sh in Hb. nia. }
  assert (Hlast : (let r := newTotal - sumZ (map sh (removelast items)) in
                   if 0 <? r then r else 0)
                  = newTotal - sumZ (map sh (removelast items))).
  { cbv zeta. destruct (0 <? _) eqn:E; [reflexivity|].
    apply Z.ltb_ge in E. lia. }
  rewrite Hlast in Ham. clear Hlast.
  split; [exact Hlen|].
  split.
  { rewrite Ham, sumZ_app. simpl. lia. }
  assert (Hout : map amount (removelast out) = map sh (removelast items)
                 /\ option_map amount (nth_error out (List.length items - 1))
                    = Some (newTotal - sumZ (map sh (removelast items)))).
  { assert (Hl2 : List.length (map sh (removelast items))
                  = (List.length items - 1)%nat).
    { rewrite length_map, removelast_firstn_len, length_firstn. lia. }
    split.
    - rewrite map_removelast, Ham.
      rewrite removelast_app by discriminate. simpl. apply app_nil_r.
    - rewrite <- nth_error_map, Ham.
      rewrite nth_error_app2 by lia.
      rewrite Hl2, Nat.sub_diag. reflexivity. }
  destruct Hout as [H1 H2]. rewrite <- Hfl. split; assumption.
Qed.

Lemma scaleConsiderationAmounts_exact_total_witness :
  let scaled :=
    OpenseaListings.scaleConsiderationAmounts sampleTreasury sampleConsideration
                                              1200000000000 1440000000001 in
  let floorShare it := 1440000000001 * originalAmount it / 1200000000000 in
  List.length scaled = List.length sampleConsideration
  /\ sumZ (map amount scaled) = 1440000000001
  /\ map amount (removelast scaled)
     = map floorShare (removelast sampleConsideration)
  /\ option_map amount (nth_error scaled (List.length sampleConsideration - 1))
     = Some (1440000000001
             - sumZ (map floorShare (removelast sampleConsideration))).
Proof.
  apply (scaleConsiderationAmounts_exact_total
           sampleTreasury (items := sampleConsideration)).
  - repeat constructor; simpl; lia.
  - reflexivity.
  - lia.
  - lia.
  - lia.
Defined.

(** ** Persisted ledger: save then load *)

Section RoundTrip.

Import StateStore.

(** Decimal digits written by [toString] are read back by [BigInt]. *)
Lemma trimStart_decimal (d : Decimal.uint) :
  JS.trimStart (NilEmpty.string_of_uint d) = NilEmpty.string_of_uint d.
Proof. destruct d; reflexivity. Qed.

Lemma trimEnd_decimal (d : Decimal.uint) :
  JS.trimEnd (NilEmpty.string_of_uint d) = NilEmpty.string_of_uint d.
Proof.
  induction d; cbn [NilEmpty.string_of_uint JS.trimEnd]; [reflexivity|..];
    rewrite IHd; destruct (NilEmpty.string_of_uint d); reflexivity.
Qed.

Lemma digitsFrom_decimal_acc (d : Decimal.uint) :
  forall acc,
    JS.digitsFrom 10 (NilEmpty.string_of_uint d) (Z.pos acc)
    = Some (Z.pos (Pos.of_uint_acc d acc)).
Proof.
  induction d; intros acc;
    cbn [NilEmpty.string_of_uint JS.digitsFrom Pos.of_uint_acc];
    [reflexivity|..];
    match goal with
    | |- context [JS.digitValue ?c] =>
        let v := eval vm_compute in (JS.digitValue c) in
        change (JS.digitValue c) with v
    end;
    cbv iota;
    match goal with
    | |- context [?v <? 10] => change (v <? 10) with true
    end;
    cbv iota; rewrite <- IHd; f_equal; lia.
Qed.

Lemma digitsFrom_decimal (d : Decimal.uint) :
  JS.digitsFrom 10 (NilEmpty.string_of_uint d) 0
  = Some (Z.of_N (Pos.of_uint d)).
Proof.
  induction d;
    cbn [NilEmpty.string_of_uint JS.digitsFrom Pos.of_uint];
    [reflexivity|..];
    match goal with
    | |- context [JS.digitValue ?c] =>
        let v := eval vm_compute in (JS.digitValue c) in
        change (JS.digitValue c) with v
    end;
    cbv iota;
    match goal with
    | |- context [?v <? 10] => change (v <? 10) with true
    end;
    cbv iota;
    first [exact IHd|apply digitsFrom_decimal_acc].
Qed.

Lemma digits_decimal (d : Decimal.uint) :
  d <> Decimal.Nil ->
  JS.digits 10 (NilEmpty.string_of_uint d) = Some (Z.of_uint d).
Proof.
  intros Hd. unfold JS.digits, Z.of_uint.
  rewrite <- digitsFrom_decimal.
  destruct d; [contradiction|reflexivity..].
Qed.

Lemma BigInt_decimal (d : Decimal.uint) :
  d <> Decimal.Nil ->
  JS.BigInt (NilEmpty.string_of_uint d) = Some (Z.of_uint d).
Proof.
  intros Hd. rewrite <- (digits_decimal Hd).
  unfold JS.BigInt, JS.trim. rewrite trimStart_decimal, trimEnd_decimal.
  destruct d as [|d|d|d|d|d|d|d|d|d|d]; [contradiction| |reflexivity..].
  destruct d; reflexivity.
Qed.

Lemma BigInt_negative (d : Decimal.uint) :
  d <> Decimal.Nil ->
  JS.BigInt (String "-" (NilEmpty.string_of_uint d)) = Some (- Z.of_uint d).
Proof.
  intros Hd. unfold JS.BigInt, JS.trim.
  cbn [JS.trimStart JS.trimEnd].
  change (JS.isWhiteSpace "-") with false. cbv iota.
  cbn [JS.trimEnd]. rewrite trimEnd_decimal.
  destruct (NilEmpty.string_of_uint d) eqn:Es.
  { destruct d; [contradiction|discriminate Es..]. }
  rewrite <- Es.
  change (Ascii.eqb "-" "+") with false.
  change (Ascii.eqb "-" "-") with true. cbv iota.
  rewrite (digits_decimal Hd). reflexivity.
Qed.

Lemma parseBigInt_toString (z : Z) : parseBigInt (JS.toString z) = Ok z.
Proof.
  unfold parseBigInt, JS.toString.
  destruct z as [|p|p]; [reflexivity| |];
    cbn [Z.to_int NilEmpty.string_of_int].
  - rewrite (BigInt_decimal (DecimalPos.Unsigned.to_uint_nonnil p)).
    unfold Z.of_uint. rewrite DecimalPos.Unsigned.of_to. reflexivity.
  - rewrite (BigInt_negative (DecimalPos.Unsigned.to_uint_nonnil p)).
    unfold Z.of_uint. rewrite DecimalPos.Unsigned.of_to. reflexivity.
Qed.

(** The spellings [BigInt] accepts besides plain decimal digits, and some
    it rejects. *)
Lemma BigInt_spellings :
  JS.BigInt "0x10" = Some 16
  /\ JS.BigInt "0B101" = Some 5
  /\ JS.BigInt " 42 " = Some 42
  /\ JS.BigInt "+7" = Some 7
  /\ JS.BigInt "-15" = Some (-15)
  /\ JS.BigInt "" = Some 0
  /\ JS.BigInt "-" = None
  /\ JS.BigInt "0x" = None
  /\ JS.BigInt "-0x10" = None
  /\ JS.BigInt "12.5" = None
  /\ parseBigInt "-"
     = Throw (SyntaxError "Cannot convert - to a BigInt").
Proof. repeat split; reflexivity. Qed.

Lemma listingOfRow_rowOfListing (l : ActiveListingState) :
  listingOfRow (rowOfListing l) = Ok l.
Proof.
  unfold listingOfRow, rowOfListing; simpl.
  rewrite !parseBigInt_toString; simpl.
  destruct l as [oh c t p ms std q post]; simpl.
  destruct post as [b|]; simpl.
  - rewrite parseBigInt_toString; simpl. destruct std; reflexivity.
  - destruct std; reflexivity.
Qed.

Lemma mapR_listingOfRow (ls : list ActiveListingState) :
  mapR listingOfRow (map rowOfListing ls) = Ok ls.
Proof.
  induction ls as [|l ls IH]; simpl; [reflexivity|].
  now rewrite listingOfRow_rowOfListing, IH.
Qed.

Lemma existsb_orderHash_false (table : list ListingRow) (h : string) :
  ~ In h (map row_orderHash table) ->
  existsb (fun r => String.eqb (row_orderHash r) h) table = false.
Proof.
  induction table as [|r table IH]; simpl; intros Hnin; [reflexivity|].
  apply orb_false_iff; split.
  - apply String.eqb_neq. intros E. apply Hnin. now left.
  - apply IH. intros Hin. apply Hnin. now right.
Qed.

Lemma insertListings_fresh :
  forall (ls : list ActiveListingState) (table : list ListingRow),
    NoDup (map row_orderHash table ++ map orderHash ls) ->
    insertListings table ls = Ok (table ++ map rowOfListing ls).
Proof.
  induction ls as [|l ls IH]; intros table Hnd; simpl.
  - now rewrite app_nil_r.
  - unfold insertListing. simpl.
    rewrite existsb_orderHash_false.
    + simpl. rewrite IH.
      * now rewrite <- app_assoc.
      * rewrite map_app, <- app_assoc. exact Hnd.
    + apply NoDup_remove_2 in Hnd. intros Hin. apply Hnd.
      apply in_or_app. now left.
Qed.

Lemma orderBy_sorted (ls : list ActiveListingState) :
  Sorted listedAtMs_le ls ->
  orderByListedAtMs (map rowOfListing ls) = map rowOfListing ls.
Proof.
  induction 1 as [|l ls Hs IH Hhd]; simpl; [reflexivity|].
  unfold orderByListedAtMs in *. simpl. rewrite IH.
  destruct Hhd as [|b rest Hle]; simpl; [reflexivity|].
  unfold listedAtMs_le in Hle.
  apply Z.leb_le in Hle. now rewrite Hle.
Qed.

End RoundTrip.

(** C1 (as amended). A ledger whose [version] is the current
    [STATE_VERSION], whose listings carry pairwise distinct order hashes and
    are in non-decreasing [listedAtMs] order, is written by [persistState]
    without error into any database, and [readStateFromDatabase] then
    returns exactly that ledger: every scalar field and the listing sequence
    with its order and all listing fields. *)
Theorem persistState_readStateFromDatabase_roundtrip
        (d : StateStore.Database) (s : BotState) :
  version s = StateStore.STATE_VERSION ->
  NoDup (map orderHash (activeListings s)) ->
  Sorted listedAtMs_le (activeListings s) ->
  exists d',
    StateStore.persistState d s = Ok d'
    /\ StateStore.readStateFromDatabase d' = Ok (Some s).
Proof.
  intros Hv Hnd Hsorted.
  unfold StateStore.persistState.
  rewrite insertListings_fresh by exact Hnd. simpl.
  eexists. split; [reflexivity|].
  unfold StateStore.readStateFromDatabase. simpl.
  rewrite !parseBigInt_toString. simpl.
  rewrite orderBy_sorted by exact Hsorted.
  rewrite mapR_listingOfRow. simpl.
  destruct s as [v c sp ba bc ls tb]; simpl in *. subst v. reflexivity.
Qed.

Lemma persistState_readStateFromDatabase_roundtrip_witness :
  exists d',
    StateStore.persistState StateStore.emptyDatabase
      (sampleLedger 3 [sampleListing "0xaa" 100; sampleListing "0xbb" 100;
                       sampleListing "0xcc" 250]) = Ok d'
    /\ StateStore.readStateFromDatabase d'
       = Ok (Some (sampleLedger 3 [sampleListing "0xaa" 100;
                                   sampleListing "0xbb" 100;
                                   sampleListing "0xcc" 250])).
Proof.
  apply persistState_readStateFromDatabase_roundtrip.
  - reflexivity.
  - simpl. repeat constructor; simpl; intuition discriminate.
  - repeat constructor; unfold listedAtMs_le; simpl; lia.
Defined.

(** C1 (as stated) fails on three kinds of ledger: one whose version is
    above [STATE_VERSION] comes back with version 3; one whose listings are
    not in [listedAtMs] order comes back reordered; one with a repeated
    order hash cannot be saved at all. *)
Lemma roundtrip_not_for_every_ledger :
  (exists d',
      StateStore.persistState StateStore.emptyDatabase (sampleLedger 4 [])
      = Ok d'
      /\ StateStore.readStateFromDatabase d' = Ok (Some (sampleLedger 3 []))
      /\ sampleLedger 3 [] <> sampleLedger 4 [])
  /\ (exists d',
      StateStore.persistState StateStore.emptyDatabase
        (sampleLedger 3 [sampleListing "0xaa" 200; sampleListing "0xbb" 100])
      = Ok d'
      /\ StateStore.readStateFromDatabase d'
         = Ok (Some (sampleLedger 3 [sampleListing "0xbb" 100;
                                     sampleListing "0xaa" 200]))
      /\ sampleLedger 3 [sampleListing "0xbb" 100; sampleListing "0xaa" 200]
         <> sampleLedger 3 [sampleListing "0xaa" 200; sampleListing "0xbb" 100])
  /\ StateStore.persistState StateStore.emptyDatabase
       (sampleLedger 3 [sampleListing "0xaa" 100; sampleListing "0xaa" 200])
     = Throw (SqliteError "UNIQUE constraint failed: listings.orderHash").
Proof.
  split; [|split].
  - eexists. split; [reflexivity|]. split; [reflexivity|]. discriminate.
  - eexists. split; [reflexivity|]. split; [reflexivity|]. discriminate.
  - reflexivity.
Qed.

(** ** Order-hash engine: array hashes *)

Section ArrayHash.

Import Viem OrderHash.

Lemma byte_hex_roundtrip (b : Byte.byte) :
  nibbleOfChar (hexDigit (Byte.to_N b / 16)) = Some (Byte.to_N b / 16)%N
  /\ nibbleOfChar (hexDigit (Byte.to_N b mod 16)) = Some (Byte.to_N b mod 16)%N
  /\ Keccak.byteOfN (16 * (Byte.to_N b / 16) + Byte.to_N b mod 16) = b.
Proof. destruct b; repeat split; reflexivity. Qed.

Lemma bytesOfHexDigits_hexOfBytes (bs : list Byte.byte) :
  bytesOfHexDigits (hexOfBytes bs) = Some bs.
Proof.
  induction bs as [|b bs IH]; [reflexivity|].
  cbn [hexOfBytes bytesOfHexDigits].
  destruct (byte_hex_roundtrip b) as (Hhi & Hlo & Hb).
  rewrite Hhi, Hlo, IH, Hb. reflexivity.
Qed.

Lemma hexOfBytes_even (bs : list Byte.byte) :
  Nat.odd (String.length (hexOfBytes bs)) = false.
Proof.
  induction bs as [|b bs IH]; [reflexivity|].
  cbn [hexOfBytes String.length]. rewrite Nat.odd_succ_succ. exact IH.
Qed.

Lemma hexToBytes_bytesToHex (bs : list Byte.byte) :
  hexToBytes (bytesToHex bs) = Ok bs.
Proof.
  unfold hexToBytes, bytesToHex.
  change (JS.slice 2 (String.append "0x" (hexOfBytes bs))) with (hexOfBytes bs).
  now rewrite hexOfBytes_even, bytesOfHexDigits_hexOfBytes.
Qed.

Lemma hexOfBytes_app (a b : list Byte.byte) :
  hexOfBytes (a ++ b) = String.append (hexOfBytes a) (hexOfBytes b).
Proof.
  induction a as [|x a IH]; [reflexivity|].
  simpl. now rewrite IH.
Qed.

Lemma joinSliced_bytesToHex (bss : list (list Byte.byte)) :
  joinSliced (map bytesToHex bss) = hexOfBytes (List.concat bss).
Proof.
  unfold joinSliced.
  induction bss as [|bs bss IH]; [reflexivity|].
  cbn [map List.concat]. rewrite hexOfBytes_app, <- IH.
  change (JS.slice 2 (bytesToHex bs)) with (hexOfBytes bs).
  destruct bss as [|bs' bss].
  - cbn. clear. induction (hexOfBytes bs) as [|c r IHr]; [reflexivity|].
    cbn. now rewrite <- IHr.
  - reflexivity.
Qed.

End ArrayHash.


(** ** Relations kept by every step of a computation *)

Section StableSteps.

Variable R : World -> World -> Prop.
Hypothesis R_refl : forall w, R w w.
Hypothesis R_trans : forall w1 w2 w3, R w1 w2 -> R w2 w3 -> R w1 w3.

Lemma Stable_ret {A} (a : A) : Stable R (ret a).
Proof. intros w. apply R_refl. Qed.

Lemma Stable_throw {A} e : Stable R (@throw A e).
Proof. intros w. apply R_refl. Qed.

Lemma Stable_liftR {A} (r : Result A) : Stable R (liftR r).
Proof. intros w. apply R_refl. Qed.

Lemma Stable_getState : Stable R getState.
Proof. intros w. apply R_refl. Qed.

Lemma Stable_bind {A B} (m : M A) (k : A -> M B) :
  Stable R m -> (forall a, Stable R (k a)) -> Stable R (bind m k).
Proof.
  intros Hm Hk w. unfold bind. specialize (Hm w).
  destruct (m w) as [[a|e] w1]; simpl in *; [|exact Hm].
  eapply R_trans; [exact Hm|apply Hk].
Qed.

Lemma Stable_tryCatch {A} (m : M A) (h : JsError -> M A) :
  Stable R m -> (forall e, Stable R (h e)) -> Stable R (tryCatch m h).
Proof.
  intros Hm Hh w. unfold tryCatch. specialize (Hm w).
  destruct (m w) as [[a|e] w1]; simpl in *; [exact Hm|].
  eapply R_trans; [exact Hm|apply Hh].
Qed.

Lemma Stable_if {A} (b : bool) (m1 m2 : M A) :
  Stable R m1 -> Stable R m2 -> Stable R (if b then m1 else m2).
Proof. destruct b; auto. Qed.

End StableSteps.

Section Frames.

Variable P : Event -> Prop.

Lemma Frame_refl w : Frame P w w.
Proof. split; [reflexivity|]. exists []. split; [reflexivity|constructor]. Qed.

Lemma Frame_trans w1 w2 w3 : Frame P w1 w2 -> Frame P w2 w3 -> Frame P w1 w3.
Proof.
  intros [Hs1 (e1 & Ht1 & Hp1)] [Hs2 (e2 & Ht2 & Hp2)].
  split; [congruence|].
  exists (e2 ++ e1). split.
  - rewrite Ht2, Ht1. now rewrite app_assoc.
  - apply Forall_app; split; assumption.
Qed.

Lemma Frame_event e w : P e -> Frame P w (withEvent e w).
Proof.
  intros He. split; [reflexivity|].
  exists [e]. split; [reflexivity|]. now constructor.
Qed.

Lemma Frame_nonce n w : Frame P w (withNonce n w).
Proof. split; [reflexivity|]. exists []. split; [reflexivity|constructor]. Qed.

Lemma Frame_ask {A} e (f : nat -> Result A) : P e -> Stable (Frame P) (ask e f).
Proof. intros He w. now apply Frame_event. Qed.

Lemma Frame_emit e : P e -> Stable (Frame P) (emit e).
Proof. intros He w. now apply Frame_event. Qed.

Lemma Frame_weaken (Q : Event -> Prop) w w' :
  (forall e, P e -> Q e) -> Frame P w w' -> Frame Q w w'.
Proof.
  intros HPQ [Hs (evs & Ht & Hp)]. split; [exact Hs|].
  exists evs. split; [exact Ht|].
  eapply Forall_impl; [exact HPQ|exact Hp].
Qed.

End Frames.

Lemma KeepsCacheEmpty_refl w : KeepsCacheEmpty w w.
Proof. intros H; exact H. Qed.

Lemma KeepsCacheEmpty_trans w1 w2 w3 :
  KeepsCacheEmpty w1 w2 -> KeepsCacheEmpty w2 w3 -> KeepsCacheEmpty w1 w3.
Proof. unfold KeepsCacheEmpty; auto. Qed.

(** Steps through the structure of a computation, leaving the goals about
    its primitive steps. *)
Ltac stable_steps Rrefl Rtrans :=
  repeat lazymatch goal with
    | |- Stable _ (ret _) => apply (Stable_ret _ Rrefl)
    | |- Stable _ (throw _) => apply (Stable_throw _ Rrefl)
    | |- Stable _ (liftR _) => apply (Stable_liftR _ Rrefl)
    | |- Stable _ getState => apply (Stable_getState _ Rrefl)
    | |- Stable _ (bind _ _) => apply (Stable_bind Rtrans)
    | |- Stable _ (tryCatch _ _) => apply (Stable_tryCatch Rtrans)
    | |- Stable _ (match ?x with _ => _ end) =>
        first [apply Stable_if | destruct x]
    | |- Stable _ _ => fail
    | |- forall _, _ => intro
    end.

Lemma bind_ok {A B} (m : M A) (k : A -> M B) w a w' :
  m w = (Ok a, w') -> bind m k w = k a w'.
Proof. intros E. unfold bind. now rewrite E. Qed.

Lemma bind_throw {A B} (m : M A) (k : A -> M B) w e w' :
  m w = (Throw e, w') -> bind m k w = (Throw e, w').
Proof. intros E. unfold bind. now rewrite E. Qed.

Lemma tryCatch_ok {A} (m : M A) h w a w' :
  m w = (Ok a, w') -> tryCatch m h w = (Ok a, w').
Proof. intros E. unfold tryCatch. now rewrite E. Qed.

Lemma tryCatch_throw {A} (m : M A) h w e w' :
  m w = (Throw e, w') -> tryCatch m h w = h e w'.
Proof. intros E. unfold tryCatch. now rewrite E. Qed.

Lemma bind_emit {B} e (k : unit -> M B) w :
  bind (emit e) k w = k tt (withEvent e w).
Proof. reflexivity. Qed.

Lemma bind_logger {B} level text (k : unit -> M B) w :
  bind (logger level text) k w = k tt (withEvent (EvLog level text) w).
Proof. reflexivity. Qed.

Lemma bind_delay {B} ms (k : unit -> M B) w :
  bind (delay ms) k w = k tt (withEvent (EvDelay ms) w).
Proof. reflexivity. Qed.

Lemma bind_ret {A B} (a : A) (k : A -> M B) w : bind (ret a) k w = k a w.
Proof. reflexivity. Qed.

Lemma bind_assign {B} f (k : unit -> M B) w :
  bind (assign f) k w
  = k tt (withStore
            {| StateStore.db := StateStore.db (store w);
               StateStore.state := option_map f (StateStore.state (store w)) |}
            w).
Proof. reflexivity. Qed.

Lemma bind_ask {A B} e (f : nat -> Result A) (k : A -> M B) w :
  bind (ask e f) k w
  = match f (List.length (trace w)) with
    | Ok a => k a (withEvent e w)
    | Throw failure => (Throw failure, withEvent e w)
    end.
Proof. reflexivity. Qed.

Arguments bind_ok {A B m k w a w'} _.
Arguments bind_throw {A B m k w e w'} _.
Arguments tryCatch_ok {A m h w a w'} _.
Arguments tryCatch_throw {A m h w e w'} _.

(** Unfolds the sequencing primitives at the head of a run, so that the
    next collaborator answer or branch condition shows. *)
Ltac mnorm :=
  cbv beta iota zeta
      delta [bind tryCatch ask ret throw emit logger delay liftR getState
             assign withEvent withNonce withStore fst snd];
  cbn [trace store cachedNonce StateStore.db StateStore.state].

Ltac mnorm_in H :=
  cbv beta iota zeta
      delta [bind tryCatch ask ret throw emit logger delay liftR getState
             assign withEvent withNonce withStore fst snd] in H;
  cbn [trace store cachedNonce StateStore.db StateStore.state] in H.

Section TraceOnly.

Variable P : Event -> Prop.

Lemma TraceGrows_refl w : TraceGrows P w w.
Proof. exists []. split; [reflexivity|constructor]. Qed.

Lemma TraceGrows_trans w1 w2 w3 :
  TraceGrows P w1 w2 -> TraceGrows P w2 w3 -> TraceGrows P w1 w3.
Proof.
  intros (e1 & Ht1 & Hp1) (e2 & Ht2 & Hp2).
  exists (e2 ++ e1). split.
  - rewrite Ht2, Ht1. now rewrite app_assoc.
  - apply Forall_app; split; assumption.
Qed.

Lemma TraceGrows_of_Frame (Q : Event -> Prop) w w' :
  (forall e, Q e -> P e) -> Frame Q w w' -> TraceGrows P w w'.
Proof.
  intros HQP [_ (evs & Ht & Hq)]. exists evs. split; [exact Ht|].
  eapply Forall_impl; [exact HQP|exact Hq].
Qed.

Lemma TraceGrows_ask {A} e (f : nat -> Result A) :
  P e -> Stable (TraceGrows P) (ask e f).
Proof. intros He w. exists [e]. split; [reflexivity|now constructor]. Qed.

Lemma TraceGrows_emit e : P e -> Stable (TraceGrows P) (emit e).
Proof. intros He w. exists [e]. split; [reflexivity|now constructor]. Qed.

Lemma TraceGrows_assign f : Stable (TraceGrows P) (assign f).
Proof. intros w. exists []. split; [reflexivity|constructor]. Qed.

Lemma TraceGrows_save :
  (forall b, P (EvSave b)) -> Stable (TraceGrows P) save.
Proof.
  intros He w. unfold save.
  destruct (StateStore.save (store w));
    (eexists [_]; split; [reflexivity|constructor; [apply He|constructor]]).
Qed.

Lemma TraceGrows_stable_of_Frame {A} (Q : Event -> Prop) (m : M A) :
  (forall e, Q e -> P e) -> Stable (Frame Q) m -> Stable (TraceGrows P) m.
Proof. intros HQP Hm w. eapply TraceGrows_of_Frame; [exact HQP|apply Hm]. Qed.

End TraceOnly.

(** Proves [Frame P w w'] when [w'] is [w] with a few events added. *)
Ltac frame_by_events :=
  split; [reflexivity|];
  first [ exists []; split; [reflexivity|]
        | eexists [_]; split; [reflexivity|]
        | eexists [_; _]; split; [reflexivity|]
        | eexists [_; _; _]; split; [reflexivity|] ];
  repeat constructor.

(** ** The submitter *)

Section Submitter.

Import TreasuryClient.

Variable env : Env.

Lemma estimateFeeOverrides_frame P multiplier :
  P EvEstimateFeesPerGas -> P EvGetGasPrice ->
  Stable (Frame P) (estimateFeeOverrides env multiplier).
Proof.
  intros H1 H2. unfold estimateFeeOverrides.
  apply (Stable_tryCatch (@Frame_trans P)).
  - apply (Stable_bind (@Frame_trans P)); [now apply Frame_ask|].
    intros [[b|] [p|]]; first [apply (Stable_ret _ (@Frame_refl P))
                              |apply (Stable_throw _ (@Frame_refl P))].
  - intros e. apply (Stable_bind (@Frame_trans P)); [now apply Frame_ask|].
    intros g. apply (Stable_ret _ (@Frame_refl P)).
Qed.

Lemma resetNonceCache_frame P : Stable (Frame P) resetNonceCache.
Proof. intros w. apply Frame_nonce. Qed.

Lemma incrementNonce_frame P : Stable (Frame P) incrementNonce.
Proof.
  intros w. unfold incrementNonce.
  destruct (cachedNonce w); [apply Frame_nonce|apply Frame_refl].
Qed.

Lemma acquireNextNonce_frame P :
  P EvGetTransactionCount -> Stable (Frame P) (acquireNextNonce env).
Proof.
  intros HP w. unfold acquireNextNonce.
  destruct (cachedNonce w); [apply Frame_refl|].
  unfold ask.
  destruct (env_getTransactionCount env _); simpl.
  - eapply Frame_trans; [apply Frame_event, HP|apply Frame_nonce].
  - apply Frame_event, HP.
Qed.

Lemma writeAttempt_frame call nonce multiplier :
  Stable (Frame (submitterEvent call)) (writeAttempt env call nonce multiplier).
Proof.
  unfold writeAttempt.
  apply (Stable_tryCatch (@Frame_trans _)).
  - apply (Stable_bind (@Frame_trans _));
      [apply estimateFeeOverrides_frame; exact I|].
    intros fees. apply (Stable_bind (@Frame_trans _));
      [apply Frame_ask; reflexivity|].
    intros hash. apply (Stable_bind (@Frame_trans _));
      [apply incrementNonce_frame|].
    intros _. apply (Stable_ret _ (@Frame_refl _)).
  - intros e. apply Stable_if; [apply (Stable_throw _ (@Frame_refl _))|].
    apply (Stable_bind (@Frame_trans _)).
    + apply Stable_if;
        [apply resetNonceCache_frame|apply (Stable_ret _ (@Frame_refl _))].
    + intros _. apply (Stable_bind (@Frame_trans _));
        [apply Frame_emit; exact I|].
      intros _. apply (Stable_ret _ (@Frame_refl _)).
Qed.

Lemma writeAttempts_frame call nonce multipliers :
  forall lastError,
    Stable (Frame (submitterEvent call))
           (writeAttempts env call nonce multipliers lastError).
Proof.
  induction multipliers as [|m rest IH]; intros lastError; simpl.
  - apply (Stable_throw _ (@Frame_refl _)).
  - apply (Stable_bind (@Frame_trans _)); [apply writeAttempt_frame|].
    intros [hash|e]; [apply (Stable_ret _ (@Frame_refl _))|apply IH].
Qed.

(** A submission never touches the state store, and the only transaction
    it writes is the one it was asked to write. *)
Lemma writeContractWithAdaptiveFees_frame call :
  Stable (Frame (submitterEvent call)) (writeContractWithAdaptiveFees env call).
Proof.
  unfold writeContractWithAdaptiveFees.
  apply (Stable_bind (@Frame_trans _));
    [apply acquireNextNonce_frame; exact I|].
  intros nonce. apply writeAttempts_frame.
Qed.

Lemma executeSeaport_frame request :
  Stable (Frame (submitterEvent
                   (ExecuteSeaportCall (req_router request)
                                       (req_valueWei request)
                                       (req_calldata request))))
         (executeSeaport env request).
Proof. apply writeContractWithAdaptiveFees_frame. Qed.

Lemma waitForReceipt_frame txHash :
  Stable (Frame (fun e => e = EvWaitForReceipt txHash))
         (waitForReceipt env txHash).
Proof.
  unfold waitForReceipt.
  apply (Stable_tryCatch (@Frame_trans _)).
  - apply (Stable_bind (@Frame_trans _)); [apply Frame_ask; reflexivity|].
    intros [|]; [apply (Stable_ret _ (@Frame_refl _))
                |apply (Stable_throw _ (@Frame_refl _))].
  - intros e. apply (Stable_bind (@Frame_trans _)).
    + destruct e; first [apply resetNonceCache_frame
                        |apply (Stable_ret _ (@Frame_refl _))].
    + intros _. apply (Stable_throw _ (@Frame_refl _)).
Qed.

(** Once the cache is empty, nothing in the attempt loop fills it. *)
Lemma writeAttempts_keeps_cache_empty call nonce multipliers :
  forall lastError,
    Stable KeepsCacheEmpty (writeAttempts env call nonce multipliers lastError).
Proof.
  assert (Hask : forall A e (f : nat -> Result A), Stable KeepsCacheEmpty (ask e f))
    by (intros A e f w H; exact H).
  assert (Hemit : forall e, Stable KeepsCacheEmpty (emit e))
    by (intros e w H; exact H).
  assert (Hreset : Stable KeepsCacheEmpty resetNonceCache)
    by (intros w H; reflexivity).
  assert (Hinc : Stable KeepsCacheEmpty incrementNonce).
  { intros w H. unfold incrementNonce. rewrite H. exact H. }
  induction multipliers as [|m rest IH]; intros lastError; simpl.
  - apply (Stable_throw _ KeepsCacheEmpty_refl).
  - apply (Stable_bind KeepsCacheEmpty_trans).
    + unfold writeAttempt, estimateFeeOverrides.
      stable_steps KeepsCacheEmpty_refl KeepsCacheEmpty_trans;
        solve [apply Hask | apply Hemit | apply Hreset | apply Hinc].
    + intros [hash|e]; [apply (Stable_ret _ KeepsCacheEmpty_refl)|apply IH].
Qed.

Lemma acquireNextNonce_cached w n :
  cachedNonce w = Some n -> acquireNextNonce env w = (Ok n, w).
Proof. intros H. unfold acquireNextNonce. now rewrite H. Qed.

Lemma acquireNextNonce_empty w :
  cachedNonce w = None ->
  acquireNextNonce env w
  = match env_getTransactionCount env (List.length (trace w)) with
    | Ok n => (Ok n, withNonce (Some n) (withEvent EvGetTransactionCount w))
    | Throw e => (Throw e, withEvent EvGetTransactionCount w)
    end.
Proof. intros H. unfold acquireNextNonce, ask. now rewrite H. Qed.

(** With a wallet that never fails, a submission goes through at the
    first multiplier, uses the cached nonce and bumps the cache by one. *)
Lemma write_first_try call w c :
  neverFails env ->
  cachedNonce w = Some c ->
  exists hash maxFee priorityFee,
    writeContractWithAdaptiveFees env call w
    = (Ok hash,
       {| store := store w;
          cachedNonce := Some (c + 1);
          trace := EvWriteContract call c maxFee priorityFee
                   :: EvEstimateFeesPerGas :: trace w |}).
Proof.
  intros [Hfees Hwrite] Hc.
  unfold writeContractWithAdaptiveFees, bind.
  rewrite (acquireNextNonce_cached _ Hc).
  cbn [writeAttempts FEE_MULTIPLIERS].
  unfold writeAttempt, estimateFeeOverrides, incrementNonce. mnorm.
  destruct (Hfees (List.length (trace w))) as (b & p & Ef). rewrite Ef.
  mnorm.
  destruct (Hwrite (List.length (EvEstimateFeesPerGas :: trace w))
                   call c (scaleFee b 100) (scaleFee p 100)) as (h & Eh).
  rewrite Eh. mnorm. rewrite Hc.
  exists h, (scaleFee b 100), (scaleFee p 100). reflexivity.
Qed.

Lemma submitAll_cached calls :
  neverFails env ->
  forall w c,
    cachedNonce w = Some c ->
    exists hashes w',
      submitAll env calls w = (Ok hashes, w')
      /\ List.length hashes = List.length calls
      /\ store w' = store w
      /\ cachedNonce w' = Some (c + Z.of_nat (List.length calls))
      /\ exists events,
          trace w' = events ++ trace w /\ chainNonceReads events = 0%nat.
Proof.
  intros Hnf. induction calls as [|call calls IH]; intros w c Hc.
  - exists [], w. cbn. repeat split; try reflexivity.
    + rewrite Hc. f_equal. lia.
    + exists []. split; reflexivity.
  - destruct (write_first_try call w Hnf Hc) as (h & f & pf & E).
    cbn [submitAll]. rewrite (bind_ok E).
    cbv beta.
    destruct (IH {| store := store w;
                    cachedNonce := Some (c + 1);
                    trace := EvWriteContract call c f pf
                             :: EvEstimateFeesPerGas :: trace w |}
                 (c + 1) eq_refl)
      as (hs & w' & E' & Hlen & Hst & Hn & evs & Ht & Hr).
    rewrite (bind_ok E'). unfold ret. cbn [store trace] in *.
    exists (h :: hs), w'. repeat split.
    + cbn. now rewrite Hlen.
    + exact Hst.
    + rewrite Hn. f_equal. cbn [List.length]. lia.
    + exists (evs ++ [EvWriteContract call c f pf; EvEstimateFeesPerGas]).
      split.
      * rewrite Ht. cbn. now rewrite <- app_assoc.
      * unfold chainNonceReads in *. rewrite filter_app, length_app, Hr.
        reflexivity.
Qed.

Lemma executeSeaport_succeeds request w :
  chainHealthy env ->
  exists txHash w', executeSeaport env request w = (Ok txHash, w').
Proof.
  intros (Hnf & Hcount & _). unfold executeSeaport.
  destruct (cachedNonce w) as [c|] eqn:Hc.
  - destruct (write_first_try
                (ExecuteSeaportCall (req_router request) (req_valueWei request)
                                    (req_calldata request)) w Hnf Hc)
      as (h & f & pf & E).
    eauto.
  - destruct (Hcount (List.length (trace w))) as (n & Hn).
    set (w0 := withNonce (Some n) (withEvent EvGetTransactionCount w)).
    assert (Hc0 : cachedNonce w0 = Some n) by reflexivity.
    destruct (write_first_try
                (ExecuteSeaportCall (req_router request) (req_valueWei request)
                                    (req_calldata request)) w0 Hnf Hc0)
      as (h & f & pf & E).
    unfold writeContractWithAdaptiveFees in *.
    rewrite (bind_ok (acquireNextNonce_cached w0 Hc0)) in E.
    assert (Eacq : acquireNextNonce env w = (Ok n, w0)).
    { rewrite (acquireNextNonce_empty w Hc), Hn. reflexivity. }
    rewrite (bind_ok Eacq). eauto.
Qed.

Lemma waitForReceipt_succeeds txHash w :
  chainHealthy env ->
  waitForReceipt env txHash w = (Ok tt, withEvent (EvWaitForReceipt txHash) w).
Proof.
  intros (_ & _ & Hwait). unfold waitForReceipt. mnorm.
  now rewrite Hwait.
Qed.

End Submitter.

(** C6 (as amended). The submitter keeps one cached nonce. An acquisition
    with an empty cache reads the pending transaction count from the chain
    and caches it; an acquisition with a filled cache returns the cached
    value without reading the chain. With a wallet that never fails, after
    N submissions the cache holds the initial value plus N, and the chain
    was read once if the cache started empty and not at all otherwise. When
    an attempt at a multiplier other than the last fails with a message
    containing "nonce too low", the cache is emptied and is still empty
    when the call ends, so the next acquisition reads the chain again. *)
Theorem nonce_cache_counts_submissions (env : Env) :
  (forall w,
      cachedNonce w = None ->
      TreasuryClient.acquireNextNonce env w
      = match env_getTransactionCount env (List.length (trace w)) with
        | Ok n => (Ok n, withNonce (Some n) (withEvent EvGetTransactionCount w))
        | Throw e => (Throw e, withEvent EvGetTransactionCount w)
        end)
  /\ (forall w n,
         cachedNonce w = Some n ->
         TreasuryClient.acquireNextNonce env w = (Ok n, w))
  /\ (neverFails env ->
      forall calls w initial,
        (cachedNonce w = Some initial
         \/ (cachedNonce w = None /\ calls <> []
             /\ env_getTransactionCount env (List.length (trace w)) = Ok initial)) ->
        exists hashes w',
          submitAll env calls w = (Ok hashes, w')
          /\ List.length hashes = List.length calls
          /\ cachedNonce w' = Some (initial + Z.of_nat (List.length calls))
          /\ exists events,
              trace w' = events ++ trace w
              /\ chainNonceReads events
                 = match cachedNonce w with Some _ => 0%nat | None => 1%nat end)
  /\ (forall call nonce multiplier rest w e w1 r w2,
         multiplier <> TreasuryClient.lastMultiplier ->
         TreasuryClient.writeAttempt env call nonce multiplier w
         = (Ok (inr e), w1) ->
         JS.includes (JS.toLowerCase (errorMessage e)) "nonce too low" = true ->
         TreasuryClient.writeAttempts env call nonce rest (Some e) w1 = (r, w2) ->
         cachedNonce w2 = None).
Proof.
  split; [intros w H; now apply acquireNextNonce_empty|].
  split; [intros w n H; now apply acquireNextNonce_cached|].
  split.
  - intros Hnf calls w initial [Hc|(Hc & Hne & Hchain)].
    + destruct (submitAll_cached calls Hnf w Hc)
        as (hs & w' & E & Hlen & _ & Hn & evs & Ht & Hr).
      exists hs, w'. rewrite Hc. repeat split; try assumption.
      exists evs. split; assumption.
    + destruct calls as [|call calls]; [congruence|].
      cbn [submitAll].
      set (w0 := withNonce (Some initial) (withEvent EvGetTransactionCount w)).
      assert (Eacq : TreasuryClient.acquireNextNonce env w = (Ok initial, w0)).
      { rewrite (acquireNextNonce_empty env w Hc), Hchain. reflexivity. }
      assert (Hc0 : cachedNonce w0 = Some initial) by reflexivity.
      destruct (write_first_try call w0 Hnf Hc0) as (h & f & pf & E).
      unfold TreasuryClient.writeContractWithAdaptiveFees in E.
      rewrite (bind_ok (acquireNextNonce_cached env w0 Hc0)) in E.
      assert (Ew : TreasuryClient.writeContractWithAdaptiveFees env call w
                   = (Ok h,
                      {| store := store w0;
                         cachedNonce := Some (initial + 1);
                         trace := EvWriteContract call initial f pf
                                  :: EvEstimateFeesPerGas :: trace w0 |})).
      { unfold TreasuryClient.writeContractWithAdaptiveFees.
        rewrite (bind_ok Eacq). exact E. }
      rewrite (bind_ok Ew).
      destruct (submitAll_cached calls Hnf
                  {| store := store w0;
                     cachedNonce := Some (initial + 1);
                     trace := EvWriteContract call initial f pf
                              :: EvEstimateFeesPerGas :: trace w0 |}
                  eq_refl)
        as (hs & w' & E' & Hlen & _ & Hn & evs & Ht & Hr).
      rewrite (bind_ok E'). unfold ret.
      exists (h :: hs), w'. rewrite Hc. repeat split.
      * cbn. now rewrite Hlen.
      * rewrite Hn. f_equal. cbn [List.length]. lia.
      * exists (evs ++ [EvWriteContract call initial f pf;
                        EvEstimateFeesPerGas; EvGetTransactionCount]).
        split.
        -- rewrite Ht. cbn. now rewrite <- app_assoc.
        -- unfold chainNonceReads in *. rewrite filter_app, length_app, Hr.
           reflexivity.
  - intros call nonce multiplier rest w e w1 r w2 Hm Hattempt Hstale Hrest.
    assert (Hempty : cachedNonce w1 = None).
    { unfold TreasuryClient.writeAttempt, tryCatch in Hattempt.
      match type of Hattempt with
      | (let (_, _) := ?body w in _) = _ => destruct (body w) as [[a|e0] w0] eqn:Ebody
      end.
      - inversion Hattempt; subst.
        (* a successful body returns [inl], never [inr] *)
        exfalso. revert Ebody. clear.
        unfold TreasuryClient.estimateFeeOverrides,
          TreasuryClient.incrementNonce.
        mnorm.
        repeat match goal with
               | |- context [match ?x with _ => _ end] => destruct x
               end; intros H; inversion H.
      - apply Z.eqb_neq in Hm.
        rewrite Hm, orb_false_r in Hattempt.
        destruct (negb (TreasuryClient.isUnderpriced
                          (JS.toLowerCase (errorMessage e0)))) eqn:Eu.
        + unfold throw in Hattempt. inversion Hattempt.
        + revert Hattempt. unfold TreasuryClient.resetNonceCache. mnorm.
          destruct (JS.includes (JS.toLowerCase (errorMessage e0)) "nonce too low")
            eqn:Einc; intros H; inversion H; subst.
          * reflexivity.
          * congruence. }
    pose proof (writeAttempts_keeps_cache_empty env call nonce rest (Some e) w1)
      as Hk.
    rewrite Hrest in Hk. exact (Hk Hempty).
Qed.

Lemma nonce_cache_counts_submissions_witness :
  (exists hashes w',
      submitAll steadyEnv [sampleCall; sampleCall; sampleCall] (idleWorld None)
      = (Ok hashes, w')
      /\ List.length hashes = 3%nat
      /\ cachedNonce w' = Some (7 + 3)
      /\ exists events,
          trace w' = events ++ [] /\ chainNonceReads events = 1%nat)
  /\ cachedNonce
       (snd (TreasuryClient.writeContractWithAdaptiveFees
               staleAtFirstStepEnv sampleCall (idleWorld (Some 7))))
     = None.
Proof.
  destruct (nonce_cache_counts_submissions steadyEnv) as (_ & _ & Hn & _).
  destruct (nonce_cache_counts_submissions staleAtFirstStepEnv)
    as (_ & _ & _ & Hstale).
  split.
  - apply (Hn (conj (fun t => ex_intro _ 100 (ex_intro _ 2 eq_refl))
                    (fun t call nonce f p => ex_intro _ _ eq_refl))
              [sampleCall; sampleCall; sampleCall] (idleWorld None) 7).
    right. split; [reflexivity|]. split; [discriminate|reflexivity].
  - eapply (Hstale sampleCall 7 100 [120; 140] (idleWorld (Some 7))
                   (Error "nonce too low")).
    + vm_compute. discriminate.
    + vm_compute. reflexivity.
    + vm_compute. reflexivity.
    + vm_compute. reflexivity.
Defined.

(** C6 (as stated) fails when the stale-nonce error comes at the last fee
    multiplier: the error is rethrown before the cache is touched, so the
    cache keeps the stale value 7 and the next acquisition returns it
    without reading the chain, whose count is 9. *)
Lemma stale_nonce_at_last_step_keeps_cache :
  let run :=
    TreasuryClient.writeContractWithAdaptiveFees
      staleAtLastStepEnv sampleCall (idleWorld (Some 7)) in
  fst run = Throw (Error "Nonce too low")
  /\ cachedNonce (snd run) = Some 7
  /\ TreasuryClient.acquireNextNonce staleAtLastStepEnv (snd run)
     = (Ok 7, snd run)
  /\ env_getTransactionCount staleAtLastStepEnv (List.length (trace (snd run)))
     = Ok 9.
Proof. vm_compute. repeat split; reflexivity. Qed.

(** ** Buyback and burn *)

Section Buyback.

Import Services.

Variable cfg : Config.
Variable env : Env.

Lemma getState_ok w s :
  StateStore.state (store w) = Some s -> getState w = (Ok s, w).
Proof. intros H. unfold getState, StateStore.getState. now rewrite H. Qed.



Lemma cooldown_trace P :
  (forall ms, P (EvDelay ms)) -> Stable (TraceGrows P) (cooldown cfg).
Proof.
  intros HP. unfold cooldown.
  destruct (_ >? _); [apply TraceGrows_emit, HP|].
  apply (Stable_ret _ (@TraceGrows_refl P)).
Qed.


(** The ledger after the burn of the pending amount of [s] is confirmed,
    when [cost] is the cost taken into account. *)
Lemma completePendingBurn_cases token spentWeiOverride w s d :
  TOKEN_ADDRESS cfg = Some token ->
  store w = {| StateStore.db := Some d; StateStore.state := Some s |} ->
  0 < pendingBurnAmount s ->
  let cost := JS.nullish spentWeiOverride (pendingBurnCostWei s) in
  let costToDeduct :=
    if cost >? 0
    then (if salePoolWei s >=? cost then cost else salePoolWei s)
    else 0 in
  let cleared := set_pendingBurnCostWei 0 (set_pendingBurnAmount 0 s) in
  let s' :=
    if costToDeduct >? 0
    then set_salePoolWei (salePoolWei s - costToDeduct) cleared
    else cleared in
  let run := completePendingBurn cfg env spentWeiOverride w in
  (exists e, fst run = Throw e /\ store (snd run) = store w)
  \/ (exists e, fst run = Throw e
                /\ StateStore.persistState d s' = Throw e
                /\ store (snd run)
                   = {| StateStore.db := Some d; StateStore.state := Some s' |})
  \/ (fst run = Ok tt
      /\ exists d', StateStore.persistState d s' = Ok d'
                    /\ store (snd run)
                       = {| StateStore.db := Some d';
                            StateStore.state := Some s' |}).
Proof.
  intros Htoken Hstore Hpending cost costToDeduct cleared s' run.
  assert (Hst : StateStore.state (store w) = Some s) by now rewrite Hstore.
  subst run. unfold completePendingBurn.
  rewrite (bind_ok (getState_ok w Hst)).
  replace (pendingBurnAmount s <=? 0) with false
    by (symmetry; apply Z.leb_gt; exact Hpending).
  rewrite Htoken.
  match goal with
  | |- context [bind (TreasuryClient.executeSeaport env ?req) _ w] =>
      pose proof (executeSeaport_frame env req w) as [Hs1 _];
      destruct (TreasuryClient.executeSeaport env req w) as [[tx|e] w1] eqn:E1
  end; cbn [snd] in Hs1.
  2:{ rewrite (bind_throw E1). left. exists e. split; [reflexivity|exact Hs1]. }
  rewrite (bind_ok E1), bind_logger.
  match goal with
  | |- context [bind (TreasuryClient.waitForReceipt env tx) _ ?w0] =>
      pose proof (waitForReceipt_frame env tx w0) as [Hs2 _];
      destruct (TreasuryClient.waitForReceipt env tx w0) as [[[]|e] w2] eqn:E2
  end; cbn [snd] in Hs2; cbn [store withEvent] in Hs2.
  2:{ rewrite (bind_throw E2). left. exists e. cbn [fst snd].
      split; [reflexivity|congruence]. }
  rewrite (bind_ok E2).
  assert (Hst2 : StateStore.state (store w2) = Some s) by congruence.
  rewrite (bind_ok (getState_ok w2 Hst2)).
  fold cost. fold costToDeduct.
  rewrite !bind_assign.
  assert (Hstore2 : store w2
                    = {| StateStore.db := Some d; StateStore.state := Some s |})
    by congruence.
  right.
  assert (Hfinal :
    forall wa,
      store wa = {| StateStore.db := Some d; StateStore.state := Some s' |} ->
      let r := bind save (fun _ => logger info "Buyback and burn completed") wa in
      (exists e, fst r = Throw e
                 /\ StateStore.persistState d s' = Throw e
                 /\ store (snd r)
                    = {| StateStore.db := Some d; StateStore.state := Some s' |})
      \/ (fst r = Ok tt
          /\ exists d', StateStore.persistState d s' = Ok d'
                        /\ store (snd r)
                           = {| StateStore.db := Some d';
                                StateStore.state := Some s' |})).
  { intros wa Hwa. unfold bind, save, StateStore.save, StateStore.persist.
    rewrite Hwa. cbn [StateStore.state StateStore.db].
    destruct (StateStore.persistState d s') as [d'|e]; cbn.
    - right. split; [reflexivity|]. exists d'. split; reflexivity.
    - left. exists e. repeat split. exact Hwa. }
  subst s'. destruct (costToDeduct >? 0).
  - rewrite bind_assign. apply Hfinal.
    cbn [store withStore]. rewrite Hstore2. reflexivity.
  - rewrite bind_ret. apply Hfinal.
    cbn [store withStore]. rewrite Hstore2. reflexivity.
Qed.

Lemma persistState_ok d s :
  NoDup (map orderHash (activeListings s)) ->
  exists d', StateStore.persistState d s = Ok d'.
Proof.
  intros Hnd. unfold StateStore.persistState.
  rewrite insertListings_fresh by exact Hnd. cbn. eauto.
Qed.

Lemma save_ok w d s d' :
  store w = {| StateStore.db := Some d; StateStore.state := Some s |} ->
  StateStore.persistState d s = Ok d' ->
  save w
  = (Ok tt,
     withEvent (EvSave true)
               (withStore {| StateStore.db := Some d';
                             StateStore.state := Some s |} w)).
Proof.
  intros Hw Hp. unfold save, StateStore.save, StateStore.persist.
  rewrite Hw. cbn [StateStore.state StateStore.db]. rewrite Hp. reflexivity.
Qed.

(** On a healthy chain the burn phase runs to its end. *)
Lemma completePendingBurn_succeeds token spentWeiOverride w s d :
  chainHealthy env ->
  TOKEN_ADDRESS cfg = Some token ->
  store w = {| StateStore.db := Some d; StateStore.state := Some s |} ->
  0 < pendingBurnAmount s ->
  NoDup (map orderHash (activeListings s)) ->
  fst (completePendingBurn cfg env spentWeiOverride w) = Ok tt.
Proof.
  intros Hh Htoken Hstore Hpending Hnd.
  assert (Hst : StateStore.state (store w) = Some s) by now rewrite Hstore.
  unfold completePendingBurn.
  rewrite (bind_ok (getState_ok w Hst)).
  replace (pendingBurnAmount s <=? 0) with false
    by (symmetry; apply Z.leb_gt; exact Hpending).
  rewrite Htoken.
  match goal with
  | |- context [bind (TreasuryClient.executeSeaport env ?req) _ w] =>
      pose proof (executeSeaport_frame env req w) as [Hs1 _];
      destruct (executeSeaport_succeeds req w Hh) as (tx & w1 & E1)
  end.
  rewrite E1 in Hs1. cbn [snd] in Hs1.
  rewrite (bind_ok E1), bind_logger.
  rewrite (bind_ok (waitForReceipt_succeeds tx _ Hh)).
  assert (Hst2 : StateStore.state
                   (store (withEvent (EvWaitForReceipt tx)
                             (withEvent (EvLog info "Submitted burn transfer") w1)))
                 = Some s).
  { cbn [store withEvent]. congruence. }
  rewrite (bind_ok (getState_ok _ Hst2)).
  rewrite !bind_assign.
  match goal with
  | |- context [if ?c then assign ?f else ret tt] =>
      destruct c; [rewrite bind_assign|rewrite bind_ret]
  end.
  all: match goal with
       | |- fst (bind save _ ?wa) = _ =>
           let Hwa := fresh "Hwa" in
           assert (Hwa : exists sa, store wa
                           = {| StateStore.db := Some d;
                                StateStore.state := Some sa |}
                           /\ activeListings sa = activeListings s)
             by (cbn [store withStore withEvent]; rewrite Hs1, Hstore;
                 cbn; eexists; split; reflexivity);
           destruct Hwa as (sa & Hwa & Hls);
           destruct (persistState_ok d sa) as (d' & Hp);
             [rewrite Hls; exact Hnd|];
           rewrite (bind_ok (save_ok wa Hwa Hp))
       end; reflexivity.
Qed.

End Buyback.

(** ** The burn is submitted and confirmed before the ledger changes *)

Section BurnConfirmation.

Import TreasuryClient Services.

Variable cfg : Config.
Variable env : Env.







End BurnConfirmation.




(** ** Tax collection *)

Section TaxCollector.

Import Services.

Variable cfg : Config.
Variable env : Env.

Lemma sumMatchingLogs_grows treasuryLower logs :
  forall total, total <= sumMatchingLogs treasuryLower logs total.
Proof.
  unfold sumMatchingLogs.
  induction logs as [|log logs IH]; intros total; cbn [fold_left]; [lia|].
  etransitivity; [|apply IH].
  destruct (log_recipient log) as [r|]; [|lia].
  destruct (negb _); [lia|].
  destruct (log_amount log) as [a|]; [|lia].
  destruct (a >? 0) eqn:E; [|lia].
  apply Z.gtb_lt in E. lia.
Qed.

Lemma scanLoop_frame latestBlock :
  forall fuel cursor total,
    Stable (Frame (fun e => isSave e = false))
           (scanLoop cfg env fuel latestBlock cursor total).
Proof.
  induction fuel as [|fuel IH]; intros cursor total; cbn [scanLoop].
  - destruct (cursor <=? latestBlock);
      [apply (Stable_throw _ (@Frame_refl _))|apply (Stable_ret _ (@Frame_refl _))].
  - destruct (cursor <=? latestBlock); [|apply (Stable_ret _ (@Frame_refl _))].
    apply (Stable_bind (@Frame_trans _)); [apply Frame_ask; reflexivity|].
    intros logs. apply (Stable_bind (@Frame_trans _)).
    + apply Stable_if;
        [apply Frame_emit; reflexivity|apply (Stable_ret _ (@Frame_refl _))].
    + intros _. apply IH.
Qed.

(** The scan loop always comes to its end when the provider answers: the
    fuel handed to it by [collectNewTaxProceeds] is never used up. *)
Lemma scanLoop_returns latestBlock :
  logsAvailable env ->
  forall fuel cursor total w,
    (Z.to_nat (latestBlock - cursor + 1) <= fuel)%nat ->
    exists collected w',
      scanLoop cfg env fuel latestBlock cursor total w = (Ok collected, w')
      /\ total <= collected.
Proof.
  intros Hlogs.
  induction fuel as [|fuel IH]; intros cursor total w Hfuel; cbn [scanLoop].
  - destruct (cursor <=? latestBlock) eqn:E.
    + apply Z.leb_le in E. lia.
    + exists total, w. split; [reflexivity|lia].
  - destruct (cursor <=? latestBlock) eqn:E.
    2:{ exists total, w. split; [reflexivity|lia]. }
    apply Z.leb_le in E.
    rewrite bind_ask.
    match goal with
    | |- context [env_getLogs env ?t ?a ?b] =>
        destruct (Hlogs t a b) as (logs & El); rewrite El
    end.
    set (toBlock := if cursor + (MAX_LOG_SPAN - 1) >? latestBlock
                    then latestBlock else cursor + (MAX_LOG_SPAN - 1)).
    assert (Hto : cursor <= toBlock).
    { subst toBlock. unfold MAX_LOG_SPAN. destruct (_ >? _); lia. }
    match goal with
    | |- context [bind ?m _ ?w0] =>
        assert (Em : exists w1, m w0 = (Ok tt, w1))
          by (destruct (_ && _)%bool; eexists; reflexivity);
        destruct Em as (w1 & Em); rewrite (bind_ok Em)
    end.
    match goal with
    | |- context [scanLoop cfg env fuel latestBlock ?c ?t w1] =>
        destruct (IH c t w1) as (collected & w' & Er & Hle); [lia|]
    end.
    exists collected, w'. split; [exact Er|].
    etransitivity; [apply sumMatchingLogs_grows|exact Hle].
Qed.

(** More fuel than needed changes nothing. *)
Lemma scanLoop_fuel_irrelevant latestBlock :
  forall fuel1 fuel2 cursor total w,
    (Z.to_nat (latestBlock - cursor + 1) <= fuel1)%nat ->
    (Z.to_nat (latestBlock - cursor + 1) <= fuel2)%nat ->
    scanLoop cfg env fuel1 latestBlock cursor total w
    = scanLoop cfg env fuel2 latestBlock cursor total w.
Proof.
  induction fuel1 as [|fuel1 IH]; intros fuel2 cursor total w H1 H2.
  - destruct fuel2; cbn [scanLoop];
      (destruct (cursor <=? latestBlock) eqn:E; [|reflexivity]);
      apply Z.leb_le in E; lia.
  - destruct fuel2 as [|fuel2]; cbn [scanLoop];
      (destruct (cursor <=? latestBlock) eqn:E; [|reflexivity]);
      apply Z.leb_le in E; [lia|].
    rewrite !bind_ask. destruct (env_getLogs env _ _ _); [|reflexivity].
    unfold bind.
    match goal with
    | |- context [(if ?c then delay ?ms else ret tt) ?w0] =>
        destruct ((if c then delay ms else ret tt) w0) as [[[]|e] w1]
    end; [|reflexivity].
    apply IH; unfold MAX_LOG_SPAN; destruct (_ >? _); lia.
Qed.






Lemma save_keeps_state w :
  StateStore.state (store (snd (save w))) = StateStore.state (store w).
Proof.
  unfold save, StateStore.save, StateStore.persist.
  destruct (StateStore.state (store w)) as [s|] eqn:Es; [|exact Es].
  destruct (StateStore.db (store w)) as [d|]; [|exact Es].
  destruct (StateStore.persistState d s); cbn; [reflexivity|exact Es].
Qed.

Lemma filter_none {A} (f : A -> bool) (l : list A) :
  Forall (fun a => f a = false) l -> filter f l = [].
Proof.
  induction 1 as [|a l Ha _ IH]; [reflexivity|].
  cbn. now rewrite Ha.
Qed.





End TaxCollector.

(** ** Tax collection: the windows of a scan *)

Section ScanWindows.

Import Services.

Variable cfg : Config.
Variable env : Env.

Lemma logRanges_app older newer :
  logRanges (newer ++ older) = logRanges older ++ logRanges newer.
Proof. unfold logRanges. now rewrite flat_map_app, rev_app_distr. Qed.

Lemma logRanges_quiet events :
  Forall (fun e => isLogRequest e = false) events -> logRanges events = [].
Proof.
  unfold logRanges. induction 1 as [|e events He _ IH]; [reflexivity|].
  cbn [flat_map]. destruct e; try discriminate; cbn; exact IH.
Qed.

Lemma tiles_bounds latest :
  forall ranges first next,
    tiles latest first ranges next ->
    Forall (fun r => first <= fst r <= snd r /\ snd r <= latest
                     /\ snd r - fst r < MAX_LOG_SPAN) ranges
    /\ first <= next
    /\ (ranges <> [] -> next <= latest + 1).
Proof.
  unfold MAX_LOG_SPAN.
  induction ranges as [|[a b] rest IH]; intros first next Ht; cbn [tiles] in Ht.
  - subst. split; [constructor|]. split; [lia|congruence].
  - destruct Ht as (-> & Hle & -> & Hrest).
    unfold MAX_LOG_SPAN in Hrest.
    destruct (IH _ _ Hrest) as (Hall & Hnext & Hlast).
    split; [|split].
    + constructor; [cbn; lia|].
      eapply Forall_impl; [|exact Hall]. cbn. intros r. lia.
    + lia.
    + intros _. destruct rest as [|r rest'].
      * cbn in Hrest. lia.
      * apply Hlast. discriminate.
Qed.

(** The scan asks for consecutive windows from [cursor] on; when it
    returns, the windows reach the head. *)
Lemma scanLoop_ranges latest :
  forall fuel cursor total w,
    (Z.to_nat (latest - cursor + 1) <= fuel)%nat ->
    exists events next,
      trace (snd (scanLoop cfg env fuel latest cursor total w))
      = events ++ trace w
      /\ tiles latest cursor (logRanges events) next
      /\ (forall r, fst (scanLoop cfg env fuel latest cursor total w) = Ok r ->
                    latest < next).
Proof.
  induction fuel as [|fuel IH]; intros cursor total w Hfuel; cbn [scanLoop].
  - destruct (cursor <=? latest) eqn:E.
    + apply Z.leb_le in E. lia.
    + apply Z.leb_gt in E. exists [], cursor.
      split; [reflexivity|]. split; [reflexivity|]. intros; lia.
  - destruct (cursor <=? latest) eqn:E.
    2:{ apply Z.leb_gt in E. exists [], cursor.
        split; [reflexivity|]. split; [reflexivity|]. intros; lia. }
    apply Z.leb_le in E.
    set (toBlock := if cursor + (MAX_LOG_SPAN - 1) >? latest
                    then latest else cursor + (MAX_LOG_SPAN - 1)).
    assert (Hto : toBlock = Z.min (cursor + (MAX_LOG_SPAN - 1)) latest).
    { subst toBlock. destruct (Z.gtb_spec (cursor + (MAX_LOG_SPAN - 1)) latest);
        lia. }
    assert (Hge : cursor <= toBlock) by (unfold MAX_LOG_SPAN in Hto; lia).
    rewrite bind_ask.
    destruct (env_getLogs env (List.length (trace w)) cursor toBlock)
      as [logs|e].
    2:{ exists [EvGetLogs cursor toBlock], (toBlock + 1).
        split; [reflexivity|].
        split; [cbn; repeat split; [exact E|exact Hto]|].
        intros r Hr; discriminate. }
    match goal with
    | |- context [bind ?m _ ?w0] =>
        assert (Em : exists pause,
                   m w0 = (Ok tt, fold_right withEvent w0 pause)
                   /\ Forall (fun e => isLogRequest e = false) pause)
          by (destruct (_ && _)%bool;
              [eexists [_]|exists []]; split;
              first [reflexivity|repeat constructor]);
        destruct Em as (pause & Em & Hpause); rewrite (bind_ok Em)
    end.
    match goal with
    | |- context [scanLoop cfg env fuel latest ?c ?t ?w1] =>
        destruct (IH c t w1 ltac:(lia)) as (events & next & Ht & Htiles & Hok)
    end.
    exists (events ++ pause ++ [EvGetLogs cursor toBlock]), next.
    split.
    { rewrite Ht. rewrite <- !app_assoc. f_equal.
      clear. induction pause as [|p pause IHp]; [reflexivity|].
      cbn. now rewrite IHp. }
    split; [|exact Hok].
    rewrite logRanges_app, logRanges_app, (logRanges_quiet Hpause).
    cbn. repeat split; [exact E|exact Hto|exact Htiles].
Qed.

End ScanWindows.



(** ** Listing reconciliation *)

Section Reconciler.

Import Services.

Variable cfg : Config.
Variable env : Env.

(** One checked listing: it is either pushed back unchanged or dropped with
    its proceeds captured; nothing is saved and the store is not touched.
    A listing whose owner is always someone else is dropped; a listing
    whose read always fails is pushed back. *)
Lemma checkListing_cases l updated proceeds w :
  exists w',
    Frame quiet w w'
    /\ ((checkListing cfg env l updated proceeds w
         = (Ok (updated ++ [l], proceeds), w')
         /\ ~ soldAway cfg env l)
        \/ (checkListing cfg env l updated proceeds w
            = (Ok (updated, proceeds + expectedProceedsWei l), w')
            /\ ~ readFails cfg env l)).
Proof.
  unfold checkListing, stillHeld.
  destruct (parseBigInt (tokenId l)) as [id|perr] eqn:Eparse.
  2:{ (* the conversion throws *)
      eexists. split; cycle 1.
      - left. split.
        + destruct (tokenStandard l); mnorm; reflexivity.
        + intros (_ & id & Hid & _). congruence.
      - frame_by_events. }
  destruct (tokenStandard l) eqn:Estd.
  - (* single owner *)
    destruct (env_ownerOf env (List.length (trace w)) (collection l) id)
      as [owner|rerr] eqn:Eread.
    + destruct (String.eqb (JS.toLowerCase owner)
                           (JS.toLowerCase (TREASURY_ADDRESS cfg))) eqn:Eown.
      * eexists. split; cycle 1.
        -- left. split.
           ++ mnorm. rewrite Eread, Eown. reflexivity.
           ++ intros (_ & id' & Hid & Hall).
              assert (id' = id) by congruence. subst id'.
              destruct (Hall (List.length (trace w))) as (o & Ho & Hne).
              rewrite Eread in Ho. inversion Ho; subst o. congruence.
        -- frame_by_events.
      * eexists. split; cycle 1.
        -- right. split.
           ++ mnorm. rewrite Eread, Eown. reflexivity.
           ++ intros [(e & He)|(id' & Hid & Hall)]; [congruence|].
              assert (id' = id) by congruence. subst id'.
              destruct (Hall (List.length (trace w))) as (e & He).
              rewrite Estd in He. congruence.
        -- frame_by_events.
    + eexists. split; cycle 1.
      * left. split.
        -- mnorm. rewrite Eread. reflexivity.
        -- intros (_ & id' & Hid & Hall).
           assert (id' = id) by congruence. subst id'.
           destruct (Hall (List.length (trace w))) as (o & Ho & _). congruence.
      * frame_by_events.
  - (* balance based *)
    destruct (env_erc1155BalanceOf env (List.length (trace w)) (collection l)
                                   (TREASURY_ADDRESS cfg) id)
      as [balance|rerr] eqn:Eread.
    + destruct (balance >? JS.nullish (expectedPostSaleBalance l) 0) eqn:Ebal.
      * eexists. split; cycle 1.
        -- left. split.
           ++ mnorm. rewrite Eread, Ebal. reflexivity.
           ++ intros (Hstd & _). congruence.
        -- frame_by_events.
      * eexists. split; cycle 1.
        -- right. split.
           ++ mnorm. rewrite Eread, Ebal. reflexivity.
           ++ intros [(e & He)|(id' & Hid & Hall)]; [congruence|].
              assert (id' = id) by congruence. subst id'.
              destruct (Hall (List.length (trace w))) as (e & He).
              rewrite Estd in He. congruence.
        -- frame_by_events.
    + eexists. split; cycle 1.
      * left. split.
        -- mnorm. rewrite Eread. reflexivity.
        -- intros (Hstd & _). congruence.
      * frame_by_events.
Qed.

(** Past the cap, every remaining listing is carried over as it is and
    nothing else happens. *)
Lemma reconcileLoop_beyond_cap :
  forall listings updated checked proceeds w,
    MAX_LISTING_CHECKS_PER_TICK cfg <= checked ->
    reconcileLoop cfg env listings updated checked proceeds w
    = (Ok (updated ++ listings, proceeds), w).
Proof.
  induction listings as [|l rest IH]; intros updated checked proceeds w Hcap.
  - cbn. now rewrite app_nil_r.
  - cbn [reconcileLoop].
    replace (checked >=? MAX_LISTING_CHECKS_PER_TICK cfg) with true
      by (symmetry; apply Z.geb_le; lia).
    rewrite IH by exact Hcap. now rewrite <- app_assoc.
Qed.

Lemma checksLeft_step checked :
  checked < MAX_LISTING_CHECKS_PER_TICK cfg ->
  checksLeft cfg checked = S (checksLeft cfg (checked + 1)).
Proof. unfold checksLeft. lia. Qed.

Lemma checksLeft_none checked :
  MAX_LISTING_CHECKS_PER_TICK cfg <= checked -> checksLeft cfg checked = 0%nat.
Proof. unfold checksLeft. lia. Qed.

(** The whole loop. Of the listings within the cap some are pushed back
    ([keptChecked]) and the others dropped, their proceeds adding up to
    [captured]; the listings past the cap follow unchanged. *)
Lemma reconcileLoop_spec :
  forall listings updated checked proceeds w,
  exists keptChecked captured w',
    reconcileLoop cfg env listings updated checked proceeds w
    = (Ok (updated ++ keptChecked ++ skipn (checksLeft cfg checked) listings,
           proceeds + captured), w')
    /\ Frame quiet w w'
    /\ sumZ (map expectedProceedsWei (firstn (checksLeft cfg checked) listings))
       = sumZ (map expectedProceedsWei keptChecked) + captured
    /\ (forall x, In x keptChecked ->
                  In x (firstn (checksLeft cfg checked) listings))
    /\ (forall x, In x (firstn (checksLeft cfg checked) listings) ->
                  soldAway cfg env x -> ~ In x keptChecked)
    /\ (forall x, In x (firstn (checksLeft cfg checked) listings) ->
                  readFails cfg env x -> In x keptChecked)
    /\ (Forall (fun x => 0 <= expectedProceedsWei x)
               (firstn (checksLeft cfg checked) listings) -> 0 <= captured)
    /\ ((forall x, In x (firstn (checksLeft cfg checked) listings) ->
                   readFails cfg env x) ->
        keptChecked = firstn (checksLeft cfg checked) listings
        /\ captured = 0).
Proof.
  induction listings as [|l rest IH]; intros updated checked proceeds w.
  - exists [], 0, w. rewrite firstn_nil, skipn_nil. cbn.
    rewrite app_nil_r, Z.add_0_r.
    repeat split; try reflexivity; try (intros; contradiction); try lia.
    apply Frame_refl.
  - destruct (checked >=? MAX_LISTING_CHECKS_PER_TICK cfg) eqn:Ecap.
    + apply Z.geb_le in Ecap.
      exists [], 0, w.
      rewrite checksLeft_none by exact Ecap.
      rewrite reconcileLoop_beyond_cap by exact Ecap.
      cbn. rewrite Z.add_0_r.
      repeat split; try reflexivity; try (intros; contradiction); try lia.
      apply Frame_refl.
    + cbn [reconcileLoop]. rewrite Ecap.
      rewrite Z.geb_leb in Ecap. apply Z.leb_gt in Ecap.
      rewrite checksLeft_step by exact Ecap.
      cbn [firstn skipn map sumZ fold_right].
      destruct (checkListing_cases l updated proceeds w)
        as (w1 & Hf1 & [(E1 & Hns)|(E1 & Hnf)]);
        rewrite (bind_ok E1); cbn [fst snd].
      * (* pushed back *)
        destruct (IH (updated ++ [l]) (checked + 1) proceeds w1)
          as (kept & captured & w' & Eloop & Hf & Hsum & Hin & Hsold & Hfail
              & Hpos & Hall).
        exists (l :: kept), captured, w'.
        split; [rewrite Eloop; now rewrite <- app_assoc|].
        split; [eapply Frame_trans; eassumption|].
        split; [cbn; fold (sumZ (map expectedProceedsWei kept));
                fold (sumZ (map expectedProceedsWei
                                (firstn (checksLeft cfg (checked + 1)) rest)));
                lia|].
        split; [intros x [->|Hx]; [now left|right; now apply Hin]|].
        split;
          [intros x [->|Hx] Hs; [contradiction|];
           intros [->|Hk]; [contradiction|]; exact (Hsold x Hx Hs Hk)|].
        split; [intros x [->|Hx] Hr; [now left|right; exact (Hfail x Hx Hr)]|].
        split.
        -- intros Hnn. apply Hpos. now inversion Hnn.
        -- intros Hfails.
           destruct Hall as [Hk Hc]; [intros x Hx; apply Hfails; now right|].
           split; [now rewrite Hk|exact Hc].
      * (* dropped *)
        destruct (IH updated (checked + 1)
                     (proceeds + expectedProceedsWei l) w1)
          as (kept & captured & w' & Eloop & Hf & Hsum & Hin & Hsold & Hfail
              & Hpos & Hall).
        exists kept, (expectedProceedsWei l + captured), w'.
        split; [rewrite Eloop, Z.add_assoc; reflexivity|].
        split; [eapply Frame_trans; eassumption|].
        split; [fold (sumZ (map expectedProceedsWei
                                (firstn (checksLeft cfg (checked + 1)) rest)));
                lia|].
        split; [intros x Hx; right; now apply Hin|].
        split;
          [intros x [->|Hx] Hs Hk;
           [exact (Hsold x (Hin x Hk) Hs Hk)|exact (Hsold x Hx Hs Hk)]|].
        split; [intros x [->|Hx] Hr; [contradiction|exact (Hfail x Hx Hr)]|].
        split.
        -- intros Hnn. inversion Hnn; subst.
           assert (0 <= captured) by now apply Hpos. lia.
        -- intros Hfails. exfalso. apply Hnf, Hfails. now left.
Qed.

(** [reconcileListings] as a whole: after the loop the listing set is
    replaced; the pool is raised and the ledger saved only when the captured
    proceeds are strictly positive. *)
Lemma reconcileListings_spec w s d :
  store w = {| StateStore.db := Some d; StateStore.state := Some s |} ->
  exists keptChecked captured w1,
    Frame quiet w w1
    /\ sumZ (map expectedProceedsWei
                 (firstn (checksLeft cfg 0) (activeListings s)))
       = sumZ (map expectedProceedsWei keptChecked) + captured
    /\ (forall x, In x keptChecked ->
                  In x (firstn (checksLeft cfg 0) (activeListings s)))
    /\ (forall x, In x (firstn (checksLeft cfg 0) (activeListings s)) ->
                  soldAway cfg env x -> ~ In x keptChecked)
    /\ (forall x, In x (firstn (checksLeft cfg 0) (activeListings s)) ->
                  readFails cfg env x -> In x keptChecked)
    /\ (Forall (fun x => 0 <= expectedProceedsWei x)
               (firstn (checksLeft cfg 0) (activeListings s)) -> 0 <= captured)
    /\ ((forall x, In x (firstn (checksLeft cfg 0) (activeListings s)) ->
                   readFails cfg env x) ->
        keptChecked = firstn (checksLeft cfg 0) (activeListings s)
        /\ captured = 0)
    /\ reconcileListings cfg env w
       = let kept := keptChecked ++ skipn (checksLeft cfg 0) (activeListings s) in
         if captured >? 0 then
           bind save (fun _ => ret captured)
                (withStore
                   {| StateStore.db := Some d;
                      StateStore.state :=
                        Some (set_salePoolWei (salePoolWei s + captured)
                                              (set_activeListings kept s)) |}
                   w1)
         else
           (Ok captured,
            withStore
              {| StateStore.db := Some d;
                 StateStore.state := Some (set_activeListings kept s) |}
              w1).
Proof.
  intros Hstore.
  assert (Hst : StateStore.state (store w) = Some s) by now rewrite Hstore.
  unfold reconcileListings. rewrite (bind_ok (getState_ok w Hst)).
  destruct (activeListings s) as [|l rest] eqn:Els.
  - exists [], 0, w. rewrite firstn_nil, skipn_nil. cbn.
    split; [apply Frame_refl|].
    repeat split; try reflexivity; try (intros; contradiction); try lia.
    unfold ret, withStore. f_equal.
    destruct w as [st cn tr]. cbn in *. subst st. f_equal. f_equal. f_equal.
    destruct s; cbn in *. subst. reflexivity.
  - cbn [List.length Nat.eqb]. rewrite <- Els.
    destruct (reconcileLoop_spec (activeListings s) [] 0 0 w)
      as (kept & captured & w1 & Eloop & Hf & Hsum & Hin & Hsold & Hfail
          & Hpos & Hall).
    exists kept, captured, w1.
    split; [exact Hf|]. split; [exact Hsum|]. split; [exact Hin|].
    split; [exact Hsold|]. split; [exact Hfail|].
    split; [exact Hpos|]. split; [exact Hall|].
    rewrite (bind_ok Eloop). cbn [fst snd app]. rewrite Z.add_0_l.
    rewrite bind_assign.
    destruct Hf as [Hs1 _]. rewrite Hs1, Hstore. cbn [StateStore.db StateStore.state option_map].
    cbv zeta.
    destruct (captured >? 0).
    + rewrite bind_assign. cbn [store withStore StateStore.db StateStore.state option_map].
      reflexivity.
    + reflexivity.
Qed.

End Reconciler.

Lemma Forall_firstn_of {A} (P : A -> Prop) n (l : list A) :
  Forall P l -> Forall P (firstn n l).
Proof.
  intros H. rewrite <- (firstn_skipn n l) in H.
  now apply Forall_app in H.
Qed.

Lemma set_activeListings_same s : set_activeListings (activeListings s) s = s.
Proof. now destruct s. Qed.

Lemma set_salePoolWei_same s : set_salePoolWei (salePoolWei s + 0) s = s.
Proof. destruct s; unfold set_salePoolWei; cbn. now rewrite Z.add_0_r. Qed.

Lemma bind_save_ret_state {A} (a : A) w :
  StateStore.state (store (snd (bind save (fun _ => ret a) w)))
  = StateStore.state (store w).
Proof.
  pose proof (save_keeps_state w) as Hk. unfold bind.
  destruct (save w) as [[[]|e] w']; exact Hk.
Qed.

(** C5. In one pass of [reconcileListings] over a ledger with non-negative
    expected proceeds, the listings within the per-tick cap are either kept
    or dropped, and the pool grows by exactly the proceeds of the dropped
    ones, each counted once; a single-owner listing whose owner is reported
    to be someone other than the treasury is dropped; a listing whose
    on-chain read throws is kept, and when every checked read throws
    nothing in the ledger changes; the listings beyond the cap are carried
    over as they are, after the kept ones. *)
Theorem reconcileListings_credits_each_sale_once
        (cfg : Config) (env : Env) (w : World) (s : BotState)
        (d : StateStore.Database) :
  store w = {| StateStore.db := Some d; StateStore.state := Some s |} ->
  Forall (fun x => 0 <= expectedProceedsWei x) (activeListings s) ->
  let checkedNow := firstn (checksLeft cfg 0) (activeListings s) in
  let carriedOver := skipn (checksLeft cfg 0) (activeListings s) in
  let run := Services.reconcileListings cfg env w in
  exists keptChecked captured,
    StateStore.state (store (snd run))
    = Some (set_salePoolWei (salePoolWei s + captured)
              (set_activeListings (keptChecked ++ carriedOver) s))
    /\ 0 <= captured
    /\ sumZ (map expectedProceedsWei checkedNow)
       = sumZ (map expectedProceedsWei keptChecked) + captured
    /\ (forall x, In x keptChecked -> In x checkedNow)
    /\ (forall x, In x checkedNow -> soldAway cfg env x -> ~ In x keptChecked)
    /\ (forall x, In x checkedNow -> readFails cfg env x -> In x keptChecked)
    /\ ((forall x, In x checkedNow -> readFails cfg env x) ->
        store (snd run) = store w /\ fst run = Ok 0)
    /\ (forall p, fst run = Ok p -> p = captured).
Proof.
  intros Hstore Hnonneg checkedNow carriedOver run.
  destruct (reconcileListings_spec cfg env w Hstore)
    as (kept & captured & w1 & Hf & Hsum & Hin & Hsold & Hfail & Hpos & Hall
        & Erun).
  fold checkedNow in Hsum, Hin, Hsold, Hfail, Hpos, Hall.
  fold carriedOver in Erun. cbv zeta in Erun.
  assert (Hcap : 0 <= captured).
  { apply Hpos. subst checkedNow. now apply Forall_firstn_of. }
  exists kept, captured.
  split.
  { subst run. rewrite Erun.
    destruct (captured >? 0) eqn:Epos.
    - rewrite bind_save_ret_state. reflexivity.
    - rewrite Z.gtb_ltb in Epos. apply Z.ltb_ge in Epos.
      assert (captured = 0) by lia. subst captured.
      cbn [snd store withStore StateStore.state].
      now rewrite <- (set_salePoolWei_same
                        (set_activeListings (kept ++ carriedOver) s)) at 1. }
  split; [exact Hcap|]. split; [exact Hsum|]. split; [exact Hin|].
  split; [exact Hsold|]. split; [exact Hfail|].
  split.
  { intros Hfails. destruct (Hall Hfails) as [Hk Hc].
    subst run. rewrite Erun, Hc, Hk. cbn.
    subst checkedNow carriedOver.
    rewrite firstn_skipn, set_activeListings_same.
    split; [now rewrite Hstore|reflexivity]. }
  intros p Hp. subst run. rewrite Erun in Hp.
  destruct (captured >? 0).
  - unfold bind in Hp. destruct (save _) as [[[]|e] w2]; cbn in Hp.
    + now inversion Hp.
    + discriminate.
  - now inversion Hp.
Qed.

Lemma soldListing_soldAway : soldAway sampleConfig marketEnv soldListing.
Proof.
  split; [reflexivity|]. exists 1. split; [reflexivity|].
  intros t. eexists. split; reflexivity.
Defined.

Lemma unreadableListing_readFails :
  readFails sampleConfig marketEnv unreadableListing.
Proof.
  right. exists 2. split; [reflexivity|].
  intros t. eexists. reflexivity.
Defined.

Lemma reconcileListings_credits_each_sale_once_witness :
  let s := listedLedger [soldListing; unreadableListing; heldListing;
                         soldListing] in
  let run :=
    Services.reconcileListings sampleConfig marketEnv
                               (worldOf (snapshotOf s) s None) in
  (exists keptChecked captured,
      StateStore.state (store (snd run))
      = Some (set_salePoolWei (0 + captured)
                (set_activeListings (keptChecked ++ [soldListing]) s))
      /\ 0 <= captured
      /\ ~ In soldListing keptChecked
      /\ In unreadableListing keptChecked)
  /\ StateStore.state (store (snd run))
     = Some (set_salePoolWei 1300
               (set_activeListings
                  [unreadableListing; heldListing; soldListing] s)).
Proof.
  intros s run. split; [|vm_compute; reflexivity].
  destruct (@reconcileListings_credits_each_sale_once
              sampleConfig marketEnv (worldOf (snapshotOf s) s None) s
              (snapshotOf s) eq_refl)
    as (kept & captured & Hstate & Hcap & _ & _ & Hsold & Hfail & _).
  - repeat constructor; simpl; lia.
  - exists kept, captured.
    split; [exact Hstate|]. split; [exact Hcap|]. split.
    + apply Hsold; [left; reflexivity|exact soldListing_soldAway].
    + apply Hfail; [right; left; reflexivity|exact unreadableListing_readFails].
Defined.

Lemma NoDup_app_disjoint {A} (front back : list A) (x : A) :
  NoDup (front ++ back) -> In x front -> In x back -> False.
Proof.
  induction front as [|a front IH]; intros Hnd Hf Hb; [contradiction|].
  cbn in Hnd. inversion Hnd as [|? ? Hna Hnd']; subst.
  destruct Hf as [->|Hf].
  - apply Hna. apply in_or_app. now right.
  - exact (IH Hnd' Hf Hb).
Qed.

Lemma load_existing legacyJsonPath legacyFile d s initialBlock :
  StateStore.readStateFromDatabase d = Ok (Some s) ->
  StateStore.load legacyJsonPath legacyFile (Some d) initialBlock
  = (Ok {| StateStore.db := Some d; StateStore.state := Some s |}, d).
Proof. intros H. unfold StateStore.load. cbn. now rewrite H. Qed.

(** C10. [reconcileListings] saves exactly when the proceeds it returns
    are strictly positive. In a tick that returns zero, a listing detected
    as sold (necessarily with zero expected proceeds) leaves the in-memory
    listing set, but the database is left as it was, so a restart that
    loads from it brings the listing back. *)
Theorem reconcile_saves_only_positive_proceeds
        (cfg : Config) (env : Env) (w : World) (s : BotState)
        (d : StateStore.Database) :
  store w = {| StateStore.db := Some d; StateStore.state := Some s |} ->
  let run := Services.reconcileListings cfg env w in
  (forall p,
      fst run = Ok p ->
      exists events,
        trace (snd run) = events ++ trace w
        /\ (0 < p -> filter isSave events = [EvSave true])
        /\ (p <= 0 -> filter isSave events = []
                      /\ StateStore.db (store (snd run)) = Some d))
  /\ (forall l legacyJsonPath legacyFile initialBlock,
         NoDup (activeListings s) ->
         In l (firstn (checksLeft cfg 0) (activeListings s)) ->
         soldAway cfg env l ->
         fst run = Ok 0 ->
         StateStore.readStateFromDatabase d = Ok (Some s) ->
         (exists s', StateStore.state (store (snd run)) = Some s'
                     /\ ~ In l (activeListings s'))
         /\ StateStore.db (store (snd run)) = Some d
         /\ StateStore.load legacyJsonPath legacyFile
                            (StateStore.db (store (snd run))) initialBlock
            = (Ok {| StateStore.db := Some d; StateStore.state := Some s |}, d)
         /\ In l (activeListings s))
  /\ (forall l,
         activeListings s = [l] ->
         0 < MAX_LISTING_CHECKS_PER_TICK cfg ->
         soldAway cfg env l ->
         expectedProceedsWei l = 0 ->
         fst run = Ok 0).
Proof.
  intros Hstore run.
  destruct (reconcileListings_spec cfg env w Hstore)
    as (kept & captured & w1 & Hf & Hsum & Hin & Hsold & Hfail & Hpos & Hall
        & Erun).
  cbv zeta in Erun.
  destruct Hf as [Hs1 (evs & Ht1 & Hquiet)].
  split; [|split].
  - intros p Hp. subst run. rewrite Erun in *.
    destruct (captured >? 0) eqn:Epos.
    + apply Z.gtb_lt in Epos.
      unfold bind, save in *. cbn [store withStore] in *.
      unfold StateStore.save, StateStore.persist in *.
      cbn [StateStore.state StateStore.db] in *.
      destruct (StateStore.persistState d _) as [d'|e]; cbn in Hp;
        [|discriminate].
      inversion Hp; subst p.
      exists (EvSave true :: evs). cbn.
      split; [now rewrite Ht1|].
      split; [intros _; now rewrite (filter_none _ Hquiet)|lia].
    + rewrite Z.gtb_ltb in Epos. apply Z.ltb_ge in Epos.
      cbn in Hp. inversion Hp; subst p.
      exists evs. cbn.
      split; [exact Ht1|].
      split; [lia|]. intros _.
      split; [exact (filter_none _ Hquiet)|reflexivity].
  - intros l legacyJsonPath legacyFile initialBlock Hnd Hl Hsa Hzero Hsnap.
    assert (Hc : captured = 0 /\ (captured >? 0) = false).
    { subst run. rewrite Erun in Hzero.
      destruct (captured >? 0) eqn:Epos.
      - apply Z.gtb_lt in Epos. exfalso.
        unfold bind in Hzero. destruct (save _) as [[[]|e] w2]; cbn in Hzero.
        + inversion Hzero. lia.
        + discriminate.
      - cbn in Hzero. inversion Hzero. split; reflexivity. }
    destruct Hc as [Hc Epos]. subst run. rewrite Erun, Epos.
    cbn [snd store withStore StateStore.state StateStore.db].
    split; [|split; [reflexivity|split]].
    + eexists. split; [reflexivity|]. cbn.
      intros Hin'. apply in_app_or in Hin'. destruct Hin' as [Hk|Hcarried].
      * exact (Hsold l Hl Hsa Hk).
      * rewrite <- (firstn_skipn (checksLeft cfg 0) (activeListings s)) in Hnd.
        eapply NoDup_app_disjoint; eassumption.
    + now apply load_existing.
    + rewrite <- (firstn_skipn (checksLeft cfg 0) (activeListings s)).
      apply in_or_app. now left.
  - intros l Hls Hmax Hsa Hzero.
    assert (Hn : firstn (checksLeft cfg 0) (activeListings s) = [l]).
    { rewrite Hls. unfold checksLeft.
      destruct (Z.to_nat (MAX_LISTING_CHECKS_PER_TICK cfg - 0)) eqn:En; [lia|].
      cbn. now rewrite firstn_nil. }
    rewrite Hn in *.
    assert (Hk : kept = []).
    { destruct kept as [|x kept']; [reflexivity|]. exfalso.
      assert (Hx : In x [l]) by (apply Hin; now left).
      destruct Hx as [<-|[]].
      apply (Hsold l); [now left|exact Hsa|now left]. }
    subst kept. cbn in Hsum.
    assert (Hc : captured = 0) by lia.
    subst run. rewrite Erun, Hc. reflexivity.
Qed.

Lemma freeListing_soldAway : soldAway sampleConfig marketEnv freeListing.
Proof.
  split; [reflexivity|]. exists 1. split; [reflexivity|].
  intros t. eexists. split; reflexivity.
Defined.

Lemma reconcile_saves_only_positive_proceeds_witness :
  let s := listedLedger [freeListing] in
  let run :=
    Services.reconcileListings sampleConfig marketEnv
                               (worldOf (snapshotOf s) s None) in
  (exists s', StateStore.state (store (snd run)) = Some s'
              /\ ~ In freeListing (activeListings s'))
  /\ StateStore.db (store (snd run)) = Some (snapshotOf s)
  /\ StateStore.load None StateStore.LegacyMissing
                     (StateStore.db (store (snd run))) 0
     = (Ok {| StateStore.db := Some (snapshotOf s);
              StateStore.state := Some s |},
        snapshotOf s)
  /\ In freeListing (activeListings s).
Proof.
  intros s run.
  destruct (@reconcile_saves_only_positive_proceeds
              sampleConfig marketEnv (worldOf (snapshotOf s) s None) s
              (snapshotOf s) eq_refl)
    as (_ & Hzero & Hsingle).
  apply Hzero.
  - repeat constructor. simpl. intuition.
  - left. reflexivity.
  - exact freeListing_soldAway.
  - apply (Hsingle freeListing).
    + reflexivity.
    + simpl. lia.
    + exact freeListing_soldAway.
    + reflexivity.
  - vm_compute. reflexivity.
Defined.

(** ** Purchase and relist *)

Section Purchase.

Import Services.

Variable cfg : Config.
Variable env : Env.

Lemma KeepsSettled_refl c w : KeepsSettled c w w.
Proof. intros H; exact H. Qed.

Lemma KeepsSettled_trans c w1 w2 w3 :
  KeepsSettled c w1 w2 -> KeepsSettled c w2 w3 -> KeepsSettled c w1 w3.
Proof. unfold KeepsSettled; auto. Qed.

Lemma emit_settled c e : Stable (KeepsSettled c) (emit e).
Proof. intros w H. exact H. Qed.

Lemma ask_settled c {A} e (f : nat -> Result A) :
  Stable (KeepsSettled c) (ask e f).
Proof. intros w H. exact H. Qed.

Lemma cooldown_settled c : Stable (KeepsSettled c) (cooldown cfg).
Proof.
  unfold cooldown. destruct (ACTION_COOLDOWN_MS cfg >? 0).
  - apply emit_settled.
  - apply (Stable_ret _ (@KeepsSettled_refl c)).
Qed.

Lemma createOpenSeaListing_settled c blueprint price :
  Stable (KeepsSettled c) (createOpenSeaListing env blueprint price).
Proof. intros w H. exact H. Qed.

Lemma assign_listings_settled c f :
  Stable (KeepsSettled c)
         (assign (fun s => set_activeListings (f s) s)).
Proof.
  intros w [Hm Hd]. split.
  - cbn. destruct (StateStore.state (store w)); [exact Hm|discriminate].
  - exact Hd.
Qed.

(** A save writes the in-memory pool into the state row, or fails and
    leaves the database alone. *)
Lemma save_settled c : Stable (KeepsSettled c) save.
Proof.
  intros w H. unfold save.
  destruct (StateStore.save (store w)) as [st'|e] eqn:Esave; [|exact H].
  destruct H as [Hm Hd].
  unfold StateStore.save, StateStore.persist in Esave.
  destruct (StateStore.state (store w)) as [s|]; [|discriminate].
  destruct (StateStore.db (store w)) as [d|]; [|discriminate].
  cbn in Hm. inversion Hm as [Hc].
  unfold StateStore.persistState in Esave.
  destruct (StateStore.insertListings [] (activeListings s)) as [table|e];
    cbn in Esave; [|discriminate].
  inversion Esave; subst st'. split; reflexivity.
Qed.

(** The relist step never loses the deduction, whatever the marketplace
    and the chain do. *)
Lemma relistStep_settled c execution cost :
  Stable (KeepsSettled c) (relistStep cfg env execution cost).
Proof.
  unfold relistStep, dateNow.
  stable_steps (@KeepsSettled_refl c) (@KeepsSettled_trans c);
    first [ apply emit_settled | apply ask_settled | apply cooldown_settled
          | apply createOpenSeaListing_settled | apply save_settled
          | idtac ].
  all: match goal with
       | |- Stable _ (assign (fun s => set_activeListings (activeListings s ++ ?x) s)) =>
           apply (@assign_listings_settled c (fun s => activeListings s ++ x))
       end.
Qed.

Lemma tryCatch_logged {A} (m : M A) level text (k : A) w :
  exists a w',
    tryCatch m (fun _ => bind (logger level text) (fun _ => ret k)) w
    = (Ok a, w').
Proof.
  unfold tryCatch. destruct (m w) as [[a|e] w1]; eexists; eexists; reflexivity.
Qed.

(** The relist step always returns [true]: its failures are caught. *)
Lemma relistStep_returns execution cost w :
  fst (relistStep cfg env execution cost w) = Ok true.
Proof.
  unfold relistStep.
  destruct (openSeaMetadata execution) as [metadata|].
  - unfold bind at 1, tryCatch.
    match goal with
    | |- context [let (r, w') := ?m w in _] => destruct (m w) as [[[]|e] w1]
    end; cbn; unfold cooldown;
      destruct (ACTION_COOLDOWN_MS cfg >? 0); reflexivity.
  - rewrite bind_logger. unfold cooldown.
    destruct (ACTION_COOLDOWN_MS cfg >? 0); reflexivity.
Qed.

Lemma persistState_commission d s d' :
  StateStore.persistState d s = Ok d' ->
  option_map StateStore.row_commissionPoolWei (StateStore.state_table d')
  = Some (JS.toString (commissionPoolWei s)).
Proof.
  unfold StateStore.persistState.
  destruct (StateStore.insertListings [] (activeListings s)); cbn;
    [|discriminate].
  intros H. inversion H. reflexivity.
Qed.

Lemma submitterEvent_before_relist call e :
  submitterEvent call e -> isCreateListing e = false /\ isSave e = false.
Proof. destruct e; cbn; intros H; try contradiction; split; reflexivity. Qed.

End Purchase.

(** C7. [attemptPurchaseAndListing] does nothing at all (no transaction, no
    change of the store, result [false]) unless a target is configured, the
    marketplace proposes an execution and its price is strictly positive
    and at most [commissionPoolWei]. When it is, and the purchase is
    submitted and confirmed, the cost is deducted and the ledger saved
    before the relist step starts; from there on the function returns
    [true] and the deducted pool stays both in memory and in the database,
    whatever the relist step does. On a healthy chain that is what
    happens. *)
Theorem purchase_deducted_and_saved_before_relist
        (cfg : Config) (env : Env) (w : World) (s : BotState)
        (d : StateStore.Database) :
  store w = {| StateStore.db := Some d; StateStore.state := Some s |} ->
  let run := Services.attemptPurchaseAndListing cfg env w in
  let fetched := env_fetchOpenSeaBuyExecution env (List.length (trace w)) in
  ((Services.targetMissing cfg = true
    \/ Services.tokenWithoutCollection cfg = true
    \/ commissionPoolWei s <= 0
    \/ (exists e, fetched = Throw e)
    \/ (exists execution,
           fetched = Ok execution
           /\ (ex_valueWei execution <= 0
               \/ commissionPoolWei s < ex_valueWei execution))) ->
   fst run = Ok false
   /\ store (snd run) = store w
   /\ cachedNonce (snd run) = cachedNonce w
   /\ exists events,
       trace (snd run) = events ++ trace w
       /\ Forall (fun e => isSubmission e = false) events)
  /\ (forall execution txHash w1 w2 d1,
         Services.targetMissing cfg = false ->
         Services.tokenWithoutCollection cfg = false ->
         fetched = Ok execution ->
         0 < ex_valueWei execution <= commissionPoolWei s ->
         let cost := ex_valueWei execution in
         let s1 := set_commissionPoolWei (commissionPoolWei s - cost) s in
         TreasuryClient.executeSeaport env (purchaseRequest execution)
                                       (withEvent EvFetchBuyExecution w)
         = (Ok txHash, w1) ->
         TreasuryClient.waitForReceipt env txHash
           (withEvent (EvLog info "Submitted NFT purchase transaction") w1)
         = (Ok tt, w2) ->
         StateStore.persistState d s1 = Ok d1 ->
         let saved :=
           withEvent (EvSave true)
                     (withStore {| StateStore.db := Some d1;
                                   StateStore.state := Some s1 |} w2) in
         run = Services.relistStep cfg env execution cost saved
         /\ (exists events,
                trace saved = EvSave true :: events ++ trace w
                /\ Forall (fun e => isCreateListing e = false
                                    /\ isSave e = false) events)
         /\ CommissionSettled (commissionPoolWei s - cost) saved
         /\ fst run = Ok true
         /\ CommissionSettled (commissionPoolWei s - cost) (snd run))
  /\ (forall execution,
         Services.targetMissing cfg = false ->
         Services.tokenWithoutCollection cfg = false ->
         fetched = Ok execution ->
         0 < ex_valueWei execution <= commissionPoolWei s ->
         chainHealthy env ->
         NoDup (map orderHash (activeListings s)) ->
         fst run = Ok true
         /\ CommissionSettled (commissionPoolWei s - ex_valueWei execution)
                              (snd run)).
Proof.
  intros Hstore run fetched.
  assert (Hst : StateStore.state (store w) = Some s) by now rewrite Hstore.
  assert (Efetch :
    tryCatch
      (bind (ask EvFetchBuyExecution (env_fetchOpenSeaBuyExecution env))
            (fun execution => ret (Some execution)))
      (fun _ =>
         bind (logger warn "Failed to resolve OpenSea execution; skipping iteration")
              (fun _ => ret None)) w
    = match fetched with
      | Ok execution => (Ok (Some execution), withEvent EvFetchBuyExecution w)
      | Throw _ =>
          (Ok None,
           withEvent (EvLog warn "Failed to resolve OpenSea execution; skipping iteration")
                     (withEvent EvFetchBuyExecution w))
      end).
  { subst fetched. mnorm.
    destruct (env_fetchOpenSeaBuyExecution env (List.length (trace w)));
      reflexivity. }
  assert (Hproceed :
    forall execution,
      Services.targetMissing cfg = false ->
      Services.tokenWithoutCollection cfg = false ->
      fetched = Ok execution ->
      0 < ex_valueWei execution <= commissionPoolWei s ->
      run = bind (TreasuryClient.executeSeaport env (purchaseRequest execution))
                 (fun purchaseTx =>
                    bind (logger info "Submitted NFT purchase transaction")
                      (fun _ =>
                         bind (TreasuryClient.waitForReceipt env purchaseTx)
                           (fun _ =>
                              bind (assign (fun s0 =>
                                      set_commissionPoolWei
                                        (commissionPoolWei s0
                                         - ex_valueWei execution) s0))
                                (fun _ =>
                                   bind save
                                     (fun _ =>
                                        Services.relistStep
                                          cfg env execution
                                          (ex_valueWei execution))))))
                 (withEvent EvFetchBuyExecution w)).
  { intros execution Etm Etc Ef [Hpos Hle].
    subst run. unfold Services.attemptPurchaseAndListing.
    rewrite Etm, Etc, (bind_ok (getState_ok w Hst)).
    replace (commissionPoolWei s <=? 0) with false
      by (symmetry; apply Z.leb_gt; lia).
    rewrite Ef in Efetch. rewrite (bind_ok Efetch).
    assert (Hst0 : StateStore.state (store (withEvent EvFetchBuyExecution w))
                   = Some s) by exact Hst.
    rewrite (bind_ok (getState_ok _ Hst0)).
    replace ((ex_valueWei execution <=? 0)
             || (commissionPoolWei s <? ex_valueWei execution))%bool
      with false
      by (symmetry; apply orb_false_iff; split;
          [apply Z.leb_gt|apply Z.ltb_ge]; lia).
    reflexivity. }
  split; [|split].
  - (* nothing happens *)
    intros Hno. subst run. unfold Services.attemptPurchaseAndListing.
    destruct (Services.targetMissing cfg) eqn:Etm.
    { cbn. split; [reflexivity|]. split; [reflexivity|].
      split; [reflexivity|].
      exists []. split; [reflexivity|constructor]. }
    destruct (Services.tokenWithoutCollection cfg) eqn:Etc.
    { rewrite bind_logger. cbn. split; [reflexivity|]. split; [reflexivity|].
      split; [reflexivity|].
      eexists [_]. split; [reflexivity|]. repeat constructor. }
    rewrite (bind_ok (getState_ok w Hst)).
    destruct (commissionPoolWei s <=? 0) eqn:Epool.
    { cbn. split; [reflexivity|]. split; [reflexivity|].
      split; [reflexivity|].
      exists []. split; [reflexivity|constructor]. }
    apply Z.leb_gt in Epool.
    destruct fetched as [execution|e] eqn:Ef.
    + rewrite (bind_ok Efetch).
      assert (Hst0 : StateStore.state (store (withEvent EvFetchBuyExecution w))
                     = Some s) by exact Hst.
      rewrite (bind_ok (getState_ok _ Hst0)).
      destruct ((ex_valueWei execution <=? 0)
                || (commissionPoolWei s <? ex_valueWei execution))%bool eqn:Ebad.
      * cbn. split; [reflexivity|]. split; [reflexivity|].
      split; [reflexivity|].
        eexists [_]. split; [reflexivity|]. repeat constructor.
      * exfalso. apply orb_false_iff in Ebad. destruct Ebad as [E1 E2].
        apply Z.leb_gt in E1. apply Z.ltb_ge in E2.
        destruct Hno as [H|[H|[H|[(e & H)|(ex & H & Hbad)]]]];
          try discriminate; try lia.
        inversion H; subst ex. lia.
    + rewrite (bind_ok Efetch). cbn.
      split; [reflexivity|]. split; [reflexivity|].
      split; [reflexivity|].
      eexists [_; _]. split; [reflexivity|]. repeat constructor.
  - (* the purchase goes through *)
    intros execution txHash w1 w2 d1 Etm Etc Ef Hprice cost s1
           Eexec Ewait Hp saved.
    pose proof (executeSeaport_frame env (purchaseRequest execution)
                                     (withEvent EvFetchBuyExecution w))
      as [Hs1 (evs1 & Ht1 & Hev1)].
    rewrite Eexec in Hs1, Ht1. cbn [snd store trace withEvent] in Hs1, Ht1.
    pose proof (waitForReceipt_frame env txHash
                  (withEvent (EvLog info "Submitted NFT purchase transaction") w1))
      as [Hs2 (evs2 & Ht2 & Hev2)].
    rewrite Ewait in Hs2, Ht2. cbn [snd store trace withEvent] in Hs2, Ht2.
    assert (Hstore2 : store w2
                      = {| StateStore.db := Some d; StateStore.state := Some s |})
      by congruence.
    assert (Erun : run = Services.relistStep cfg env execution cost saved).
    { rewrite (Hproceed execution Etm Etc Ef Hprice).
      rewrite (bind_ok Eexec), bind_logger, (bind_ok Ewait), bind_assign.
      rewrite Hstore2. cbn [StateStore.db StateStore.state option_map].
      erewrite bind_ok; [|eapply save_ok; [reflexivity|exact Hp]].
      reflexivity. }
    split; [exact Erun|].
    split.
    { exists (evs2 ++ EvLog info "Submitted NFT purchase transaction"
                   :: evs1 ++ [EvFetchBuyExecution]).
      split.
      - subst saved. cbn [trace withEvent withStore]. rewrite Ht2, Ht1.
        cbn. f_equal. rewrite <- app_assoc. f_equal. cbn. f_equal.
        rewrite <- app_assoc. reflexivity.
      - apply Forall_app. split.
        + eapply Forall_impl; [|exact Hev2]. intros e ->. split; reflexivity.
        + constructor; [split; reflexivity|].
          apply Forall_app. split.
          * eapply Forall_impl; [|exact Hev1].
            intros e He. eapply submitterEvent_before_relist, He.
          * repeat constructor. }
    assert (Hsaved : CommissionSettled (commissionPoolWei s - cost) saved).
    { split; [reflexivity|].
      unfold durableCommission. subst saved.
      cbn [store withEvent withStore StateStore.db].
      rewrite (persistState_commission d s1 Hp). reflexivity. }
    split; [exact Hsaved|].
    rewrite Erun.
    split; [apply relistStep_returns|].
    apply relistStep_settled. exact Hsaved.
  - (* on a healthy chain *)
    intros execution Etm Etc Ef Hprice Hh Hnd.
    destruct (executeSeaport_succeeds (purchaseRequest execution)
                (withEvent EvFetchBuyExecution w) Hh) as (tx & w1 & Eexec).
    pose proof (waitForReceipt_succeeds tx
                  (withEvent (EvLog info "Submitted NFT purchase transaction") w1)
                  Hh) as Ewait.
    set (s1 := set_commissionPoolWei
                 (commissionPoolWei s - ex_valueWei execution) s).
    assert (Hnd1 : NoDup (map orderHash (activeListings s1))) by exact Hnd.
    destruct (persistState_ok d s1 Hnd1) as (d1 & Hp).
    pose proof (executeSeaport_frame env (purchaseRequest execution)
                                     (withEvent EvFetchBuyExecution w))
      as [Hs1 _].
    rewrite Eexec in Hs1. cbn [snd store withEvent] in Hs1.
    assert (Hstore2 :
      store (withEvent (EvWaitForReceipt tx)
               (withEvent (EvLog info "Submitted NFT purchase transaction") w1))
      = {| StateStore.db := Some d; StateStore.state := Some s |}).
    { cbn [store withEvent]. congruence. }
    rewrite (Hproceed execution Etm Etc Ef Hprice).
    rewrite (bind_ok Eexec), bind_logger, (bind_ok Ewait), bind_assign.
    rewrite Hstore2. cbn [StateStore.db StateStore.state option_map].
    erewrite bind_ok; [|eapply save_ok; [reflexivity|exact Hp]].
    split; [apply relistStep_returns|].
    apply relistStep_settled.
    split; [reflexivity|].
    unfold durableCommission. cbn [store withEvent withStore StateStore.db].
    rewrite (persistState_commission d s1 Hp). reflexivity.
Qed.

Lemma offerEnv_healthy : chainHealthy offerEnv.
Proof.
  split; [split|split].
  - intros t. exists 100, 2. reflexivity.
  - intros t call nonce f p. eexists. reflexivity.
  - intros t. exists 7. reflexivity.
  - intros t h. reflexivity.
Defined.

Lemma purchase_deducted_and_saved_before_relist_witness :
  let ledger := sampleLedger 3 [] in
  let w := worldOf (snapshotOf ledger) ledger None in
  let bought := Services.attemptPurchaseAndListing sampleConfig offerEnv w in
  let skipped := Services.attemptPurchaseAndListing sampleConfig steadyEnv w in
  (fst bought = Ok true /\ CommissionSettled 600 (snd bought))
  /\ (fst skipped = Ok false /\ store (snd skipped) = store w).
Proof.
  intros ledger w bought skipped.
  split.
  - destruct (@purchase_deducted_and_saved_before_relist
                sampleConfig offerEnv w ledger (snapshotOf ledger) eq_refl)
      as (_ & _ & Hlive).
    apply (Hlive offeredExecution); try reflexivity.
    + cbn. lia.
    + exact offerEnv_healthy.
    + constructor.
  - destruct (@purchase_deducted_and_saved_before_relist
                sampleConfig steadyEnv w ledger (snapshotOf ledger) eq_refl)
      as (Hskip & _ & _).
    destruct Hskip as (Hres & Hstore & _).
    + right. right. right. left. eexists. reflexivity.
    + split; assumption.
Defined.

Section Driver.
Variable cfg : Config.
Variable env : Env.

Lemma tick_unfolded w :
  let started := withEvent EvNow w in
  let loopStart := env_now env (List.length (trace w)) in
  let caught :=
    tryCatch (Services.tickBody cfg env)
             (fun _ => logger err "Bot loop iteration failed") started in
  let finished := env_now env (List.length (trace (snd caught))) in
  let sleepFor := Z.max 0 (LOOP_INTERVAL_MS cfg - (finished - loopStart)) in
  fst caught = Ok tt ->
  Services.tick cfg env w
  = (Ok tt,
     if sleepFor >? 0
     then withEvent (EvDelay sleepFor) (withEvent EvNow (snd caught))
     else withEvent EvNow (snd caught)).
Proof.
  intros started loopStart caught finished sleepFor Hcaught.
  unfold Services.tick, Services.dateNow.
  rewrite bind_ask. fold started. fold loopStart.
  destruct caught as [r w1] eqn:Ec. cbn [fst snd] in *. subst r.
  unfold caught in Ec. rewrite (bind_ok Ec), bind_ask.
  fold finished. fold sleepFor.
  destruct (sleepFor >? 0); reflexivity.
Qed.

Lemma tick_boundary w :
  let body := Services.tickBody cfg env w in
  tryCatch (Services.tickBody cfg env)
           (fun _ => logger err "Bot loop iteration failed") w
  = (Ok tt,
     match fst body with
     | Ok _ => snd body
     | Throw _ => withEvent tickFailure (snd body)
     end).
Proof.
  intros body. unfold tryCatch. subst body.
  destruct (Services.tickBody cfg env w) as [[[]|e] w1]; reflexivity.
Qed.

Lemma tick_returns w : fst (Services.tick cfg env w) = Ok tt.
Proof.
  rewrite tick_unfolded; [reflexivity|].
  now rewrite tick_boundary.
Qed.

(** When the reconciler returns, the ledger is loaded, so the
    announcement of captured proceeds that follows cannot fail. *)
Lemma reconcileListings_leaves_ledger w captured w2 :
  Services.reconcileListings cfg env w = (Ok captured, w2) ->
  exists s2, StateStore.state (store w2) = Some s2.
Proof.
  unfold Services.reconcileListings. unfold bind at 1.
  unfold getState at 1, StateStore.getState.
  destruct (StateStore.state (store w)) as [s|] eqn:Es; [|discriminate].
  destruct (Nat.eqb (List.length (activeListings s)) 0).
  { intros Heq. inversion Heq; subst. eauto. }
  destruct (reconcileLoop_spec cfg env (activeListings s) [] 0 0 w)
    as (kept & cap & w1 & Eloop & [Hs1 _] & _).
  rewrite (bind_ok Eloop), bind_assign. cbn [fst snd].
  destruct (0 + cap >? 0).
  - rewrite bind_assign. unfold bind.
    match goal with
    | |- context [save ?wa] =>
        pose proof (save_keeps_state wa) as Hkeep;
        destruct (save wa) as [[[]|e] wb]; [|discriminate]
    end.
    intros Heq. inversion Heq; subst. cbn [snd] in Hkeep. rewrite Hkeep.
    cbn [store withStore StateStore.state]. rewrite Hs1, Es. cbn. eauto.
  - intros Heq. inversion Heq; subst.
    cbn [store withStore StateStore.state]. rewrite Hs1, Es. cbn. eauto.
Qed.

(** The tick body up to the buyback, when the first two steps return. *)
Lemma tickBody_after_reconcile w collected w1 captured w2 :
  Services.collectNewTaxProceeds cfg env w = (Ok collected, w1) ->
  Services.reconcileListings cfg env w1 = (Ok captured, w2) ->
  Services.tickBody cfg env w
  = bind (Services.performBuybackAndBurn cfg env)
         (fun actionPerformed =>
            bind (if negb actionPerformed
                  then Services.attemptPurchaseAndListing cfg env
                  else ret actionPerformed)
                 (fun _ => ret tt))
         (if captured >? 0
          then withEvent (EvLog info "Captured NFT sale proceeds") w2
          else w2).
Proof.
  intros E1 E2. unfold Services.tickBody.
  rewrite (bind_ok E1), (bind_ok E2).
  destruct (captured >? 0); [|now rewrite bind_ret].
  destruct (reconcileListings_leaves_ledger _ E2) as (s2 & Hs2).
  rewrite (bind_ok (bind_ok (getState_ok w2 Hs2))).
  reflexivity.
Qed.

Lemma ticks_return n : forall w, fst (Services.ticks cfg env n w) = Ok tt.
Proof.
  induction n as [|n IH]; intros w; [reflexivity|].
  cbn [Services.ticks].
  pose proof (tick_returns w) as Ht.
  destruct (Services.tick cfg env w) as [[[]|e] w1] eqn:Etick;
    cbn [fst] in Ht; [|discriminate].
  rewrite (bind_ok Etick). apply IH.
Qed.

End Driver.

(** C8. The loop driver has one error boundary around the whole tick. A
    tick never raises, and neither does any number of ticks in a row: the
    next tick starts from the world this one leaves. When a step of the tick
    raises, the steps after it in that tick do not run: the tick body ends
    in the world the failing step left, the failure is logged once, and the
    tick closes by reading the clock and pausing for what is left of the
    interval (not at all when the tick took the interval or longer). This
    holds for each of the four steps, whatever the steps before it
    returned: the buyback and the purchase start from the world the
    reconciler left, after the announcement of captured proceeds when there
    were any. *)
Theorem tick_has_one_error_boundary
        (cfg : Config) (env : Env) (w : World) :
  let started := withEvent EvNow w in
  let loopStart := env_now env (List.length (trace w)) in
  let body := Services.tickBody cfg env started in
  let run := Services.tick cfg env w in
  let closing :=
    match fst body with
    | Ok _ => []
    | Throw _ => [tickFailure]
    end in
  let finished :=
    env_now env (List.length (closing ++ trace (snd body))) in
  let elapsed := finished - loopStart in
  let pause :=
    if elapsed <? LOOP_INTERVAL_MS cfg
    then [EvDelay (LOOP_INTERVAL_MS cfg - elapsed)]
    else [] in
  fst run = Ok tt
  /\ (forall n,
         fst (Services.ticks cfg env n w) = Ok tt
         /\ Services.ticks cfg env (S n) w
            = Services.ticks cfg env n (snd run))
  /\ trace (snd run) = pause ++ EvNow :: closing ++ trace (snd body)
  /\ store (snd run) = store (snd body)
  /\ cachedNonce (snd run) = cachedNonce (snd body)
  /\ (forall e,
         fst (Services.collectNewTaxProceeds cfg env started) = Throw e ->
         body = (Throw e, snd (Services.collectNewTaxProceeds cfg env started)))
  /\ (forall e collected w1,
         Services.collectNewTaxProceeds cfg env started = (Ok collected, w1) ->
         fst (Services.reconcileListings cfg env w1) = Throw e ->
         body = (Throw e, snd (Services.reconcileListings cfg env w1)))
  /\ (forall e collected captured w1 w2,
         Services.collectNewTaxProceeds cfg env started = (Ok collected, w1) ->
         Services.reconcileListings cfg env w1 = (Ok captured, w2) ->
         let announced :=
           if captured >? 0
           then withEvent (EvLog info "Captured NFT sale proceeds") w2
           else w2 in
         fst (Services.performBuybackAndBurn cfg env announced) = Throw e ->
         body
         = (Throw e, snd (Services.performBuybackAndBurn cfg env announced)))
  /\ (forall e collected captured w1 w2 w3,
         Services.collectNewTaxProceeds cfg env started = (Ok collected, w1) ->
         Services.reconcileListings cfg env w1 = (Ok captured, w2) ->
         let announced :=
           if captured >? 0
           then withEvent (EvLog info "Captured NFT sale proceeds") w2
           else w2 in
         Services.performBuybackAndBurn cfg env announced = (Ok false, w3) ->
         fst (Services.attemptPurchaseAndListing cfg env w3) = Throw e ->
         body = (Throw e,
                 snd (Services.attemptPurchaseAndListing cfg env w3)))
  /\ (forall collected captured w1 w2 acted w3,
         Services.collectNewTaxProceeds cfg env started = (Ok collected, w1) ->
         Services.reconcileListings cfg env w1 = (Ok captured, w2) ->
         let announced :=
           if captured >? 0
           then withEvent (EvLog info "Captured NFT sale proceeds") w2
           else w2 in
         Services.performBuybackAndBurn cfg env announced = (Ok acted, w3) ->
         (acted = true -> body = (Ok tt, w3))
         /\ (acted = false ->
             forall bought w4,
               Services.attemptPurchaseAndListing cfg env w3 = (Ok bought, w4) ->
               body = (Ok tt, w4))).
Proof.
  intros started loopStart body run closing finished elapsed pause.
  pose proof (tick_boundary cfg env (withEvent EvNow w)) as Hcaught.
  cbv zeta in Hcaught.
  change (Services.tickBody cfg env (withEvent EvNow w)) with body in Hcaught.
  assert (Hrun := tick_unfolded cfg env w).
  cbv zeta in Hrun. rewrite Hcaught in Hrun. cbn [fst snd] in Hrun.
  specialize (Hrun eq_refl). fold run in Hrun.
  assert (Hfinished :
    env_now env
      (List.length
         (trace match fst body with
                | Ok _ => snd body
                | Throw _ => withEvent tickFailure (snd body)
                end))
    = finished).
  { subst finished closing. destruct (fst body); reflexivity. }
  rewrite Hfinished in Hrun. fold loopStart in Hrun. fold elapsed in Hrun.
  assert (Hpause :
    (Z.max 0 (LOOP_INTERVAL_MS cfg - elapsed) >? 0)
    = (elapsed <? LOOP_INTERVAL_MS cfg)).
  { destruct (Z.ltb_spec elapsed (LOOP_INTERVAL_MS cfg)).
    - apply Z.gtb_lt. lia.
    - destruct (Z.gtb_spec (Z.max 0 (LOOP_INTERVAL_MS cfg - elapsed)) 0);
        [lia|reflexivity]. }
  rewrite Hpause in Hrun.
  split; [now rewrite Hrun|].
  split.
  { intros n. split; [apply ticks_return|].
    cbn [Services.ticks]. fold run.
    rewrite (bind_ok Hrun). rewrite Hrun. reflexivity. }
  split.
  { rewrite Hrun. subst pause closing. cbn [snd].
    destruct (Z.ltb_spec elapsed (LOOP_INTERVAL_MS cfg)).
    - replace (Z.max 0 (LOOP_INTERVAL_MS cfg - elapsed))
        with (LOOP_INTERVAL_MS cfg - elapsed) by lia.
      destruct (fst body); reflexivity.
    - destruct (fst body); reflexivity. }
  split.
  { rewrite Hrun. cbn [snd].
    destruct (elapsed <? LOOP_INTERVAL_MS cfg), (fst body); reflexivity. }
  split.
  { rewrite Hrun. cbn [snd].
    destruct (elapsed <? LOOP_INTERVAL_MS cfg), (fst body); reflexivity. }
  split.
  { intros e He. subst body. unfold Services.tickBody.
    destruct (Services.collectNewTaxProceeds cfg env started) as [r w1] eqn:E1.
    cbn [fst snd] in *. subst r. exact (bind_throw E1). }
  split.
  { intros e collected w1 E1 He. subst body. unfold Services.tickBody.
    rewrite (bind_ok E1).
    destruct (Services.reconcileListings cfg env w1) as [r w2] eqn:E2.
    cbn [fst snd] in *. subst r. exact (bind_throw E2). }
  split.
  { intros e collected captured w1 w2 E1 E2 announced He. subst body.
    rewrite (tickBody_after_reconcile cfg env started E1 E2).
    fold announced.
    destruct (Services.performBuybackAndBurn cfg env announced) as [r w3] eqn:E3.
    cbn [fst snd] in *. subst r. exact (bind_throw E3). }
  split.
  { intros e collected captured w1 w2 w3 E1 E2 announced E3 He. subst body.
    rewrite (tickBody_after_reconcile cfg env started E1 E2).
    fold announced. rewrite (bind_ok E3). cbn [negb].
    destruct (Services.attemptPurchaseAndListing cfg env w3) as [r w4] eqn:E4.
    cbn [fst snd] in *. subst r. exact (bind_throw E4). }
  intros collected captured w1 w2 acted w3 E1 E2 announced E3. subst body.
  rewrite (tickBody_after_reconcile cfg env started E1 E2).
  fold announced. rewrite (bind_ok E3).
  split.
  - intros ->. reflexivity.
  - intros -> bought w4 E4. cbn [negb]. rewrite (bind_ok E4). reflexivity.
Qed.

Lemma tick_has_one_error_boundary_witness :
  let started := withEvent EvNow soldWorld in
  let failing := Services.collectNewTaxProceeds sampleConfig headlessEnv started in
  let collected :=
    Services.collectNewTaxProceeds sampleConfig stuckWalletEnv started in
  let reconciled :=
    Services.reconcileListings sampleConfig stuckWalletEnv (snd collected) in
  let announced :=
    withEvent (EvLog info "Captured NFT sale proceeds") (snd reconciled) in
  Services.tickBody sampleConfig headlessEnv started
  = (Throw (Error "request timed out"), snd failing)
  /\ fst (Services.tick sampleConfig headlessEnv soldWorld) = Ok tt
  /\ fst reconciled = Ok 1300
  /\ Services.tickBody sampleConfig stuckWalletEnv started
     = (Throw (Error "execution reverted"),
        snd (Services.performBuybackAndBurn sampleConfig stuckWalletEnv
                                            announced)).
Proof.
  intros started failing collected reconciled announced.
  destruct (tick_has_one_error_boundary sampleConfig headlessEnv soldWorld)
    as (Hreturns & _ & _ & _ & _ & Hfirst & _).
  destruct (tick_has_one_error_boundary sampleConfig stuckWalletEnv soldWorld)
    as (_ & _ & _ & _ & _ & _ & _ & Hthird & _).
  split; [apply Hfirst; reflexivity|].
  split; [exact Hreturns|].
  split; [vm_compute; reflexivity|].
  apply (Hthird (Error "execution reverted") false 1300
                (snd collected) (snd reconciled));
    vm_compute; reflexivity.
Defined.

(** In a tick whose tax collection raises, the listing reconciler does not
    run: the sold token stays listed and no owner is read, although the
    reconciler, had it run from there, would have captured the proceeds. *)
Lemma failed_step_skips_rest_of_tick :
  let started := withEvent EvNow soldWorld in
  let failing := Services.collectNewTaxProceeds sampleConfig headlessEnv started in
  let run := Services.tick sampleConfig headlessEnv soldWorld in
  fst failing = Throw (Error "request timed out")
  /\ fst run = Ok tt
  /\ trace (snd run)
     = [EvDelay 14997; EvNow; tickFailure; EvGetBlockNumber; EvNow]
  /\ forallb (fun e => negb (isListingCheck e)) (trace (snd run)) = true
  /\ store (snd run) = store soldWorld
  /\ fst (Services.reconcileListings sampleConfig headlessEnv (snd failing))
     = Ok 1300
  /\ existsb isListingCheck
             (trace (snd (Services.reconcileListings sampleConfig headlessEnv
                                                     (snd failing))))
     = true.
Proof. vm_compute. repeat split; reflexivity. Qed.

(** ** The submitter: fees, attempts and the nonce of one submission *)

(** X1. [scaleFee] is the multiplier applied in percent and rounded up: for
    a non-negative fee and multiplier the result is the least integer not
    below [value * multiplierBps / 100]; at multiplier 100 it is the fee
    itself, and a higher multiplier never gives a lower fee. *)
Theorem scaleFee_rounds_up (value multiplierBps : Z) :
  0 <= value -> 0 <= multiplierBps ->
  let fee := TreasuryClient.scaleFee value multiplierBps in
  value * multiplierBps <= 100 * fee < value * multiplierBps + 100
  /\ TreasuryClient.scaleFee value 100 = value
  /\ (forall higher,
         multiplierBps <= higher ->
         fee <= TreasuryClient.scaleFee value higher).
Proof.
  intros Hv Hm fee. subst fee. unfold TreasuryClient.scaleFee.
  assert (Hq : forall a, 0 <= a -> Z.quot a 100 = a / 100)
    by (intros a Ha; apply Z.quot_div_nonneg; lia).
  rewrite Hq by nia.
  split; [|split].
  - pose proof (Z.div_mod (value * multiplierBps + 99) 100 ltac:(lia)) as Hd.
    pose proof (Z.mod_pos_bound (value * multiplierBps + 99) 100 ltac:(lia)).
    lia.
  - rewrite Hq by lia. rewrite Z.div_add_l by lia.
    change (99 / 100) with 0. lia.
  - intros higher Hh. rewrite Hq by nia.
    apply Z.div_le_mono; [lia|nia].
Qed.

Lemma scaleFee_rounds_up_witness :
  7 * 120 <= 100 * TreasuryClient.scaleFee 7 120 < 7 * 120 + 100
  /\ TreasuryClient.scaleFee 7 100 = 7
  /\ TreasuryClient.scaleFee 7 120 <= TreasuryClient.scaleFee 7 140.
Proof.
  destruct (@scaleFee_rounds_up 7 120 ltac:(lia) ltac:(lia)) as (H1 & H2 & H3).
  split; [exact H1|]. split; [exact H2|]. apply H3. lia.
Defined.

Section SubmitterAttempts.

Import TreasuryClient.

Variable env : Env.

Lemma Writes_refl w : Writes 0 w w.
Proof. unfold Writes. lia. Qed.

Lemma Writes_weaken a b w w' : (a <= b)%nat -> Writes a w w' -> Writes b w w'.
Proof. unfold Writes. lia. Qed.

Lemma Writes_trans a b w1 w2 w3 :
  Writes a w1 w2 -> Writes b w2 w3 -> Writes (a + b) w1 w3.
Proof. unfold Writes. lia. Qed.

Lemma Writes_bind {A B} a b (m : M A) (k : A -> M B) :
  Stable (Writes a) m -> (forall x, Stable (Writes b) (k x)) ->
  Stable (Writes (a + b)) (bind m k).
Proof.
  intros Hm Hk w. unfold bind. specialize (Hm w).
  destruct (m w) as [[x|e] w1]; cbn [snd] in *.
  - eapply Writes_trans; [exact Hm|apply Hk].
  - eapply Writes_weaken; [|exact Hm]. lia.
Qed.

Lemma Writes_tryCatch {A} a b (m : M A) (h : JsError -> M A) :
  Stable (Writes a) m -> (forall e, Stable (Writes b) (h e)) ->
  Stable (Writes (a + b)) (tryCatch m h).
Proof.
  intros Hm Hh w. unfold tryCatch. specialize (Hm w).
  destruct (m w) as [[x|e] w1]; cbn [snd] in *.
  - eapply Writes_weaken; [|exact Hm]. lia.
  - eapply Writes_trans; [exact Hm|apply Hh].
Qed.

Lemma Writes_of_Frame P c w w' :
  (forall e, P e -> isSubmission e = false) -> Frame P w w' -> Writes c w w'.
Proof.
  intros HP [_ (events & Ht & Hev)]. unfold Writes, writesIn.
  rewrite Ht, filter_app, length_app.
  rewrite (filter_none isSubmission (l := events)); [cbn; lia|].
  eapply Forall_impl; [|exact Hev]. exact HP.
Qed.

Lemma Writes_quiet {A} P (m : M A) :
  (forall e, P e -> isSubmission e = false) ->
  Stable (Frame P) m -> Stable (Writes 0) m.
Proof. intros HP Hm w. eapply Writes_of_Frame; [exact HP|apply Hm]. Qed.

Lemma writeAttempt_writes call nonce multiplier :
  Stable (Writes 1) (writeAttempt env call nonce multiplier).
Proof.
  unfold writeAttempt.
  apply (@Writes_tryCatch _ 1 0).
  - apply (@Writes_bind _ _ 0 1).
    + apply (@Writes_quiet _ (fun e => isSubmission e = false));
        [auto|apply estimateFeeOverrides_frame; reflexivity].
    + intros fees. apply (@Writes_bind _ _ 1 0).
      * intros w. unfold ask, Writes, writesIn. cbn. lia.
      * intros hash. apply (@Writes_bind _ _ 0 0).
        -- apply (@Writes_quiet _ (fun e => isSubmission e = false));
             [auto|apply incrementNonce_frame].
        -- intros _ w. apply Writes_refl.
  - intros e.
    apply (@Writes_quiet _ (fun e => isSubmission e = false)); [auto|].
    apply Stable_if; [apply (Stable_throw _ (@Frame_refl _))|].
    apply (Stable_bind (@Frame_trans _)).
    + apply Stable_if;
        [apply resetNonceCache_frame|apply (Stable_ret _ (@Frame_refl _))].
    + intros _. apply (Stable_bind (@Frame_trans _));
        [apply Frame_emit; reflexivity|].
      intros _. apply (Stable_ret _ (@Frame_refl _)).
Qed.

Lemma writeAttempts_writes call nonce multipliers :
  forall lastError,
    Stable (Writes (List.length multipliers))
           (writeAttempts env call nonce multipliers lastError).
Proof.
  induction multipliers as [|m rest IH]; intros lastError; cbn [writeAttempts].
  - intros w. apply Writes_refl.
  - change (List.length (m :: rest)) with (1 + List.length rest)%nat.
    apply Writes_bind; [apply writeAttempt_writes|].
    intros [hash|e]; [|apply IH].
    intros w. eapply Writes_weaken; [|apply Writes_refl]. lia.
Qed.

Lemma writeAttempt_nonce call nonce multiplier :
  Stable (Frame (submitsWith call nonce))
         (writeAttempt env call nonce multiplier).
Proof.
  unfold writeAttempt.
  apply (Stable_tryCatch (@Frame_trans _)).
  - apply (Stable_bind (@Frame_trans _));
      [apply estimateFeeOverrides_frame; exact I|].
    intros fees. apply (Stable_bind (@Frame_trans _));
      [apply Frame_ask; split; reflexivity|].
    intros hash. apply (Stable_bind (@Frame_trans _));
      [apply incrementNonce_frame|].
    intros _. apply (Stable_ret _ (@Frame_refl _)).
  - intros e. apply Stable_if; [apply (Stable_throw _ (@Frame_refl _))|].
    apply (Stable_bind (@Frame_trans _)).
    + apply Stable_if;
        [apply resetNonceCache_frame|apply (Stable_ret _ (@Frame_refl _))].
    + intros _. apply (Stable_bind (@Frame_trans _));
        [apply Frame_emit; exact I|].
      intros _. apply (Stable_ret _ (@Frame_refl _)).
Qed.

Lemma writeAttempts_nonce call nonce multipliers :
  forall lastError,
    Stable (Frame (submitsWith call nonce))
           (writeAttempts env call nonce multipliers lastError).
Proof.
  induction multipliers as [|m rest IH]; intros lastError; simpl.
  - apply (Stable_throw _ (@Frame_refl _)).
  - apply (Stable_bind (@Frame_trans _)); [apply writeAttempt_nonce|].
    intros [hash|e]; [apply (Stable_ret _ (@Frame_refl _))|apply IH].
Qed.

Lemma estimateFeeOverrides_cache multiplier w :
  cachedNonce (snd (estimateFeeOverrides env multiplier w)) = cachedNonce w.
Proof.
  unfold estimateFeeOverrides. mnorm.
  destruct (env_estimateFeesPerGas env _) as [[[b|] [p|]]|e]; cbn;
    try reflexivity;
    destruct (env_getGasPrice env _); reflexivity.
Qed.

(** One attempt: a success leaves the cache one above the nonce (or empty,
    when it was reset before); a failure that is retried leaves it at the
    nonce or empty. *)
Lemma writeAttempt_cache call nonce multiplier w :
  cacheWithin nonce w ->
  match writeAttempt env call nonce multiplier w with
  | (Ok (inl _), w') => cacheWithin (nonce + 1) w'
  | (Ok (inr _), w') => cacheWithin nonce w'
  | (Throw _, _) => True
  end.
Proof.
  intros Hc. unfold writeAttempt, tryCatch.
  pose proof (estimateFeeOverrides_cache multiplier w) as He.
  unfold bind at 1.
  destruct (estimateFeeOverrides env multiplier w) as [[fees|e] w1];
    cbn [snd] in He.
  - rewrite bind_ask.
    destruct (env_writeContract env _ call nonce (fst fees) (snd fees))
      as [hash|e].
    + unfold bind, incrementNonce, ret, withEvent, withNonce.
      cbn [cachedNonce]. rewrite He.
      destruct Hc as [-> | ->]; cbn; [left|right]; reflexivity.
    + destruct (negb (isUnderpriced (JS.toLowerCase (errorMessage e)))
                || (multiplier =? lastMultiplier))%bool; [exact I|].
      destruct (JS.includes (JS.toLowerCase (errorMessage e)) "nonce too low");
        cbn; unfold cacheWithin; cbn; [now right|].
      rewrite He. exact Hc.
  - destruct (negb (isUnderpriced (JS.toLowerCase (errorMessage e)))
              || (multiplier =? lastMultiplier))%bool; [exact I|].
    destruct (JS.includes (JS.toLowerCase (errorMessage e)) "nonce too low");
      cbn; unfold cacheWithin; cbn; [now right|].
    rewrite He. exact Hc.
Qed.

Lemma writeAttempts_cache call nonce multipliers :
  forall lastError w hash w',
    cacheWithin nonce w ->
    writeAttempts env call nonce multipliers lastError w = (Ok hash, w') ->
    cacheWithin (nonce + 1) w'.
Proof.
  induction multipliers as [|m rest IH]; intros lastError w hash w' Hc Hrun;
    cbn [writeAttempts] in Hrun; [discriminate|].
  pose proof (@writeAttempt_cache call nonce m w Hc) as Hone.
  unfold bind in Hrun.
  destruct (writeAttempt env call nonce m w) as [[[h|e]|e] w1];
    [|eapply IH; eassumption|discriminate].
  inversion Hrun; subst. exact Hone.
Qed.

End SubmitterAttempts.

Lemma tryCatch_throw_with {A} (m : M A) (h : JsError -> M A) w r :
  (exists e w', m w = (Throw e, w') /\ h e w' = r) -> tryCatch m h w = r.
Proof. intros (e & w' & Hm & Hh). unfold tryCatch. now rewrite Hm. Qed.

(** X2. One call of [writeContractWithAdaptiveFees] never touches the state
    store, hands at most three transactions to the wallet (one per fee
    multiplier), and every one of them is the requested call under the
    nonce acquired at the start, also after a stale-nonce reset in between.
    When the nonce cannot be acquired nothing is written. On success the
    cache is one above that nonce, or empty when an earlier attempt reset
    it. *)
Theorem submission_uses_one_nonce
        (env : Env) (call : TreasuryCall) (w : World) :
  let run := TreasuryClient.writeContractWithAdaptiveFees env call w in
  store (snd run) = store w
  /\ exists events,
      trace (snd run) = events ++ trace w
      /\ (writesIn events <= 3)%nat
      /\ (forall nonce,
             acquiredNonce env w = Ok nonce ->
             Forall (submitsWith call nonce) events)
      /\ (forall e,
             acquiredNonce env w = Throw e ->
             fst run = Throw e /\ writesIn events = 0%nat)
      /\ (forall hash,
             fst run = Ok hash ->
             exists nonce,
               acquiredNonce env w = Ok nonce
               /\ cacheWithin (nonce + 1) (snd run)).
Proof.
  intros run. subst run.
  unfold TreasuryClient.writeContractWithAdaptiveFees, acquiredNonce.
  destruct (cachedNonce w) as [n|] eqn:Ecache.
  - rewrite (bind_ok (acquireNextNonce_cached env w Ecache)).
    pose proof (writeAttempts_nonce env call n TreasuryClient.FEE_MULTIPLIERS
                                    None w) as [Hs (events & Ht & Hev)].
    pose proof (writeAttempts_writes env call n TreasuryClient.FEE_MULTIPLIERS
                                     None w) as Hw.
    split; [exact Hs|]. exists events. split; [exact Ht|].
    split.
    { unfold Writes in Hw. rewrite Ht in Hw. unfold writesIn in *.
      rewrite filter_app, length_app in Hw. cbn in Hw. lia. }
    split; [intros nonce H; inversion H; subst; exact Hev|].
    split; [intros e H; discriminate|].
    intros hash Hok. exists n. split; [reflexivity|].
    destruct (TreasuryClient.writeAttempts env call n
                TreasuryClient.FEE_MULTIPLIERS None w) as [r w'] eqn:Erun.
    cbn [fst snd] in *. subst r.
    eapply writeAttempts_cache; [|exact Erun]. now left.
  - pose proof (acquireNextNonce_empty env w Ecache) as Hacq.
    destruct (env_getTransactionCount env (List.length (trace w)))
      as [n|e] eqn:Ecount.
    + rewrite (bind_ok Hacq).
      set (w0 := withNonce (Some n) (withEvent EvGetTransactionCount w)).
      pose proof (writeAttempts_nonce env call n TreasuryClient.FEE_MULTIPLIERS
                                      None w0) as [Hs (events & Ht & Hev)].
      pose proof (writeAttempts_writes env call n
                    TreasuryClient.FEE_MULTIPLIERS None w0) as Hw.
      split; [exact Hs|].
      exists (events ++ [EvGetTransactionCount]).
      split; [rewrite Ht; cbn; now rewrite <- app_assoc|].
      split.
      { unfold Writes in Hw. rewrite Ht in Hw. unfold writesIn in *.
        rewrite filter_app, length_app in Hw. cbn in Hw.
        rewrite filter_app, length_app. cbn. lia. }
      split.
      { intros nonce H; inversion H; subst.
        apply Forall_app. split; [exact Hev|repeat constructor]. }
      split; [intros e H; discriminate|].
      intros hash Hok. exists n. split; [reflexivity|].
      destruct (TreasuryClient.writeAttempts env call n
                  TreasuryClient.FEE_MULTIPLIERS None w0) as [r w'] eqn:Erun.
      cbn [fst snd] in *. subst r.
      eapply writeAttempts_cache; [|exact Erun]. now left.
    + rewrite (bind_throw Hacq). cbn [fst snd].
      split; [reflexivity|].
      exists [EvGetTransactionCount].
      split; [reflexivity|].
      split; [cbn; lia|].
      split; [intros nonce H; discriminate|].
      split; [intros e' H; inversion H; subst; split; reflexivity|].
      intros hash H; discriminate.
Qed.

Lemma submission_uses_one_nonce_witness :
  let run :=
    TreasuryClient.writeContractWithAdaptiveFees
      staleAtFirstStepEnv sampleCall (idleWorld (Some 7)) in
  exists events,
    trace (snd run) = events ++ []
    /\ (writesIn events <= 3)%nat
    /\ Forall (submitsWith sampleCall 7) events.
Proof.
  intros run.
  destruct (submission_uses_one_nonce staleAtFirstStepEnv sampleCall
                                      (idleWorld (Some 7)))
    as (_ & events & Ht & Hw & Hn & _).
  exists events. split; [exact Ht|]. split; [exact Hw|].
  apply Hn. reflexivity.
Defined.

(** X3. A write the wallet rejects for a reason other than fees or nonce
    (the lower-cased message holds none of the four markers) is not
    retried: [writeContractWithAdaptiveFees] throws that very error after
    the single attempt at the first multiplier, and the nonce cache keeps
    the nonce that was acquired, so the next submission reuses it. *)
Theorem rejected_write_is_not_retried
        (env : Env) (call : TreasuryCall) (w w0 w1 : World)
        (nonce : Z) (fees : Z * Z) (e : JsError) :
  TreasuryClient.acquireNextNonce env w = (Ok nonce, w0) ->
  TreasuryClient.estimateFeeOverrides env 100 w0 = (Ok fees, w1) ->
  env_writeContract env (List.length (trace w1)) call nonce
                    (fst fees) (snd fees) = Throw e ->
  TreasuryClient.isUnderpriced (JS.toLowerCase (errorMessage e)) = false ->
  let run := TreasuryClient.writeContractWithAdaptiveFees env call w in
  run = (Throw e,
         withEvent (EvWriteContract call nonce (fst fees) (snd fees)) w1)
  /\ cachedNonce (snd run) = Some nonce
  /\ store (snd run) = store w.
Proof.
  intros Hacq Hfees Hwrite Hmsg run.
  assert (Hrun :
    run = (Throw e,
           withEvent (EvWriteContract call nonce (fst fees) (snd fees)) w1)).
  { subst run. unfold TreasuryClient.writeContractWithAdaptiveFees.
    rewrite (bind_ok Hacq).
    unfold TreasuryClient.FEE_MULTIPLIERS.
    cbn [TreasuryClient.writeAttempts].
    apply bind_throw.
    unfold TreasuryClient.writeAttempt.
    apply tryCatch_throw_with.
    eexists. eexists. split.
    { rewrite (bind_ok Hfees), bind_ask, Hwrite. reflexivity. }
    rewrite Hmsg. reflexivity. }
  split; [exact Hrun|].
  rewrite Hrun. cbn [snd withEvent cachedNonce store].
  pose proof (estimateFeeOverrides_cache env 100 w0) as Hc.
  pose proof (estimateFeeOverrides_frame env (fun _ => True) 100 I I w0)
    as [Hs _].
  rewrite Hfees in Hc, Hs. cbn [snd] in Hc, Hs.
  pose proof (acquireNextNonce_frame env (fun _ => True) I w) as [Hs0 _].
  rewrite Hacq in Hs0. cbn [snd] in Hs0.
  split; [|congruence].
  rewrite Hc.
  unfold TreasuryClient.acquireNextNonce in Hacq.
  destruct (cachedNonce w) as [n|] eqn:Ecache.
  - inversion Hacq; subst. exact Ecache.
  - unfold ask in Hacq.
    destruct (env_getTransactionCount env _); inversion Hacq; subst.
    reflexivity.
Qed.

Lemma rejected_write_is_not_retried_witness :
  let run :=
    TreasuryClient.writeContractWithAdaptiveFees
      revertingWalletEnv sampleCall (idleWorld (Some 7)) in
  fst run = Throw (Error "execution reverted")
  /\ cachedNonce (snd run) = Some 7
  /\ writesIn (trace (snd run)) = 1%nat.
Proof.
  intros run.
  destruct (@rejected_write_is_not_retried
              revertingWalletEnv sampleCall (idleWorld (Some 7))
              (idleWorld (Some 7))
              (withEvent EvEstimateFeesPerGas (idleWorld (Some 7)))
              7 (100, 2) (Error "execution reverted")
              eq_refl eq_refl eq_refl eq_refl)
    as (Hrun & Hcache & _).
  fold run in Hrun, Hcache.
  split; [now rewrite Hrun|]. split; [exact Hcache|].
  rewrite Hrun. reflexivity.
Defined.

(** X4. When [collectNewTaxProceeds] has blocks to catch up on
    ([lastTaxBlock] is not zero and below the head), the log ranges it
    requests, in the order it requests them, tile the blocks from
    [lastTaxBlock + 1] on without gap or overlap: every range starts where
    the previous one ended, spans [MAX_LOG_SPAN] blocks and never reaches
    beyond the head. Whenever the call returns, and whenever the log
    provider answers, the ranges reach the head exactly. *)
Theorem scan_windows_tile_new_blocks
        (cfg : Config) (env : Env) (w : World) (s : BotState)
        (token : Address) (head : N) :
  StateStore.state (store w) = Some s ->
  TOKEN_ADDRESS cfg = Some token ->
  env_getBlockNumber env (List.length (trace w)) = Ok head ->
  lastTaxBlock s <> 0 ->
  lastTaxBlock s < Z.of_N head ->
  let run := Services.collectNewTaxProceeds cfg env w in
  exists events next,
    trace (snd run) = events ++ trace w
    /\ tiles (Z.of_N head) (lastTaxBlock s + 1) (logRanges events) next
    /\ Forall (fun r => lastTaxBlock s < fst r <= snd r
                        /\ snd r <= Z.of_N head
                        /\ snd r - fst r < Services.MAX_LOG_SPAN)
              (logRanges events)
    /\ next <= Z.of_N head + 1
    /\ (forall r, fst run = Ok r -> next = Z.of_N head + 1)
    /\ (logsAvailable env -> next = Z.of_N head + 1).
Proof.
  intros Hst Htoken Hhead Hnz Hlt run.
  set (latest := Z.of_N head) in *.
  set (w1 := withEvent EvGetBlockNumber w).
  set (fuel := Z.to_nat (latest - (lastTaxBlock s + 1) + 1)).
  set (after := fun totalCollected : Z =>
    bind (assign (set_lastTaxBlock latest))
      (fun _ =>
         if totalCollected >? 0 then
           bind (assign (fun s0 => set_commissionPoolWei
                                     (commissionPoolWei s0 + totalCollected) s0))
                (fun _ => bind save
                   (fun _ => bind (logger info "Captured new tax proceeds")
                                  (fun _ => ret true)))
         else bind save (fun _ => ret false))).
  assert (Hrun :
    run = bind (Services.scanLoop cfg env fuel latest (lastTaxBlock s + 1) 0)
               after w1).
  { subst run. unfold Services.collectNewTaxProceeds.
    rewrite Htoken, (bind_ok (getState_ok w Hst)), bind_ask, Hhead.
    assert (Hst1 : StateStore.state (store w1) = Some s) by exact Hst.
    fold w1. rewrite (bind_ok (getState_ok w1 Hst1)).
    replace (lastTaxBlock s =? 0) with false
      by (symmetry; now apply Z.eqb_neq).
    replace (lastTaxBlock s >=? Z.of_N head) with false
      by (symmetry; rewrite Z.geb_leb; apply Z.leb_gt; exact Hlt).
    reflexivity. }
  assert (Hafter : forall total,
             Stable (TraceGrows (fun e => isLogRequest e = false))
                    (after total)).
  { intros total. subst after. cbv beta.
    stable_steps (@TraceGrows_refl (fun e => isLogRequest e = false))
                 (@TraceGrows_trans (fun e => isLogRequest e = false));
      first [apply TraceGrows_assign
            |apply TraceGrows_save; reflexivity
            |apply TraceGrows_emit; reflexivity]. }
  destruct (@scanLoop_ranges cfg env latest fuel (lastTaxBlock s + 1) 0 w1
                             (Nat.le_refl _))
    as (scanned & next & Ht & Htiles & Hok).
  destruct (@tiles_bounds _ _ _ _ Htiles) as (Hall & Hfirst & Hlast).
  assert (Hnext : next <= latest + 1).
  { destruct (logRanges scanned) as [|r rest] eqn:Er.
    - cbn in Htiles. lia.
    - apply Hlast. discriminate. }
  destruct (Services.scanLoop cfg env fuel latest (lastTaxBlock s + 1) 0 w1)
    as [[total|e] w2] eqn:Escan; cbn [fst snd] in Ht, Hok.
  - rewrite (bind_ok Escan) in Hrun.
    destruct (Hafter total w2) as (later & Hlater & Hquiet).
    exists (later ++ scanned ++ [EvGetBlockNumber]), next.
    split.
    { rewrite Hrun, Hlater, Ht. subst w1. cbn.
      now rewrite <- !app_assoc. }
    rewrite !logRanges_app, (logRanges_quiet Hquiet), app_nil_r.
    change (logRanges [EvGetBlockNumber]) with (@nil (Z * Z)).
    cbn [app].
    split; [exact Htiles|].
    split.
    { eapply Forall_impl; [|exact Hall]. cbn. intros r. lia. }
    split; [exact Hnext|].
    specialize (Hok total eq_refl).
    split; intros; lia.
  - rewrite (bind_throw Escan) in Hrun.
    exists (scanned ++ [EvGetBlockNumber]), next.
    split.
    { rewrite Hrun. cbn [snd]. rewrite Ht. subst w1. cbn.
      now rewrite <- !app_assoc. }
    rewrite !logRanges_app.
    change (logRanges [EvGetBlockNumber]) with (@nil (Z * Z)).
    cbn [app].
    split; [exact Htiles|].
    split.
    { eapply Forall_impl; [|exact Hall]. cbn. intros r. lia. }
    split; [exact Hnext|].
    split.
    + intros r Hr. rewrite Hrun in Hr. discriminate.
    + intros Hlogs.
      destruct (@scanLoop_returns cfg env latest Hlogs fuel
                                  (lastTaxBlock s + 1) 0 w1 (Nat.le_refl _))
        as (c & w' & Hc & _).
      rewrite Hc in Escan. discriminate.
Qed.

Lemma scan_windows_tile_new_blocks_witness :
  let w := worldOf StateStore.emptyDatabase laggingLedger None in
  let run := Services.collectNewTaxProceeds sampleConfig aheadEnv w in
  (exists events next,
      trace (snd run) = events ++ []
      /\ tiles 30 4 (logRanges events) next
      /\ next = 31)
  /\ logRanges (trace (snd run)) = [(4, 13); (14, 23); (24, 30)].
Proof.
  intros w run. split; [|reflexivity].
  destruct (@scan_windows_tile_new_blocks
              sampleConfig aheadEnv w laggingLedger sampleToken 30%N
              eq_refl eq_refl eq_refl)
    as (events & next & Ht & Htiles & _ & _ & Hok & _).
  - cbn. lia.
  - cbn. lia.
  - exists events, next. split; [exact Ht|]. split; [exact Htiles|].
    apply (Hok false). reflexivity.
Defined.

(** X5. [collectNewTaxProceeds] asks for logs only when it is behind.
    Without a token address it does nothing at all. With [lastTaxBlock]
    at zero it moves [lastTaxBlock] to the head and saves, without
    requesting a single log range and without crediting anything, so the
    history before the first run is never collected. With a non-zero
    [lastTaxBlock] at or above the head it only reads the head. *)
Theorem collect_reads_logs_only_when_behind
        (cfg : Config) (env : Env) (w : World) (s : BotState)
        (d : StateStore.Database) :
  store w = {| StateStore.db := Some d; StateStore.state := Some s |} ->
  let run := Services.collectNewTaxProceeds cfg env w in
  (TOKEN_ADDRESS cfg = None -> run = (Ok false, w))
  /\ (forall token head,
         TOKEN_ADDRESS cfg = Some token ->
         env_getBlockNumber env (List.length (trace w)) = Ok head ->
         lastTaxBlock s = 0 ->
         StateStore.state (store (snd run))
         = Some (set_lastTaxBlock (Z.of_N head) s)
         /\ (exists events,
                trace (snd run) = events ++ trace w
                /\ logRanges events = [])
         /\ (NoDup (map orderHash (activeListings s)) ->
             fst run = Ok false
             /\ exists d',
                 StateStore.persistState d (set_lastTaxBlock (Z.of_N head) s)
                 = Ok d'
                 /\ StateStore.db (store (snd run)) = Some d'))
  /\ (forall token head,
         TOKEN_ADDRESS cfg = Some token ->
         env_getBlockNumber env (List.length (trace w)) = Ok head ->
         lastTaxBlock s <> 0 ->
         Z.of_N head <= lastTaxBlock s ->
         run = (Ok false, withEvent EvGetBlockNumber w)).
Proof.
  intros Hstore run.
  assert (Hst : StateStore.state (store w) = Some s) by now rewrite Hstore.
  assert (Hst1 : StateStore.state (store (withEvent EvGetBlockNumber w))
                 = Some s) by exact Hst.
  split; [|split].
  - intros Hnone. subst run. unfold Services.collectNewTaxProceeds.
    now rewrite Hnone.
  - intros token head Htoken Hhead Hzero.
    assert (Hrun :
      run = bind save (fun _ => ret false)
                 (withStore
                    {| StateStore.db := Some d;
                       StateStore.state :=
                         Some (set_lastTaxBlock (Z.of_N head) s) |}
                    (withEvent EvGetBlockNumber w))).
    { subst run. unfold Services.collectNewTaxProceeds.
      rewrite Htoken, (bind_ok (getState_ok w Hst)), bind_ask, Hhead.
      rewrite (bind_ok (getState_ok _ Hst1)).
      replace (lastTaxBlock s =? 0) with true
        by (symmetry; now apply Z.eqb_eq).
      rewrite bind_assign. cbn [store withEvent].
      rewrite Hstore. reflexivity. }
    split; [|split].
    + rewrite Hrun, bind_save_ret_state. reflexivity.
    + rewrite Hrun. unfold bind, save, StateStore.save, StateStore.persist.
      cbn [store withStore StateStore.state StateStore.db].
      destruct (StateStore.persistState d _); cbn;
        eexists [_; _]; split; reflexivity.
    + intros Hnd.
      assert (Hnd' : NoDup (map orderHash
                              (activeListings
                                 (set_lastTaxBlock (Z.of_N head) s))))
        by exact Hnd.
      destruct (persistState_ok d _ Hnd') as (d' & Hp).
      rewrite Hrun.
      erewrite bind_ok; [|eapply save_ok; [reflexivity|exact Hp]].
      split; [reflexivity|]. exists d'. split; [exact Hp|reflexivity].
  - intros token head Htoken Hhead Hnz Hle.
    subst run. unfold Services.collectNewTaxProceeds.
    rewrite Htoken, (bind_ok (getState_ok w Hst)), bind_ask, Hhead.
    rewrite (bind_ok (getState_ok _ Hst1)).
    replace (lastTaxBlock s =? 0) with false
      by (symmetry; now apply Z.eqb_neq).
    replace (lastTaxBlock s >=? Z.of_N head) with true
      by (symmetry; rewrite Z.geb_leb; now apply Z.leb_le).
    reflexivity.
Qed.

Lemma collect_reads_logs_only_when_behind_witness :
  let fresh := StateStore.createDefaultState 0 in
  let run :=
    Services.collectNewTaxProceeds
      sampleConfig taxEnv (worldOf StateStore.emptyDatabase fresh None) in
  StateStore.state (store (snd run)) = Some (set_lastTaxBlock 15 fresh)
  /\ fst run = Ok false
  /\ option_map commissionPoolWei (StateStore.state (store (snd run)))
     = Some 0.
Proof.
  intros fresh run.
  destruct (@collect_reads_logs_only_when_behind
              sampleConfig taxEnv (worldOf StateStore.emptyDatabase fresh None)
              fresh StateStore.emptyDatabase eq_refl)
    as (_ & Hzero & _).
  destruct (Hzero sampleToken 15%N eq_refl eq_refl eq_refl)
    as (Hstate & _ & Hsaved).
  fold run in Hstate, Hsaved.
  split; [exact Hstate|].
  split; [apply Hsaved; constructor|].
  now rewrite Hstate.
Defined.

(** X6. A failed tax collection commits nothing: when the listings of the
    ledger have distinct order hashes (so that a save cannot be refused)
    and [collectNewTaxProceeds] throws, because the head or a log range
    could not be read, then the ledger in memory and the database are
    exactly as before, no save was attempted, and the next tick scans the
    same blocks again. *)
Theorem failed_collect_commits_nothing
        (cfg : Config) (env : Env) (w : World) (s : BotState)
        (d : StateStore.Database) (e : JsError) :
  store w = {| StateStore.db := Some d; StateStore.state := Some s |} ->
  NoDup (map orderHash (activeListings s)) ->
  let run := Services.collectNewTaxProceeds cfg env w in
  fst run = Throw e ->
  store (snd run) = store w
  /\ exists events,
      trace (snd run) = events ++ trace w
      /\ Forall (fun ev => isSave ev = false) events.
Proof.
  intros Hstore Hnd run.
  assert (Hst : StateStore.state (store w) = Some s) by now rewrite Hstore.
  set (w1 := withEvent EvGetBlockNumber w).
  assert (Hst1 : StateStore.state (store w1) = Some s) by exact Hst.
  subst run. unfold Services.collectNewTaxProceeds.
  destruct (TOKEN_ADDRESS cfg) as [token|]; [|discriminate].
  rewrite (bind_ok (getState_ok w Hst)), bind_ask.
  destruct (env_getBlockNumber env (List.length (trace w))) as [head|e0].
  2:{ cbn. intros _. split; [reflexivity|].
      eexists [_]. split; [reflexivity|]. repeat constructor. }
  fold w1. rewrite (bind_ok (getState_ok w1 Hst1)).
  assert (Hsaves : forall (s' : BotState) (w2 : World),
             activeListings s' = activeListings s ->
             store w2 = {| StateStore.db := Some d;
                           StateStore.state := Some s' |} ->
             exists w3, save w2 = (Ok tt, w3)).
  { intros s' w2 Hsame Hs2.
    assert (Hnd' : NoDup (map orderHash (activeListings s')))
      by (rewrite Hsame; exact Hnd).
    destruct (persistState_ok d s' Hnd') as (d' & Hp).
    eexists. exact (save_ok w2 Hs2 Hp). }
  destruct (lastTaxBlock s =? 0).
  { rewrite bind_assign.
    match goal with
    | |- context [bind save _ ?w2] =>
        destruct (Hsaves (set_lastTaxBlock (Z.of_N head) s) w2 eq_refl)
          as (w3 & Hsave);
        [subst w1; cbn [store withStore withEvent]; rewrite Hstore;
         reflexivity|]
    end.
    rewrite (bind_ok Hsave). discriminate. }
  destruct (lastTaxBlock s >=? Z.of_N head); [discriminate|].
  match goal with
  | |- context [Services.scanLoop cfg env ?fuel ?latest ?cursor ?total] =>
      pose proof (scanLoop_frame cfg env latest fuel cursor total w1)
        as [Hs2 (scanned & Ht2 & Hq2)];
      destruct (Services.scanLoop cfg env fuel latest cursor total w1)
        as [[collected|e2] w2] eqn:Escan
  end; cbn [snd] in Hs2, Ht2.
  - rewrite (bind_ok Escan), bind_assign.
    assert (Hstore2 : store w2
                      = {| StateStore.db := Some d; StateStore.state := Some s |})
      by (rewrite Hs2; subst w1; exact Hstore).
    rewrite Hstore2. cbn [StateStore.db StateStore.state option_map].
    destruct (collected >? 0).
    + rewrite bind_assign.
      match goal with
      | |- context [bind save _ ?w3] =>
          destruct (Hsaves
                      (set_commissionPoolWei
                         (commissionPoolWei (set_lastTaxBlock (Z.of_N head) s)
                          + collected)
                         (set_lastTaxBlock (Z.of_N head) s)) w3 eq_refl eq_refl)
            as (w4 & Hsave)
      end.
      rewrite (bind_ok Hsave). discriminate.
    + match goal with
      | |- context [bind save _ ?w3] =>
          destruct (Hsaves (set_lastTaxBlock (Z.of_N head) s) w3
                           eq_refl eq_refl) as (w4 & Hsave)
      end.
      rewrite (bind_ok Hsave). discriminate.
  - rewrite (bind_throw Escan). cbn [fst snd]. intros _.
    split; [rewrite Hs2; reflexivity|].
    exists (scanned ++ [EvGetBlockNumber]).
    split; [rewrite Ht2; subst w1; cbn; now rewrite <- app_assoc|].
    apply Forall_app. split; [exact Hq2|repeat constructor].
Qed.

Lemma failed_collect_commits_nothing_witness :
  let w := worldOf StateStore.emptyDatabase laggingLedger None in
  let run := Services.collectNewTaxProceeds sampleConfig deafEnv w in
  fst run = Throw (Error "rate limited")
  /\ store (snd run) = store w.
Proof.
  intros w run. split; [reflexivity|].
  apply (@failed_collect_commits_nothing
           sampleConfig deafEnv w laggingLedger StateStore.emptyDatabase
           (Error "rate limited") eq_refl);
    [constructor|reflexivity].
Defined.

(** ** Listing reconciliation: order, reads and multi-token listings *)

Lemma Subsequence_refl {A} (l : list A) : Subsequence l l.
Proof. induction l; constructor; assumption. Qed.

Lemma Subsequence_app {A} (k1 a1 k2 a2 : list A) :
  Subsequence k1 a1 -> Subsequence k2 a2 -> Subsequence (k1 ++ k2) (a1 ++ a2).
Proof. induction 1; intros H2; cbn; try constructor; auto. Qed.

Lemma Subsequence_In {A} (kept all : list A) x :
  Subsequence kept all -> In x kept -> In x all.
Proof.
  induction 1 as [|y kept all _ IH|y kept all _ IH]; cbn; intros Hin.
  - exact Hin.
  - destruct Hin as [->|Hin]; [now left|right; now apply IH].
  - right. now apply IH.
Qed.

Lemma Subsequence_Forall {A} (P : A -> Prop) (kept all : list A) :
  Subsequence kept all -> Forall P all -> Forall P kept.
Proof.
  intros Hsub Hall. apply Forall_forall. intros x Hx.
  eapply Forall_forall; [exact Hall|]. eapply Subsequence_In; eassumption.
Qed.

Lemma Subsequence_map {A B} (f : A -> B) (kept all : list A) :
  Subsequence kept all -> Subsequence (map f kept) (map f all).
Proof. induction 1; cbn; constructor; assumption. Qed.

Lemma Subsequence_NoDup {A} (kept all : list A) :
  Subsequence kept all -> NoDup all -> NoDup kept.
Proof.
  induction 1 as [|y kept all Hsub IH|y kept all Hsub IH]; intros Hnd.
  - constructor.
  - inversion Hnd; subst. constructor; [|now apply IH].
    intros Hin. eapply Subsequence_In in Hin; [|exact Hsub]. contradiction.
  - inversion Hnd; subst. now apply IH.
Qed.

Lemma Subsequence_StronglySorted {A} (R : A -> A -> Prop) (kept all : list A) :
  Subsequence kept all -> StronglySorted R all -> StronglySorted R kept.
Proof.
  induction 1 as [|y kept all Hsub IH|y kept all Hsub IH]; intros Hs.
  - constructor.
  - inversion Hs; subst. constructor; [now apply IH|].
    eapply Subsequence_Forall; eassumption.
  - inversion Hs; subst. now apply IH.
Qed.

Lemma listedAtMs_le_Sorted_Subsequence (kept all : list ActiveListingState) :
  Subsequence kept all ->
  Sorted listedAtMs_le all -> Sorted listedAtMs_le kept.
Proof.
  intros Hsub Hs. apply StronglySorted_Sorted.
  eapply Subsequence_StronglySorted; [exact Hsub|].
  apply Sorted_StronglySorted; [|exact Hs].
  intros a b c. unfold listedAtMs_le. lia.
Qed.

Section ReconcilerShape.

Import Services.

Variable cfg : Config.
Variable env : Env.

(** One checked listing, by the verdict of the chain at that moment: one
    read at most, nothing saved, the store untouched. *)
Lemma checkListing_verdict l updated proceeds w :
  exists events,
    checkListing cfg env l updated proceeds w
    = (Ok (match verdictAt cfg env (List.length (trace w)) l with
           | Some false => (updated, proceeds + expectedProceedsWei l)
           | _ => (updated ++ [l], proceeds)
           end),
       fold_right withEvent w events)
    /\ (listingChecksIn events <= 1)%nat
    /\ Forall (fun e => isSave e = false /\ isSubmission e = false) events.
Proof.
  unfold checkListing, stillHeld, verdictAt.
  destruct (parseBigInt (tokenId l)) as [id|perr].
  2:{ eexists [_]. split; [destruct (tokenStandard l); reflexivity|].
      split; [cbn; lia|repeat constructor]. }
  destruct (tokenStandard l).
  - destruct (env_ownerOf env (List.length (trace w)) (collection l) id)
      as [owner|rerr] eqn:Eread.
    + destruct (String.eqb (JS.toLowerCase owner)
                           (JS.toLowerCase (TREASURY_ADDRESS cfg))) eqn:Eown.
      * eexists [_]. split; [mnorm; rewrite Eread, Eown; reflexivity|].
        split; [cbn; lia|repeat constructor].
      * eexists [_; _]. split; [mnorm; rewrite Eread, Eown; reflexivity|].
        split; [cbn; lia|repeat constructor].
    + eexists [_; _]. split; [mnorm; rewrite Eread; reflexivity|].
      split; [cbn; lia|repeat constructor].
  - destruct (env_erc1155BalanceOf env (List.length (trace w)) (collection l)
                                   (TREASURY_ADDRESS cfg) id)
      as [balance|rerr] eqn:Eread.
    + destruct (balance >? JS.nullish (expectedPostSaleBalance l) 0) eqn:Ebal.
      * eexists [_]. split; [mnorm; rewrite Eread, Ebal; reflexivity|].
        split; [cbn; lia|repeat constructor].
      * eexists [_; _]. split; [mnorm; rewrite Eread, Ebal; reflexivity|].
        split; [cbn; lia|repeat constructor].
    + eexists [_; _]. split; [mnorm; rewrite Eread; reflexivity|].
      split; [cbn; lia|repeat constructor].
Qed.

Lemma trace_fold_events w events :
  trace (fold_right withEvent w events) = events ++ trace w.
Proof. induction events as [|e events IH]; [reflexivity|]. cbn. now rewrite IH. Qed.

Lemma store_fold_events w events :
  store (fold_right withEvent w events) = store w.
Proof. induction events as [|e events IH]; [reflexivity|]. exact IH. Qed.

Lemma cachedNonce_fold_events w events :
  cachedNonce (fold_right withEvent w events) = cachedNonce w.
Proof. induction events as [|e events IH]; [reflexivity|]. exact IH. Qed.

(** The whole loop: what is pushed back of the checked listings keeps its
    order; there is at most one read per checked listing. *)
Lemma reconcileLoop_shape :
  forall listings updated checked proceeds w,
  exists keptChecked captured events,
    reconcileLoop cfg env listings updated checked proceeds w
    = (Ok (updated ++ keptChecked ++ skipn (checksLeft cfg checked) listings,
           proceeds + captured),
       fold_right withEvent w events)
    /\ Subsequence keptChecked (firstn (checksLeft cfg checked) listings)
    /\ (listingChecksIn events
        <= List.length (firstn (checksLeft cfg checked) listings))%nat
    /\ Forall (fun e => isSave e = false /\ isSubmission e = false) events
    /\ (forall x, In x (firstn (checksLeft cfg checked) listings) ->
                  (forall t, verdictAt cfg env t x = Some false) ->
                  ~ In x keptChecked)
    /\ (forall x, In x (firstn (checksLeft cfg checked) listings) ->
                  (forall t, verdictAt cfg env t x <> Some false) ->
                  In x keptChecked).
Proof.
  induction listings as [|l rest IH]; intros updated checked proceeds w.
  - exists [], 0, []. rewrite firstn_nil, skipn_nil. cbn.
    rewrite app_nil_r, Z.add_0_r.
    repeat split; try reflexivity; try (intros; contradiction); try lia;
      constructor.
  - destruct (checked >=? MAX_LISTING_CHECKS_PER_TICK cfg) eqn:Ecap.
    + apply Z.geb_le in Ecap.
      exists [], 0, [].
      rewrite checksLeft_none by exact Ecap.
      rewrite reconcileLoop_beyond_cap by exact Ecap.
      cbn. rewrite Z.add_0_r.
      repeat split; try reflexivity; try (intros; contradiction); try lia;
        constructor.
    + cbn [reconcileLoop]. rewrite Ecap.
      rewrite Z.geb_leb in Ecap. apply Z.leb_gt in Ecap.
      rewrite checksLeft_step by exact Ecap.
      cbn [firstn skipn List.length].
      destruct (checkListing_verdict l updated proceeds w)
        as (ev1 & E1 & Hc1 & Hq1).
      rewrite (bind_ok E1). cbn [fst snd].
      set (w1 := fold_right withEvent w ev1).
      destruct (verdictAt cfg env (List.length (trace w)) l) as [[|]|] eqn:Ev;
        cbn [fst snd].
      1,3:
        destruct (IH (updated ++ [l]) (checked + 1) proceeds w1)
          as (kept & captured & ev2 & Eloop & Hsub & Hc2 & Hq2 & Hgone & Hstay);
        exists (l :: kept), captured, (ev2 ++ ev1);
        (split; [rewrite Eloop, <- app_assoc, fold_right_app; reflexivity|]);
        (split; [now constructor|]);
        (split; [unfold listingChecksIn in *;
                 rewrite filter_app, length_app; lia|]);
        (split; [apply Forall_app; now split|]);
        (split;
           [intros x [->|Hx] Hall;
            [specialize (Hall (List.length (trace w))); congruence|];
            intros [->|Hk];
            [specialize (Hall (List.length (trace w))); congruence|];
            exact (Hgone x Hx Hall Hk)|]);
        intros x [->|Hx] Hall; [now left|right; exact (Hstay x Hx Hall)].
      destruct (IH updated (checked + 1) (proceeds + expectedProceedsWei l) w1)
        as (kept & captured & ev2 & Eloop & Hsub & Hc2 & Hq2 & Hgone & Hstay).
      exists kept, (expectedProceedsWei l + captured), (ev2 ++ ev1).
      split; [rewrite Eloop, Z.add_assoc, fold_right_app; reflexivity|].
      split; [now constructor|].
      split; [unfold listingChecksIn in *;
              rewrite filter_app, length_app; lia|].
      split; [apply Forall_app; now split|].
      split.
      * intros x [->|Hx] Hall Hk.
        -- apply (Hgone x); [|exact Hall|exact Hk].
           eapply Subsequence_In; eassumption.
        -- exact (Hgone x Hx Hall Hk).
      * intros x [->|Hx] Hall.
        -- exfalso. exact (Hall _ Ev).
        -- exact (Hstay x Hx Hall).
Qed.

(** [reconcileListings] on a loaded store: the new listing set, and the run
    that remains after the loop. *)
Lemma reconcileListings_shape w s d :
  store w = {| StateStore.db := Some d; StateStore.state := Some s |} ->
  let checkedNow := firstn (checksLeft cfg 0) (activeListings s) in
  let carriedOver := skipn (checksLeft cfg 0) (activeListings s) in
  exists keptChecked captured events,
    Subsequence keptChecked checkedNow
    /\ (listingChecksIn events <= List.length checkedNow)%nat
    /\ Forall (fun e => isSave e = false /\ isSubmission e = false) events
    /\ (forall x, In x checkedNow ->
                  (forall t, verdictAt cfg env t x = Some false) ->
                  ~ In x keptChecked)
    /\ (forall x, In x checkedNow ->
                  (forall t, verdictAt cfg env t x <> Some false) ->
                  In x keptChecked)
    /\ reconcileListings cfg env w
       = let kept := keptChecked ++ carriedOver in
         let w1 := fold_right withEvent w events in
         if captured >? 0 then
           bind save (fun _ => ret captured)
                (withStore
                   {| StateStore.db := Some d;
                      StateStore.state :=
                        Some (set_salePoolWei (salePoolWei s + captured)
                                              (set_activeListings kept s)) |}
                   w1)
         else
           (Ok captured,
            withStore
              {| StateStore.db := Some d;
                 StateStore.state := Some (set_activeListings kept s) |}
              w1).
Proof.
  intros Hstore checkedNow carriedOver.
  assert (Hst : StateStore.state (store w) = Some s) by now rewrite Hstore.
  unfold reconcileListings. rewrite (bind_ok (getState_ok w Hst)).
  destruct (activeListings s) as [|l rest] eqn:Els.
  - exists [], 0, []. subst checkedNow carriedOver.
    rewrite firstn_nil, skipn_nil. cbn.
    split; [constructor|]. split; [lia|]. split; [constructor|].
    split; [intros; contradiction|]. split; [intros; contradiction|].
    unfold ret, withStore. f_equal.
    destruct w as [st cn tr]. cbn in *. subst st. f_equal. f_equal. f_equal.
    destruct s; cbn in *. subst. reflexivity.
  - cbn [List.length Nat.eqb]. rewrite <- Els.
    destruct (reconcileLoop_shape (activeListings s) [] 0 0 w)
      as (kept & captured & events & Eloop & Hsub & Hc & Hq & Hgone & Hstay).
    exists kept, captured, events.
    subst checkedNow carriedOver. rewrite <- Els.
    split; [exact Hsub|]. split; [exact Hc|]. split; [exact Hq|].
    split; [exact Hgone|]. split; [exact Hstay|].
    rewrite (bind_ok Eloop). cbn [fst snd app]. rewrite Z.add_0_l.
    rewrite bind_assign.
    rewrite store_fold_events, Hstore.
    cbn [StateStore.db StateStore.state option_map].
    cbv zeta.
    destruct (captured >? 0).
    + rewrite bind_assign.
      cbn [store withStore StateStore.db StateStore.state option_map].
      reflexivity.
    + reflexivity.
Qed.

End ReconcilerShape.

(** X7. Whatever the chain answers, [reconcileListings] leaves a listing
    set that is the old one with some listings removed and the others in
    their old order, never lowers [salePoolWei] and touches no other field
    of the ledger. So listings with distinct order hashes stay distinct,
    and listings in [listedAtMs] order stay in that order. *)
Theorem reconcile_keeps_listing_order
        (cfg : Config) (env : Env) (w : World) (s : BotState)
        (d : StateStore.Database) :
  store w = {| StateStore.db := Some d; StateStore.state := Some s |} ->
  let run := Services.reconcileListings cfg env w in
  exists s',
    StateStore.state (store (snd run)) = Some s'
    /\ Subsequence (activeListings s') (activeListings s)
    /\ (NoDup (map orderHash (activeListings s)) ->
        NoDup (map orderHash (activeListings s')))
    /\ (Sorted listedAtMs_le (activeListings s) ->
        Sorted listedAtMs_le (activeListings s'))
    /\ salePoolWei s <= salePoolWei s'
    /\ s' = set_salePoolWei (salePoolWei s')
              (set_activeListings (activeListings s') s).
Proof.
  intros Hstore run.
  destruct (reconcileListings_shape cfg env w Hstore)
    as (kept & captured & events & Hsub & _ & _ & _ & _ & Hrun).
  fold run in Hrun. cbv zeta in Hrun.
  set (listings' :=
         kept ++ skipn (checksLeft cfg 0) (activeListings s)) in *.
  assert (Hsub' : Subsequence listings' (activeListings s)).
  { rewrite <- (firstn_skipn (checksLeft cfg 0) (activeListings s)) at 1.
    apply Subsequence_app; [exact Hsub|apply Subsequence_refl]. }
  assert (Hshape : forall s',
             activeListings s' = listings' ->
             Subsequence (activeListings s') (activeListings s)
             /\ (NoDup (map orderHash (activeListings s)) ->
                 NoDup (map orderHash (activeListings s')))
             /\ (Sorted listedAtMs_le (activeListings s) ->
                 Sorted listedAtMs_le (activeListings s'))).
  { intros s' ->. split; [exact Hsub'|]. split.
    - apply Subsequence_NoDup, Subsequence_map, Hsub'.
    - apply listedAtMs_le_Sorted_Subsequence, Hsub'. }
  destruct (captured >? 0) eqn:Ecap.
  - apply Z.gtb_lt in Ecap.
    exists (set_salePoolWei (salePoolWei s + captured)
                            (set_activeListings listings' s)).
    split; [rewrite Hrun, bind_save_ret_state; reflexivity|].
    destruct (Hshape (set_salePoolWei (salePoolWei s + captured)
                                      (set_activeListings listings' s))
                     eq_refl) as (H1 & H2 & H3).
    repeat split; try assumption; cbn; try lia.
  - exists (set_activeListings listings' s).
    split; [rewrite Hrun; reflexivity|].
    destruct (Hshape (set_activeListings listings' s) eq_refl)
      as (H1 & H2 & H3).
    repeat split; try assumption; cbn; try lia.
Qed.

Lemma reconcile_keeps_listing_order_witness :
  let s := listedLedger [soldListing; unreadableListing; heldListing] in
  let run :=
    Services.reconcileListings sampleConfig marketEnv
                               (worldOf (snapshotOf s) s None) in
  exists s',
    StateStore.state (store (snd run)) = Some s'
    /\ Subsequence (activeListings s') (activeListings s)
    /\ NoDup (map orderHash (activeListings s')).
Proof.
  intros s run.
  destruct (@reconcile_keeps_listing_order
              sampleConfig marketEnv (worldOf (snapshotOf s) s None) s
              (snapshotOf s) eq_refl)
    as (s' & Hstate & Hsub & Hnd & _).
  exists s'. split; [exact Hstate|]. split; [exact Hsub|].
  apply Hnd. cbn.
  repeat (constructor; [cbn; intuition discriminate|]). constructor.
Defined.

(** X8. [reconcileListings] reads the chain at most once per listing and at
    most [MAX_LISTING_CHECKS_PER_TICK] times in one call, submits nothing
    and leaves the nonce cache alone. A failing read never makes it throw:
    when the listings have distinct order hashes the call always returns. *)
Theorem reconcile_reads_within_cap
        (cfg : Config) (env : Env) (w : World) (s : BotState)
        (d : StateStore.Database) :
  store w = {| StateStore.db := Some d; StateStore.state := Some s |} ->
  let run := Services.reconcileListings cfg env w in
  (exists events,
      trace (snd run) = events ++ trace w
      /\ (listingChecksIn events
          <= Nat.min (Z.to_nat (MAX_LISTING_CHECKS_PER_TICK cfg))
                     (List.length (activeListings s)))%nat
      /\ Forall (fun e => isSubmission e = false) events)
  /\ cachedNonce (snd run) = cachedNonce w
  /\ (NoDup (map orderHash (activeListings s)) ->
      exists proceeds, fst run = Ok proceeds).
Proof.
  intros Hstore run.
  destruct (reconcileListings_shape cfg env w Hstore)
    as (kept & captured & events & Hsub & Hc & Hq & _ & _ & Hrun).
  fold run in Hrun. cbv zeta in Hrun.
  rewrite length_firstn in Hc.
  unfold checksLeft in Hc. rewrite Z.sub_0_r in Hc.
  set (listings' :=
         kept ++ skipn (checksLeft cfg 0) (activeListings s)) in *.
  assert (Hquiet : Forall (fun e => isSubmission e = false) events)
    by (eapply Forall_impl; [|exact Hq]; cbn; tauto).
  destruct (captured >? 0).
  - set (s' := set_salePoolWei (salePoolWei s + captured)
                               (set_activeListings listings' s)) in *.
    set (w1 := withStore {| StateStore.db := Some d;
                            StateStore.state := Some s' |}
                         (fold_right withEvent w events)) in *.
    assert (Hs1 : store w1 = {| StateStore.db := Some d;
                                StateStore.state := Some s' |})
      by reflexivity.
    destruct (StateStore.persistState d s') as [d'|e] eqn:Hp.
    + rewrite (bind_ok (save_ok w1 Hs1 Hp)) in Hrun.
      rewrite Hrun. cbn [fst snd].
      split; [|split; [|intros; eexists; reflexivity]].
      * exists (EvSave true :: events).
        split; [cbn; now rewrite trace_fold_events|].
        split; [exact Hc|constructor; [reflexivity|exact Hquiet]].
      * cbn. apply cachedNonce_fold_events.
    + assert (Hsave : save w1 = (Throw e, withEvent (EvSave false) w1)).
      { unfold save, StateStore.save, StateStore.persist.
        rewrite Hs1. cbn [StateStore.state StateStore.db]. now rewrite Hp. }
      rewrite (bind_throw Hsave) in Hrun.
      rewrite Hrun. cbn [fst snd].
      split; [|split].
      * exists (EvSave false :: events).
        split; [cbn; now rewrite trace_fold_events|].
        split; [exact Hc|constructor; [reflexivity|exact Hquiet]].
      * cbn. apply cachedNonce_fold_events.
      * intros Hnd. exfalso.
        assert (Hnd' : NoDup (map orderHash (activeListings s'))).
        { apply Subsequence_NoDup with (all := map orderHash (activeListings s));
            [|exact Hnd].
          apply Subsequence_map. subst s' listings'. cbn.
          rewrite <- (firstn_skipn (checksLeft cfg 0) (activeListings s)) at 2.
          apply Subsequence_app; [exact Hsub|apply Subsequence_refl]. }
        destruct (persistState_ok d s' Hnd') as (d' & Hok). congruence.
  - rewrite Hrun. cbn [fst snd].
    split; [|split; [|intros; eexists; reflexivity]].
    + exists events. split; [cbn; now rewrite trace_fold_events|].
      split; [exact Hc|exact Hquiet].
    + cbn. apply cachedNonce_fold_events.
Qed.

Lemma reconcile_reads_within_cap_witness :
  let s := listedLedger [soldListing; unreadableListing; heldListing;
                         freeListing] in
  let w := worldOf (snapshotOf s) s None in
  let run := Services.reconcileListings sampleConfig marketEnv w in
  (exists events,
      trace (snd run) = events ++ []
      /\ (listingChecksIn events <= 3)%nat)
  /\ exists proceeds, fst run = Ok proceeds.
Proof.
  intros s w run.
  destruct (@reconcile_reads_within_cap
              sampleConfig marketEnv w s (snapshotOf s) eq_refl)
    as ((events & Ht & Hc & _) & _ & Hret).
  split.
  - exists events. split; [exact Ht|exact Hc].
  - apply Hret. cbn.
    repeat (constructor; [cbn; intuition discriminate|]). constructor.
Defined.

(** X9. For a multi-token (erc1155) listing among those checked in a tick,
    the sale test is the treasury balance: when the chain reports a
    balance at or below [expectedPostSaleBalance] (zero when none is
    recorded) the listing is removed, and when it reports a balance above
    it the listing stays. *)
Theorem multi_token_listing_sold_by_balance
        (cfg : Config) (env : Env) (w : World) (s : BotState)
        (d : StateStore.Database) :
  store w = {| StateStore.db := Some d; StateStore.state := Some s |} ->
  NoDup (activeListings s) ->
  let checkedNow := firstn (checksLeft cfg 0) (activeListings s) in
  let run := Services.reconcileListings cfg env w in
  exists s',
    StateStore.state (store (snd run)) = Some s'
    /\ (forall x, In x checkedNow -> balanceSpent cfg env x ->
                  ~ In x (activeListings s'))
    /\ (forall x, In x checkedNow -> balanceHeld cfg env x ->
                  In x (activeListings s')).
Proof.
  intros Hstore Hnd checkedNow run.
  destruct (reconcileListings_shape cfg env w Hstore)
    as (kept & captured & events & Hsub & _ & _ & Hgone & Hstay & Hrun).
  fold run in Hrun. cbv zeta in Hrun.
  set (listings' :=
         kept ++ skipn (checksLeft cfg 0) (activeListings s)) in *.
  assert (Hspent : forall x, balanceSpent cfg env x ->
                             forall t, verdictAt cfg env t x = Some false).
  { intros x (Hstd & id & Hid & Hall) t. unfold verdictAt.
    rewrite Hid, Hstd. destruct (Hall t) as (b & -> & Hb).
    f_equal. destruct (Z.gtb_spec b (JS.nullish (expectedPostSaleBalance x) 0));
      [lia|reflexivity]. }
  assert (Hheld : forall x, balanceHeld cfg env x ->
                            forall t, verdictAt cfg env t x <> Some false).
  { intros x (Hstd & id & Hid & Hall) t. unfold verdictAt.
    rewrite Hid, Hstd. destruct (Hall t) as (b & -> & Hb).
    destruct (Z.gtb_spec b (JS.nullish (expectedPostSaleBalance x) 0));
      [discriminate|lia]. }
  assert (Hlist : forall s',
             activeListings s' = listings' ->
             (forall x, In x checkedNow -> balanceSpent cfg env x ->
                        ~ In x (activeListings s'))
             /\ (forall x, In x checkedNow -> balanceHeld cfg env x ->
                           In x (activeListings s'))).
  { intros s' ->. split.
    - intros x Hx Hs Hin. apply in_app_or in Hin. destruct Hin as [Hin|Hin].
      + exact (Hgone x Hx (Hspent x Hs) Hin).
      + rewrite <- (firstn_skipn (checksLeft cfg 0) (activeListings s)) in Hnd.
        eapply NoDup_app_disjoint; eassumption.
    - intros x Hx Hh. apply in_or_app. left.
      exact (Hstay x Hx (Hheld x Hh)). }
  destruct (captured >? 0).
  - exists (set_salePoolWei (salePoolWei s + captured)
                            (set_activeListings listings' s)).
    split; [rewrite Hrun, bind_save_ret_state; reflexivity|].
    apply Hlist. reflexivity.
  - exists (set_activeListings listings' s).
    split; [rewrite Hrun; reflexivity|].
    apply Hlist. reflexivity.
Qed.

Lemma unitsListing_spent :
  balanceSpent sampleConfig vaultEnv (unitsListing "0x08" "8" None).
Proof.
  split; [reflexivity|]. exists 8. split; [reflexivity|].
  intros t. exists 0. split; [reflexivity|cbn; lia].
Defined.

Lemma unitsListing_held :
  balanceHeld sampleConfig vaultEnv (unitsListing "0x07" "7" (Some 4)).
Proof.
  split; [reflexivity|]. exists 7. split; [reflexivity|].
  intros t. exists 5. split; [reflexivity|cbn; lia].
Defined.

Lemma multi_token_listing_sold_by_balance_witness :
  let s := listedLedger [unitsListing "0x07" "7" (Some 4);
                         unitsListing "0x08" "8" None] in
  let run :=
    Services.reconcileListings sampleConfig vaultEnv
                               (worldOf (snapshotOf s) s None) in
  exists s',
    StateStore.state (store (snd run)) = Some s'
    /\ ~ In (unitsListing "0x08" "8" None) (activeListings s')
    /\ In (unitsListing "0x07" "7" (Some 4)) (activeListings s').
Proof.
  intros s run.
  destruct (@multi_token_listing_sold_by_balance
              sampleConfig vaultEnv (worldOf (snapshotOf s) s None) s
              (snapshotOf s) eq_refl)
    as (s' & Hstate & Hgone & Hstay).
  - cbn. repeat (constructor; [cbn; intuition discriminate|]). constructor.
  - exists s'. split; [exact Hstate|]. split.
    + apply Hgone; [right; left; reflexivity|exact unitsListing_spent].
    + apply Hstay; [left; reflexivity|exact unitsListing_held].
Defined.

(** ** Buyback: what is submitted, and what a swap leaves in the ledger *)

Section BuybackSubmissions.

Import Services.

Variable cfg : Config.
Variable env : Env.

Lemma submitsOnly_weaken (allowed allowed' : TreasuryCall -> Prop) e :
  (forall call, allowed call -> allowed' call) ->
  submitsOnly allowed e -> submitsOnly allowed' e.
Proof. intros H. destruct e; cbn; auto. Qed.

Lemma submitterEvent_submitsOnly (allowed : TreasuryCall -> Prop) call e :
  allowed call -> submitterEvent call e -> submitsOnly allowed e.
Proof. intros Ha. destruct e; cbn; try tauto. now intros ->. Qed.

Lemma executeSeaport_submits (allowed : TreasuryCall -> Prop) request :
  allowed (ExecuteSeaportCall (req_router request) (req_valueWei request)
                              (req_calldata request)) ->
  Stable (TraceGrows (submitsOnly allowed))
         (TreasuryClient.executeSeaport env request).
Proof.
  intros Ha. eapply TraceGrows_stable_of_Frame; [|apply executeSeaport_frame].
  intros e. now apply submitterEvent_submitsOnly.
Qed.

Lemma waitForReceipt_submits (allowed : TreasuryCall -> Prop) txHash :
  Stable (TraceGrows (submitsOnly allowed))
         (TreasuryClient.waitForReceipt env txHash).
Proof.
  eapply TraceGrows_stable_of_Frame; [|apply waitForReceipt_frame].
  intros e ->. exact I.
Qed.

Lemma cooldown_submits (allowed : TreasuryCall -> Prop) :
  Stable (TraceGrows (submitsOnly allowed)) (cooldown cfg).
Proof. apply cooldown_trace. intros ms. exact I. Qed.

(** Closes the steps of a run that submit nothing. *)
Ltac quiet_steps :=
  first [ apply TraceGrows_assign
        | apply TraceGrows_save; intros; exact I
        | apply TraceGrows_emit; exact I
        | apply TraceGrows_ask; exact I
        | apply waitForReceipt_submits
        | apply cooldown_submits ].

Lemma completePendingBurn_submits (allowed : TreasuryCall -> Prop) token
      spentWeiOverride :
  TOKEN_ADDRESS cfg = Some token ->
  (forall call, isBurnTransfer cfg token call -> allowed call) ->
  Stable (TraceGrows (submitsOnly allowed))
         (completePendingBurn cfg env spentWeiOverride).
Proof.
  intros Htoken Hallowed. unfold completePendingBurn. rewrite Htoken.
  apply (Stable_bind (@TraceGrows_trans _));
    [apply (Stable_getState _ (@TraceGrows_refl _))|].
  intros state.
  destruct (pendingBurnAmount state <=? 0) eqn:Epending;
    [apply (Stable_ret _ (@TraceGrows_refl _))|].
  apply Z.leb_gt in Epending.
  apply (Stable_bind (@TraceGrows_trans _)).
  { apply executeSeaport_submits. apply Hallowed. cbn. auto. }
  intros burnTx.
  stable_steps (@TraceGrows_refl (submitsOnly allowed))
               (@TraceGrows_trans (submitsOnly allowed));
    quiet_steps.
Qed.

Lemma pollBalance_submits (allowed : TreasuryCall -> Prop) token before :
  forall attempts after,
    Stable (TraceGrows (submitsOnly allowed))
           (pollBalance cfg env token before attempts after).
Proof.
  induction attempts as [|attempt rest IH]; intros after; cbn [pollBalance].
  - apply (Stable_ret _ (@TraceGrows_refl _)).
  - apply (Stable_bind (@TraceGrows_trans _)); [quiet_steps|].
    intros balance.
    destruct (balance >? before); [apply (Stable_ret _ (@TraceGrows_refl _))|].
    apply (Stable_bind (@TraceGrows_trans _)).
    + destruct (attempt <? 2);
        [apply TraceGrows_emit; exact I
        |apply (Stable_ret _ (@TraceGrows_refl _))].
    + intros _. apply IH.
Qed.

End BuybackSubmissions.

(** X10. Whatever the chain answers, the only transactions
    [performBuybackAndBurn] hands to the wallet are swaps through the
    configured router, worth a positive amount that exceeds neither the
    [salePoolWei] it found nor a configured positive chunk, with a minimum
    output of zero and the treasury as recipient, and transfers of a
    positive token amount to the burn address with no value attached. With
    nothing pending and an empty sale pool, or with the buyback not fully
    configured, it returns [false] and does nothing. *)
Theorem buyback_submits_only_swap_and_burn
        (cfg : Config) (env : Env) (w : World) (s : BotState) :
  StateStore.state (store w) = Some s ->
  let run := Services.performBuybackAndBurn cfg env w in
  (forall token router weth,
      TOKEN_ADDRESS cfg = Some token ->
      BUYBACK_ROUTER_ADDRESS cfg = Some router ->
      WETH_ADDRESS cfg = Some weth ->
      exists events,
        trace (snd run) = events ++ trace w
        /\ Forall (submitsOnly
                     (fun call =>
                        isBuybackSwap cfg token router weth (salePoolWei s) call
                        \/ isBurnTransfer cfg token call)) events)
  /\ (pendingBurnAmount s <= 0 -> salePoolWei s <= 0 -> run = (Ok false, w))
  /\ (TOKEN_ADDRESS cfg = None \/ BUYBACK_ROUTER_ADDRESS cfg = None
      \/ WETH_ADDRESS cfg = None ->
      run = (Ok false, w)).
Proof.
  intros Hst run.
  split; [|split].
  - intros token router weth Htoken Hrouter Hweth.
    set (allowed := fun call =>
           isBuybackSwap cfg token router weth (salePoolWei s) call
           \/ isBurnTransfer cfg token call).
    change (TraceGrows (submitsOnly allowed) w (snd run)).
    assert (Hburn : forall call, isBurnTransfer cfg token call -> allowed call)
      by (intros call H; now right).
    subst run. unfold Services.performBuybackAndBurn.
    rewrite Htoken, Hrouter, Hweth, (bind_ok (getState_ok w Hst)).
    destruct (pendingBurnAmount s >? 0).
    { match goal with
      | |- TraceGrows ?P ?w0 (snd (?m ?w0)) =>
          enough (Stable (TraceGrows P) m) as H by apply H
      end.
      stable_steps (@TraceGrows_refl (submitsOnly allowed))
                   (@TraceGrows_trans (submitsOnly allowed));
        first [now apply completePendingBurn_submits with (token := token)
              |apply cooldown_submits
              |apply TraceGrows_emit; exact I]. }
    destruct (salePoolWei s <=? 0) eqn:Epool; [apply TraceGrows_refl|].
    apply Z.leb_gt in Epool.
    set (amountToUse :=
           match BUYBACK_CHUNK_WEI cfg with
           | Some chunk =>
               if chunk >? 0
               then (if salePoolWei s <? chunk then salePoolWei s else chunk)
               else salePoolWei s
           | None => salePoolWei s
           end).
    assert (Hamount : 0 < amountToUse <= salePoolWei s
                      /\ forall chunk, BUYBACK_CHUNK_WEI cfg = Some chunk ->
                                       0 < chunk -> amountToUse <= chunk).
    { subst amountToUse. destruct (BUYBACK_CHUNK_WEI cfg) as [chunk|].
      - destruct (Z.gtb_spec chunk 0).
        + destruct (Z.ltb_spec (salePoolWei s) chunk);
            (split; [lia|intros c Hc; inversion Hc; subst; lia]).
        + split; [lia|intros c Hc; inversion Hc; subst; lia].
      - split; [lia|intros; discriminate]. }
    destruct (amountToUse <=? 0); [apply TraceGrows_refl|].
    match goal with
    | |- TraceGrows ?P ?w0 (snd (?m ?w0)) =>
        enough (Stable (TraceGrows P) m) as H by apply H
    end.
    apply (Stable_bind (@TraceGrows_trans _));
      [apply TraceGrows_ask; exact I|].
    intros tokenRouterAllowed.
    destruct (negb tokenRouterAllowed).
    { stable_steps (@TraceGrows_refl (submitsOnly allowed))
                   (@TraceGrows_trans (submitsOnly allowed)).
      apply TraceGrows_emit; exact I. }
    apply (Stable_bind (@TraceGrows_trans _));
      [apply TraceGrows_ask; exact I|].
    intros balanceBefore.
    apply (Stable_bind (@TraceGrows_trans _));
      [apply TraceGrows_ask; exact I|].
    intros now.
    apply (Stable_bind (@TraceGrows_trans _)).
    { apply executeSeaport_submits. left. cbn.
      destruct Hamount as (Hrange & Hchunk). auto 10. }
    intros swapTx.
    apply (Stable_bind (@TraceGrows_trans _));
      [apply TraceGrows_emit; exact I|].
    intros _.
    apply (Stable_bind (@TraceGrows_trans _));
      [apply waitForReceipt_submits|].
    intros _.
    apply (Stable_bind (@TraceGrows_trans _));
      [apply pollBalance_submits|].
    intros balanceAfter.
    stable_steps (@TraceGrows_refl (submitsOnly allowed))
                 (@TraceGrows_trans (submitsOnly allowed));
      first [now apply completePendingBurn_submits with (token := token)
            |apply cooldown_submits
            |apply TraceGrows_assign
            |apply TraceGrows_save; intros; exact I
            |apply TraceGrows_emit; exact I].
  - intros Hpending Hpool. subst run. unfold Services.performBuybackAndBurn.
    destruct (TOKEN_ADDRESS cfg), (BUYBACK_ROUTER_ADDRESS cfg),
      (WETH_ADDRESS cfg); try reflexivity.
    rewrite (bind_ok (getState_ok w Hst)).
    replace (pendingBurnAmount s >? 0) with false
      by (symmetry; destruct (Z.gtb_spec (pendingBurnAmount s) 0);
          [lia|reflexivity]).
    replace (salePoolWei s <=? 0) with true
      by (symmetry; now apply Z.leb_le).
    reflexivity.
  - intros Hmissing. subst run. unfold Services.performBuybackAndBurn.
    destruct (TOKEN_ADDRESS cfg), (BUYBACK_ROUTER_ADDRESS cfg),
      (WETH_ADDRESS cfg); try reflexivity.
    destruct Hmissing as [H|[H|H]]; discriminate.
Qed.

Lemma buyback_submits_only_swap_and_burn_witness :
  let w := worldOf (snapshotOf fundedLedger) fundedLedger None in
  let run := Services.performBuybackAndBurn sampleConfig steadyEnv w in
  (exists events,
      trace (snd run) = events ++ []
      /\ Forall (submitsOnly
                   (fun call =>
                      isBuybackSwap sampleConfig sampleToken sampleRouter
                                    sampleWeth 1300 call
                      \/ isBurnTransfer sampleConfig sampleToken call))
                events)
  /\ writesIn (trace (snd run)) = 1%nat.
Proof.
  intros w run. split; [|reflexivity].
  destruct (@buyback_submits_only_swap_and_burn
              sampleConfig steadyEnv w fundedLedger eq_refl) as (Hall & _).
  exact (Hall sampleToken sampleRouter sampleWeth eq_refl eq_refl eq_refl).
Defined.

Section BuybackOutcome.

Import Services.

Variable cfg : Config.
Variable env : Env.

Lemma pollBalance_returns token before :
  (forall t, exists balance,
      env_erc20BalanceOf env t token (TREASURY_ADDRESS cfg) = Ok balance) ->
  forall attempts after w,
  exists result w',
    pollBalance cfg env token before attempts after w = (Ok result, w')
    /\ store w' = store w.
Proof.
  intros Hb. induction attempts as [|attempt rest IH]; intros after w;
    cbn [pollBalance].
  - exists after, w. split; reflexivity.
  - rewrite bind_ask. destruct (Hb (List.length (trace w))) as (b & ->).
    destruct (b >? before).
    + eexists. eexists. split; reflexivity.
    + destruct (attempt <? 2).
      * rewrite bind_delay.
        destruct (IH b (withEvent (EvDelay 1000)
                                  (withEvent (EvReadErc20Balance token
                                                (TREASURY_ADDRESS cfg)) w)))
          as (r & w' & E & Hs).
        exists r, w'. split; [exact E|exact Hs].
      * rewrite bind_ret.
        destruct (IH b (withEvent (EvReadErc20Balance token
                                     (TREASURY_ADDRESS cfg)) w))
          as (r & w' & E & Hs).
        exists r, w'. split; [exact E|exact Hs].
Qed.

Lemma buybackAmount_range s :
  0 < salePoolWei s ->
  0 < buybackAmount cfg s <= salePoolWei s
  /\ match BUYBACK_CHUNK_WEI cfg with
     | Some chunk =>
         if chunk >? 0
         then (if salePoolWei s <? chunk then salePoolWei s else chunk)
         else salePoolWei s
     | None => salePoolWei s
     end = buybackAmount cfg s.
Proof.
  intros Hpool. unfold buybackAmount.
  destruct (BUYBACK_CHUNK_WEI cfg) as [chunk|]; [|lia].
  destruct (Z.gtb_spec chunk 0), (Z.ltb_spec 0 chunk); try lia.
  destruct (Z.ltb_spec (salePoolWei s) chunk); lia.
Qed.

End BuybackOutcome.

(** X11. On a healthy chain whose token and router reads answer, a buyback
    from a ledger with nothing pending and a positive sale pool returns
    [true] and leaves the ledger settled and committed: both pending fields
    are zero and [salePoolWei] is lower by exactly the amount spent (the
    pool, or the configured chunk when smaller), whether the swap delivered
    tokens, which are then burnt, or delivered none. *)
Theorem buyback_settles_what_it_spends
        (cfg : Config) (env : Env) (w : World) (s : BotState)
        (d : StateStore.Database) (token router weth : Address) :
  TOKEN_ADDRESS cfg = Some token ->
  BUYBACK_ROUTER_ADDRESS cfg = Some router ->
  WETH_ADDRESS cfg = Some weth ->
  store w = {| StateStore.db := Some d; StateStore.state := Some s |} ->
  pendingBurnAmount s <= 0 ->
  0 < salePoolWei s ->
  NoDup (map orderHash (activeListings s)) ->
  chainHealthy env ->
  tokenReadable cfg env token ->
  let spent := buybackAmount cfg s in
  let run := Services.performBuybackAndBurn cfg env w in
  fst run = Ok true
  /\ 0 < spent <= salePoolWei s
  /\ exists d',
      StateStore.persistState d (settledAfter spent s) = Ok d'
      /\ store (snd run)
         = {| StateStore.db := Some d';
              StateStore.state := Some (settledAfter spent s) |}.
Proof.
  intros Htoken Hrouter Hweth Hstore Hpending Hpool Hnd Hh [Hr Hb] spent run.
  assert (Hst : StateStore.state (store w) = Some s) by now rewrite Hstore.
  destruct (buybackAmount_range cfg s Hpool) as (Hspent & Hamount).
  fold spent in Hspent, Hamount.
  cut (fst run = Ok true
       /\ exists d',
           StateStore.persistState d (settledAfter spent s) = Ok d'
           /\ store (snd run)
              = {| StateStore.db := Some d';
                   StateStore.state := Some (settledAfter spent s) |}).
  { intros (H1 & H2). split; [exact H1|]. split; [exact Hspent|exact H2]. }
  subst run. unfold Services.performBuybackAndBurn.
  rewrite Htoken, Hrouter, Hweth, (bind_ok (getState_ok w Hst)).
  replace (pendingBurnAmount s >? 0) with false
    by (symmetry; destruct (Z.gtb_spec (pendingBurnAmount s) 0);
        [lia|reflexivity]).
  replace (salePoolWei s <=? 0) with false
    by (symmetry; now apply Z.leb_gt).
  cbv zeta. rewrite Hamount.
  replace (spent <=? 0) with false by (symmetry; apply Z.leb_gt; lia).
  rewrite bind_ask, Hr. cbn [negb].
  rewrite bind_ask.
  match goal with
  | |- context [env_erc20BalanceOf env ?t token (TREASURY_ADDRESS cfg)] =>
      destruct (Hb t) as (before & Ebefore); rewrite Ebefore
  end.
  unfold Services.dateNow. rewrite bind_ask.
  match goal with
  | |- context [bind (TreasuryClient.executeSeaport env ?req) _ ?w0] =>
      destruct (@executeSeaport_succeeds env req w0 Hh) as (tx & w1 & Eswap);
      pose proof (executeSeaport_frame env req w0) as [Hs1 _];
      rewrite Eswap in Hs1; cbn [snd store withEvent] in Hs1;
      rewrite (bind_ok Eswap), bind_logger
  end.
  match goal with
  | |- context [bind (TreasuryClient.waitForReceipt env tx) _ ?w0] =>
      rewrite (bind_ok (@waitForReceipt_succeeds env tx w0 Hh))
  end.
  match goal with
  | |- context [bind (Services.pollBalance cfg env token before ?a ?b) _ ?w0] =>
      destruct (@pollBalance_returns cfg env token before Hb a b w0)
        as (after & w2 & Epoll & Hs2);
      cbn [store withEvent] in Hs2;
      rewrite (bind_ok Epoll)
  end.
  assert (Hstore2 : store w2
                    = {| StateStore.db := Some d; StateStore.state := Some s |})
    by congruence.
  assert (Hsettled : NoDup (map orderHash
                              (activeListings (settledAfter spent s))))
    by exact Hnd.
  destruct (persistState_ok d (settledAfter spent s) Hsettled) as (d' & Hp).
  destruct ((if after >? before then after - before else 0) =? 0) eqn:Ezero.
  - (* no tokens: the amount is written off *)
    rewrite bind_logger, !bind_assign.
    cbn [store withEvent withStore StateStore.db StateStore.state option_map].
    rewrite Hstore2.
    cbn [StateStore.db StateStore.state option_map].
    assert (Hleft :
      set_salePoolWei
        (if salePoolWei (set_pendingBurnCostWei 0 (set_pendingBurnAmount 0 s))
            >=? spent
         then salePoolWei (set_pendingBurnCostWei 0 (set_pendingBurnAmount 0 s))
              - spent
         else 0)
        (set_pendingBurnCostWei 0 (set_pendingBurnAmount 0 s))
      = settledAfter spent s).
    { unfold settledAfter. cbn [salePoolWei set_pendingBurnCostWei
                                 set_pendingBurnAmount].
      replace (salePoolWei s >=? spent) with true
        by (symmetry; apply Z.geb_le; lia).
      reflexivity. }
    rewrite Hleft.
    erewrite bind_ok; [|eapply save_ok; [reflexivity|exact Hp]].
    split; [reflexivity|]. exists d'. split; [exact Hp|reflexivity].
  - (* tokens arrived: recorded, saved, burnt *)
    rewrite !bind_assign.
    cbn [store withEvent withStore StateStore.db StateStore.state option_map].
    rewrite Hstore2.
    cbn [StateStore.db StateStore.state option_map].
    set (bought := if after >? before then after - before else 0) in *.
    assert (Hbought : 0 < bought).
    { apply Z.eqb_neq in Ezero. subst bought.
      destruct (Z.gtb_spec after before); lia. }
    set (s1 := set_pendingBurnCostWei spent (set_pendingBurnAmount bought s)).
    assert (Hnd1 : NoDup (map orderHash (activeListings s1))) by exact Hnd.
    destruct (persistState_ok d s1 Hnd1) as (d1 & Hp1).
    erewrite bind_ok; [|eapply save_ok; [reflexivity|exact Hp1]].
    match goal with
    | |- context [bind (Services.completePendingBurn cfg env ?o) _ ?w0] =>
        pose proof (@completePendingBurn_succeeds cfg env token o w0 s1 d1
                      Hh Htoken eq_refl Hbought Hnd1) as Hok;
        pose proof (@completePendingBurn_cases cfg env token o w0 s1 d1
                      Htoken eq_refl Hbought) as Hcases;
        destruct (Services.completePendingBurn cfg env o w0)
          as [[[]|e] w3] eqn:Eburn
    end; cbn [fst snd] in Hok, Hcases; [|discriminate].
    cbv zeta in Hcases.
    destruct Hcases as [(e & He & _)|[(e & He & _)|(_ & d2 & Hp2 & Hs3)]];
      try discriminate.
    rewrite (bind_ok Eburn).
    assert (Hfinal :
      (if (if JS.nullish (Some spent) (pendingBurnCostWei s1) >? 0
           then (if salePoolWei s1
                    >=? JS.nullish (Some spent) (pendingBurnCostWei s1)
                 then JS.nullish (Some spent) (pendingBurnCostWei s1)
                 else salePoolWei s1)
           else 0) >? 0
       then set_salePoolWei
              (salePoolWei s1
               - (if JS.nullish (Some spent) (pendingBurnCostWei s1) >? 0
                  then (if salePoolWei s1
                           >=? JS.nullish (Some spent) (pendingBurnCostWei s1)
                        then JS.nullish (Some spent) (pendingBurnCostWei s1)
                        else salePoolWei s1)
                  else 0))
              (set_pendingBurnCostWei 0 (set_pendingBurnAmount 0 s1))
       else set_pendingBurnCostWei 0 (set_pendingBurnAmount 0 s1))
      = settledAfter spent s).
    { cbn [JS.nullish]. subst s1.
      cbn [salePoolWei set_pendingBurnCostWei set_pendingBurnAmount].
      replace (spent >? 0) with true
        by (symmetry; apply Z.gtb_lt; lia).
      replace (salePoolWei s >=? spent) with true
        by (symmetry; apply Z.geb_le; lia).
      replace (spent >? 0) with true
        by (symmetry; apply Z.gtb_lt; lia).
      reflexivity. }
    rewrite Hfinal in Hp2, Hs3.
    unfold Services.cooldown.
    destruct (ACTION_COOLDOWN_MS cfg >? 0); cbn;
      (split; [reflexivity|]); exists d2; (split; [exact Hp2|exact Hs3]).
Qed.

Lemma swapEnv_healthy : chainHealthy swapEnv.
Proof.
  split; [split|split].
  - intros t. exists 100, 2. reflexivity.
  - intros t call nonce f p. eexists. reflexivity.
  - intros t. exists 7. reflexivity.
  - intros t h. reflexivity.
Defined.

Lemma swapEnv_readable : tokenReadable sampleConfig swapEnv sampleToken.
Proof.
  split; [intros t; reflexivity|].
  intros t. eexists. reflexivity.
Defined.

Lemma buyback_settles_what_it_spends_witness :
  let w := worldOf (snapshotOf fundedLedger) fundedLedger None in
  let run := Services.performBuybackAndBurn sampleConfig swapEnv w in
  (fst run = Ok true
   /\ StateStore.state (store (snd run)) = Some (settledAfter 1300 fundedLedger))
  /\ writesIn (trace (snd run)) = 2%nat.
Proof.
  intros w run. split; [|reflexivity].
  destruct (@buyback_settles_what_it_spends
              sampleConfig swapEnv w fundedLedger (snapshotOf fundedLedger)
              sampleToken sampleRouter sampleWeth
              eq_refl eq_refl eq_refl eq_refl)
    as (Hok & _ & d' & _ & Hstore).
  - cbn. lia.
  - cbn. lia.
  - constructor.
  - exact swapEnv_healthy.
  - exact swapEnv_readable.
  - split; [exact Hok|]. fold run in Hstore. now rewrite Hstore.
Defined.

(** X12. When the swap of a buyback is confirmed and the token balance has
    risen, the amount bought and its cost are written to
    [pendingBurnAmount] and [pendingBurnCostWei] and saved before the burn
    is attempted: what remains of the call is the burn phase, started from
    a world whose database already holds the pending burn, and no burn
    transfer was submitted before that save. *)
Theorem bought_tokens_recorded_before_burn
        (cfg : Config) (env : Env) (w w1 w2 w3 : World) (s : BotState)
        (d d1 : StateStore.Database) (token router weth : Address)
        (before after : Z) (swapTx : Hex) :
  TOKEN_ADDRESS cfg = Some token ->
  BUYBACK_ROUTER_ADDRESS cfg = Some router ->
  WETH_ADDRESS cfg = Some weth ->
  store w = {| StateStore.db := Some d; StateStore.state := Some s |} ->
  pendingBurnAmount s <= 0 ->
  0 < salePoolWei s ->
  let spent := buybackAmount cfg s in
  let t := List.length (trace w) in
  let w0 :=
    withEvent EvNow
      (withEvent (EvReadErc20Balance token (TREASURY_ADDRESS cfg))
                 (withEvent (EvReadRouters token) w)) in
  env_routers env t token = Ok true ->
  env_erc20BalanceOf env (S t) token (TREASURY_ADDRESS cfg) = Ok before ->
  TreasuryClient.executeSeaport
    env (swapRequest cfg token router weth spent (env_now env (S (S t)))) w0
  = (Ok swapTx, w1) ->
  TreasuryClient.waitForReceipt
    env swapTx (withEvent (EvLog info "Submitted buyback swap") w1)
  = (Ok tt, w2) ->
  Services.pollBalance cfg env token before [0; 1; 2] before w2
  = (Ok after, w3) ->
  before < after ->
  let recorded :=
    set_pendingBurnCostWei spent (set_pendingBurnAmount (after - before) s) in
  StateStore.persistState d recorded = Ok d1 ->
  let saved :=
    withEvent (EvSave true)
              (withStore {| StateStore.db := Some d1;
                            StateStore.state := Some recorded |} w3) in
  Services.performBuybackAndBurn cfg env w
  = bind (Services.completePendingBurn cfg env (Some spent))
         (fun _ => bind (Services.cooldown cfg) (fun _ => ret true)) saved
  /\ durablePendingBurn saved
     = Some (JS.toString (after - before), JS.toString spent)
  /\ exists events,
      trace saved = EvSave true :: events ++ trace w
      /\ Forall (submitsOnly
                   (isBuybackSwap cfg token router weth (salePoolWei s)))
                events.
Proof.
  intros Htoken Hrouter Hweth Hstore Hpending Hpool spent t w0
         Hr Hb Eswap Ewait Epoll Hrise recorded Hp saved.
  assert (Hst : StateStore.state (store w) = Some s) by now rewrite Hstore.
  destruct (buybackAmount_range cfg s Hpool) as (Hspent & Hamount).
  fold spent in Hspent, Hamount.
  pose proof (executeSeaport_frame
                env (swapRequest cfg token router weth spent
                                 (env_now env (S (S t)))) w0)
    as [Hs1 (ev1 & Ht1 & Hev1)].
  rewrite Eswap in Hs1, Ht1. cbn [snd] in Hs1, Ht1.
  pose proof (waitForReceipt_frame
                env swapTx (withEvent (EvLog info "Submitted buyback swap") w1))
    as [Hs2 (ev2 & Ht2 & Hev2)].
  rewrite Ewait in Hs2, Ht2. cbn [snd store trace withEvent] in Hs2, Ht2.
  pose proof (@pollBalance_submits
                cfg env (isBuybackSwap cfg token router weth (salePoolWei s))
                token before [0; 1; 2] before w2) as (ev3 & Ht3 & Hev3).
  rewrite Epoll in Ht3. cbn [snd] in Ht3.
  assert (Hs3 : store w3 = store w2).
  { assert (Hb' : forall attempts a w4 r w5,
               Services.pollBalance cfg env token before attempts a w4
               = (Ok r, w5) -> store w5 = store w4).
    { clear. induction attempts as [|attempt rest IH]; intros a w4 r w5;
        cbn [Services.pollBalance].
      - intros H; inversion H; reflexivity.
      - rewrite bind_ask.
        destruct (env_erc20BalanceOf env _ token (TREASURY_ADDRESS cfg))
          as [b|e]; [|discriminate].
        destruct (b >? before); [intros H; inversion H; reflexivity|].
        destruct (attempt <? 2).
        + rewrite bind_delay. intros H. now apply IH in H.
        + rewrite bind_ret. intros H. now apply IH in H. }
    exact (Hb' _ _ _ _ _ Epoll). }
  assert (Hstore3 : store w3
                    = {| StateStore.db := Some d; StateStore.state := Some s |}).
  { rewrite Hs3, Hs2, Hs1. subst w0. exact Hstore. }
  split; [|split].
  - unfold Services.performBuybackAndBurn.
    rewrite Htoken, Hrouter, Hweth, (bind_ok (getState_ok w Hst)).
    replace (pendingBurnAmount s >? 0) with false
      by (symmetry; destruct (Z.gtb_spec (pendingBurnAmount s) 0);
          [lia|reflexivity]).
    replace (salePoolWei s <=? 0) with false
      by (symmetry; now apply Z.leb_gt).
    cbv zeta. rewrite Hamount.
    replace (spent <=? 0) with false by (symmetry; apply Z.leb_gt; lia).
    rewrite bind_ask. fold t. rewrite Hr. cbn [negb].
    rewrite bind_ask. cbn [trace withEvent List.length]. fold t. rewrite Hb.
    unfold Services.dateNow. rewrite bind_ask.
    cbn [trace withEvent List.length]. fold t.
    change (TreasuryClient.executeSeaport env _)
      with (TreasuryClient.executeSeaport
              env (swapRequest cfg token router weth spent
                               (env_now env (S (S t))))).
    fold w0.
    rewrite (bind_ok Eswap), bind_logger, (bind_ok Ewait), (bind_ok Epoll).
    replace (after >? before) with true by (symmetry; apply Z.gtb_lt; lia).
    replace (after - before =? 0) with false
      by (symmetry; apply Z.eqb_neq; lia).
    rewrite !bind_assign.
    cbn [store withStore StateStore.db StateStore.state option_map].
    rewrite Hstore3.
    cbn [StateStore.db StateStore.state option_map].
    erewrite bind_ok; [|eapply save_ok; [reflexivity|exact Hp]].
    reflexivity.
  - unfold durablePendingBurn. subst saved.
    cbn [store withEvent withStore StateStore.db].
    unfold StateStore.persistState in Hp.
    destruct (StateStore.insertListings [] (activeListings recorded));
      cbn in Hp; [|discriminate].
    inversion Hp. reflexivity.
  - exists (ev3 ++ ev2 ++ EvLog info "Submitted buyback swap"
                :: ev1 ++ [EvNow;
                           EvReadErc20Balance token (TREASURY_ADDRESS cfg);
                           EvReadRouters token]).
    split.
    + subst saved. cbn [trace withEvent withStore].
      rewrite Ht3, Ht2, Ht1. subst w0. cbn [trace withEvent].
      f_equal. rewrite <- !app_assoc. f_equal. f_equal.
      cbn. f_equal. rewrite <- app_assoc. reflexivity.
    + apply Forall_app. split; [exact Hev3|].
      apply Forall_app. split.
      { eapply Forall_impl; [|exact Hev2]. intros e ->. exact I. }
      constructor; [exact I|].
      apply Forall_app. split; [|repeat constructor].
      eapply Forall_impl; [|exact Hev1].
      intros e. apply submitterEvent_submitsOnly.
      cbn. destruct Hspent as [H1 H2].
      repeat split; try assumption.
      intros chunk Hc Hpos. unfold spent, buybackAmount. rewrite Hc.
      replace (0 <? chunk) with true by (symmetry; now apply Z.ltb_lt).
      lia.
Qed.

Lemma bought_tokens_recorded_before_burn_witness :
  let w := worldOf (snapshotOf fundedLedger) fundedLedger None in
  let w0 :=
    withEvent EvNow
      (withEvent (EvReadErc20Balance sampleToken sampleTreasury)
                 (withEvent (EvReadRouters sampleToken) w)) in
  let request :=
    swapRequest sampleConfig sampleToken sampleRouter sampleWeth 1300
                (env_now swapEnv 2) in
  let w1 := snd (TreasuryClient.executeSeaport swapEnv request w0) in
  let w2 :=
    withEvent (EvWaitForReceipt "7")
              (withEvent (EvLog info "Submitted buyback swap") w1) in
  let w3 :=
    snd (Services.pollBalance sampleConfig swapEnv sampleToken 10 [0; 1; 2]
                              10 w2) in
  let recorded :=
    set_pendingBurnCostWei 1300 (set_pendingBurnAmount 50 fundedLedger) in
  let saved :=
    withEvent (EvSave true)
              (withStore {| StateStore.db := Some (snapshotOf recorded);
                            StateStore.state := Some recorded |} w3) in
  Services.performBuybackAndBurn sampleConfig swapEnv w
  = bind (Services.completePendingBurn sampleConfig swapEnv (Some 1300))
         (fun _ => bind (Services.cooldown sampleConfig) (fun _ => ret true))
         saved
  /\ durablePendingBurn saved = Some ("50", "1300").
Proof.
  intros w w0 request w1 w2 w3 recorded saved.
  destruct (@bought_tokens_recorded_before_burn
              sampleConfig swapEnv w w1 w2 w3 fundedLedger
              (snapshotOf fundedLedger) (snapshotOf recorded)
              sampleToken sampleRouter sampleWeth 10 60 "7"
              eq_refl eq_refl eq_refl eq_refl)
    as (Hrun & Hdurable & _).
  - cbn. lia.
  - cbn. lia.
  - reflexivity.
  - reflexivity.
  - reflexivity.
  - reflexivity.
  - reflexivity.
  - lia.
  - reflexivity.
  - split; [exact Hrun|exact Hdurable].
Defined.

(** ** The state store: refused saves, first start and legacy migration *)

Section StoreEdges.

Import StateStore.

Lemma insertListings_inv :
  forall (ls : list ActiveListingState) (table table' : list ListingRow),
    insertListings table ls = Ok table' ->
    NoDup (map orderHash ls)
    /\ forall h, In h (map orderHash ls) -> ~ In h (map row_orderHash table).
Proof.
  induction ls as [|l ls IH]; intros table table' Hins; cbn in Hins.
  - split; [constructor|intros h []].
  - unfold insertListing in Hins.
    destruct (existsb _ table) eqn:Eex; [discriminate|]. cbn in Hins.
    destruct (IH _ _ Hins) as (Hnd & Hfresh).
    assert (Hnew : ~ In (orderHash l) (map row_orderHash table)).
    { intros Hin. apply in_map_iff in Hin. destruct Hin as (r & Hr & Hin).
      assert (Ht : existsb (fun r0 => String.eqb (row_orderHash r0)
                                                 (row_orderHash (rowOfListing l)))
                           table = true).
      { apply existsb_exists. exists r. split; [exact Hin|].
        cbn. now apply String.eqb_eq. }
      congruence. }
    split.
    + cbn. constructor; [|exact Hnd].
      intros Hin. apply (Hfresh _ Hin).
      rewrite map_app. apply in_or_app. right. now left.
    + intros h [<-|Hin]; [exact Hnew|].
      intros Hold. apply (Hfresh h Hin).
      rewrite map_app. apply in_or_app. now left.
Qed.

Lemma insertListings_error :
  forall (ls : list ActiveListingState) (table : list ListingRow) e,
    insertListings table ls = Throw e ->
    e = SqliteError "UNIQUE constraint failed: listings.orderHash".
Proof.
  induction ls as [|l ls IH]; intros table e Hins; cbn in Hins;
    [discriminate|].
  unfold insertListing in Hins.
  destruct (existsb _ table); cbn in Hins; [now inversion Hins|].
  eapply IH. exact Hins.
Qed.

End StoreEdges.

Lemma persistState_refuses_hashes_inv d s d' :
  StateStore.persistState d s = Ok d' ->
  NoDup (map orderHash (activeListings s)).
Proof.
  intros Hp. unfold StateStore.persistState in Hp.
  destruct (StateStore.insertListings [] (activeListings s)) as [t|e] eqn:E;
    [|discriminate].
  exact (proj1 (insertListings_inv _ _ E)).
Qed.

Lemma NoDup_app_fresh {A} (l : list A) (x : A) :
  NoDup l -> ~ In x l -> NoDup (l ++ [x]).
Proof.
  induction 1 as [|y l Hy Hl IH]; cbn; intros Hx.
  - constructor; [intros []|constructor].
  - constructor.
    + intros Hin. apply in_app_or in Hin. destruct Hin as [Hin|[->|[]]];
        [contradiction|]. apply Hx. now left.
    + apply IH. intros Hin. apply Hx. now right.
Qed.

(** X13. [persistState] commits exactly when the listings of the ledger
    have pairwise distinct order hashes. It then replaces whatever the
    database held: the listing rows are those of the ledger, in its order,
    and the result does not depend on the previous content. Otherwise the
    transaction fails on the primary key of the listings table, and a
    [save] from a store holding such a ledger throws and leaves the
    database as it was. *)
Theorem persistState_refuses_duplicate_hashes
        (d : StateStore.Database) (s : BotState) :
  (NoDup (map orderHash (activeListings s)) ->
   exists d',
     StateStore.persistState d s = Ok d'
     /\ StateStore.listings_table d'
        = map StateStore.rowOfListing (activeListings s)
     /\ forall previous, StateStore.persistState previous s = Ok d')
  /\ (~ NoDup (map orderHash (activeListings s)) ->
      StateStore.persistState d s
      = Throw (SqliteError "UNIQUE constraint failed: listings.orderHash")
      /\ forall w,
          store w = {| StateStore.db := Some d; StateStore.state := Some s |} ->
          save w
          = (Throw (SqliteError "UNIQUE constraint failed: listings.orderHash"),
             withEvent (EvSave false) w))
  /\ ((exists d', StateStore.persistState d s = Ok d') ->
      NoDup (map orderHash (activeListings s))).
Proof.
  assert (Hconv : (exists d', StateStore.persistState d s = Ok d') ->
                  NoDup (map orderHash (activeListings s))).
  { intros (d' & Hp). unfold StateStore.persistState in Hp.
    destruct (StateStore.insertListings [] (activeListings s)) as [t|e] eqn:E;
      [|discriminate].
    exact (proj1 (insertListings_inv _ _ E)). }
  split; [|split; [|exact Hconv]].
  - intros Hnd. unfold StateStore.persistState.
    rewrite insertListings_fresh by exact Hnd. cbn.
    eexists. split; [reflexivity|]. split; [reflexivity|].
    intros previous. reflexivity.
  - intros Hdup.
    assert (Hp : StateStore.persistState d s
                 = Throw (SqliteError
                            "UNIQUE constraint failed: listings.orderHash")).
    { destruct (StateStore.persistState d s) as [d'|e] eqn:Hp.
      - exfalso. apply Hdup, Hconv. eauto.
      - unfold StateStore.persistState in Hp.
        destruct (StateStore.insertListings [] (activeListings s)) as [t|e0]
          eqn:E; cbn in Hp; [discriminate|].
        inversion Hp; subst. f_equal. eapply insertListings_error. exact E. }
    split; [exact Hp|].
    intros w Hstore. unfold save, StateStore.save, StateStore.persist.
    rewrite Hstore. cbn [StateStore.state StateStore.db]. now rewrite Hp.
Qed.

Lemma persistState_refuses_duplicate_hashes_witness :
  (exists d',
      StateStore.persistState (snapshotOf fundedLedger)
                              (listedLedger [soldListing; heldListing])
      = Ok d'
      /\ StateStore.listings_table d'
         = map StateStore.rowOfListing [soldListing; heldListing])
  /\ StateStore.persistState StateStore.emptyDatabase
                             (listedLedger [soldListing; soldListing])
     = Throw (SqliteError "UNIQUE constraint failed: listings.orderHash").
Proof.
  split.
  - destruct (proj1 (persistState_refuses_duplicate_hashes
                       (snapshotOf fundedLedger)
                       (listedLedger [soldListing; heldListing])))
      as (d' & Hp & Hrows & _).
    + cbn. repeat (constructor; [cbn; intuition discriminate|]). constructor.
    + exists d'. split; [exact Hp|exact Hrows].
  - apply (proj1 (proj2 (persistState_refuses_duplicate_hashes
                           StateStore.emptyDatabase
                           (listedLedger [soldListing; soldListing])))).
    cbn. intros Hnd. inversion Hnd as [|h rest Hnin _]; subst.
    apply Hnin. now left.
Defined.

(** X14. On a first start (no database file) with nothing to migrate (no
    legacy path, or no legacy file), [load] creates the default ledger:
    empty pools, no listing, [lastTaxBlock] at the given block. It is
    persisted at once, so every later [load] from that database returns the
    same ledger, whatever the legacy file and the block given then. *)
Theorem first_start_creates_default_ledger
        (legacyJsonPath : option string) (file : StateStore.LegacyFile)
        (initialBlock : Z) :
  legacyJsonPath = None \/ file = StateStore.LegacyMissing ->
  exists d,
    let started :=
      {| StateStore.db := Some d;
         StateStore.state := Some (StateStore.createDefaultState initialBlock) |} in
    StateStore.load legacyJsonPath file None initialBlock = (Ok started, d)
    /\ StateStore.readStateFromDatabase d
       = Ok (Some (StateStore.createDefaultState initialBlock))
    /\ forall laterPath laterFile laterBlock,
        StateStore.load laterPath laterFile (Some d) laterBlock
        = (Ok started, d).
Proof.
  intros Hnothing.
  assert (Hlegacy : StateStore.tryLoadFromLegacyJson legacyJsonPath file
                    = Ok None).
  { destruct Hnothing as [->| ->]; [reflexivity|].
    destruct legacyJsonPath; reflexivity. }
  eexists. cbv zeta.
  assert (Hread : forall d0,
             d0 = {| StateStore.state_table :=
                       Some {| StateStore.row_version := StateStore.STATE_VERSION;
                               StateStore.row_commissionPoolWei := JS.toString 0;
                               StateStore.row_salePoolWei := JS.toString 0;
                               StateStore.row_lastTaxBlock :=
                                 JS.toString initialBlock;
                               StateStore.row_pendingBurnAmount := JS.toString 0;
                               StateStore.row_pendingBurnCostWei :=
                                 JS.toString 0 |};
                     StateStore.listings_table := [] |} ->
             StateStore.readStateFromDatabase d0
             = Ok (Some (StateStore.createDefaultState initialBlock))).
  { intros d0 ->. unfold StateStore.readStateFromDatabase.
    cbn [StateStore.state_table StateStore.row_commissionPoolWei
         StateStore.row_salePoolWei StateStore.row_lastTaxBlock
         StateStore.row_pendingBurnAmount StateStore.row_pendingBurnCostWei
         StateStore.row_version StateStore.listings_table].
    rewrite !parseBigInt_toString. reflexivity. }
  split; [|split].
  - unfold StateStore.load. cbn [JS.nullish].
    change (StateStore.readStateFromDatabase StateStore.emptyDatabase)
      with (@Ok (option BotState) None).
    cbv iota. rewrite Hlegacy. reflexivity.
  - apply Hread. reflexivity.
  - intros laterPath laterFile laterBlock.
    apply load_existing. apply Hread. reflexivity.
Qed.

Lemma first_start_creates_default_ledger_witness :
  exists d,
    StateStore.load (Some "bot-state.json") StateStore.LegacyMissing None 4242
    = (Ok {| StateStore.db := Some d;
             StateStore.state := Some (StateStore.createDefaultState 4242) |},
       d)
    /\ StateStore.load None StateStore.LegacyMissing (Some d) 9999
       = (Ok {| StateStore.db := Some d;
                StateStore.state := Some (StateStore.createDefaultState 4242) |},
          d).
Proof.
  destruct (@first_start_creates_default_ledger
              (Some "bot-state.json") StateStore.LegacyMissing 4242
              (or_intror eq_refl)) as (d & Hload & _ & Hlater).
  exists d. split; [exact Hload|apply Hlater].
Defined.

(** X15. The legacy JSON file is read only when there is no database file.
    When it parses into a ledger with distinct order hashes, [load] makes
    that ledger (with a version of at least [STATE_VERSION]) the loaded
    state and persists it. A legacy file that cannot be read for a reason
    other than its absence, or whose amounts cannot be converted, makes
    [load] throw instead of starting from a default ledger. The database
    file that this attempt created stays behind, empty, so the next start
    does not read the legacy file again: it begins with the default ledger
    at the block given then. *)
Theorem legacy_file_is_migrated_or_refused
        (path : string) (file : StateStore.LegacyFile) (initialBlock : Z) :
  (forall d,
      StateStore.load (Some path) file (Some d) initialBlock
      = StateStore.load None StateStore.LegacyMissing (Some d) initialBlock)
  /\ (forall raw s,
         file = StateStore.LegacyParsed raw ->
         StateStore.deserializeLegacyState raw = Ok s ->
         NoDup (map orderHash (activeListings s)) ->
         StateStore.STATE_VERSION <= version s
         /\ exists d',
             StateStore.persistState StateStore.emptyDatabase s = Ok d'
             /\ StateStore.load (Some path) file None initialBlock
                = (Ok {| StateStore.db := Some d'; StateStore.state := Some s |},
                   d'))
  /\ (forall raw e,
         file = StateStore.LegacyParsed raw ->
         StateStore.deserializeLegacyState raw = Throw e ->
         (forall code, e <> ErrnoException code) ->
         StateStore.load (Some path) file None initialBlock
         = (Throw e, StateStore.emptyDatabase))
  /\ (forall e,
         file = StateStore.LegacyUnreadable e ->
         e <> ErrnoException "ENOENT" ->
         StateStore.load (Some path) file None initialBlock
         = (Throw e, StateStore.emptyDatabase))
  /\ (forall laterBlock,
         exists d',
           StateStore.load (Some path) file (Some StateStore.emptyDatabase)
                           laterBlock
           = (Ok {| StateStore.db := Some d';
                    StateStore.state :=
                      Some (StateStore.createDefaultState laterBlock) |},
              d')
           /\ StateStore.readStateFromDatabase d'
              = Ok (Some (StateStore.createDefaultState laterBlock))).
Proof.
  split; [|split; [|split; [|split]]].
  - intros d. unfold StateStore.load. cbn [JS.nullish].
    destruct (StateStore.readStateFromDatabase d) as [[s|]|e]; reflexivity.
  - intros raw s -> Hraw Hnd. split.
    + unfold StateStore.deserializeLegacyState in Hraw.
      repeat match type of Hraw with
             | bindR ?r _ = Ok _ =>
                 destruct r; cbn [bindR] in Hraw; [|discriminate]
             end.
      inversion Hraw; subst. cbn [version].
      destruct (Z.ltb_spec (JS.nullish (StateStore.lg_version raw)
                                       StateStore.STATE_VERSION)
                           StateStore.STATE_VERSION); lia.
    + destruct (persistState_ok StateStore.emptyDatabase s Hnd) as (d' & Hp).
      exists d'. split; [exact Hp|].
      unfold StateStore.load, StateStore.tryLoadFromLegacyJson,
        StateStore.persist.
      cbn [JS.nullish].
      change (StateStore.readStateFromDatabase StateStore.emptyDatabase)
        with (@Ok (option BotState) None).
      cbv iota. rewrite Hraw. cbn [bindR StateStore.db StateStore.state].
      rewrite Hp. reflexivity.
  - intros raw e -> Hraw Hne.
    unfold StateStore.load, StateStore.tryLoadFromLegacyJson.
    cbn [JS.nullish].
    change (StateStore.readStateFromDatabase StateStore.emptyDatabase)
      with (@Ok (option BotState) None).
    cbv iota. rewrite Hraw.
    destruct e; try reflexivity. exfalso. exact (Hne code eq_refl).
  - intros e -> Hne.
    unfold StateStore.load, StateStore.tryLoadFromLegacyJson.
    cbn [JS.nullish].
    change (StateStore.readStateFromDatabase StateStore.emptyDatabase)
      with (@Ok (option BotState) None).
    cbv iota.
    destruct e; try reflexivity.
    destruct (String.eqb code "ENOENT") eqn:Ecode; [|reflexivity].
    apply String.eqb_eq in Ecode. subst. exfalso. now apply Hne.
  - intros laterBlock. eexists.
    unfold StateStore.load, StateStore.persist. cbn [JS.nullish].
    change (StateStore.readStateFromDatabase StateStore.emptyDatabase)
      with (@Ok (option BotState) None).
    cbv iota. cbn [StateStore.db StateStore.state].
    split; [reflexivity|].
    unfold StateStore.readStateFromDatabase.
    cbn [JS.nullish StateStore.db
         StateStore.state_table StateStore.row_commissionPoolWei
         StateStore.row_salePoolWei StateStore.row_lastTaxBlock
         StateStore.row_pendingBurnAmount StateStore.row_pendingBurnCostWei
         StateStore.row_version StateStore.listings_table
         StateStore.createDefaultState commissionPoolWei salePoolWei
         lastTaxBlock pendingBurnAmount pendingBurnCostWei].
    rewrite !parseBigInt_toString. reflexivity.
Qed.

Lemma legacy_file_is_migrated_or_refused_witness :
  (exists d' s,
      StateStore.load (Some "bot-state.json")
                      (StateStore.LegacyParsed legacySample) None 5
      = (Ok {| StateStore.db := Some d'; StateStore.state := Some s |}, d')
      /\ 3 <= version s
      /\ lastTaxBlock s = 77)
  /\ StateStore.load (Some "bot-state.json")
                     (StateStore.LegacyParsed unreadableLegacySample) None 5
     = (Throw (SyntaxError "Cannot convert 12.5 to a BigInt"),
        StateStore.emptyDatabase)
  /\ StateStore.load (Some "bot-state.json")
                     (StateStore.LegacyUnreadable (ErrnoException "EACCES"))
                     None 5
     = (Throw (ErrnoException "EACCES"), StateStore.emptyDatabase)
  /\ exists d',
      StateStore.load (Some "bot-state.json")
                      (StateStore.LegacyParsed unreadableLegacySample)
                      (Some StateStore.emptyDatabase) 6
      = (Ok {| StateStore.db := Some d';
               StateStore.state := Some (StateStore.createDefaultState 6) |},
         d').
Proof.
  destruct (@legacy_file_is_migrated_or_refused
              "bot-state.json" (StateStore.LegacyParsed legacySample) 5)
    as (_ & Hmigrate & _).
  destruct (@legacy_file_is_migrated_or_refused
              "bot-state.json"
              (StateStore.LegacyParsed unreadableLegacySample) 5)
    as (_ & _ & Hunparsed & _ & Hnext).
  destruct (@legacy_file_is_migrated_or_refused
              "bot-state.json"
              (StateStore.LegacyUnreadable (ErrnoException "EACCES")) 5)
    as (_ & _ & _ & Hrefuse & _).
  split; [|split; [|split]].
  - destruct (Hmigrate legacySample
                {| version := 3; commissionPoolWei := 1000; salePoolWei := 250;
                   pendingBurnAmount := 0; pendingBurnCostWei := 0;
                   activeListings := []; lastTaxBlock := 77 |}
                eq_refl eq_refl) as (Hv & d' & _ & Hload).
    + constructor.
    + eexists. eexists. split; [exact Hload|]. split; [exact Hv|reflexivity].
  - apply (Hunparsed unreadableLegacySample); [reflexivity|reflexivity|].
    intros code. discriminate.
  - apply Hrefuse; [reflexivity|discriminate].
  - destruct (Hnext 6) as (d' & Hload & _). exists d'. exact Hload.
Defined.

(** ** Purchase: what the relist step records *)

Lemma tryCatch_bind_ok {A B} (m : M A) (k : A -> M B) h w a w' :
  m w = (Ok a, w') -> tryCatch (bind m k) h w = tryCatch (k a) h w'.
Proof. intros E. unfold tryCatch, bind. now rewrite E. Qed.

Lemma tryCatch_bind_throw {A B} (m : M A) (k : A -> M B) h w e w' :
  m w = (Throw e, w') -> tryCatch (bind m k) h w = h e w'.
Proof. intros E. unfold tryCatch, bind. now rewrite E. Qed.

Arguments tryCatch_bind_ok {A B m k h w a w'} _.
Arguments tryCatch_bind_throw {A B m k h w e w'} _.

(** X16. The relist step after a purchase of a single-owner token always
    returns [true]. When the listing helper returns nothing or throws, the
    ledger and the database are left as they were. When it returns a
    listing, the ledger gets exactly one more entry, at the end, carrying
    the order hash and the seller proceeds the helper reported and the
    clock reading taken after it; that ledger is committed when the order
    hash is new, and when the hash is already listed the save is refused,
    so the entry stays in memory only. *)
Theorem relist_records_the_new_listing
        (cfg : Config) (env : Env) (execution : ExecutionPayload)
        (metadata : OpenSeaListingBlueprint) (cost : Z)
        (w : World) (s : BotState) (d : StateStore.Database) :
  openSeaMetadata execution = Some metadata ->
  offerItemType metadata <> 3 ->
  store w = {| StateStore.db := Some d; StateStore.state := Some s |} ->
  let answer :=
    env_createOpenSeaListing env (List.length (trace w)) (cachedNonce w)
                             metadata cost in
  let run := Services.relistStep cfg env execution cost w in
  fst run = Ok true
  /\ (fst answer = Ok None \/ (exists e, fst answer = Throw e) ->
      store (snd run) = store w)
  /\ (forall listing,
         fst answer = Ok (Some listing) ->
         let now := env_now env (S (List.length (trace w))) in
         let listed :=
           set_activeListings
             (activeListings s ++ [relistedListing metadata listing now]) s in
         StateStore.state (store (snd run)) = Some listed
         /\ (NoDup (map orderHash (activeListings s)) ->
             ~ In (lr_orderHash listing) (map orderHash (activeListings s)) ->
             exists d',
               StateStore.persistState d listed = Ok d'
               /\ StateStore.db (store (snd run)) = Some d')
         /\ (In (lr_orderHash listing) (map orderHash (activeListings s)) ->
             StateStore.db (store (snd run)) = Some d)).
Proof.
  intros Hmeta Hkind Hstore answer run.
  split; [apply relistStep_returns|].
  remember (store (snd run)) as final eqn:Efinal.
  subst run. unfold Services.relistStep in Efinal. rewrite Hmeta in Efinal.
  replace (offerItemType metadata =? 3) with false in Efinal
    by (symmetry; now apply Z.eqb_neq).
  set (w1 := withEvent (EvCreateListing cost) (withNonce (snd answer) w)).
  assert (Hcreate : Services.createOpenSeaListing env metadata cost w
                    = (fst answer, w1)) by reflexivity.
  assert (Hs1 : store w1 = store w) by reflexivity.
  assert (Htail : forall w3,
             store (snd (bind (Services.cooldown cfg)
                              (fun _ => ret true) w3))
             = store w3).
  { intros w3. unfold Services.cooldown.
    destruct (ACTION_COOLDOWN_MS cfg >? 0); reflexivity. }
  unfold bind at 1 in Efinal.
  destruct (fst answer) as [[listing|]|e] eqn:Eresult.
  - (* a listing came back *)
    rewrite (tryCatch_bind_ok Hcreate) in Efinal.
    erewrite tryCatch_bind_ok in Efinal by reflexivity.
    erewrite tryCatch_bind_ok in Efinal by reflexivity.
    erewrite tryCatch_bind_ok in Efinal by reflexivity.
    cbn [store withEvent] in Efinal. rewrite Hs1, Hstore in Efinal.
    cbn [StateStore.db StateStore.state option_map trace withEvent] in Efinal.
    split; [intros [H|(e & H)]; discriminate|].
    intros made Hmade now listed. inversion Hmade; subst made.
    assert (Hquantity :
      (if (if offerEndAmount metadata >? 0 then offerEndAmount metadata
           else if offerStartAmount metadata >? 0
                then offerStartAmount metadata else 1) >? 0
       then (if offerEndAmount metadata >? 0 then offerEndAmount metadata
             else if offerStartAmount metadata >? 0
                  then offerStartAmount metadata else 1)
       else 1)
      = (if 0 <? offerEndAmount metadata then offerEndAmount metadata
         else if 0 <? offerStartAmount metadata
              then offerStartAmount metadata else 1)).
    { destruct (Z.gtb_spec (offerEndAmount metadata) 0),
        (Z.ltb_spec 0 (offerEndAmount metadata)); try lia.
      - destruct (Z.gtb_spec (offerEndAmount metadata) 0); [reflexivity|lia].
      - destruct (Z.gtb_spec (offerStartAmount metadata) 0),
          (Z.ltb_spec 0 (offerStartAmount metadata)); try lia.
        + destruct (Z.gtb_spec (offerStartAmount metadata) 0);
            [reflexivity|lia].
        + reflexivity. }
    rewrite Hquantity in Efinal.
    change (env_now env (List.length (trace w1))) with now in Efinal.
    fold (relistedListing metadata listing now) in Efinal.
    fold listed in Efinal.
    set (w2 := withStore {| StateStore.db := Some d;
                            StateStore.state := Some listed |}
                         (withEvent EvNow w1)) in *.
    assert (Hs2 : store w2 = {| StateStore.db := Some d;
                                StateStore.state := Some listed |})
      by reflexivity.
    destruct (StateStore.persistState d listed) as [d'|e] eqn:Hp.
    + rewrite (tryCatch_bind_ok (save_ok w2 Hs2 Hp)) in Efinal.
      cbn [logger emit tryCatch] in Efinal. rewrite Htail in Efinal.
      cbn [store withEvent withStore] in Efinal. subst final.
      cbn [StateStore.state StateStore.db].
      split; [reflexivity|]. split.
      * intros _ _. exists d'. split; reflexivity.
      * intros Hin. exfalso.
        pose proof (persistState_refuses_hashes_inv d listed Hp) as Hnd.
        subst listed. cbn [activeListings set_activeListings] in Hnd.
        rewrite map_app in Hnd. cbn in Hnd.
        eapply NoDup_app_disjoint; [exact Hnd|exact Hin|now left].
    + assert (Hsave : save w2 = (Throw e, withEvent (EvSave false) w2)).
      { unfold save, StateStore.save, StateStore.persist.
        rewrite Hs2. cbn [StateStore.state StateStore.db]. now rewrite Hp. }
      rewrite (tryCatch_bind_throw Hsave) in Efinal.
      cbn [logger emit] in Efinal. rewrite Htail in Efinal.
      cbn [store withEvent withStore] in Efinal. subst final.
      cbn [StateStore.state StateStore.db].
      split; [reflexivity|]. split.
      * intros Hnd Hfresh. exfalso.
        assert (Hnd' : NoDup (map orderHash (activeListings listed))).
        { subst listed. cbn [activeListings set_activeListings].
          rewrite map_app. cbn.
          apply NoDup_app_fresh; assumption. }
        destruct (persistState_ok d listed Hnd') as (d' & Hok). congruence.
      * intros _. reflexivity.
  - (* nothing came back *)
    rewrite (tryCatch_bind_ok Hcreate) in Efinal.
    cbn [logger emit tryCatch] in Efinal. rewrite Htail in Efinal.
    split; [intros _; subst final; exact Hs1|]. intros made H; discriminate.
  - (* the helper threw *)
    rewrite (tryCatch_bind_throw Hcreate) in Efinal.
    cbn [logger emit] in Efinal. rewrite Htail in Efinal.
    split; [intros _; subst final; exact Hs1|]. intros made H; discriminate.
Qed.

Lemma relist_records_the_new_listing_witness :
  let s := listedLedger [heldListing] in
  let w := worldOf (snapshotOf s) s None in
  let run := Services.relistStep sampleConfig relistEnv relistExecution 400 w in
  let made := {| lr_orderHash := "0x99"; sellerProceedsWei := 470;
                 listingPriceWei := 480 |} in
  fst run = Ok true
  /\ StateStore.state (store (snd run))
     = Some (set_activeListings
               [heldListing;
                relistedListing sampleBlueprint made (env_now relistEnv 1)] s)
  /\ exists d', StateStore.db (store (snd run)) = Some d'.
Proof.
  intros s w run made.
  destruct (@relist_records_the_new_listing
              sampleConfig relistEnv relistExecution sampleBlueprint 400 w s
              (snapshotOf s) eq_refl) as (Hret & _ & Hmade).
  - cbn. lia.
  - reflexivity.
  - destruct (Hmade made eq_refl) as (Hstate & Hsaved & _).
    split; [exact Hret|]. split; [exact Hstate|].
    destruct Hsaved as (d' & _ & Hdb).
    + cbn. repeat (constructor; [cbn; intuition discriminate|]). constructor.
    + cbn. intuition discriminate.
    + exists d'. exact Hdb.
Defined.

(** ** The loop: no amount of the ledger ever turns negative *)

Section Solvency.

Import Services.

Variable cfg : Config.
Variable env : Env.

Lemma StaysSolvent_refl w : StaysSolvent w w.
Proof. intros H; exact H. Qed.

Lemma StaysSolvent_trans w1 w2 w3 :
  StaysSolvent w1 w2 -> StaysSolvent w2 w3 -> StaysSolvent w1 w3.
Proof. unfold StaysSolvent; auto. Qed.

Lemma StaysSolvent_same_store w w' : store w' = store w -> StaysSolvent w w'.
Proof. intros H. unfold StaysSolvent, Solvent. now rewrite H. Qed.

Lemma solvent_of_Frame {A} P (m : M A) :
  Stable (Frame P) m -> Stable StaysSolvent m.
Proof. intros Hm w. apply StaysSolvent_same_store. apply Hm. Qed.

Lemma ask_solvent {A} e (f : nat -> Result A) : Stable StaysSolvent (ask e f).
Proof. intros w. now apply StaysSolvent_same_store. Qed.

Lemma emit_solvent e : Stable StaysSolvent (emit e).
Proof. intros w. now apply StaysSolvent_same_store. Qed.

Lemma save_solvent : Stable StaysSolvent save.
Proof.
  intros w. unfold StaysSolvent, Solvent. now rewrite save_keeps_state.
Qed.

Lemma cooldown_solvent : Stable StaysSolvent (cooldown cfg).
Proof.
  unfold cooldown. destruct (ACTION_COOLDOWN_MS cfg >? 0);
    [apply emit_solvent|apply (Stable_ret _ StaysSolvent_refl)].
Qed.

Lemma assign_solvent f :
  (forall s, solvent s -> solvent (f s)) -> Stable StaysSolvent (assign f).
Proof.
  intros Hf w. unfold StaysSolvent, Solvent, assign. cbn.
  destruct (StateStore.state (store w)); cbn; auto.
Qed.

Lemma executeSeaport_solvent request :
  Stable StaysSolvent (TreasuryClient.executeSeaport env request).
Proof. eapply solvent_of_Frame, executeSeaport_frame. Qed.

Lemma waitForReceipt_solvent txHash :
  Stable StaysSolvent (TreasuryClient.waitForReceipt env txHash).
Proof. eapply solvent_of_Frame, waitForReceipt_frame. Qed.

Lemma createOpenSeaListing_solvent blueprint price :
  Stable StaysSolvent (createOpenSeaListing env blueprint price).
Proof. intros w. now apply StaysSolvent_same_store. Qed.

(** Steps that cannot lower an amount. *)
Ltac solvent_steps :=
  stable_steps StaysSolvent_refl StaysSolvent_trans;
  first [ apply ask_solvent
        | apply emit_solvent
        | apply save_solvent
        | apply cooldown_solvent
        | apply executeSeaport_solvent
        | apply waitForReceipt_solvent
        | apply createOpenSeaListing_solvent
        | apply assign_solvent; intros s0 Hs0; exact Hs0 ].

Lemma collect_solvent : Stable StaysSolvent (collectNewTaxProceeds cfg env).
Proof.
  unfold collectNewTaxProceeds.
  destruct (TOKEN_ADDRESS cfg); [|apply (Stable_ret _ StaysSolvent_refl)].
  apply (Stable_bind StaysSolvent_trans);
    [apply (Stable_getState _ StaysSolvent_refl)|].
  intros _.
  apply (Stable_bind StaysSolvent_trans); [apply ask_solvent|].
  intros latest.
  apply (Stable_bind StaysSolvent_trans);
    [apply (Stable_getState _ StaysSolvent_refl)|].
  intros state.
  destruct (lastTaxBlock state =? 0); [solvent_steps|].
  destruct (lastTaxBlock state >=? Z.of_N latest);
    [apply (Stable_ret _ StaysSolvent_refl)|].
  apply (Stable_bind StaysSolvent_trans);
    [eapply solvent_of_Frame, scanLoop_frame|].
  intros total.
  apply (Stable_bind StaysSolvent_trans);
    [apply assign_solvent; intros s0 Hs0; exact Hs0|].
  intros _.
  destruct (total >? 0) eqn:Etotal; [|solvent_steps].
  apply Z.gtb_lt in Etotal.
  apply (Stable_bind StaysSolvent_trans).
  { apply assign_solvent. intros s0 (H1 & H2 & H3 & H4).
    repeat split; cbn; try assumption; lia. }
  intros _. solvent_steps.
Qed.

Lemma reconcileLoop_solvent listings updated checked proceeds :
  Stable StaysSolvent
         (reconcileLoop cfg env listings updated checked proceeds).
Proof.
  intros w.
  destruct (reconcileLoop_spec cfg env listings updated checked proceeds w)
    as (kept & captured & w' & E & [Hs _] & _).
  rewrite E. now apply StaysSolvent_same_store.
Qed.

Lemma reconcile_solvent : Stable StaysSolvent (reconcileListings cfg env).
Proof.
  unfold reconcileListings.
  apply (Stable_bind StaysSolvent_trans);
    [apply (Stable_getState _ StaysSolvent_refl)|].
  intros state.
  destruct (Nat.eqb _ 0); [apply (Stable_ret _ StaysSolvent_refl)|].
  apply (Stable_bind StaysSolvent_trans); [apply reconcileLoop_solvent|].
  intros locals. cbv zeta.
  apply (Stable_bind StaysSolvent_trans);
    [apply assign_solvent; intros s0 Hs0; exact Hs0|].
  intros _.
  destruct (snd locals >? 0) eqn:Ecaptured;
    [|apply (Stable_ret _ StaysSolvent_refl)].
  apply Z.gtb_lt in Ecaptured.
  apply (Stable_bind StaysSolvent_trans).
  { apply assign_solvent. intros s0 (H1 & H2 & H3 & H4).
    repeat split; cbn; try assumption; lia. }
  intros _. solvent_steps.
Qed.

(** Reading the ledger at the head of a run: either nothing is loaded and
    the run throws at once, or the run goes on with the loaded ledger. *)
Lemma solvent_after_getState {A} (k : BotState -> M A) w :
  (forall s, StateStore.state (store w) = Some s -> solvent s ->
             Solvent (snd (k s w))) ->
  StaysSolvent w (snd (bind getState k w)).
Proof.
  intros Hk Hw. unfold bind, getState, StateStore.getState.
  unfold Solvent in Hw.
  destruct (StateStore.state (store w)) as [s|] eqn:Est.
  - apply Hk; [reflexivity|exact Hw].
  - cbn. unfold Solvent. now rewrite Est.
Qed.

Lemma Solvent_stable {A} (m : M A) w :
  Stable StaysSolvent m -> Solvent w -> Solvent (snd (m w)).
Proof. intros Hm Hw. exact (Hm w Hw). Qed.

Lemma completePendingBurn_solvent spentWeiOverride :
  Stable StaysSolvent (completePendingBurn cfg env spentWeiOverride).
Proof.
  unfold completePendingBurn.
  apply (Stable_bind StaysSolvent_trans);
    [apply (Stable_getState _ StaysSolvent_refl)|].
  intros state.
  destruct (pendingBurnAmount state <=? 0);
    [apply (Stable_ret _ StaysSolvent_refl)|].
  destruct (TOKEN_ADDRESS cfg) as [token|];
    [|apply (Stable_throw _ StaysSolvent_refl)].
  apply (Stable_bind StaysSolvent_trans); [apply executeSeaport_solvent|].
  intros burnTx.
  apply (Stable_bind StaysSolvent_trans); [apply emit_solvent|].
  intros _.
  apply (Stable_bind StaysSolvent_trans); [apply waitForReceipt_solvent|].
  intros _ w.
  apply solvent_after_getState. intros s Hst (H1 & H2 & H3 & H4).
  rewrite !bind_assign.
  cbn [store withStore StateStore.db StateStore.state option_map].
  rewrite Hst. cbn [option_map].
  set (costSource := JS.nullish spentWeiOverride (pendingBurnCostWei s)).
  set (costToDeduct :=
         if costSource >? 0
         then (if salePoolWei s >=? costSource then costSource
               else salePoolWei s)
         else 0).
  assert (Hcost : 0 <= costToDeduct <= salePoolWei s).
  { subst costToDeduct. destruct (Z.gtb_spec costSource 0); [|lia].
    destruct (Z.geb_spec (salePoolWei s) costSource); lia. }
  assert (Htail : forall w0,
             Solvent w0 ->
             Solvent (snd (bind save
                             (fun _ => logger info "Buyback and burn completed")
                             w0))).
  { intros w0. apply Solvent_stable. solvent_steps. }
  destruct (costToDeduct >? 0).
  - rewrite bind_assign. apply Htail.
    unfold Solvent. cbn. repeat split; cbn; lia.
  - rewrite bind_ret. apply Htail.
    unfold Solvent. cbn. repeat split; cbn; lia.
Qed.

Lemma pollBalance_solvent token before attempts after :
  Stable StaysSolvent (pollBalance cfg env token before attempts after).
Proof.
  revert after. induction attempts as [|attempt rest IH]; intros after;
    cbn [pollBalance].
  - apply (Stable_ret _ StaysSolvent_refl).
  - apply (Stable_bind StaysSolvent_trans); [apply ask_solvent|].
    intros balance.
    destruct (balance >? before); [apply (Stable_ret _ StaysSolvent_refl)|].
    apply (Stable_bind StaysSolvent_trans).
    + destruct (attempt <? 2);
        [apply emit_solvent|apply (Stable_ret _ StaysSolvent_refl)].
    + intros _. apply IH.
Qed.

Lemma buyback_solvent : Stable StaysSolvent (performBuybackAndBurn cfg env).
Proof.
  unfold performBuybackAndBurn.
  destruct (TOKEN_ADDRESS cfg) as [token|];
    [|apply (Stable_ret _ StaysSolvent_refl)].
  destruct (BUYBACK_ROUTER_ADDRESS cfg) as [router|];
    [|apply (Stable_ret _ StaysSolvent_refl)].
  destruct (WETH_ADDRESS cfg) as [weth|];
    [|apply (Stable_ret _ StaysSolvent_refl)].
  apply (Stable_bind StaysSolvent_trans);
    [apply (Stable_getState _ StaysSolvent_refl)|].
  intros state.
  destruct (pendingBurnAmount state >? 0).
  { stable_steps StaysSolvent_refl StaysSolvent_trans;
      first [apply emit_solvent
            |apply completePendingBurn_solvent
            |apply cooldown_solvent]. }
  destruct (salePoolWei state <=? 0);
    [apply (Stable_ret _ StaysSolvent_refl)|].
  cbv zeta.
  match goal with
  | |- context [if ?amount <=? 0 then ret false else _] =>
      set (amountToUse := amount)
  end.
  destruct (amountToUse <=? 0) eqn:Eamount;
    [apply (Stable_ret _ StaysSolvent_refl)|].
  apply Z.leb_gt in Eamount.
  apply (Stable_bind StaysSolvent_trans); [apply ask_solvent|].
  intros allowed.
  destruct (negb allowed); [solvent_steps|].
  apply (Stable_bind StaysSolvent_trans); [apply ask_solvent|].
  intros before.
  apply (Stable_bind StaysSolvent_trans); [apply ask_solvent|].
  intros now.
  apply (Stable_bind StaysSolvent_trans); [apply executeSeaport_solvent|].
  intros swapTx.
  apply (Stable_bind StaysSolvent_trans); [apply emit_solvent|].
  intros _.
  apply (Stable_bind StaysSolvent_trans); [apply waitForReceipt_solvent|].
  intros _.
  apply (Stable_bind StaysSolvent_trans); [apply pollBalance_solvent|].
  intros after.
  set (bought := if after >? before then after - before else 0).
  assert (Hbought : 0 <= bought)
    by (subst bought; destruct (Z.gtb_spec after before); lia).
  destruct (bought =? 0).
  - apply (Stable_bind StaysSolvent_trans); [apply emit_solvent|].
    intros _.
    apply (Stable_bind StaysSolvent_trans).
    { apply assign_solvent. intros s0 (H1 & H2 & H3 & H4).
      repeat split; cbn; try assumption; lia. }
    intros _.
    apply (Stable_bind StaysSolvent_trans).
    { apply assign_solvent. intros s0 (H1 & H2 & H3 & H4).
      repeat split; cbn; try assumption; lia. }
    intros _.
    apply (Stable_bind StaysSolvent_trans).
    { apply assign_solvent. intros s0 (H1 & H2 & H3 & H4).
      repeat split; cbn; try assumption.
      destruct (Z.geb_spec (salePoolWei s0) amountToUse); lia. }
    intros _. solvent_steps.
  - apply (Stable_bind StaysSolvent_trans).
    { apply assign_solvent. intros s0 (H1 & H2 & H3 & H4).
      repeat split; cbn; try assumption. }
    intros _.
    apply (Stable_bind StaysSolvent_trans).
    { apply assign_solvent. intros s0 (H1 & H2 & H3 & H4).
      repeat split; cbn; try assumption; lia. }
    intros _.
    stable_steps StaysSolvent_refl StaysSolvent_trans;
      first [apply save_solvent
            |apply completePendingBurn_solvent
            |apply cooldown_solvent].
Qed.

Lemma relistStep_solvent execution cost :
  Stable StaysSolvent (relistStep cfg env execution cost).
Proof.
  unfold relistStep.
  destruct (openSeaMetadata execution) as [metadata|]; [|solvent_steps].
  destruct (offerItemType metadata =? 3); solvent_steps.
Qed.

Lemma purchase_solvent :
  Stable StaysSolvent (attemptPurchaseAndListing cfg env).
Proof.
  unfold attemptPurchaseAndListing.
  destruct (targetMissing cfg); [apply (Stable_ret _ StaysSolvent_refl)|].
  destruct (tokenWithoutCollection cfg); [solvent_steps|].
  apply (Stable_bind StaysSolvent_trans);
    [apply (Stable_getState _ StaysSolvent_refl)|].
  intros state0.
  destruct (commissionPoolWei state0 <=? 0);
    [apply (Stable_ret _ StaysSolvent_refl)|].
  apply (Stable_bind StaysSolvent_trans); [solvent_steps|].
  intros [execution|]; [|apply (Stable_ret _ StaysSolvent_refl)].
  cbv zeta. intros w.
  apply solvent_after_getState. intros s Hst (H1 & H2 & H3 & H4).
  destruct ((ex_valueWei execution <=? 0)
            || (commissionPoolWei s <? ex_valueWei execution))%bool eqn:Ebad;
    [cbn; unfold Solvent; rewrite Hst; repeat split; assumption|].
  apply orb_false_iff in Ebad. destruct Ebad as [Epos Ecover].
  apply Z.leb_gt in Epos. apply Z.ltb_ge in Ecover.
  match goal with
  | |- context [bind (TreasuryClient.executeSeaport env ?req) _ w] =>
      pose proof (executeSeaport_frame env req w) as [Hs1 _];
      destruct (TreasuryClient.executeSeaport env req w) as [[tx|e] w1] eqn:E1
  end; cbn [snd] in Hs1.
  2:{ rewrite (bind_throw E1). cbn. unfold Solvent. rewrite Hs1, Hst.
      repeat split; assumption. }
  rewrite (bind_ok E1), bind_logger.
  match goal with
  | |- context [bind (TreasuryClient.waitForReceipt env tx) _ ?w0] =>
      pose proof (waitForReceipt_frame env tx w0) as [Hs2 _];
      destruct (TreasuryClient.waitForReceipt env tx w0) as [[[]|e] w2] eqn:E2
  end; cbn [snd store withEvent] in Hs2.
  2:{ rewrite (bind_throw E2). cbn. unfold Solvent. rewrite Hs2, Hs1, Hst.
      repeat split; assumption. }
  rewrite (bind_ok E2), bind_assign.
  apply Solvent_stable;
    [stable_steps StaysSolvent_refl StaysSolvent_trans;
     first [apply save_solvent|apply relistStep_solvent]|].
  unfold Solvent. cbn [store withStore StateStore.state].
  rewrite Hs2, Hs1, Hst. cbn. repeat split; cbn; try assumption; lia.
Qed.

Lemma tickBody_solvent : Stable StaysSolvent (tickBody cfg env).
Proof.
  unfold tickBody.
  stable_steps StaysSolvent_refl StaysSolvent_trans;
    first [apply collect_solvent
          |apply reconcile_solvent
          |apply buyback_solvent
          |apply purchase_solvent
          |apply emit_solvent].
Qed.

Lemma tick_solvent : Stable StaysSolvent (tick cfg env).
Proof.
  unfold tick, dateNow.
  stable_steps StaysSolvent_refl StaysSolvent_trans;
    first [apply tickBody_solvent|apply ask_solvent|apply emit_solvent].
Qed.

Lemma ticks_solvent n : Stable StaysSolvent (ticks cfg env n).
Proof.
  induction n as [|n IH]; cbn [ticks].
  - apply (Stable_ret _ StaysSolvent_refl).
  - apply (Stable_bind StaysSolvent_trans); [apply tick_solvent|].
    intros _. exact IH.
Qed.

End Solvency.

(** X17. Whatever the chain, the wallet and the marketplace answer, and
    however a step ends, no amount of the ledger ever turns negative: from
    a loaded ledger whose two pools and two pending-burn fields are
    non-negative, each of the four services, a whole tick, and any number
    of ticks leave a loaded ledger with the same property. *)
Theorem ledger_amounts_never_negative
        (cfg : Config) (env : Env) (n : nat) (w : World) :
  Solvent w ->
  Solvent (snd (Services.ticks cfg env n w))
  /\ Solvent (snd (Services.tick cfg env w))
  /\ Solvent (snd (Services.collectNewTaxProceeds cfg env w))
  /\ Solvent (snd (Services.reconcileListings cfg env w))
  /\ Solvent (snd (Services.performBuybackAndBurn cfg env w))
  /\ Solvent (snd (Services.attemptPurchaseAndListing cfg env w)).
Proof.
  intros Hw.
  split; [exact (ticks_solvent cfg env n w Hw)|].
  split; [exact (tick_solvent cfg env w Hw)|].
  split; [exact (collect_solvent cfg env w Hw)|].
  split; [exact (reconcile_solvent cfg env w Hw)|].
  split; [exact (buyback_solvent cfg env w Hw)|].
  exact (purchase_solvent cfg env w Hw).
Qed.

Lemma ledger_amounts_never_negative_witness :
  let s := listedLedger [soldListing; unreadableListing] in
  Solvent (snd (Services.ticks sampleConfig marketEnv 3
                               (worldOf (snapshotOf s) s None))).
Proof.
  intros s.
  apply (@ledger_amounts_never_negative
           sampleConfig marketEnv 3 (worldOf (snapshotOf s) s None)).
  unfold Solvent, solvent. cbn. lia.
Defined.

(* ===================================================================== *)
(** * The database file and the legacy file *)
(* ===================================================================== *)

Section DatabasePath.

Import ConfigPaths.
Local Open Scope string_scope.

Lemma string_length_append (a b : string) :
  String.length (a ++ b) = (String.length a + String.length b)%nat.
Proof.
  induction a as [|c a IH]; simpl; [reflexivity|].
  now rewrite IH.
Qed.

Lemma toLowerCase_length (s : string) :
  String.length (JS.toLowerCase s) = String.length s.
Proof.
  induction s as [|c s IH]; simpl; [reflexivity|].
  now rewrite IH.
Qed.

Lemma toLowerCase_append (a b : string) :
  JS.toLowerCase (a ++ b) = JS.toLowerCase a ++ JS.toLowerCase b.
Proof.
  induction a as [|c a IH]; simpl; [reflexivity|].
  now rewrite IH.
Qed.

Lemma substring_prefix_append (a b : string) :
  String.substring 0 (String.length a) (a ++ b) = a.
Proof.
  induction a as [|c a IH]; simpl.
  - destruct b; reflexivity.
  - now rewrite IH.
Qed.

Lemma substring_prefix_length (n : nat) (s : string) :
  (n <= String.length s)%nat ->
  String.length (String.substring 0 n s) = n.
Proof.
  revert s. induction n as [|n IH]; intros s Hn.
  - destruct s; reflexivity.
  - destruct s as [|c s]; simpl in *; [lia|].
    rewrite IH by lia. reflexivity.
Qed.

Lemma endsWith_same (s : string) : endsWith s s = true.
Proof.
  destruct s; simpl; [reflexivity|].
  rewrite Ascii.eqb_refl, String.eqb_refl. reflexivity.
Qed.

Lemma endsWith_append (s suffix : string) :
  endsWith (s ++ suffix) suffix = true.
Proof.
  induction s as [|c s IH].
  - apply endsWith_same.
  - change (endsWith (String c (s ++ suffix)) suffix = true).
    cbn [endsWith].
    destruct (String.eqb (String c (s ++ suffix)) suffix); [reflexivity|].
    exact IH.
Qed.

Lemma endsWith_length (s suffix : string) :
  endsWith s suffix = true ->
  (String.length suffix <= String.length s)%nat.
Proof.
  induction s as [|c s IH]; cbn [endsWith].
  - destruct (String.eqb_spec "" suffix) as [<-|_]; [simpl; lia|discriminate].
  - destruct (String.eqb_spec (String c s) suffix) as [<-|_]; [lia|].
    intros H. specialize (IH H). simpl. lia.
Qed.

End DatabasePath.

(** X20. The database path derived from the legacy state path always ends
    in ".db" and is never the legacy path itself, so the migration never
    writes over the file it reads. A legacy path ending in ".json", in any
    letter case, keeps its stem; any other non-empty path gets ".db"
    appended; without a legacy path the database is "bot-state.db". *)
Theorem database_path_never_the_legacy_path (legacyPath : option string) :
  let database := ConfigPaths.deriveStateDatabasePath legacyPath in
  ConfigPaths.endsWith database ".db" = true
  /\ legacyPath <> Some database
  /\ (forall stem suffix,
         legacyPath = Some (stem ++ suffix)%string ->
         JS.toLowerCase suffix = ".json" ->
         database = (stem ++ ".db")%string)
  /\ (forall path,
         legacyPath = Some path ->
         path <> "" ->
         ConfigPaths.endsWith (JS.toLowerCase path) ".json" = false ->
         database = (path ++ ".db")%string)
  /\ (legacyPath = None \/ legacyPath = Some "" -> database = "bot-state.db").
Proof.
  assert (Hjson : forall path,
             ConfigPaths.endsWith (JS.toLowerCase path) ".json" = true ->
             (5 <= String.length path)%nat
             /\ ConfigPaths.replaceJsonSuffix path
                = (String.substring 0 (String.length path - 5) path ++ ".db")%string).
  { intros path Hends. split.
    - apply endsWith_length in Hends.
      rewrite toLowerCase_length in Hends. exact Hends.
    - unfold ConfigPaths.replaceJsonSuffix. rewrite Hends. reflexivity. }
  cbv zeta. unfold ConfigPaths.deriveStateDatabasePath.
  destruct legacyPath as [path|].
  2:{ repeat split; try reflexivity; discriminate. }
  destruct (String.eqb_spec path "") as [->|Hne].
  { repeat split; try reflexivity; try discriminate.
    - intros stem suffix H Hs. exfalso.
      injection H as H. destruct stem; [|discriminate H].
      simpl in H. subst suffix. discriminate Hs.
    - intros path H Hp. injection H as <-. congruence. }
  destruct (ConfigPaths.endsWith (JS.toLowerCase path) ".json") eqn:Hends.
  - destruct (Hjson path Hends) as [Hlen ->].
    split; [apply endsWith_append|].
    split.
    { intros H. injection H as H.
      apply (f_equal String.length) in H.
      rewrite string_length_append, substring_prefix_length in H by lia.
      simpl in H. lia. }
    split.
    { intros stem suffix H Hs. injection H as ->.
      assert (Hsl : String.length suffix = 5%nat).
      { rewrite <- toLowerCase_length, Hs. reflexivity. }
      rewrite string_length_append, Hsl.
      replace (String.length stem + 5 - 5)%nat with (String.length stem) by lia.
      rewrite substring_prefix_append. reflexivity. }
    split.
    { intros p H _ Hno. injection H as <-. congruence. }
    intros [H|H]; [discriminate H|]. injection H as H. contradiction.
  - split; [apply endsWith_append|].
    split.
    { intros H. injection H as H.
      apply (f_equal String.length) in H.
      rewrite string_length_append in H. simpl in H. lia. }
    split.
    { intros stem suffix H Hs. injection H as ->. exfalso.
      rewrite toLowerCase_append, Hs, endsWith_append in Hends.
      discriminate Hends. }
    split.
    { intros p H _ _. injection H as <-. reflexivity. }
    intros [H|H]; [discriminate H|]. injection H as H. contradiction.
Qed.

Lemma database_path_never_the_legacy_path_witness :
  ConfigPaths.deriveStateDatabasePath (Some "data/bot-state.JSON")
  = "data/bot-state.db".
Proof.
  destruct (database_path_never_the_legacy_path (Some "data/bot-state.JSON"))
    as (_ & _ & Hstem & _).
  exact (Hstem "data/bot-state" ".JSON" eq_refl eq_refl).
Defined.

(* ===================================================================== *)
(** * Waiting for a bought token to arrive *)
(* ===================================================================== *)

Section OwnershipWait.

Variable env : Env.
Variables (collection : Address) (tokenId : Z) (expectedOwner : Address).
Variables (itemType quantity : Z).

Lemma ownershipCheck_run (w : World) :
  ListingSteps.ownershipCheck env collection tokenId expectedOwner itemType
                              quantity w
  = (ownershipAt env collection tokenId expectedOwner itemType quantity
                 (List.length (trace w)),
     withEvent (ownershipRead collection tokenId expectedOwner itemType) w).
Proof.
  unfold ListingSteps.ownershipCheck, ownershipAt, ownershipRead.
  destruct (itemType =? ListingSteps.SEAPORT_ITEM_TYPE_ERC1155);
    unfold bind, ask, ret.
  - destruct (env_erc1155BalanceOf env (List.length (trace w)) collection
                                   expectedOwner tokenId); reflexivity.
  - destruct (env_ownerOf env (List.length (trace w)) collection tokenId);
      reflexivity.
Qed.

(** One pass of the loop, by what the chain answers. *)
Lemma ownershipLoop_step (remaining : nat) (attempt : Z) (w : World) :
  (attempt <? ListingSteps.OWNERSHIP_CHECK_MAX_ATTEMPTS) = true ->
  let seen :=
    withEvent (ownershipRead collection tokenId expectedOwner itemType) w in
  ListingSteps.ownershipLoop env (S remaining) collection tokenId
                             expectedOwner itemType quantity attempt w
  = match ownershipAt env collection tokenId expectedOwner itemType quantity
                      (List.length (trace w)) with
    | Ok true => (Ok true, seen)
    | Ok false =>
        ListingSteps.ownershipLoop
          env remaining collection tokenId expectedOwner itemType quantity
          (attempt + 1)
          (if attempt + 1 <? ListingSteps.OWNERSHIP_CHECK_MAX_ATTEMPTS
           then withEvent (EvDelay ListingSteps.OWNERSHIP_CHECK_DELAY_MS) seen
           else seen)
    | Throw e => (Throw e, seen)
    end.
Proof.
  intros Hin seen. cbn [ListingSteps.ownershipLoop]. rewrite Hin.
  unfold bind at 1. rewrite ownershipCheck_run. fold seen.
  destruct (ownershipAt env collection tokenId expectedOwner itemType quantity
                        (List.length (trace w))) as [[|]|e]; try reflexivity.
  unfold bind at 1.
  destruct (attempt + 1 <? ListingSteps.OWNERSHIP_CHECK_MAX_ATTEMPTS);
    reflexivity.
Qed.

Lemma waitForNftOwnership_timeout (w : World) :
  (if itemType =? ListingSteps.SEAPORT_ITEM_TYPE_ERC1155
   then throw (Error ("Treasury balance for token " ++ JS.toString tokenId
                      ++ " on " ++ collection ++ " did not reach "
                      ++ JS.toString quantity ++ " after "
                      ++ JS.toString ListingSteps.OWNERSHIP_CHECK_MAX_ATTEMPTS
                      ++ " checks."))
   else throw (Error ("Token " ++ JS.toString tokenId ++ " on " ++ collection
                      ++ " is not owned by treasury after "
                      ++ JS.toString ListingSteps.OWNERSHIP_CHECK_MAX_ATTEMPTS
                      ++ " checks."))) w
  = (@Throw unit (Error (ownershipTimeout collection tokenId itemType quantity)),
     w).
Proof.
  unfold ownershipTimeout.
  destruct (itemType =? ListingSteps.SEAPORT_ITEM_TYPE_ERC1155); reflexivity.
Qed.

End OwnershipWait.

(** X19. [waitForNftOwnership] asks the chain at most three times, 15
    seconds apart, and does nothing else: it returns as soon as an answer
    shows the treasury holding the token, a failing read ends it at once
    with that error (a failed read is not retried), and after three denials
    it throws its own error without a third pause. The ledger and the nonce
    cache are left alone throughout. *)
Theorem ownership_wait_gives_up_after_three_checks
        (env : Env) (collection : Address) (tokenId : Z)
        (expectedOwner : Address) (itemType quantity : Z) (w : World) :
  let read := ownershipRead collection tokenId expectedOwner itemType in
  let answer k :=
    ownershipAt env collection tokenId expectedOwner itemType quantity
                (2 * k + List.length (trace w)) in
  let after k :=
    {| store := store w; cachedNonce := cachedNonce w;
       trace := ownershipChecks read k ++ trace w |} in
  let run :=
    ListingSteps.waitForNftOwnership env collection tokenId expectedOwner
                                     itemType quantity w in
  (forall k,
      (k < 3)%nat ->
      (forall j, (j < k)%nat -> answer j = Ok false) ->
      answer k = Ok true ->
      run = (Ok tt, after k))
  /\ (forall k e,
         (k < 3)%nat ->
         (forall j, (j < k)%nat -> answer j = Ok false) ->
         answer k = Throw e ->
         run = (Throw e, after k))
  /\ ((forall j, (j < 3)%nat -> answer j = Ok false) ->
      run = (Throw (Error (ownershipTimeout collection tokenId itemType
                                            quantity)),
             after 2%nat)).
Proof.
  intros read answer after run.
  assert (Hrun : forall outcome0 outcome1 outcome2,
             answer 0%nat = outcome0 ->
             answer 1%nat = outcome1 ->
             answer 2%nat = outcome2 ->
             run
             = match outcome0 with
               | Ok true => (Ok tt, after 0%nat)
               | Throw e => (Throw e, after 0%nat)
               | Ok false =>
                   match outcome1 with
                   | Ok true => (Ok tt, after 1%nat)
                   | Throw e => (Throw e, after 1%nat)
                   | Ok false =>
                       match outcome2 with
                       | Ok true => (Ok tt, after 2%nat)
                       | Throw e => (Throw e, after 2%nat)
                       | Ok false =>
                           (Throw (Error (ownershipTimeout collection tokenId
                                                           itemType quantity)),
                            after 2%nat)
                       end
                   end
               end).
  { intros o0 o1 o2 H0 H1 H2. subst run answer after read.
    cbv beta in H0, H1, H2.
    unfold ListingSteps.waitForNftOwnership.
    change (Z.to_nat ListingSteps.OWNERSHIP_CHECK_MAX_ATTEMPTS) with 3%nat.
    unfold bind at 1.
    rewrite ownershipLoop_step by reflexivity.
    change (2 * 0 + List.length (trace w))%nat with (List.length (trace w)) in H0.
    rewrite H0. destruct o0 as [[|]|e0]; [reflexivity| |reflexivity].
    change (0 + 1 <? ListingSteps.OWNERSHIP_CHECK_MAX_ATTEMPTS) with true.
    cbv iota.
    rewrite ownershipLoop_step by reflexivity.
    change (2 * 1 + List.length (trace w))%nat
      with (S (S (List.length (trace w)))) in H1.
    cbn [trace withEvent List.length]. rewrite H1.
    destruct o1 as [[|]|e1]; [reflexivity| |reflexivity].
    change (0 + 1 + 1 <? ListingSteps.OWNERSHIP_CHECK_MAX_ATTEMPTS) with true.
    cbv iota.
    rewrite ownershipLoop_step by reflexivity.
    change (2 * 2 + List.length (trace w))%nat
      with (S (S (S (S (List.length (trace w)))))) in H2.
    cbn [trace withEvent List.length]. rewrite H2.
    destruct o2 as [[|]|e2]; [reflexivity| |reflexivity].
    change (0 + 1 + 1 + 1 <? ListingSteps.OWNERSHIP_CHECK_MAX_ATTEMPTS)
      with false.
    cbv iota. cbn [ListingSteps.ownershipLoop].
    unfold ret at 1.
    apply waitForNftOwnership_timeout. }
  split; [|split].
  - intros k Hk Hbefore Hk'.
    destruct k as [|[|[|k]]]; [| | |lia].
    + rewrite (Hrun _ _ _ Hk' eq_refl eq_refl). reflexivity.
    + rewrite (Hrun _ _ _ (Hbefore 0%nat ltac:(lia)) Hk' eq_refl). reflexivity.
    + rewrite (Hrun _ _ _ (Hbefore 0%nat ltac:(lia))
                    (Hbefore 1%nat ltac:(lia)) Hk').
      reflexivity.
  - intros k e Hk Hbefore Hk'.
    destruct k as [|[|[|k]]]; [| | |lia].
    + rewrite (Hrun _ _ _ Hk' eq_refl eq_refl). reflexivity.
    + rewrite (Hrun _ _ _ (Hbefore 0%nat ltac:(lia)) Hk' eq_refl). reflexivity.
    + rewrite (Hrun _ _ _ (Hbefore 0%nat ltac:(lia))
                    (Hbefore 1%nat ltac:(lia)) Hk').
      reflexivity.
  - intros Hall.
    rewrite (Hrun _ _ _ (Hall 0%nat ltac:(lia)) (Hall 1%nat ltac:(lia))
                  (Hall 2%nat ltac:(lia))).
    reflexivity.
Qed.

Lemma ownership_wait_gives_up_after_three_checks_witness :
  ListingSteps.waitForNftOwnership
    steadyEnv "0x32911f93f2cb1d4d29aeed1657b9bb463461c825" 7 sampleTreasury
    ListingSteps.SEAPORT_ITEM_TYPE_ERC721 1 (idleWorld None)
  = (Throw (Error "Token 7 on 0x32911f93f2cb1d4d29aeed1657b9bb463461c825 is not owned by treasury after 3 checks."),
     {| store := store (idleWorld None);
        cachedNonce := None;
        trace := [EvReadOwnerOf "0x32911f93f2cb1d4d29aeed1657b9bb463461c825" 7;
                  EvDelay 15000;
                  EvReadOwnerOf "0x32911f93f2cb1d4d29aeed1657b9bb463461c825" 7;
                  EvDelay 15000;
                  EvReadOwnerOf "0x32911f93f2cb1d4d29aeed1657b9bb463461c825" 7] |}).
Proof.
  destruct (ownership_wait_gives_up_after_three_checks
              steadyEnv "0x32911f93f2cb1d4d29aeed1657b9bb463461c825" 7
              sampleTreasury ListingSteps.SEAPORT_ITEM_TYPE_ERC721 1
              (idleWorld None)) as (_ & _ & Hdenied).
  rewrite Hdenied; [reflexivity|].
  intros j Hj. reflexivity.
Defined.

(* ===================================================================== *)
(** * The figures of a new listing *)
(* ===================================================================== *)

Section ListingFiguresFacts.

Lemma findIndexFrom_found {A} (p : A -> bool) (l : list A) :
  forall i,
    existsb p l = true ->
    exists n x,
      ListingSteps.findIndexFrom p l i = i + Z.of_nat n
      /\ nth_error l n = Some x /\ p x = true.
Proof.
  induction l as [|a l IH]; intros i Hex; [discriminate|].
  cbn [ListingSteps.findIndexFrom].
  destruct (p a) eqn:Hp.
  - exists 0%nat, a. repeat split; [simpl; lia|exact Hp].
  - simpl in Hex. rewrite Hp in Hex. simpl in Hex.
    destruct (IH (i + 1) Hex) as (n & x & Hidx & Hnth & Hx).
    exists (S n), x. repeat split; [rewrite Hidx; lia|exact Hnth|exact Hx].
Qed.

Lemma findIndexFrom_none {A} (p : A -> bool) (l : list A) :
  forall i, existsb p l = false -> ListingSteps.findIndexFrom p l i = -1.
Proof.
  induction l as [|a l IH]; intros i Hex; [reflexivity|].
  simpl in Hex. apply orb_false_iff in Hex as [Hp Hrest].
  cbn [ListingSteps.findIndexFrom]. rewrite Hp. apply IH. exact Hrest.
Qed.

Lemma scaleLoop_nth (TREASURY : Address) (len : nat) (originalTotal newTotal : Z) :
  forall items index remainder n it,
    nth_error items n = Some it ->
    exists s,
      nth_error (OpenseaListings.scaleLoop TREASURY len originalTotal newTotal
                                           index items remainder) n = Some s
      /\ sc_recipient s
         = if isSellerProceeds it then TREASURY else cb_recipient it.
Proof.
  induction items as [|x items IH]; intros index remainder n it Hnth.
  - destruct n; discriminate Hnth.
  - destruct n as [|n].
    + injection Hnth as ->. eexists. split; reflexivity.
    + cbn [OpenseaListings.scaleLoop nth_error]. apply IH. exact Hnth.
Qed.

Lemma sumZ_nonneg (l : list Z) : Forall (fun z => 0 <= z) l -> 0 <= sumZ l.
Proof.
  induction 1 as [|a l Ha _ IH]; [simpl; lia|].
  rewrite sumZ_cons. lia.
Qed.

Lemma In_le_sumZ (l : list Z) (a : Z) :
  Forall (fun z => 0 <= z) l -> In a l -> a <= sumZ l.
Proof.
  induction 1 as [|b l Hb Hl IH]; intros Hin; [contradiction|].
  rewrite sumZ_cons. pose proof (sumZ_nonneg Hl).
  destruct Hin as [->|Hin]; [lia|]. specialize (IH Hin). lia.
Qed.

Lemma In_removelast {A} (x : A) (l : list A) :
  In x (removelast l) -> In x l.
Proof.
  induction l as [|a l IH]; [contradiction|].
  destruct l as [|b l]; [contradiction|].
  change (removelast (a :: b :: l)) with (a :: removelast (b :: l)).
  intros [->|Hin]; [left; reflexivity|right; apply IH; exact Hin].
Qed.

(** Every rescaled amount lies between zero and the new total. *)
Lemma scaled_amounts_in_range (TREASURY : Address)
      (items : list OpenSeaListingConsiderationBlueprint)
      (originalTotal newTotal : Z) :
  0 < originalTotal -> 0 < newTotal ->
  Forall (fun it => 0 <= originalAmount it) items ->
  originalTotal = sumZ (map originalAmount items) ->
  Forall (fun s => 0 <= amount s <= newTotal)
         (OpenseaListings.scaleConsiderationAmounts TREASURY items
                                                    originalTotal newTotal).
Proof.
  intros Horig Hnew Hnonneg Hsum.
  unfold OpenseaListings.scaleConsiderationAmounts.
  replace (originalTotal =? 0) with false by (symmetry; apply Z.eqb_neq; lia).
  replace (newTotal =? 0) with false by (symmetry; apply Z.eqb_neq; lia).
  cbn [orb].
  assert (Hne : items <> []).
  { intros ->. simpl in Hsum. lia. }
  apply Forall_map with (f := amount) (P := fun z => 0 <= z <= newTotal).
  rewrite (@scaleLoop_amounts TREASURY originalTotal newTotal
                              (List.length items) items 0%nat newTotal
                              eq_refl Hne).
  assert (Hshares : Forall (fun z => 0 <= z <= newTotal)
                           (map (fun it => Z.quot (newTotal * originalAmount it)
                                                  originalTotal)
                                (removelast items))).
  { apply Forall_map. apply Forall_forall. intros it Hin.
    apply In_removelast in Hin.
    assert (Ha : 0 <= originalAmount it)
      by exact (proj1 (Forall_forall _ items) Hnonneg it Hin).
    assert (Hle : originalAmount it <= originalTotal).
    { rewrite Hsum. apply In_le_sumZ.
      - apply Forall_map. exact Hnonneg.
      - apply in_map. exact Hin. }
    rewrite Z.quot_div_nonneg by nia.
    split; [apply Z.div_pos; nia|].
    apply Z.div_le_upper_bound; nia. }
  apply Forall_app. split; [exact Hshares|].
  constructor; [|constructor].
  assert (Hs : 0 <= sumZ (map (fun it => Z.quot (newTotal * originalAmount it)
                                               originalTotal)
                              (removelast items))).
  { apply sumZ_nonneg. revert Hshares. apply Forall_impl. intros z Hz. lia. }
  cbv zeta.
  destruct (0 <? _) eqn:Hr; [apply Z.ltb_lt in Hr|]; lia.
Qed.

End ListingFiguresFacts.

(** X18. A purchase price that is not positive gives no listing. For a
    positive purchase price, a positive markup and a blueprint whose
    original amounts are non-negative and add up to its non-zero original
    total, [createOpenSeaListing] lists at the purchase price times the
    markup rounded up to a wei (with the default markup, above the purchase
    price), offers at least one unit, and reports seller proceeds between
    zero and the listing price: the amount of a consideration item paid to
    the treasury when the blueprint has a seller item, and zero when it has
    none. *)
Theorem listing_proceeds_within_price
        (TREASURY : Address) (blueprint : OpenSeaListingBlueprint)
        (basePrice : Z) (markupBps : option Z) :
  (basePrice <= 0 ->
   ListingSteps.listingFigures TREASURY blueprint (Some basePrice) markupBps
   = None
   /\ ListingSteps.listingFigures TREASURY blueprint None markupBps = None)
  /\ (0 < basePrice ->
      0 < JS.nullish markupBps OpenseaListings.DEFAULT_MARKUP_BPS ->
      Forall (fun it => 0 <= originalAmount it) (bp_consideration blueprint) ->
      originalConsiderationTotal blueprint
      = sumZ (map originalAmount (bp_consideration blueprint)) ->
      originalConsiderationTotal blueprint <> 0 ->
      exists figures,
        let bps := JS.nullish markupBps OpenseaListings.DEFAULT_MARKUP_BPS in
        let price := ListingSteps.fig_listingPriceWei figures in
        let proceeds := ListingSteps.fig_sellerProceedsWei figures in
        ListingSteps.listingFigures TREASURY blueprint (Some basePrice)
                                    markupBps
        = Some figures
        /\ basePrice * bps <= 10000 * price < basePrice * bps + 10000
        /\ (markupBps = None -> basePrice < price)
        /\ 1 <= ListingSteps.fig_offerStartAmount figures
        /\ 1 <= ListingSteps.fig_offerEndAmount figures
        /\ (offerItemType blueprint = 3 ->
            ListingSteps.fig_offerStartAmount figures = 1
            /\ ListingSteps.fig_offerEndAmount figures = 1)
        /\ 0 <= proceeds <= price
        /\ (existsb isSellerProceeds (bp_consideration blueprint) = true ->
            exists item,
              In item (ListingSteps.fig_consideration figures)
              /\ sc_recipient item = TREASURY
              /\ amount item = proceeds)
        /\ (existsb isSellerProceeds (bp_consideration blueprint) = false ->
            proceeds = 0)).
Proof.
  split.
  - intros Hbase. unfold ListingSteps.listingFigures.
    unfold OpenseaListings.computeListingPrice. cbn [JS.nullish].
    replace (basePrice <=? 0) with true by (symmetry; apply Z.leb_le; lia).
    split; reflexivity.
  - intros Hbase Hbps Hnonneg Hsum Htotal.
    set (bps := JS.nullish markupBps OpenseaListings.DEFAULT_MARKUP_BPS) in *.
    set (price := OpenseaListings.computeListingPrice basePrice markupBps).
    assert (Hprice : basePrice * bps <= 10000 * price < basePrice * bps + 10000).
    { unfold price, OpenseaListings.computeListingPrice.
      replace (basePrice <=? 0) with false by (symmetry; apply Z.leb_gt; lia).
      fold bps. unfold OpenseaListings.BASIS_POINTS_DENOMINATOR.
      rewrite Z.quot_div_nonneg by nia.
      change (10000 - 1) with 9999.
      pose proof (Z.div_mod (basePrice * bps + 9999) 10000 ltac:(lia)) as Hdm.
      pose proof (Z.mod_pos_bound (basePrice * bps + 9999) 10000 ltac:(lia)).
      lia. }
    assert (Hpos : 0 < price) by nia.
    assert (Horig : 0 < originalConsiderationTotal blueprint).
    { assert (0 <= originalConsiderationTotal blueprint).
      { rewrite Hsum. apply sumZ_nonneg. apply Forall_map. exact Hnonneg. }
      lia. }
    pose proof (@scaled_amounts_in_range
                  TREASURY (bp_consideration blueprint)
                  (originalConsiderationTotal blueprint) price
                  Horig Hpos Hnonneg Hsum) as Hrange.
    unfold ListingSteps.listingFigures. cbn [JS.nullish]. fold price.
    replace (price <=? 0) with false by (symmetry; apply Z.leb_gt; lia).
    set (consideration :=
           OpenseaListings.scaleConsiderationAmounts
             TREASURY (bp_consideration blueprint)
             (originalConsiderationTotal blueprint) price) in *.
    eexists. cbv zeta.
    split; [reflexivity|].
    cbn [ListingSteps.fig_listingPriceWei ListingSteps.fig_offerStartAmount
         ListingSteps.fig_offerEndAmount ListingSteps.fig_consideration
         ListingSteps.fig_sellerProceedsWei].
    split; [exact Hprice|].
    split.
    { intros Hdefault. subst markupBps.
      unfold bps in Hprice. cbn [JS.nullish] in Hprice.
      unfold OpenseaListings.DEFAULT_MARKUP_BPS in Hprice. lia. }
    split.
    { destruct (offerItemType blueprint =? _); [lia|].
      destruct (offerStartAmount blueprint >? 0) eqn:H; [|lia].
      apply Z.gtb_lt in H. lia. }
    split.
    { destruct (offerItemType blueprint =? _); [lia|].
      destruct (offerEndAmount blueprint >? 0) eqn:H; [|lia].
      apply Z.gtb_lt in H. lia. }
    split.
    { intros ->. split; reflexivity. }
    assert (Hin_range : forall n item,
               nth_error consideration n = Some item ->
               0 <= amount item <= price).
    { intros n item Hnth.
      exact (proj1 (Forall_forall _ consideration) Hrange item
                   (nth_error_In _ _ Hnth)). }
    split.
    { destruct (_ && _)%bool; [|lia].
      destruct (nth_error consideration _) as [item|] eqn:Hnth; [|lia].
      exact (Hin_range _ _ Hnth). }
    split.
    { intros Hseller. unfold ListingSteps.findIndex.
      destruct (@findIndexFrom_found _ isSellerProceeds
                                     (bp_consideration blueprint) 0 Hseller)
        as (n & it & Hidx & Hnth & Hit).
      rewrite Hidx. cbn [Z.add].
      assert (Hitems : bp_consideration blueprint <> []).
      { intros Hnil. rewrite Hnil in Hnth. destruct n; discriminate Hnth. }
      assert (Hscaled :
                consideration
                = OpenseaListings.scaleLoop
                    TREASURY (List.length (bp_consideration blueprint))
                    (originalConsiderationTotal blueprint) price 0%nat
                    (bp_consideration blueprint) price).
      { unfold consideration, OpenseaListings.scaleConsiderationAmounts.
        replace (originalConsiderationTotal blueprint =? 0) with false
          by (symmetry; apply Z.eqb_neq; lia).
        replace (price =? 0) with false by (symmetry; apply Z.eqb_neq; lia).
        reflexivity. }
      destruct (@scaleLoop_nth
                  TREASURY (List.length (bp_consideration blueprint))
                  (originalConsiderationTotal blueprint) price
                  (bp_consideration blueprint) 0%nat price n it Hnth)
        as (s & Hs & Hrecipient).
      rewrite <- Hscaled in Hs.
      assert (Hlt : (n < List.length consideration)%nat).
      { apply nth_error_Some. rewrite Hs. discriminate. }
      replace (Z.of_nat n >=? 0) with true by (symmetry; apply Z.geb_le; lia).
      replace (Z.of_nat n <? Z.of_nat (List.length consideration)) with true
        by (symmetry; apply Z.ltb_lt; lia).
      cbn [andb]. rewrite Nat2Z.id, Hs.
      exists s. split; [exact (nth_error_In _ _ Hs)|].
      split; [|reflexivity].
      rewrite Hrecipient, Hit. reflexivity. }
    intros Hnone. unfold ListingSteps.findIndex.
    rewrite (@findIndexFrom_none _ isSellerProceeds
                                 (bp_consideration blueprint) 0 Hnone).
    reflexivity.
Qed.

Lemma listing_proceeds_within_price_witness :
  exists figures,
    ListingSteps.listingFigures sampleTreasury sampleBlueprint
                                (Some 1000000000000000) None
    = Some figures
    /\ 0 <= ListingSteps.fig_sellerProceedsWei figures
       <= ListingSteps.fig_listingPriceWei figures.
Proof.
  destruct (listing_proceeds_within_price
              sampleTreasury sampleBlueprint 1000000000000000 None)
    as [_ Hlisted].
  destruct Hlisted as (figures & Hfig & _ & _ & _ & _ & _ & Hproceeds & _).
  - reflexivity.
  - reflexivity.
  - repeat constructor; discriminate.
  - reflexivity.
  - discriminate.
  - exists figures. split; [exact Hfig|exact Hproceeds].
Defined.

(* ===================================================================== *)
(** * Order-hash engine: every hash is a 32-byte word *)
(* ===================================================================== *)

Section DigestWidth.

Import Keccak Viem OrderHash.

Lemma iota_length (rc : N) (A : list N) :
  List.length (iota rc A) = List.length A.
Proof. destruct A; reflexivity. Qed.

Lemma round_length (A : list N) (rc : N) : List.length (round A rc) = 25%nat.
Proof.
  unfold round. rewrite iota_length. unfold chi.
  rewrite length_map. reflexivity.
Qed.

Lemma rounds_length (constants : list N) :
  forall A,
    List.length A = 25%nat ->
    List.length (fold_left round constants A) = 25%nat.
Proof.
  induction constants as [|rc constants IH]; intros A HA; [exact HA|].
  cbn [fold_left]. apply IH. apply round_length.
Qed.

Lemma keccak_f_length (A : list N) : List.length (keccak_f A) = 25%nat.
Proof.
  unfold keccak_f.
  destruct roundConstants as [|rc constants] eqn:Hconstants;
    [discriminate Hconstants|].
  cbn [fold_left]. apply rounds_length. apply round_length.
Qed.

Lemma absorb_length (blocks : nat) :
  forall bs A,
    List.length A = 25%nat ->
    List.length (absorb blocks bs A) = 25%nat.
Proof.
  induction blocks as [|n IH]; intros bs A HA; [exact HA|].
  cbn [absorb]. apply IH. apply keccak_f_length.
Qed.

Lemma bytesOfLane_length (n : nat) :
  forall l, List.length (bytesOfLane n l) = n.
Proof.
  induction n as [|n IH]; intros l; [reflexivity|].
  cbn [bytesOfLane List.length]. now rewrite IH.
Qed.

Lemma lanes_bytes_length (lanes : list N) :
  List.length (flat_map (bytesOfLane 8) lanes) = (8 * List.length lanes)%nat.
Proof.
  induction lanes as [|l lanes IH]; [reflexivity|].
  cbn [flat_map]. rewrite length_app, bytesOfLane_length, IH.
  cbn [List.length]. lia.
Qed.

(** The digest has 32 bytes whatever the message. *)
Lemma keccak_256_length (msg : list Byte.byte) :
  List.length (keccak_256 msg) = 32%nat.
Proof.
  unfold keccak_256. cbv zeta.
  rewrite length_map, lanes_bytes_length, length_firstn, absorb_length
    by reflexivity.
  reflexivity.
Qed.

Lemma hexOfBytes_length (bs : list Byte.byte) :
  String.length (hexOfBytes bs) = (2 * List.length bs)%nat.
Proof.
  induction bs as [|b bs IH]; [reflexivity|].
  cbn [hexOfBytes String.length List.length]. rewrite IH. lia.
Qed.

Lemma keccak256_bytes_word (bs : list Byte.byte) : isWord (keccak256_bytes bs).
Proof.
  exists (keccak_256 bs). split; [reflexivity|].
  split; [apply keccak_256_length|].
  unfold keccak256_bytes, bytesToHex.
  cbn [String.append String.length].
  rewrite hexOfBytes_length, keccak_256_length. reflexivity.
Qed.

Lemma keccak256_word (hex h : Hex) : keccak256 hex = Ok h -> isWord h.
Proof.
  unfold keccak256. destruct (hexToBytes hex) as [bs|e]; cbn [bindR];
    [|discriminate].
  intros H. injection H as <-. apply keccak256_bytes_word.
Qed.

Lemma encoded_word (encoded : Result Hex) (h : Hex) :
  bindR encoded keccak256 = Ok h -> isWord h.
Proof.
  destruct encoded as [hex|e]; cbn [bindR]; [apply keccak256_word|discriminate].
Qed.

Variable encodeAbiParameters : list AbiType -> list AbiValue -> Result Hex.

(** An encoder that answers every call with well-formed hex. *)
Hypothesis encoder_total :
  forall types values,
  exists bs, encodeAbiParameters types values = Ok (bytesToHex bs).

Lemma encoded_hash_returns types values :
  exists digest,
    bindR (encodeAbiParameters types values) keccak256
    = Ok (bytesToHex digest).
Proof.
  destruct (encoder_total types values) as (bs & ->).
  cbn [bindR]. unfold keccak256. rewrite hexToBytes_bytesToHex.
  cbn [bindR]. eexists. reflexivity.
Qed.

Lemma item_hashes_return {A} (hashItem : A -> Result Hex) (items : list A) :
  (forall item, exists digest, hashItem item = Ok (bytesToHex digest)) ->
  exists digests, mapR hashItem items = Ok (map bytesToHex digests).
Proof.
  intros Hitem. induction items as [|item items (digests & IH)].
  - exists []. reflexivity.
  - destruct (Hitem item) as (digest & Hd).
    exists (digest :: digests). cbn [mapR]. rewrite Hd. cbn [bindR].
    rewrite IH. reflexivity.
Qed.

Lemma hashStructArray_returns (digests : list (list Byte.byte)) :
  exists h, hashStructArray (map bytesToHex digests) = Ok h.
Proof.
  unfold hashStructArray. rewrite length_map.
  destruct digests as [|bs bss]; [eexists; vm_compute; reflexivity|].
  cbn [List.length Nat.eqb].
  rewrite (joinSliced_bytesToHex (bs :: bss)).
  unfold keccak256.
  change (String.append "0x" (hexOfBytes (List.concat (bs :: bss))))
    with (bytesToHex (List.concat (bs :: bss))).
  rewrite hexToBytes_bytesToHex. eexists. reflexivity.
Qed.

Lemma deriveSeaportOrderHash_returns (order : SeaportOrderComponents) :
  exists h, deriveSeaportOrderHash encodeAbiParameters order = Ok h.
Proof.
  unfold deriveSeaportOrderHash.
  destruct (@item_hashes_return _ (hashOfferItem encodeAbiParameters)
                                (offer order)) as (offers & ->).
  { intros item. apply encoded_hash_returns. }
  cbn [bindR].
  destruct (@item_hashes_return _ (hashConsiderationItem encodeAbiParameters)
                                (consideration order)) as (considerations & ->).
  { intros item. apply encoded_hash_returns. }
  cbn [bindR].
  destruct (hashStructArray_returns offers) as (offerHash & ->).
  destruct (hashStructArray_returns considerations) as (considerationHash & ->).
  cbn [bindR].
  destruct (encoded_hash_returns
              orderTypes (orderWords order offerHash considerationHash))
    as (digest & ->).
  eexists. reflexivity.
Qed.

End DigestWidth.

(** X21. Whatever the ABI encoder does, every hash the order-hash engine
    returns (of an offer item, of a consideration item, of an array of
    hashes, of an order) is the 0x-prefixed hex spelling of a 32-byte word,
    66 characters long. The engine adds no failure of its own: with an
    encoder that answers every call with well-formed hex,
    [deriveSeaportOrderHash] returns a hash for every order. *)
Theorem order_hash_is_a_32_byte_word
        (encodeAbiParameters :
           list OrderHash.AbiType -> list OrderHash.AbiValue -> Result Hex)
        (order : OrderHash.SeaportOrderComponents) :
  (forall h,
      OrderHash.deriveSeaportOrderHash encodeAbiParameters order = Ok h ->
      isWord h)
  /\ (forall item h,
         OrderHash.hashOfferItem encodeAbiParameters item = Ok h -> isWord h)
  /\ (forall item h,
         OrderHash.hashConsiderationItem encodeAbiParameters item = Ok h ->
         isWord h)
  /\ (forall hashes h, OrderHash.hashStructArray hashes = Ok h -> isWord h)
  /\ ((forall types values,
          exists bs, encodeAbiParameters types values = Ok (Viem.bytesToHex bs)) ->
      exists h,
        OrderHash.deriveSeaportOrderHash encodeAbiParameters order = Ok h).
Proof.
  split; [|split; [|split; [|split]]].
  - intros h. unfold OrderHash.deriveSeaportOrderHash.
    destruct (mapR _ (OrderHash.offer order)) as [offers|e]; cbn [bindR];
      [|discriminate].
    destruct (mapR _ (OrderHash.consideration order)) as [considerations|e];
      cbn [bindR]; [|discriminate].
    destruct (OrderHash.hashStructArray offers) as [offerHash|e];
      cbn [bindR]; [|discriminate].
    destruct (OrderHash.hashStructArray considerations)
      as [considerationHash|e]; cbn [bindR]; [|discriminate].
    apply encoded_word.
  - intros item h. apply encoded_word.
  - intros item h. apply encoded_word.
  - intros hashes h. unfold OrderHash.hashStructArray.
    destruct (Nat.eqb _ 0); apply keccak256_word.
  - intros Htotal.
    exact (@deriveSeaportOrderHash_returns encodeAbiParameters Htotal order).
Qed.

Lemma order_hash_is_a_32_byte_word_witness :
  exists h,
    OrderHash.deriveSeaportOrderHash wordEncoder referenceOrder = Ok h
    /\ isWord h.
Proof.
  destruct (order_hash_is_a_32_byte_word wordEncoder referenceOrder)
    as (Hword & _ & _ & _ & Hreturns).
  destruct Hreturns as (h & Hh).
  - intros types values. eexists. reflexivity.
  - exists h. split; [exact Hh|exact (Hword h Hh)].
Defined.

(* ===================================================================== *)
(** * What a purchase may spend *)
(* ===================================================================== *)

Section PurchaseSubmissions.

Import Services.

Variable cfg : Config.
Variable env : Env.
Variable pool : Z.
Variable offer : Result ExecutionPayload.

Let P := purchaseEvent pool offer.

Lemma createOpenSeaListing_purchaseEvent blueprint price :
  P (EvCreateListing price) ->
  Stable (TraceGrows P) (createOpenSeaListing env blueprint price).
Proof.
  intros Hp w. exists [EvCreateListing price].
  split; [reflexivity|]. constructor; [exact Hp|constructor].
Qed.

Lemma waitForReceipt_purchaseEvent txHash :
  Stable (TraceGrows P) (TreasuryClient.waitForReceipt env txHash).
Proof.
  eapply TraceGrows_stable_of_Frame; [|apply waitForReceipt_frame].
  intros e ->. exact I.
Qed.

Lemma relistStep_purchaseEvent execution cost :
  P (EvCreateListing cost) ->
  Stable (TraceGrows P) (relistStep cfg env execution cost).
Proof.
  intros Hp. unfold relistStep, dateNow.
  destruct (openSeaMetadata execution) as [metadata|].
  - destruct (offerItemType metadata =? 3);
      stable_steps (@TraceGrows_refl P) (@TraceGrows_trans P);
      first [ apply TraceGrows_assign
            | apply TraceGrows_save; intros; exact I
            | apply TraceGrows_emit; exact I
            | apply TraceGrows_ask; exact I
            | apply cooldown_trace; intros; exact I
            | apply createOpenSeaListing_purchaseEvent; exact Hp ].
  - stable_steps (@TraceGrows_refl P) (@TraceGrows_trans P);
      first [ apply TraceGrows_emit; exact I
            | apply cooldown_trace; intros; exact I ].
Qed.

Lemma fetch_answered (w : World) execution :
  env_fetchOpenSeaBuyExecution env (List.length (trace w)) = Ok execution ->
  tryCatch
    (bind (ask EvFetchBuyExecution (env_fetchOpenSeaBuyExecution env))
          (fun execution => ret (Some execution)))
    (fun _ =>
       bind (logger warn "Failed to resolve OpenSea execution; skipping iteration")
            (fun _ => ret None)) w
  = (Ok (Some execution), withEvent EvFetchBuyExecution w).
Proof.
  intros H. unfold tryCatch, bind, ask, ret. rewrite H. reflexivity.
Qed.

Lemma fetch_failed (w : World) e :
  env_fetchOpenSeaBuyExecution env (List.length (trace w)) = Throw e ->
  tryCatch
    (bind (ask EvFetchBuyExecution (env_fetchOpenSeaBuyExecution env))
          (fun execution => ret (Some execution)))
    (fun _ =>
       bind (logger warn "Failed to resolve OpenSea execution; skipping iteration")
            (fun _ => ret None)) w
  = (Ok None,
     withEvent (EvLog warn "Failed to resolve OpenSea execution; skipping iteration")
               (withEvent EvFetchBuyExecution w)).
Proof.
  intros H. unfold tryCatch, bind, ask, ret. rewrite H. reflexivity.
Qed.

End PurchaseSubmissions.

(** X22. [attemptPurchaseAndListing] never spends more than the commission
    pool on a purchase: the only transaction its own code hands to the
    wallet is the purchase the marketplace proposed at that moment, passed
    on unchanged, and only when its price is positive and no greater than
    the [commissionPoolWei] found; the listing helper is started only for
    such a purchase, with that price. What the helper submits once started
    (the collection approval and the order validation of
    [createOpenSeaListing]) belongs to that one step and is not counted
    here. Without a target, or with an empty pool, nothing is asked of
    anybody; when the marketplace has no offer, or one that is free or too
    expensive, the call returns [false] without submitting anything and
    without starting the helper. *)
Theorem purchase_spends_within_commission_pool
        (cfg : Config) (env : Env) (w : World) (s : BotState) :
  StateStore.state (store w) = Some s ->
  let run := Services.attemptPurchaseAndListing cfg env w in
  let offer := env_fetchOpenSeaBuyExecution env (List.length (trace w)) in
  (exists events,
      trace (snd run) = events ++ trace w
      /\ Forall (purchaseEvent (commissionPoolWei s) offer) events)
  /\ (Services.targetMissing cfg = true
      \/ (Services.tokenWithoutCollection cfg = false
          /\ commissionPoolWei s <= 0) ->
      run = (Ok false, w))
  /\ (0 < commissionPoolWei s ->
      Services.targetMissing cfg = false ->
      Services.tokenWithoutCollection cfg = false ->
      (forall e,
          offer = Throw e ->
          run
          = (Ok false,
             withEvent (EvLog warn "Failed to resolve OpenSea execution; skipping iteration")
                       (withEvent EvFetchBuyExecution w)))
      /\ (forall execution,
             offer = Ok execution ->
             ex_valueWei execution <= 0
             \/ commissionPoolWei s < ex_valueWei execution ->
             run = (Ok false, withEvent EvFetchBuyExecution w))).
Proof.
  intros Hst run offer.
  assert (Hst' : StateStore.state (store (withEvent EvFetchBuyExecution w))
                 = Some s) by exact Hst.
  split; [|split].
  - set (P := purchaseEvent (commissionPoolWei s) offer).
    change (TraceGrows P w (snd run)).
    subst run. unfold Services.attemptPurchaseAndListing.
    destruct (Services.targetMissing cfg); [apply TraceGrows_refl|].
    destruct (Services.tokenWithoutCollection cfg).
    { match goal with
      | |- TraceGrows ?Q ?w0 (snd (?m ?w0)) =>
          enough (Stable (TraceGrows Q) m) as H by apply H
      end.
      stable_steps (@TraceGrows_refl P) (@TraceGrows_trans P).
      apply TraceGrows_emit. exact I. }
    rewrite (bind_ok (getState_ok w Hst)).
    destruct (commissionPoolWei s <=? 0); [apply TraceGrows_refl|].
    destruct offer as [execution|e] eqn:Eoffer; subst offer.
    2:{ rewrite (bind_ok (fetch_failed env w Eoffer)).
        eexists [_; _]. split; [reflexivity|].
        repeat constructor. }
    rewrite (bind_ok (fetch_answered env w Eoffer)). cbv zeta.
    rewrite (bind_ok (getState_ok _ Hst')).
    destruct ((ex_valueWei execution <=? 0)
              || (commissionPoolWei s <? ex_valueWei execution))%bool eqn:Ebad.
    { eexists [_]. split; [reflexivity|]. repeat constructor. }
    apply orb_false_iff in Ebad. destruct Ebad as [Epos Ecover].
    apply Z.leb_gt in Epos. apply Z.ltb_ge in Ecover.
    apply (@TraceGrows_trans _ w (withEvent EvFetchBuyExecution w)).
    { eexists [_]. split; [reflexivity|]. repeat constructor. }
    match goal with
    | |- TraceGrows ?Q ?w0 (snd (?m ?w0)) =>
        enough (Stable (TraceGrows Q) m) as H by apply H
    end.
    assert (Hlisting : P (EvCreateListing (ex_valueWei execution))).
    { exists execution. split; [reflexivity|]. split; [reflexivity|lia]. }
    apply (Stable_bind (@TraceGrows_trans _)).
    { eapply TraceGrows_stable_of_Frame; [|apply executeSeaport_frame].
      intros e He. destruct e; cbn in He |- *; try exact I; try contradiction.
      subst call. exists execution. split; [reflexivity|].
      cbn. repeat split; lia. }
    intros purchaseTx.
    stable_steps (@TraceGrows_refl P) (@TraceGrows_trans P);
      first [ apply TraceGrows_assign
            | apply TraceGrows_save; intros; exact I
            | apply TraceGrows_emit; exact I
            | apply waitForReceipt_purchaseEvent
            | apply relistStep_purchaseEvent; exact Hlisting ].
  - intros Hnothing. subst run. unfold Services.attemptPurchaseAndListing.
    destruct (Services.targetMissing cfg) eqn:Etarget; [reflexivity|].
    destruct Hnothing as [Hmissing|[Etoken Hpool]]; [discriminate Hmissing|].
    rewrite Etoken, (bind_ok (getState_ok w Hst)).
    replace (commissionPoolWei s <=? 0) with true
      by (symmetry; apply Z.leb_le; exact Hpool).
    reflexivity.
  - intros Hpool Etarget Etoken.
    subst run. unfold Services.attemptPurchaseAndListing.
    rewrite Etarget, Etoken, (bind_ok (getState_ok w Hst)).
    replace (commissionPoolWei s <=? 0) with false
      by (symmetry; apply Z.leb_gt; exact Hpool).
    split.
    + intros e Eoffer. rewrite (bind_ok (fetch_failed env w Eoffer)).
      reflexivity.
    + intros execution Eoffer Hbad.
      rewrite (bind_ok (fetch_answered env w Eoffer)). cbv zeta.
      rewrite (bind_ok (getState_ok _ Hst')).
      replace ((ex_valueWei execution <=? 0)
               || (commissionPoolWei s <? ex_valueWei execution))%bool
        with true; [reflexivity|].
      symmetry. apply orb_true_iff.
      destruct Hbad as [H|H]; [left; apply Z.leb_le|right; apply Z.ltb_lt];
        exact H.
Qed.

Lemma purchase_spends_within_commission_pool_witness :
  let ledger := sampleLedger 3 [] in
  let w := worldOf (snapshotOf ledger) ledger None in
  let run := Services.attemptPurchaseAndListing sampleConfig relistMarketEnv w in
  (exists events,
      trace (snd run) = events ++ trace w
      /\ Forall (purchaseEvent (commissionPoolWei ledger) (Ok relistExecution))
                events)
  /\ fst run = Ok true
  /\ map (fun e => match e with
                   | EvWriteContract call _ _ _ => Some call
                   | _ => None
                   end)
         (filter isSubmission (trace (snd run)))
     = [Some (ExecuteSeaportCall (ex_router relistExecution) 400
                                 (RawCalldata (ex_calldata relistExecution)))]
  /\ filter isCreateListing (trace (snd run)) = [EvCreateListing 400].
Proof.
  intros ledger w run.
  destruct (@purchase_spends_within_commission_pool
              sampleConfig relistMarketEnv w ledger eq_refl)
    as (Hspent & _ & _).
  split; [exact Hspent|].
  vm_compute. repeat split; reflexivity.
Defined.
